(* ===== verification/_CoqProject ===== *)
-Q . S2P
Prelude.v
Prog.v
Timeline.v
CStr.v
KvIoctl.v
KMem.v
KvHash.v
KLogic.v
KSound.v
KTyping.v
KvHashSpec.v
KvTable.v
KvStore.v
KvSleep.v
KvLifecycle.v
KvTrace.v
Kvlkm.v
KvlkmSpec.v
KvDevice.v
KvModule.v
KvInterface.v
Auth.v
Daemon.v
DaemonSem.v
DaemonSpec.v
Connection.v
Server.v
Session.v
Access.v
System.v
Threads.v
SystemSpec.v
Dialogue.v
Isolation.v
SavedFile.v
Spawning.v
DaemonSystem.v
Moments.v
Descriptors.v
Instances.v
Userland.v
Client.v
Benchmark.v
UserSpec.v
BenchSpec.v
ClientSpec.v
BenchKeys.v
HotKey.v
HotClients.v
HotRounds.v
Network.v
Composed.v
Together.v
HotMoments.v
Executions.v
EndToEnd.v
KvProps.v
HashProps.v
DaemonProps.v
UserProps.v
Worlds.v
HotWorld.v
SystemProps.v
WholeProps.v
