(* ===== verification/Prelude.v ===== *)
(** * kvstore-lkm: a verification development

    ** The program

    A key-value store that lives in the Linux kernel, and the programs around it:
    - [kernel/kv_hash.c]: a hash table of [2^bits] buckets, each a linked list
      under a spinlock of its own; keys are [u64], values C strings of at most 63
      bytes.
    - [kernel/kvlkm.c]: the module: a character device whose [ioctl] commands
      insert, update, get and delete one pair, count the pairs, and copy them all
      out (a snapshot).  [include/kv_ioctl.h] has the commands and the structures.
    - [user/daemon]: a server on TCP port 9999.  It restores the snapshot file at
      its start and writes it at its end, and serves every client in a thread:
      words of text become [ioctl] calls, replies become text.  A client has to
      authenticate through PAM ([auth.cpp]) first.
    - [user/client], [benchmark]: a menu for a terminal, and load generators; both
      speak to the daemon over the same text protocol.

    ** How it is modelled

    Code that has effects is a tree of actions ([Prog.prog]), translated function
    by function; a handler gives each action its documented meaning, and faults
    where C or C++ leaves it undefined.  One tree is run alone ([run]) or as a
    thread of a pool that interleaves single actions ([pstep]).  What the source
    calls and does not contain is a parameter with named laws: the kernel's
    allocator, hash and [strscpy], and how far a copy to user space gets before it
    fails ([KMem.KernelApi], [KernelLaws]), the [_IOC] macros ([KvIoctl.IocApi]), registration and netpoll ([KvModule.ModuleEnv]), PAM
    ([Auth.PamApi]), the daemon's host ([DaemonSem.HostApi]), the network and the
    terminal of the client programs ([Userland]).  [Instances] has a concrete
    instance of each, on which the witnesses run.

    Libraries:
    - [Prelude]: machine integers, byte buffers, automation; [Prog]: programs,
      pools, termination of pools, [inevitably]; [Timeline]: sequences of what several
      threads do; [CStr]: the string functions of
      the C and C++ libraries that the program uses.

    The kernel:
    - [KvIoctl]: [include/kv_ioctl.h], with the layout of the structures in bytes.
    - [KMem]: heap objects, locks, allocation; [KvHash]: [kv_hash.c], one
      definition per function; [Kvlkm]: the handlers of [kvlkm.c] and the memory of
      their caller; [KvModule]: [init_module], [cleanup_module], [init_netpoll], step
      by step, with the steps of [kv_hash_init] among them.
    - [KLogic], [KSound]: a program logic in which a thread owns its own memory
      and the chain of the bucket it has locked, and its soundness for pools of
      threads; [KTyping]: what the invariant says of the heap itself.
    - [KvHashSpec], [KvTable], [KvStore], [KvLifecycle]: the operations of the
      table, as critical sections on chains, then as operations on a map;
      [KvSleep]: allocations made under a lock.
    - [KvTrace], [KvlkmSpec], [KvDevice]: a call of [kv_ioctl] as a sequence of
      atomic events on the map; merging the events of all threads.

    The daemon:
    - [KvInterface]: the class [KvDevice] and its laws [KvDeviceLaws], what the
      daemon relies on; the kernel module is an instance.
    - [Auth], [Daemon]: [auth.cpp] and [daemon.cpp]; [DaemonSem]: the world they
      run in; [DaemonSpec], [Connection], [Server]: operations and snapshots, one
      connection, start and stop; [Session]: a reference interpreter of the
      commands; [Access]: what happens before authentication, for any answers.
    - [System], [Threads], [SystemSpec]: the composition.  The [ioctl] actions of
      the daemon are unfolded into the memory accesses of the kernel code; [main]
      runs, a step of [listen_network] that starts a client's thread ([SpawnClient])
      adds [handle_client] to the threads ([sys_step]), all of them interleave, and
      the world outside answers as it likes within [answer_ok]; the state keeps the
      log of its answers.  [partial] is an execution of one thread so far, with
      every [ioctl] a sequence of map events; events and answers are kept in the
      order in which they happened ([happening], [timeline]).
    - [Dialogue]: what a client's thread received, asked PAM and replied, with the
      events it performed, as rounds in order ([exchanges], [ordered_dialogue]), or
      without the order between events and words ([rounds], [dialogue]); and what
      the main thread stores.  [Isolation]: a client that alone changes its keys, against
      the interpreter of [Session].  [SavedFile]: what a thread writes to the
      snapshot file.  [Spawning]: the threads are those of the connections that
      [main] has accepted.  [DaemonSystem]: all of it put together; [Moments]: what
      that says of the world's log at moments when threads are inside calls;
      [Descriptors]: a thread uses its own descriptors only; [Worlds]: some
      executions, evaluated.

    The programs that talk to it:
    - [Userland], [Client], [Benchmark]: [client.cpp] and [benchmark.cpp], over a
      connection to any [Peer]; [UserSpec], [BenchSpec], [ClientSpec],
      [BenchKeys]: the daemon as that peer, and what the programs then do.

    The benchmark, the network and the daemon together:
    - [HotKey], [HotClients], [HotRounds]: the counter that the threads of
      [run_concurrent_read_write] share; what each says over its connection, and
      what the daemon replies.
    - [Network]: connections, the benchmark's threads and what they share, the
      daemon's threads and the kernel's memory as one system ([whole_step]).
    - [Composed], [Together], [HotMoments], [Executions], [EndToEnd]: its invariant, that every
      step keeps it, and what follows; [HotWorld]: an execution of all the threads
      from start to end, evaluated.

    ** What is shown

    - [KvProps], the kernel module: concurrent [ioctl] calls neither fault nor
      deadlock, all return, and act as one sequence of atomic events on a map;
      values are not torn; the heap is well typed at every moment; a snapshot
      stays in its buffer while the table grows; alone, each command refines its
      specification on maps and leaks nothing; the race of two inserts, the
      snapshot of the wrong capacity, the unterminated value and the padding that
      leaves the kernel are shown as they are.
    - [HashProps]: the functions of the table on every branch, loading and
      unloading of the module with every failure, the messages that come while
      [init_module] is at work, what the bytes of a message mean.
    - [DaemonProps]: operations, snapshots, restore, restart, the server socket,
      authentication before access, equivalence of a session with the
      interpreter, the fault after a snapshot file that was cut off.
    - [SystemProps]: daemon and kernel together, from the start of [main], at every
      moment when no thread is inside a call: safety; refinement of threads whose
      [ioctl] calls are sequences of atomic events on a map; the connections served
      are those accepted; every command takes effect between its receipt and
      its reply, in one sequence in real-time order, and the reply is the one that
      its own events in that sequence stand for; a client that alone changes the keys it works on
      is told what the interpreter answers; every value that is found, or written to the snapshot file,
      was in the store or the file at the start or was sent by a client PAM had let
      in; no thread is ever stuck; a daemon that stops while a client is connected can
      empty its file.
    - [WholeProps]: the concurrent benchmark, the network, the daemon and the kernel
      together: from an empty store, or one with a counter, no interleaving makes a
      reader count an empty or a bad read, and nothing faults.
    - [UserProps]: the baseline benchmark finds nothing wrong, the keys of the
      latency benchmark's threads, the client's login, menu and password prompt.

    ** Bounds and fuel

    Integers are [Z] with the wrap-around of their C type written out.  The bucket
    count is [2^bits] with [1 <= bits <= 31]; the module uses 10.  Loops whose end
    the code does not decide have fuel: [handle_client_loop] (one unit per answer
    of [read]; [recv_measure] is enough), [listen_network] (one per round; one more
    than the rounds before the shutdown is enough), the prompts of the client and
    the benchmark and the threads of the benchmark.  Theorems about one thread
    prove that the fuel named in them is enough; theorems about pools hold for any
    fuel, so for any finite part of a run.  The sizes of maps are below [2^31] where
    [kv_hash_count] returns an [int].

    ** Not modelled

    - [printk], [perror]'s text for [errno], the Makefiles and the scripts.
    - The links of an [hlist] are the kernel's business: a bucket is the list of
      its entries.  The kernel's memory is sequentially consistent; the code
      touches shared words under a lock only.
    - The memory behind an [ioctl] argument is one run of mapped bytes, of which a
      first part can be written; that it changes during a call is left out.
    - PAM keeps no state between calls: its answers are functions of the user and of
      what the conversation answers.
    - The end of the process: client threads of the model may go on after [main] has
      returned, so its executions are the process' and more.  Signal delivery is the
      value that each read of the shutdown flag sees.
    - [SIGPIPE] (its default action ends the process at a write to a client that is
      gone; the model lets [write] fail), and exceptions of [std::thread] and of the
      allocation of strings.
    - In [Network] a connection loses nothing, what is written can be read at once
      and as a whole, nobody but the benchmark connects, and nobody asks the daemon
      to stop.  The other benchmarks run with a daemon of one connection
      ([BenchSpec]) or alone ([BenchKeys]).
    - Floating-point output of the benchmark: a duration is kept in nanoseconds
      with the unit it is printed in. *)

From stdpp Require Export base tactics numbers option list gmap strings.
From Stdlib Require Export Ascii ZArith Lia.

Declare Scope kv_scope.
Delimit Scope kv_scope with kv.
#[global] Open Scope Z_scope.

(** ** Machine integers

    An integer of the program is a [Z] kept in the range of its C type; the
    conversions below are the ones the compiler inserts. *)

Definition u32_max : Z := 4294967295.
Definition u64_max : Z := 18446744073709551615.
Definition wrap_u32 (z : Z) : Z := z mod 4294967296.
Definition wrap_u64 (z : Z) : Z := z mod 18446744073709551616.
Definition wrap_s32 (z : Z) : Z := (z + 2147483648) mod 4294967296 - 2147483648.

Definition is_u32 (z : Z) : Prop := 0 <= z <= u32_max.
Definition is_u64 (z : Z) : Prop := 0 <= z <= u64_max.
Definition is_s32 (z : Z) : Prop := -2147483648 <= z < 2147483648.

(** ** Bytes and C strings

    A [char] array is a list of [ascii]; a C string stored in it ends at the
    first [NUL]. *)

Abbreviation bytes := (list ascii).

Definition NUL : ascii := ascii_of_nat 0.
Definition DQ : ascii := ascii_of_nat 34.
Definition LF : ascii := ascii_of_nat 10.
Definition SP : ascii := ascii_of_nat 32.

(** The bytes of a string literal of the source. *)
Definition lit (s : string) : bytes := String.list_ascii_of_string s.
Arguments lit s%_string_scope.

Definition byte_of_Z (z : Z) : ascii := ascii_of_N (Z.to_N (z mod 256)).
Definition Z_of_byte (b : ascii) : Z := Z.of_N (N_of_ascii b).

(** ** Fixed-offset updates of a byte buffer *)

(** [write_at off bs buf]: the buffer after [memcpy (buf + off, bs, length bs)],
    for a write that stays inside it. *)
Definition write_at (off : nat) (bs buf : bytes) : bytes :=
  take off buf ++ bs ++ drop (off + length bs) buf.

(** [read_at off n buf]: the [n] bytes at [buf + off]. *)
Definition read_at (off n : nat) (buf : bytes) : bytes := take n (drop off buf).

(** ** Automation *)

(** Destruct the innermost [match] scrutinee of the goal. *)
Ltac case_split_goal :=
  match goal with
  | |- context [match ?x with _ => _ end] => destruct x eqn:?
  end.

(** Destruct existentials and conjunctions of the context. *)
Ltac destruct_ands :=
  repeat match goal with
    | H : _ ∧ _ |- _ => destruct H
    | H : ∃ _, _ |- _ => destruct H
    end.

Create HintDb kv.
Create Rewrite HintDb kv.

(** ** Generic lemmas *)

Lemma wrap_s32_id z : is_s32 z → wrap_s32 z = z.
Proof. intros [??]. unfold wrap_s32. rewrite Z.mod_small; lia. Qed.

Lemma wrap_s32_range z : is_s32 (wrap_s32 z).
Proof.
  unfold is_s32, wrap_s32.
  pose proof (Z.mod_pos_bound (z + 2147483648) 4294967296). lia.
Qed.

Lemma wrap_u32_id z : is_u32 z → wrap_u32 z = z.
Proof. intros [??]. unfold wrap_u32, u32_max in *. apply Z.mod_small; lia. Qed.

Lemma mod_neg_wrap n a : - n <= a < 0 → a mod n = a + n.
Proof. intros. symmetry. apply Z.mod_unique with (-1); lia. Qed.

Lemma wrap_s32_u32 z : wrap_s32 (wrap_u32 z) = wrap_s32 z.
Proof. unfold wrap_s32, wrap_u32. by rewrite Zplus_mod_idemp_l. Qed.

Lemma wrap_u32_s32 z : wrap_u32 (wrap_s32 z) = wrap_u32 z.
Proof.
  unfold wrap_s32, wrap_u32. rewrite Zminus_mod_idemp_l. f_equal. lia.
Qed.

Lemma length_write_at off bs buf :
  (off + length bs <= length buf)%nat → length (write_at off bs buf) = length buf.
Proof.
  intros ?. unfold write_at. rewrite !length_app, length_take, length_drop. lia.
Qed.

Lemma read_write_at off bs buf :
  (off + length bs <= length buf)%nat → read_at off (length bs) (write_at off bs buf) = bs.
Proof.
  intros ?. unfold read_at, write_at.
  rewrite drop_app_length' by (rewrite length_take; lia).
  apply take_app_length.
Qed.

Lemma take_write_at_0 bs buf : take (length bs) (write_at 0 bs buf) = bs.
Proof. unfold write_at. simpl. apply take_app_length. Qed.

Lemma drop_write_at_0 n bs buf : (length bs <= n)%nat → drop n (write_at 0 bs buf) = drop n buf.
Proof.
  intros ?. unfold write_at. simpl. rewrite drop_app_ge, drop_drop by done. f_equal. lia.
Qed.

Lemma write_at_0_all bs buf : length bs = length buf → write_at 0 bs buf = bs.
Proof.
  intros ?. unfold write_at. simpl. rewrite drop_ge by lia. by rewrite app_nil_r.
Qed.

Lemma Z_of_byte_range b : 0 <= Z_of_byte b < 256.
Proof. unfold Z_of_byte. pose proof (N_ascii_bounded b). lia. Qed.

Lemma Z_of_byte_of_Z z : Z_of_byte (byte_of_Z z) = z mod 256.
Proof.
  unfold Z_of_byte, byte_of_Z. pose proof (Z.mod_pos_bound z 256).
  rewrite N_ascii_embedding; lia.
Qed.

Lemma byte_of_Z_of_byte b : byte_of_Z (Z_of_byte b) = b.
Proof.
  unfold byte_of_Z. rewrite Z.mod_small by apply Z_of_byte_range.
  unfold Z_of_byte. rewrite N2Z.id. apply ascii_N_embedding.
Qed.

(** Finite choice. *)
Lemma list_choice {A : Type} (P : nat → A → Prop) n :
  (∀ i, (i < n)%nat → ∃ x, P i x) →
  ∃ l : list A, length l = n ∧ ∀ i x, l !! i = Some x → P i x.
Proof.
  induction n as [|n IH]; intros HP; [by exists []|].
  destruct IH as (l & Hl & Hlx); [intros i ?; apply HP; lia|].
  destruct (HP n) as [x Hx]; [lia|].
  exists (l ++ [x]). split; [rewrite length_app; simpl; lia|].
  intros i y [Hi|[Hi Hy]]%lookup_app_Some; [auto|].
  apply list_lookup_singleton_Some in Hy as [? <-]. by replace i with n by lia.
Qed.

#[export] Hint Resolve wrap_s32_range Z_of_byte_range : kv.
#[export] Hint Rewrite wrap_s32_u32 wrap_u32_s32 Z_of_byte_of_Z byte_of_Z_of_byte : kv.
