(* ===== verification/Prog.v ===== *)
(** * Effectful programs as trees of actions

    The kernel module and the daemon are both written in a free monad
    [prog E A]: a finite tree whose nodes are the actions [E X] the code
    performs on its environment (memory accesses, lock operations, system
    calls) and whose leaves are the returned values.  A [handler] gives the
    meaning of one action on a state.  The same tree is run
    - sequentially, by [run], and
    - as one thread of a pool, by [pstep], where every action is one atomic
      step and a blocked action (a spinlock somebody else holds) waits. *)

From S2P Require Import Prelude.

Inductive prog (E : Type → Type) (A : Type) : Type :=
  | Ret (a : A)
  | Vis {X : Type} (e : E X) (k : X → prog E A).

Arguments Ret {E A} a.
Arguments Vis {E A X} e k.

Fixpoint prog_bind {E : Type → Type} {A B : Type} (f : A → prog E B) (p : prog E A)
    : prog E B :=
  match p with
  | Ret a => f a
  | Vis e k => Vis e (λ x, prog_bind f (k x))
  end.

#[global] Instance prog_mret (E : Type → Type) : MRet (prog E) := λ A, @Ret E A.
#[global] Instance prog_fmap (E : Type → Type) : FMap (prog E) :=
  λ A B f, prog_bind (λ a, Ret (f a)).
#[global] Instance prog_mbind (E : Type → Type) : MBind (prog E) := λ A B, @prog_bind E A B.

Definition is_ret {E : Type → Type} {A : Type} (p : prog E A) : bool :=
  match p with Ret _ => true | Vis _ _ => false end.

(** One action as a program. *)
Definition call {E : Type → Type} {X : Type} (e : E X) : prog E X := Vis e Ret.

(** Every action that the program can come to satisfies [P], whatever it is
    answered. *)
Fixpoint all_acts {E : Type → Type} {A : Type} (P : ∀ X, E X → Prop) (p : prog E A) : Prop :=
  match p with
  | Ret _ => True
  | @Vis _ _ X e k => P X e ∧ ∀ x, all_acts P (k x)
  end.

Lemma all_acts_bind {E : Type → Type} {A B : Type} P (p : prog E A) (f : A → prog E B) :
  all_acts P p → (∀ a, all_acts P (f a)) → all_acts P (p ≫= f).
Proof.
  intros Hp Hf. induction p as [a|X e k IH]; [by apply Hf|].
  destruct Hp as [He Hk]. split; [done|]. intros x. by apply IH.
Qed.

Lemma all_acts_act {E : Type → Type} {A X : Type} P (e : E X) (f : X → prog E A) :
  P X e → (∀ x, all_acts P (f x)) → all_acts P (call e ≫= f).
Proof. by split. Qed.

Lemma all_acts_call {E : Type → Type} {X : Type} P (e : E X) : P X e → all_acts (A := X) P (call e).
Proof. by split. Qed.

Lemma all_acts_mono {E : Type → Type} {A : Type} (P Q : ∀ X, E X → Prop) (p : prog E A) :
  (∀ X e, P X e → Q X e) → all_acts P p → all_acts Q p.
Proof. intros HPQ. induction p as [a|X e k IH]; [done|]. intros [He Hk]. split; auto. Qed.

(** The same program with other actions in the place of its own. *)
Fixpoint prog_map {E E' : Type → Type} {A : Type} (f : ∀ X, E X → E' X) (p : prog E A) : prog E' A :=
  match p with
  | Ret a => Ret a
  | Vis e k => Vis (f _ e) (λ x, prog_map f (k x))
  end.

(** The result of an action or of a whole program: a value and a new state,
    a wait, or a fault (undefined behaviour, a kernel oops). *)
Inductive outcome (F S X : Type) : Type :=
  | Done (x : X) (s : S)
  | Blocked
  | Faulted (f : F).

Arguments Done {F S X} x s.
Arguments Blocked {F S X}.
Arguments Faulted {F S X} f.

Definition handler (E : Type → Type) (F S : Type) : Type :=
  ∀ X : Type, E X → S → outcome F S X.

Section Semantics.
Context {E : Type → Type} {F S : Type} (h : handler E F S).

(** Sequential execution. *)
Fixpoint run {A : Type} (p : prog E A) (s : S) : outcome F S A :=
  match p with
  | Ret a => Done a s
  | Vis e k =>
      match h _ e s with
      | Done x s' => run (k x) s'
      | Blocked => Blocked
      | Faulted f => Faulted f
      end
  end.

(** The next action of a program, [None] when it has returned. *)
Definition prog_step {A : Type} (p : prog E A) (s : S) : option (outcome F S (prog E A)) :=
  match p with
  | Ret _ => None
  | Vis e k =>
      Some match h _ e s with
           | Done x s' => Done (k x) s'
           | Blocked => Blocked
           | Faulted f => Faulted f
           end
  end.

(** One step of thread [j] of a pool of threads that share the state. *)
Inductive pstep {A : Type} : list (prog E A) * S → list (prog E A) * S → Prop :=
  | pstep_thread ts s j p p' s' :
      ts !! j = Some p →
      prog_step p s = Some (Done p' s') →
      pstep (ts, s) (<[j := p']> ts, s').

(** Some thread's next action faults. *)
Definition pool_faults {A : Type} (c : list (prog E A) * S) : Prop :=
  ∃ j p f, c.1 !! j = Some p ∧ prog_step p c.2 = Some (Faulted f).

Definition pool_done {A : Type} (ts : list (prog E A)) : Prop :=
  Forall (λ p, is_ret p = true) ts.

(** An executable scheduler: thread [j] takes a step, for each [j] of the
    schedule in turn. *)
Fixpoint schedule {A : Type} (js : list nat) (ts : list (prog E A)) (s : S)
    : option (list (prog E A) * S) :=
  match js with
  | [] => Some (ts, s)
  | j :: js' =>
      match ts !! j with
      | Some p =>
          match prog_step p s with
          | Some (Done p' s') => schedule js' (<[j := p']> ts) s'
          | _ => None
          end
      | None => None
      end
  end.

Lemma run_bind {A B : Type} (p : prog E A) (f : A → prog E B) s :
  run (p ≫= f) s =
  match run p s with
  | Done a s' => run (f a) s'
  | Blocked => Blocked
  | Faulted e => Faulted e
  end.
Proof.
  revert s. induction p as [a|X e k IH]; intros s; simpl; [done|].
  destruct (h X e s); [apply IH|done|done].
Qed.

Lemma run_call {X : Type} (e : E X) s : run (call e) s = h X e s.
Proof. unfold call. simpl. by destruct (h X e s). Qed.

Lemma schedule_steps {A : Type} js (ts : list (prog E A)) s c :
  schedule js ts s = Some c → rtc pstep (ts, s) c.
Proof.
  revert ts s. induction js as [|j js IH]; intros ts s; simpl.
  { intros [= <-]. constructor. }
  destruct (ts !! j) as [p|] eqn:Hj; [|done].
  destruct (prog_step p s) as [[p' s'| |]|] eqn:Hp; try done.
  intros Hs. eapply rtc_l; [by econstructor|]. by apply IH.
Qed.

(** ** A single program, step by step *)

Definition solo_step {A : Type} (c c' : prog E A * S) : Prop :=
  prog_step c.1 c.2 = Some (Done c'.1 c'.2).

Lemma solo_act {A X : Type} (e : E X) (f : X → prog E A) s x s' c :
  h X e s = Done x s' → rtc solo_step (f x, s') c → rtc solo_step (call e ≫= f, s) c.
Proof. intros He. apply rtc_l. unfold solo_step. cbn [call mbind prog_mbind prog_bind prog_step fst snd]. by rewrite He. Qed.

(** The steps of a part are steps of the whole. *)
Lemma solo_bind {A B : Type} (f : A → prog E B) (p p' : prog E A) s s' :
  rtc solo_step (p, s) (p', s') → rtc solo_step (p ≫= f, s) (p' ≫= f, s').
Proof.
  apply (rtc_congruence (λ c : prog E A * S, (c.1 ≫= f, c.2))). clear. intros [p s] [p1 s1] Hs.
  unfold solo_step in *. destruct p as [a|X e k]; [done|]. simpl in *.
  destruct (h X e s); simplify_eq. done.
Qed.

Lemma solo_run {A : Type} (p : prog E A) s a s' :
  run p s = Done a s' → rtc solo_step (p, s) (Ret a, s').
Proof.
  revert s. induction p as [b|X e k IH]; intros s; simpl; [by intros [= <- <-]|].
  destruct (h X e s) as [x s1| |] eqn:He; try done.
  intros Hr. eapply rtc_l; [|by apply IH]. unfold solo_step. simpl. by rewrite He.
Qed.

Lemma solo_run_bind {A B : Type} (p : prog E A) (f : A → prog E B) s a s' :
  run p s = Done a s' → rtc solo_step (p ≫= f, s) (f a, s').
Proof. intros Hr. exact (solo_bind f p (Ret a) s s' (solo_run p s a s' Hr)). Qed.

(** A thread of a pool that moves alone. *)
Lemma solo_pool {A : Type} (ts : list (prog E A)) j (c c' : prog E A * S) :
  ts !! j = Some c.1 → rtc solo_step c c' → rtc pstep (ts, c.2) (<[j := c'.1]> ts, c'.2).
Proof.
  intros Hj Hs. revert ts Hj. induction Hs as [[p s]|[p s] [p1 s1] [p2 s2] Hs _ IH]; intros ts Hj.
  { simpl in *. by rewrite list_insert_id. }
  eapply rtc_l; [by econstructor|]. simpl in *.
  specialize (IH (<[j := p1]> ts)). rewrite list_insert_insert_eq in IH. apply IH.
  apply list_lookup_insert_eq. by eapply lookup_lt_Some.
Qed.

(** A pool of one thread behaves like the sequential run. *)
Lemma run_pool {A : Type} (p : prog E A) s a s' :
  run p s = Done a s' → rtc pstep ([p], s) ([Ret a], s').
Proof. intros Hr. by apply (solo_pool [p] 0 (p, s) (Ret a, s')), solo_run. Qed.

Lemma pstep_length {A : Type} (c c' : list (prog E A) * S) :
  rtc pstep c c' → length c'.1 = length c.1.
Proof.
  induction 1 as [|c c1 c' Hs _ IH]; [done|]. rewrite IH.
  inversion Hs; subst. simpl. apply length_insert.
Qed.

(** Every execution of a pool ends: a step leaves a proper subtree of one
    program. *)
Definition prog_sub {A : Type} (q p : prog E A) : Prop :=
  match p with Ret _ => False | Vis _ k => ∃ x, q = k x end.

Lemma prog_sub_acc {A : Type} (p : prog E A) : Acc prog_sub p.
Proof. induction p; constructor; intros q Hq; simpl in Hq; [done|]. by destruct Hq as [x ->]. Qed.

Definition pool_sub {A : Type} (qs ps : list (prog E A)) : Prop :=
  ∃ j p q, ps !! j = Some p ∧ prog_sub q p ∧ qs = <[j := q]> ps.

Lemma pool_sub_acc {A : Type} (ps : list (prog E A)) : Acc pool_sub ps.
Proof.
  induction ps as [|p ps IH].
  { constructor. intros qs (j & p & q & Hj & _). done. }
  revert ps IH. induction (prog_sub_acc p) as [p _ IHp].
  intros ps IH. induction IH as [ps Hps IH'].
  constructor. intros qs ([|j] & p0 & q & Hj & Hq & ->); simplify_eq/=.
  - apply IHp; [done|]. by constructor.
  - apply IH'. by exists j, p0, q.
Qed.

Theorem pstep_terminates {A : Type} (c : list (prog E A) * S) : Acc (flip pstep) c.
Proof.
  destruct c as [ps s]. revert s. induction (pool_sub_acc ps) as [ps _ IH]. intros s.
  constructor. intros [qs s'] Hstep. inversion Hstep as [? ? j p p' ? Hj Hs]; subst.
  apply IH. exists j, p, p'. split_and!; [done| |done].
  destruct p as [a|X e k]; [done|]. simpl in *.
  destruct (h X e s); simplify_eq. eauto.
Qed.

End Semantics.

(** A run of a program whose actions are another's: [put] embeds the states. *)
Lemma run_map {E E' : Type → Type} {F F' S S' A : Type} (h : handler E F S) (h' : handler E' F' S')
    (f : ∀ X, E X → E' X) (put : S → S') (inj : F → F') (p : prog E A) s :
  (∀ X e s, h' X (f X e) (put s) =
    match h X e s with
    | Done x s' => Done x (put s') | Blocked => Blocked | Faulted e => Faulted (inj e)
    end) →
  run h' (prog_map f p) (put s) =
  match run h p s with
  | Done a s' => Done a (put s') | Blocked => Blocked | Faulted e => Faulted (inj e)
  end.
Proof.
  intros Hh. revert s. induction p as [a|X e k IH]; intros s; simpl; [done|].
  rewrite Hh. destruct (h X e s); [apply IH|done|done].
Qed.

Lemma solo_map {E E' : Type → Type} {F F' S S' A : Type} (h : handler E F S) (h' : handler E' F' S')
    (f : ∀ X, E X → E' X) (put : S → S') (p p' : prog E A) s s' :
  (∀ X e s x s', h X e s = Done x s' → h' X (f X e) (put s) = Done x (put s')) →
  rtc (solo_step h) (p, s) (p', s') → rtc (solo_step h') (prog_map f p, put s) (prog_map f p', put s').
Proof.
  intros Hh. apply (rtc_congruence (λ c : prog E A * S, (prog_map f c.1, put c.2))).
  intros [q t] [q1 t1] Hs. unfold solo_step in *. destruct q as [a|X e k]; [done|]. simpl in *.
  destruct (h X e t) eqn:He; simplify_eq. by rewrite (Hh _ _ _ _ _ He).
Qed.

(** ** Total correctness of a sequential run

    The program returns, without a wait or a fault, a value and a state that
    satisfy [Q]. *)
Definition ends {E : Type → Type} {F S A : Type} (h : handler E F S) (p : prog E A) (s : S)
    (Q : A → S → Prop) : Prop :=
  match run h p s with Done a s' => Q a s' | _ => False end.

Section Ends.
Context {E : Type → Type} {F S : Type} (h : handler E F S).

Lemma ends_ret {A : Type} (a : A) s (Q : A → S → Prop) : Q a s → ends h (mret a) s Q.
Proof. done. Qed.

Lemma ends_bind {A B : Type} (p : prog E A) (f : A → prog E B) s Q :
  ends h p s (λ a s', ends h (f a) s' Q) → ends h (p ≫= f) s Q.
Proof. unfold ends. rewrite run_bind. by destruct (run h p s). Qed.

Lemma ends_act {A X : Type} (e : E X) (f : X → prog E A) s x s' Q :
  h X e s = Done x s' → ends h (f x) s' Q → ends h (call e ≫= f) s Q.
Proof. intros He Hf. apply ends_bind. unfold ends at 1. by rewrite run_call, He. Qed.

Lemma ends_mono {A : Type} (p : prog E A) s (Q R : A → S → Prop) :
  (∀ a s', Q a s' → R a s') → ends h p s Q → ends h p s R.
Proof. intros HQ. unfold ends. destruct (run h p s); [apply HQ|done|done]. Qed.

Lemma ends_run {A : Type} (p : prog E A) s Q : ends h p s Q → ∃ a s', run h p s = Done a s' ∧ Q a s'.
Proof. unfold ends. destruct (run h p s) as [a s'| |]; [|done..]. by exists a, s'. Qed.

Lemma ends_map {E' : Type → Type} {F' S' A : Type} (h' : handler E' F' S') (f : ∀ X, E' X → E X)
    (put : S' → S) (inj : F' → F) (p : prog E' A) s Q :
  (∀ X e s, h X (f X e) (put s) =
    match h' X e s with
    | Done x s' => Done x (put s') | Blocked => Blocked | Faulted e => Faulted (inj e)
    end) →
  ends h' p s (λ a s', Q a (put s')) → ends h (prog_map f p) (put s) Q.
Proof.
  intros Hh. unfold ends. rewrite (run_map h' h f put inj) by done. by destruct (run h' p s).
Qed.

End Ends.

(** Every maximal sequence of steps from [c] reaches [P], whoever chooses the
    steps. *)
Inductive inevitably {C : Type} (step : C → C → Prop) (P : C → Prop) (c : C) : Prop :=
  | inev_now : P c → inevitably step P c
  | inev_later :
      (∃ c', step c c') → (∀ c', step c c' → inevitably step P c') → inevitably step P c.

(** Steps that come to an end, and stop nowhere else, reach [P]. *)
Lemma inevitably_intro {C : Type} (step : C → C → Prop) (P I : C → Prop) c :
  Acc (flip step) c → I c →
  (∀ c c', I c → step c c' → I c') → (∀ c, I c → (∃ c', step c c') ∨ P c) →
  inevitably step P c.
Proof.
  intros Hacc. induction Hacc as [c _ IH]. intros Hc Hpres Hstop.
  destruct (Hstop c Hc) as [Hs|Hp]; [|by apply inev_now]. apply inev_later; [done|].
  intros c' Hs'. apply IH; [done| |done|done]. by eapply Hpres.
Qed.

Lemma inevitably_reached {C : Type} (step : C → C → Prop) (P : C → Prop) c :
  inevitably step P c → ∃ c', rtc step c c' ∧ P c'.
Proof.
  induction 1 as [c Hc|c [c1 Hs] _ IH]; [by exists c|]. destruct (IH _ Hs) as (c' & Hsteps & Hp).
  exists c'. split; [by eapply rtc_l|done].
Qed.

(** What holds wherever [P] does on the way holds when [P] is reached. *)
Lemma inevitably_reachable {C : Type} (step : C → C → Prop) (P Q : C → Prop) c :
  (∀ c', rtc step c c' → P c' → Q c') → inevitably step P c → inevitably step Q c.
Proof.
  intros HPQ. induction 1 as [c Hc|c Hs _ IH]; [apply inev_now, HPQ; [constructor|done]|].
  apply inev_later; [done|]. intros c1 Hs1. apply IH; [done|]. intros c2 Hc2. apply HPQ. by eapply rtc_l.
Qed.

(** Walks through a program's branches; [side] proves the property of an action. *)
Ltac all_acts_walk side :=
  repeat first
    [ match goal with
      | |- all_acts _ (if decide ?P then _ else _) => destruct (decide P)
      | |- all_acts _ (if ?b then _ else _) => destruct b
      | |- all_acts _ (match ?x with _ => _ end) => destruct x
      end
    | apply all_acts_act; [solve [side]|intros ?]
    | apply all_acts_call; solve [side]
    | done ].
