(* ===== verification/Timeline.v ===== *)
(** * Sequences of what several threads do

    A sequence whose entries are tagged with the thread they belong to, the part of
    each thread, and the parts of two kinds of entries. *)

From S2P Require Import Prelude.

(** ** Two kinds of entries *)

Definition lefts {A B : Type} (l : list (A + B)) : list A :=
  l ≫= (λ x, match x with inl a => [a] | inr _ => [] end).

Definition rights {A B : Type} (l : list (A + B)) : list B :=
  l ≫= (λ x, match x with inl _ => [] | inr b => [b] end).

Lemma lefts_app {A B : Type} (l l' : list (A + B)) : lefts (l ++ l') = lefts l ++ lefts l'.
Proof. apply bind_app. Qed.

Lemma rights_app {A B : Type} (l l' : list (A + B)) : rights (l ++ l') = rights l ++ rights l'.
Proof. apply bind_app. Qed.

Lemma lefts_inl {A B : Type} (l : list A) : lefts (B := B) (inl <$> l) = l.
Proof. induction l as [|a l IH]; [done|]. by rewrite fmap_cons; cbn; f_equal. Qed.

Lemma lefts_inr {A B : Type} (l : list B) : lefts (A := A) (inr <$> l) = [].
Proof. by induction l as [|b l IH]. Qed.

Lemma rights_inl {A B : Type} (l : list A) : rights (B := B) (inl <$> l) = [].
Proof. by induction l as [|a l IH]. Qed.

Lemma rights_inr {A B : Type} (l : list B) : rights (A := A) (inr <$> l) = l.
Proof. induction l as [|b l IH]; [done|]. by rewrite fmap_cons; cbn; f_equal. Qed.

#[export] Hint Rewrite @lefts_app @rights_app @lefts_inl @lefts_inr @rights_inl @rights_inr : kv.

Lemma elem_lefts {A B : Type} (a : A) (l : list (A + B)) : a ∈ lefts l ↔ inl a ∈ l.
Proof.
  unfold lefts. rewrite list_elem_of_bind. split.
  - intros ([a'|b] & Ha & Hl); [by apply list_elem_of_singleton in Ha as ->|by apply not_elem_of_nil in Ha].
  - intros Hl. exists (inl a). split; [by apply list_elem_of_singleton|done].
Qed.

Lemma elem_rights {A B : Type} (b : B) (l : list (A + B)) : b ∈ rights l ↔ inr b ∈ l.
Proof.
  unfold rights. rewrite list_elem_of_bind. split.
  - intros ([a|b'] & Hb & Hl); [by apply not_elem_of_nil in Hb|by apply list_elem_of_singleton in Hb as ->].
  - intros Hl. exists (inr b). split; [by apply list_elem_of_singleton|done].
Qed.

(** Where an entry of a sequence is, when the sequence is in two parts. *)
Lemma app_split_cons {A : Type} (l l' l1 l2 : list A) x :
  l ++ l' = l1 ++ x :: l2 → (∃ r, l = l1 ++ x :: r) ∨ ∃ r, l1 = l ++ r ∧ l' = r ++ x :: l2.
Proof.
  intros [(k & -> & Hk)|(k & -> & ->)]%app_eq_inv; [|right; by exists k].
  destruct k as [|y k]; [right; exists []; by rewrite !app_nil_r|].
  injection Hk as <- ->. left. by exists k.
Qed.

(** ** Threads *)

(** What thread [j] did, out of the tagged events of all. *)
Definition thread_events {E : Type} (j : nat) (G : list (nat * E)) : list E :=
  snd <$> filter (λ x, x.1 = j) G.

Lemma thread_events_cons {E : Type} j j0 (e : E) G :
  thread_events j ((j0, e) :: G) =
  if decide (j0 = j) then e :: thread_events j G else thread_events j G.
Proof. unfold thread_events. rewrite filter_cons. simpl. by case_decide. Qed.

Lemma thread_events_app {E : Type} j (G1 G2 : list (nat * E)) :
  thread_events j (G1 ++ G2) = thread_events j G1 ++ thread_events j G2.
Proof. unfold thread_events. by rewrite filter_app, fmap_app. Qed.

Lemma thread_events_pair {E : Type} j j0 (l : list E) :
  thread_events j (pair j0 <$> l) = if decide (j = j0) then l else [].
Proof.
  induction l as [|e l IH]; [by case_decide|]. rewrite fmap_cons, thread_events_cons, IH.
  repeat case_decide; congruence.
Qed.

Lemma thread_events_nil {E : Type} j (G : list (nat * E)) :
  (∀ x, x ∈ G → x.1 ≠ j) → thread_events j G = [].
Proof.
  induction G as [|[j0 e] G IH]; intros Hj; [done|]. rewrite thread_events_cons.
  rewrite decide_False by (apply (Hj (j0, e)); set_solver). apply IH. set_solver.
Qed.

Lemma thread_events_elem {E : Type} j (e : E) G : e ∈ thread_events j G ↔ (j, e) ∈ G.
Proof.
  unfold thread_events. rewrite list_elem_of_fmap. split.
  - intros ([j' e'] & -> & [Hj Hin]%list_elem_of_filter). simpl in Hj. by subst.
  - intros Hin. exists (j, e). split; [done|]. by apply list_elem_of_filter.
Qed.

(** The tagged entries of one kind. *)
Definition left_part {A B : Type} (H : list (nat * (A + B))) : list (nat * A) :=
  H ≫= (λ x, match x.2 with inl a => [(x.1, a)] | inr _ => [] end).

Definition right_part {A B : Type} (H : list (nat * (A + B))) : list (nat * B) :=
  H ≫= (λ x, match x.2 with inl _ => [] | inr b => [(x.1, b)] end).

Lemma left_part_app {A B : Type} (H H' : list (nat * (A + B))) :
  left_part (H ++ H') = left_part H ++ left_part H'.
Proof. apply bind_app. Qed.

Lemma right_part_app {A B : Type} (H H' : list (nat * (A + B))) :
  right_part (H ++ H') = right_part H ++ right_part H'.
Proof. apply bind_app. Qed.

Lemma left_part_pair {A B : Type} j (l : list (A + B)) : left_part (pair j <$> l) = pair j <$> lefts l.
Proof. induction l as [|[a|b] l IH]; [done| |exact IH]. by rewrite fmap_cons; cbn; f_equal. Qed.

Lemma right_part_pair {A B : Type} j (l : list (A + B)) : right_part (pair j <$> l) = pair j <$> rights l.
Proof. induction l as [|[a|b] l IH]; [done|exact IH|]. by rewrite fmap_cons; cbn; f_equal. Qed.

Lemma snd_left_part {A B : Type} (H : list (nat * (A + B))) : snd <$> left_part H = lefts (snd <$> H).
Proof. induction H as [|[j [a|b]] H IH]; [done| |exact IH]. by rewrite fmap_cons; cbn; f_equal. Qed.

Lemma thread_left_part {A B : Type} j (H : list (nat * (A + B))) :
  thread_events j (left_part H) = lefts (thread_events j H).
Proof.
  induction H as [|[j' [a|b]] H IH]; [done|..].
  - change (left_part ((j', inl a) :: H)) with ((j', a) :: left_part H).
    rewrite !thread_events_cons. case_decide; [|done]. by rewrite IH.
  - change (left_part ((j', inr b) :: H)) with (left_part H).
    rewrite thread_events_cons. by case_decide.
Qed.

Lemma thread_right_part {A B : Type} j (H : list (nat * (A + B))) :
  thread_events j (right_part H) = rights (thread_events j H).
Proof.
  induction H as [|[j' [a|b]] H IH]; [done|..].
  - change (right_part ((j', inl a) :: H)) with (right_part H).
    rewrite thread_events_cons. by case_decide.
  - change (right_part ((j', inr b) :: H)) with ((j', b) :: right_part H).
    rewrite !thread_events_cons. case_decide; [|done]. by rewrite IH.
Qed.

Lemma elem_left_part {A B : Type} j (a : A) (H : list (nat * (A + B))) :
  (j, a) ∈ left_part H ↔ (j, inl a) ∈ H.
Proof. by rewrite <- !thread_events_elem, thread_left_part, elem_lefts. Qed.

Lemma elem_right_part {A B : Type} j (b : B) (H : list (nat * (A + B))) :
  (j, b) ∈ right_part H ↔ (j, inr b) ∈ H.
Proof. by rewrite <- !thread_events_elem, thread_right_part, elem_rights. Qed.

(** ** Merging

    Entry by entry, the same threads and related contents. *)
Definition tagged {E C : Type} (R : E → C → Prop) : list (nat * E) → list (nat * C) → Prop :=
  Forall2 (λ x y, x.1 = y.1 ∧ R x.2 y.2).

Lemma tagged_snd {E C : Type} (R : E → C → Prop) GE G : tagged R GE G → Forall2 R (snd <$> GE) (snd <$> G).
Proof. induction 1 as [|x y GE G [_ Hxy] _ IH]; [constructor|]. by constructor. Qed.

Lemma tagged_tags {E C : Type} (R : E → C → Prop) GE G n :
  tagged R GE G → (∀ x, x ∈ G → (x.1 < n)%nat) → ∀ x, x ∈ GE → (x.1 < n)%nat.
Proof.
  intros Ht Hn x [i Hi]%list_elem_of_lookup. destruct (Forall2_lookup_l _ _ _ _ _ Ht Hi) as (y & Hy & -> & _).
  by eapply Hn, list_elem_of_lookup_2.
Qed.

(** Entries that explain those of each thread can be interleaved like them. *)
Lemma merge_events {E C : Type} (R : E → C → Prop) (G : list (nat * C)) (es : nat → list E) :
  (∀ j, Forall2 R (es j) (thread_events j G)) →
  ∃ GE, tagged R GE G ∧ ∀ j, thread_events j GE = es j.
Proof.
  revert es. induction G as [|[j0 c] G IH]; intros es Hes.
  { exists []. split; [constructor|]. intros j. specialize (Hes j). by inversion Hes. }
  pose proof (Hes j0) as H0. rewrite thread_events_cons, decide_True in H0 by done.
  inversion H0 as [|e ? es0 ? He Hes0 Heq]; subst.
  destruct (IH (λ j, if decide (j = j0) then es0 else es j)) as (GE & HGE & Hj).
  { intros j. case_decide as Hj; [by subst|].
    specialize (Hes j). rewrite thread_events_cons, decide_False in Hes by congruence. done. }
  exists ((j0, e) :: GE). split; [by constructor|]. intros j.
  rewrite thread_events_cons, Hj. case_decide as Hjj.
  - subst j. by rewrite decide_True.
  - by rewrite decide_False by congruence.
Qed.

Lemma merge_threads {E C : Type} (R : E → C → Prop) (P : nat → list E → Prop) (G : list (nat * C)) n :
  (∀ x, x ∈ G → (x.1 < n)%nat) →
  (∀ j, (j < n)%nat → ∃ es, Forall2 R es (thread_events j G) ∧ P j es) →
  ∃ GE, tagged R GE G ∧ ∀ j, (j < n)%nat → P j (thread_events j GE).
Proof.
  intros Htags Hex.
  destruct (list_choice (λ j es, Forall2 R es (thread_events j G) ∧ P j es) n Hex) as (ess & Hess & Hall).
  destruct (merge_events R G (λ j, default [] (ess !! j))) as (GE & HGE & Hj).
  { intros j. destruct (ess !! j) as [es|] eqn:He; [by apply (Hall _ _ He)|]. simpl.
    apply lookup_ge_None in He. rewrite thread_events_nil; [constructor|]. intros x Hx%Htags. lia. }
  exists GE. split; [done|]. intros j Hlt. rewrite Hj.
  destruct (lookup_lt_is_Some_2 ess j) as [es He]; [lia|]. rewrite He. by apply (Hall _ _ He).
Qed.
