(* ===== verification/CStr.v ===== *)
(** * The C and C++ library functions on strings the program uses

    Executable versions of the standard library's [strlen], [strncpy],
    [snprintf], [strtoull], [std::to_string], [std::string::find],
    [istream >> string] and [std::getline], on byte lists, with the lemmas the
    components share: printing and parsing of decimal numbers, extraction of
    words, and C strings in fixed-size buffers. *)

From S2P Require Import Prelude.

(** ** C strings in buffers *)

(** The C string that starts the buffer: its bytes before the first NUL, and
    [None] when the buffer holds no NUL, which is when [strlen] and the functions
    built on it would read past its end. *)
Fixpoint c_str (buf : bytes) : option bytes :=
  match buf with
  | [] => None
  | b :: buf' => if decide (b = NUL) then Some [] else cons b <$> c_str buf'
  end.

(** The C++ view of a NUL-terminated buffer whose terminator is known to be
    there, e.g. [std::string s = msg.value]: the whole buffer when it is not. *)
Fixpoint upto_nul (buf : bytes) : bytes :=
  match buf with
  | [] => []
  | b :: buf' => if decide (b = NUL) then [] else b :: upto_nul buf'
  end.

Definition no_nul (s : bytes) : Prop := NUL ∉ s.
#[global] Instance no_nul_dec s : Decision (no_nul s).
Proof. unfold no_nul. apply _. Defined.

(** [memset buf 0 n] over a whole buffer of [n] bytes. *)
Definition zeros (n : nat) : bytes := replicate n NUL.

(** [strncpy dst src n] on a buffer of at least [n] bytes: copies at most [n]
    bytes of the C string [src] and fills the rest of the [n] bytes with NUL. *)
Definition strncpy (dst src : bytes) (n : nat) : bytes :=
  let copied := take n src in
  write_at 0 (copied ++ zeros (n - length copied)) dst.

(** [snprintf buf n "%s" s] for an already formatted text [s] and [n > 0]. *)
Definition snprintf (buf : bytes) (n : nat) (s : bytes) : bytes :=
  write_at 0 (take (n - 1) s ++ [NUL]) buf.

(** ** Character classes of the C locale *)

Definition is_digit (b : ascii) : bool :=
  let z := Z_of_byte b in (48 <=? z) && (z <=? 57).

(** Space, tab, LF, VT, FF, CR. *)
Definition is_space (b : ascii) : bool :=
  let z := Z_of_byte b in (z =? 32) || ((9 <=? z) && (z <=? 13)).

(** ** Decimal numbers *)

Definition digit (d : Z) : ascii := byte_of_Z (48 + d).
Definition digit_value (b : ascii) : Z := Z_of_byte b - 48.

Fixpoint dec_digits (fuel : nat) (n : Z) : bytes :=
  match fuel with
  | O => []
  | S fuel' => if n <? 10 then [digit n] else dec_digits fuel' (n / 10) ++ [digit (n mod 10)]
  end.

(** [std::to_string], and the [%llu] conversion: twenty digits are enough for
    every 64-bit integer. *)
Definition to_string (n : Z) : bytes :=
  if n <? 0 then lit "-" ++ dec_digits 20 (- n) else dec_digits 20 n.

Fixpoint dec_value_from (acc : Z) (s : bytes) : Z :=
  match s with
  | [] => acc
  | b :: s' => dec_value_from (acc * 10 + digit_value b) s'
  end.

Fixpoint span_digits (s : bytes) : bytes * bytes :=
  match s with
  | b :: s' =>
      if is_digit b then let (d, r) := span_digits s' in (b :: d, r) else ([], s)
  | [] => ([], [])
  end.

Fixpoint skip_spaces (s : bytes) : bytes :=
  match s with
  | b :: s' => if is_space b then skip_spaces s' else s
  | [] => []
  end.

(** [strtoull (s, &end, 10)] on a C string: the value, the text [end] points
    at, and whether [errno] was set to [ERANGE].  Leading white space is
    skipped, one sign is accepted and a minus sign negates the value in the
    unsigned type; without any digit the end pointer is the start. *)
Record strto := mk_strto { st_value : Z; st_rest : bytes; st_range : bool }.

Definition strtoull10 (s : bytes) : strto :=
  let s1 := skip_spaces s in
  let '(neg, s2) :=
    match s1 with
    | b :: s' =>
        if decide (b = ascii_of_nat 45) then (true, s')
        else if decide (b = ascii_of_nat 43) then (false, s') else (false, s1)
    | [] => (false, s1)
    end in
  match span_digits s2 with
  | ([], _) => mk_strto 0 s false
  | (ds, rest) =>
      let v := dec_value_from 0 ds in
      if u64_max <? v then mk_strto u64_max rest true
      else mk_strto (if neg : bool then wrap_u64 (- v) else v) rest false
  end.

(** ** Formatted extraction from a string stream

    The state of the [istringstream] is the text it has left. *)

Fixpoint span_word (s : bytes) : bytes * bytes :=
  match s with
  | b :: s' =>
      if is_space b then ([], s) else let (w, r) := span_word s' in (b :: w, r)
  | [] => ([], [])
  end.

(** [iss >> word]: [None] when the extraction fails, i.e. nothing is left
    after the white space. *)
Definition extract_word (iss : bytes) : option (bytes * bytes) :=
  match span_word (skip_spaces iss) with
  | ([], _) => None
  | (w, r) => Some (w, r)
  end.

(** [std::getline (iss, line)]: the text before the next line feed.  On an
    exhausted stream it fails and leaves the line as it was, empty here. *)
Fixpoint getline (iss : bytes) : bytes :=
  match iss with
  | [] => []
  | b :: s' => if decide (b = LF) then [] else b :: getline s'
  end.

(** ** Substring search *)

Fixpoint is_prefix (p s : bytes) : bool :=
  match p, s with
  | [], _ => true
  | a :: p', b :: s' => bool_decide (a = b) && is_prefix p' s'
  | _ :: _, [] => false
  end.

(** [s.find (p)]: the text from the first occurrence of [p] on, [None] for
    [npos]. *)
Fixpoint find_sub (p s : bytes) : option bytes :=
  if is_prefix p s then Some s
  else match s with [] => None | _ :: s' => find_sub p s' end.

(** ** Little-endian integers *)

Fixpoint le_bytes (n : nat) (z : Z) : bytes :=
  match n with
  | O => []
  | S n' => byte_of_Z z :: le_bytes n' (z / 256)
  end.

Fixpoint le_value (bs : bytes) : Z :=
  match bs with
  | [] => 0
  | b :: bs' => Z_of_byte b + 256 * le_value bs'
  end.

(** ** Lemmas *)

Lemma c_str_app s rest : no_nul s → c_str (s ++ NUL :: rest) = Some s.
Proof.
  unfold no_nul. induction s as [|b s IH]; intros Hs; simpl; [done|].
  apply not_elem_of_cons in Hs as [??].
  rewrite decide_False by done. by rewrite IH.
Qed.

Lemma c_str_Some buf s :
  c_str buf = Some s → no_nul s ∧ ∃ rest, buf = s ++ NUL :: rest.
Proof.
  revert s. induction buf as [|b buf IH]; intros s; simpl; [done|].
  case_decide as Hb.
  { intros [= <-]. split; [apply not_elem_of_nil|]. exists buf. by rewrite Hb. }
  destruct (c_str buf) as [s'|]; [|done]. intros [= <-].
  destruct (IH s' eq_refl) as [Hn [rest ->]]. split; [|by exists rest].
  unfold no_nul. apply not_elem_of_cons. by split.
Qed.

Lemma c_str_length buf s : c_str buf = Some s → (length s < length buf)%nat.
Proof. intros [_ [rest ->]]%c_str_Some. rewrite length_app. simpl. lia. Qed.

Lemma c_str_upto_nul buf s : c_str buf = Some s → upto_nul buf = s.
Proof.
  revert s. induction buf as [|b buf IH]; intros s; simpl; [done|].
  case_decide; [congruence|]. destruct (c_str buf) as [s'|]; [|done].
  intros [= <-]. by rewrite (IH s').
Qed.

Lemma no_nul_nil : no_nul [].
Proof. apply not_elem_of_nil. Qed.

Lemma no_nul_app s1 s2 : no_nul (s1 ++ s2) ↔ no_nul s1 ∧ no_nul s2.
Proof. unfold no_nul. rewrite elem_of_app. tauto. Qed.

Lemma no_nul_take n s : no_nul s → no_nul (take n s).
Proof.
  unfold no_nul. intros Hs Hin. apply Hs.
  rewrite <- (take_drop n s). apply elem_of_app. by left.
Qed.

Lemma length_zeros n : length (zeros n) = n.
Proof. apply length_replicate. Qed.

Lemma drop_zeros n m : drop n (zeros m) = zeros (m - n).
Proof. apply drop_replicate. Qed.

Lemma take_zeros n m : take n (zeros m) = zeros (Nat.min n m).
Proof. apply take_replicate. Qed.

Lemma zeros_app n m : zeros n ++ zeros m = zeros (n + m).
Proof. unfold zeros. by rewrite replicate_add. Qed.

Lemma zeros_cons n : (0 < n)%nat → zeros n = NUL :: zeros (n - 1).
Proof. intros ?. destruct n; [lia|]. simpl. by rewrite Nat.sub_0_r. Qed.

Lemma length_snprintf buf n s :
  (0 < n)%nat → (n <= length buf)%nat → length (snprintf buf n s) = length buf.
Proof.
  intros ??. unfold snprintf. apply length_write_at.
  rewrite length_app, length_take. simpl. lia.
Qed.

Lemma length_strncpy dst src n :
  (n <= length dst)%nat → length (strncpy dst src n) = length dst.
Proof.
  intros ?. unfold strncpy. apply length_write_at.
  rewrite length_app, length_zeros, length_take. lia.
Qed.

Lemma length_le_bytes n z : length (le_bytes n z) = n.
Proof. revert z. induction n; intros; simpl; auto. Qed.

Lemma le_value_bytes n z : le_value (le_bytes n z) = z mod 256 ^ Z.of_nat n.
Proof.
  revert z. induction n as [|n IH]; intros z; cbn [le_bytes le_value].
  { change (256 ^ Z.of_nat 0) with 1. by rewrite Z.mod_1_r. }
  rewrite IH, Z_of_byte_of_Z, Nat2Z.inj_succ, Z.pow_succ_r by lia.
  assert (0 < 256 ^ Z.of_nat n) by (apply Z.pow_pos_nonneg; lia).
  rewrite Z.rem_mul_r by lia. done.
Qed.

Lemma le_bytes_value bs : le_bytes (length bs) (le_value bs) = bs.
Proof.
  induction bs as [|b bs IH]; simpl; [done|]. pose proof (Z_of_byte_range b).
  f_equal.
  - rewrite <- (byte_of_Z_of_byte b) at 2. unfold byte_of_Z. do 2 f_equal.
    by rewrite Z.mul_comm, Z_mod_plus_full.
  - rewrite Z.add_comm, Z.mul_comm, Z.div_add_l, Z.div_small by lia.
    by rewrite Z.add_0_r.
Qed.

Lemma le_value_range bs : 0 <= le_value bs < 256 ^ Z.of_nat (length bs).
Proof.
  induction bs as [|b bs IH]; simpl length; cbn [le_value]; [lia|].
  pose proof (Z_of_byte_range b). rewrite Nat2Z.inj_succ, Z.pow_succ_r by lia. lia.
Qed.

(** ** Decimal numbers: printing and parsing *)

Lemma Z_of_digit d : 0 <= d < 10 → Z_of_byte (digit d) = 48 + d.
Proof. intros ?. unfold digit. rewrite Z_of_byte_of_Z. apply Z.mod_small. lia. Qed.

Lemma digit_value_digit d : 0 <= d < 10 → digit_value (digit d) = d.
Proof. intros ?. unfold digit_value. rewrite Z_of_digit by done. lia. Qed.

Lemma is_digit_digit d : 0 <= d < 10 → is_digit (digit d) = true.
Proof. intros ?. unfold is_digit. rewrite Z_of_digit by done. lia. Qed.

Lemma dec_value_from_app acc s t :
  dec_value_from acc (s ++ t) = dec_value_from (dec_value_from acc s) t.
Proof. revert acc. induction s as [|b s IH]; intros acc; simpl; auto. Qed.

Definition all_digits (s : bytes) : Prop := Forall (λ b, is_digit b = true) s.

Lemma dec_digits_spec fuel n :
  0 <= n < 10 ^ Z.of_nat fuel →
  all_digits (dec_digits fuel n) ∧ (n = 0 ∧ fuel = 0%nat ∨ dec_digits fuel n ≠ []) ∧
  dec_value_from 0 (dec_digits fuel n) = n.
Proof.
  revert n. induction fuel as [|fuel IH]; intros n Hn.
  { change (10 ^ Z.of_nat 0) with 1 in Hn. simpl.
    split_and!; [constructor|left; split; [lia|done]|lia]. }
  rewrite Nat2Z.inj_succ, Z.pow_succ_r in Hn by lia. cbn [dec_digits].
  destruct (n <? 10) eqn:Hlt.
  - apply Z.ltb_lt in Hlt. split_and!.
    + repeat constructor. apply is_digit_digit. lia.
    + by right.
    + simpl. rewrite digit_value_digit by lia. lia.
  - apply Z.ltb_ge in Hlt. pose proof (Z.mod_pos_bound n 10).
    destruct (IH (n / 10)) as (Hd & _ & Hv).
    { split; [apply Z.div_pos; lia|]. apply Z.div_lt_upper_bound; lia. }
    split_and!.
    + apply Forall_app. split; [done|]. repeat constructor. apply is_digit_digit. lia.
    + right. by intros [_ ?]%app_eq_nil.
    + rewrite dec_value_from_app, Hv. simpl. rewrite digit_value_digit by lia.
      pose proof (Z.div_mod n 10). lia.
Qed.

Lemma to_string_spec n :
  is_u64 n →
  all_digits (to_string n) ∧ to_string n ≠ [] ∧ dec_value_from 0 (to_string n) = n.
Proof.
  intros [??]. unfold to_string, u64_max in *. rewrite (proj2 (Z.ltb_ge n 0)) by lia.
  destruct (dec_digits_spec 20 n) as (Hd & Hne & Hv).
  { split; [lia|]. by apply Z.le_lt_trans with 18446744073709551615. }
  split_and!; [done| |done]. destruct Hne as [[? ?]|]; done.
Qed.

(** Printing is injective, also on the small signed numbers of a status. *)
Lemma length_dec_digits fuel n : (length (dec_digits fuel n) <= fuel)%nat.
Proof.
  revert n. induction fuel as [|fuel IH]; intros n; cbn [dec_digits]; [done|].
  destruct (n <? 10); [simpl; lia|]. rewrite length_app. specialize (IH (n / 10)). simpl. lia.
Qed.

Lemma length_to_string n : is_u64 n → (length (to_string n) <= 20)%nat.
Proof.
  intros [Hn _]. unfold to_string. rewrite (proj2 (Z.ltb_ge n 0)) by lia. apply length_dec_digits.
Qed.

Lemma to_string_inj n n' : is_u64 n → is_u64 n' → to_string n = to_string n' → n = n'.
Proof.
  intros Hn Hn' Heq. destruct (to_string_spec n Hn) as (_ & _ & <-).
  destruct (to_string_spec n' Hn') as (_ & _ & <-). by rewrite Heq.
Qed.

Definition no_digit_start (s : bytes) : Prop :=
  match s with b :: _ => is_digit b = false | [] => True end.

Lemma span_digits_app s rest :
  all_digits s → no_digit_start rest → span_digits (s ++ rest) = (s, rest).
Proof.
  intros Hs Hr. induction Hs as [|b s Hb Hs IH]; simpl.
  - destruct rest as [|b rest]; [done|]. simpl in *. by rewrite Hr.
  - by rewrite Hb, IH.
Qed.

Lemma digit_not_space b : is_digit b = true → is_space b = false.
Proof. unfold is_digit, is_space. lia. Qed.

(** [strtoull] reads a printed number back and stops behind it. *)
Lemma strtoull_digits s rest :
  all_digits s → s ≠ [] → no_digit_start rest → dec_value_from 0 s <= u64_max →
  strtoull10 (s ++ rest) = mk_strto (dec_value_from 0 s) rest false.
Proof.
  intros Hs Hne Hr Hmax. unfold strtoull10. pose proof (span_digits_app _ _ Hs Hr) as Hspan.
  destruct s as [|b s]; [done|]. inversion Hs as [|? ? Hb _]; subst. clear Hne.
  cbn [app skip_spaces] in *. rewrite (digit_not_space b Hb).
  assert (b ≠ ascii_of_nat 45 ∧ b ≠ ascii_of_nat 43) as [H45 H43].
  { split; intros ->; by vm_compute in Hb. }
  rewrite !decide_False by done. rewrite Hspan.
  by rewrite (proj2 (Z.ltb_ge _ _) Hmax).
Qed.

Lemma strtoull_to_string n :
  is_u64 n → strtoull10 (to_string n) = mk_strto n [] false.
Proof.
  intros Hn. destruct (to_string_spec n Hn) as (Hd & Hne & Hv).
  pose proof (strtoull_digits (to_string n) [] Hd Hne I) as H.
  rewrite app_nil_r, Hv in H. apply H. apply Hn.
Qed.

(** The value is always a 64-bit integer. *)
Lemma strtoull_u64 s : is_u64 (st_value (strtoull10 s)).
Proof.
  unfold strtoull10, is_u64.
  assert (∀ ds acc, 0 <= acc → all_digits ds → 0 <= dec_value_from acc ds) as Hpos.
  { induction ds as [|b ds IH]; intros acc Hacc Hds; [done|].
    inversion Hds as [|? ? Hb Hds']; subst. apply IH; [|done].
    unfold is_digit in Hb. unfold digit_value. lia. }
  assert (∀ t, all_digits (span_digits t).1) as Hspan.
  { induction t as [|b t IH]; simpl; [constructor|].
    destruct (is_digit b) eqn:Hb; [|constructor].
    destruct (span_digits t). simpl in *. by constructor. }
  destruct (match skip_spaces s with [] => _ | _ => _ end) as [neg t].
  specialize (Hspan t). destruct (span_digits t) as [[|b ds] rest]; simpl in *; [unfold u64_max; lia|].
  pose proof (Hpos (b :: ds) 0) as Hv. simpl in Hv.
  destruct (u64_max <? _) eqn:Hlt; simpl; [unfold u64_max; lia|].
  apply Z.ltb_ge in Hlt. destruct neg; [|split; [apply Hv; [lia|done]|done]].
  unfold wrap_u64, u64_max.
  match goal with |- 0 <= ?x mod ?m <= _ => pose proof (Z.mod_pos_bound x m) end. lia.
Qed.

(** ** Words of a stream *)

Definition is_word (w : bytes) : Prop := w ≠ [] ∧ Forall (λ b, is_space b = false) w.

Definition space_start (s : bytes) : Prop :=
  match s with b :: _ => is_space b = true | [] => True end.

Lemma span_word_app w rest :
  Forall (λ b, is_space b = false) w → space_start rest → span_word (w ++ rest) = (w, rest).
Proof.
  intros Hw Hr. induction Hw as [|b w Hb Hw IH]; simpl.
  - destruct rest as [|b rest]; [done|]. simpl in *. by rewrite Hr.
  - by rewrite Hb, IH.
Qed.

Lemma extract_word_app w rest :
  is_word w → space_start rest → extract_word (w ++ rest) = Some (w, rest).
Proof.
  intros [Hne Hw] Hr. unfold extract_word.
  assert (skip_spaces (w ++ rest) = w ++ rest) as ->.
  { destruct w as [|b w]; [done|]. inversion Hw as [|? ? Hb _]; subst. simpl. by rewrite Hb. }
  rewrite span_word_app by done. by destruct w.
Qed.

(** A word after one space. *)
Lemma extract_word_sp w rest :
  is_word w → space_start rest → extract_word (SP :: w ++ rest) = Some (w, rest).
Proof. intros Hw Hr. unfold extract_word. simpl. by apply extract_word_app. Qed.

Lemma digits_word s : all_digits s → s ≠ [] → is_word s.
Proof.
  intros Hs Hne. split; [done|]. eapply Forall_impl; [done|]. apply digit_not_space.
Qed.

Lemma to_string_word n : is_u64 n → is_word (to_string n).
Proof. intros Hn. destruct (to_string_spec n Hn) as (? & ? & _). by apply digits_word. Qed.

Lemma digits_no_nul s : all_digits s → no_nul s.
Proof.
  intros Hs Hin. unfold all_digits in Hs. rewrite Forall_forall in Hs.
  by specialize (Hs _ Hin).
Qed.

Lemma upto_nul_id s : no_nul s → upto_nul s = s.
Proof.
  unfold no_nul. induction s as [|b s IH]; simpl; [done|].
  rewrite not_elem_of_cons. intros [??]. rewrite decide_False by done. by rewrite IH.
Qed.

Lemma no_nul_upto_nul s : no_nul (upto_nul s).
Proof.
  induction s as [|b s IH]; simpl; [apply no_nul_nil|]. case_decide; [apply no_nul_nil|].
  unfold no_nul. apply not_elem_of_cons. auto.
Qed.

Lemma upto_nul_end s rest : upto_nul (s ++ NUL :: rest) = upto_nul s.
Proof. induction s as [|b s IH]; simpl; [done|]. case_decide; [done|]. by rewrite IH. Qed.

Lemma upto_nul_app s rest : no_nul s → upto_nul (s ++ NUL :: rest) = s.
Proof. intros Hs. by rewrite upto_nul_end, upto_nul_id. Qed.

Lemma getline_id s : LF ∉ s → getline s = s.
Proof.
  induction s as [|b s IH]; simpl; [done|]. rewrite not_elem_of_cons. intros [??].
  rewrite decide_False by done. by rewrite IH.
Qed.

(** ** Substrings *)

Lemma is_prefix_app p s : is_prefix p (p ++ s) = true.
Proof. induction p as [|b p IH]; simpl; [done|]. by rewrite bool_decide_eq_true_2. Qed.

Lemma is_prefix_true p s : is_prefix p s = true ↔ ∃ t, s = p ++ t.
Proof.
  split; [|intros [t ->]; apply is_prefix_app].
  revert s. induction p as [|a p IH]; intros [|b s]; simpl; try done; eauto.
  intros [->%bool_decide_eq_true [t ->]%IH]%andb_true_iff. by exists t.
Qed.

(** [find] reports a substring exactly when there is one. *)
Lemma find_sub_Some p s : is_Some (find_sub p s) ↔ ∃ a t, s = a ++ p ++ t.
Proof.
  split.
  - induction s as [|b s IH]; cbn [find_sub].
    + destruct (is_prefix p []) eqn:Hp; [|by intros [? ?]].
      intros _. apply is_prefix_true in Hp as [t Ht]. by exists [], t.
    + destruct (is_prefix p (b :: s)) eqn:Hp.
      * intros _. apply is_prefix_true in Hp as [t Ht]. by exists [], t.
      * intros (a & t & ->)%IH. by exists (b :: a), t.
  - intros (a & t & ->). induction a as [|b a IH]; simpl.
    + destruct (p ++ t) eqn:Hpt; simpl; rewrite <- Hpt, is_prefix_app; eauto.
    + destruct (is_prefix _ _); eauto.
Qed.
