(* ===== verification/KvIoctl.v ===== *)
(** * The ioctl interface shared by kernel module and daemon

    [include/kv_ioctl.h]: the command codes, the message structures and their
    memory layout (x86-64: [struct kv_message] is 80 bytes with 4 bytes of
    padding after [status]; [struct kv_snapshot_message] is a 16 byte header,
    12 bytes of fields and 4 of padding, before its entries). *)

From S2P Require Import Prelude CStr.

(** ** Command codes

    [_IOC] of [linux/ioctl.h] packs direction, type, number and size into an
    unsigned int.  It is not part of the program: a parameter, with the
    documented property that the packing loses nothing. *)

Inductive ioc_dir : Type := IOC_WRITE | IOC_READ | IOC_READ_WRITE.

Class IocApi : Type := {
  ioc : ioc_dir → Z → Z → Z → Z;
}.

Definition ioc_args_ok (ty nr size : Z) : Prop :=
  0 <= ty < 256 ∧ 0 <= nr < 256 ∧ 0 <= size < 16384.

Class IocLaws (api : IocApi) : Prop := {
  ioc_u32 d ty nr size : ioc_args_ok ty nr size → is_u32 (ioc d ty nr size);
  ioc_inj d ty nr size d' ty' nr' size' :
    ioc_args_ok ty nr size → ioc_args_ok ty' nr' size' →
    ioc d ty nr size = ioc d' ty' nr' size' →
    d = d' ∧ ty = ty' ∧ nr = nr' ∧ size = size';
}.

Definition MAX_VALUE_LEN : nat := 64.
Definition SUCCESS : Z := 0.
Definition ERROR : Z := 1.

Definition sizeof_kv_message : nat := 80.
Definition sizeof_kv_snapshot_message : nat := 16.

Section Commands.
Context {api : IocApi}.

Definition KV_MAGIC : Z := 103.
Definition KV_INSERT : Z := ioc IOC_WRITE KV_MAGIC 1 (Z.of_nat sizeof_kv_message).
Definition KV_DELETE : Z := ioc IOC_WRITE KV_MAGIC 2 (Z.of_nat sizeof_kv_message).
Definition KV_GET : Z := ioc IOC_READ_WRITE KV_MAGIC 3 (Z.of_nat sizeof_kv_message).
Definition KV_UPDATE : Z := ioc IOC_WRITE KV_MAGIC 4 (Z.of_nat sizeof_kv_message).
Definition KV_SNAPSHOT : Z :=
  ioc IOC_READ_WRITE KV_MAGIC 5 (Z.of_nat sizeof_kv_snapshot_message).
Definition KV_COUNT : Z := ioc IOC_READ KV_MAGIC 6 4.
End Commands.

(** ** [struct kv_message]

    [msg_pad] is the compiler's padding between [status] and [key]; a copy of
    the structure between user and kernel memory copies it too. *)

Record kv_message : Type := mk_msg {
  status : Z;
  msg_pad : bytes;
  key : Z;
  value : bytes;
}.

Definition set_status (z : Z) (m : kv_message) : kv_message :=
  mk_msg z (msg_pad m) (key m) (value m).
Definition set_value (v : bytes) (m : kv_message) : kv_message :=
  mk_msg (status m) (msg_pad m) (key m) v.

Definition msg_ok (m : kv_message) : Prop :=
  is_s32 (status m) ∧ length (msg_pad m) = 4%nat ∧ is_u64 (key m) ∧
  length (value m) = MAX_VALUE_LEN.

Definition off_status : nat := 0.
Definition off_key : nat := 8.
Definition off_value : nat := 16.

(** The object representation of the structure. *)
Definition encode_msg (m : kv_message) : bytes :=
  le_bytes 4 (status m) ++ msg_pad m ++ le_bytes 8 (key m) ++ value m.

Definition decode_msg (bs : bytes) : kv_message :=
  {| status := wrap_s32 (le_value (read_at off_status 4 bs));
     msg_pad := read_at 4 4 bs;
     key := le_value (read_at off_key 8 bs);
     value := read_at off_value MAX_VALUE_LEN bs |}.

(** ** [struct kv_snapshot_message] *)

Record snapshot_header : Type := mk_header {
  snap_status : Z;
  snap_capacity : Z;
  snap_count : Z;
  snap_pad : bytes;
}.

Definition off_snap_status : nat := 0.
Definition off_snap_capacity : nat := 4.
Definition off_snap_count : nat := 8.
Definition off_snap_entries : nat := 16.

Definition header_ok (h : snapshot_header) : Prop :=
  is_s32 (snap_status h) ∧ is_u32 (snap_capacity h) ∧ is_u32 (snap_count h) ∧
  length (snap_pad h) = 4%nat.

Definition encode_header (h : snapshot_header) : bytes :=
  le_bytes 4 (snap_status h) ++ le_bytes 4 (snap_capacity h) ++
  le_bytes 4 (snap_count h) ++ snap_pad h.

Definition decode_header (bs : bytes) : snapshot_header :=
  {| snap_status := wrap_s32 (le_value (read_at off_snap_status 4 bs));
     snap_capacity := le_value (read_at off_snap_capacity 4 bs);
     snap_count := le_value (read_at off_snap_count 4 bs);
     snap_pad := read_at 12 4 bs |}.

(** The entries [0 .. n-1] that follow a header. *)
Definition entry_at (bs : bytes) (i : nat) : kv_message :=
  decode_msg (read_at (off_snap_entries + i * sizeof_kv_message) sizeof_kv_message bs).

(** ** Lemmas *)

Section Distinct.
Context {api : IocApi} {laws : IocLaws api}.

(** The commands' numbers, by which they are told apart. *)
Definition command_codes : list Z :=
  [KV_INSERT; KV_DELETE; KV_GET; KV_UPDATE; KV_SNAPSHOT; KV_COUNT].

Lemma command_codes_NoDup : NoDup command_codes.
Proof.
  unfold command_codes, KV_INSERT, KV_DELETE, KV_GET, KV_UPDATE, KV_SNAPSHOT, KV_COUNT.
  repeat (apply NoDup_cons; split);
    [rewrite ?not_elem_of_cons; repeat split; try apply not_elem_of_nil;
     intros Heq; apply ioc_inj in Heq as (?&?&?&?); try lia;
     unfold ioc_args_ok, KV_MAGIC, sizeof_kv_message, sizeof_kv_snapshot_message; lia ..|].
  apply NoDup_nil_2.
Qed.

Lemma command_codes_u32 : Forall is_u32 command_codes.
Proof.
  repeat constructor; apply ioc_u32;
    unfold ioc_args_ok, KV_MAGIC, sizeof_kv_message, sizeof_kv_snapshot_message; lia.
Qed.
End Distinct.

Lemma wrap_s32_inj_u32 a b : is_u32 a → is_u32 b → wrap_s32 a = wrap_s32 b → a = b.
Proof.
  intros Ha Hb Heq. rewrite <- (wrap_u32_id a), <- (wrap_u32_id b) by done.
  by rewrite <- (wrap_u32_s32 a), <- (wrap_u32_s32 b), Heq.
Qed.

Lemma read_at_app_l off n a b :
  (off + n <= length a)%nat → read_at off n (a ++ b) = read_at off n a.
Proof.
  intros ?. unfold read_at. rewrite drop_app_le by lia.
  rewrite take_app_le; [done|]. rewrite length_drop. lia.
Qed.

Lemma read_at_app_r off n a b :
  (length a <= off)%nat → read_at off n (a ++ b) = read_at (off - length a) n b.
Proof. intros ?. unfold read_at. by rewrite drop_app_ge. Qed.

Lemma read_at_0_length n a : n = length a → read_at 0 n a = a.
Proof. intros ->. unfold read_at. simpl. by rewrite take_ge. Qed.

Lemma length_read_at off n a : (off + n <= length a)%nat → length (read_at off n a) = n.
Proof. intros ?. unfold read_at. rewrite length_take, length_drop. lia. Qed.

Lemma lookup_read_at off n bs i :
  read_at off n bs !! i = if decide (i < n)%nat then bs !! (off + i)%nat else None.
Proof.
  unfold read_at. case_decide.
  - by rewrite lookup_take_lt, lookup_drop.
  - by rewrite lookup_take_ge by lia.
Qed.

(** Reads beside a write see the old bytes. *)
Lemma read_write_ne off n o d bs :
  (o + length d <= length bs)%nat → (off + n <= o ∨ o + length d <= off)%nat →
  read_at off n (write_at o d bs) = read_at off n bs.
Proof.
  intros Hl Hne. apply list_eq. intros i. rewrite !lookup_read_at. case_decide; [|done].
  unfold write_at. destruct (decide (off + i < o)%nat).
  - rewrite lookup_app_l by (rewrite length_take; lia). by rewrite lookup_take_lt.
  - rewrite lookup_app_r, length_take by (rewrite length_take; lia).
    rewrite lookup_app_r by lia. rewrite lookup_drop. f_equal. lia.
Qed.

Lemma read_write_eq off n d bs :
  n = length d → (off + n <= length bs)%nat → read_at off n (write_at off d bs) = d.
Proof. intros ->. apply read_write_at. Qed.

Lemma read_at_read_at o n off m bs :
  (o + n <= m)%nat → read_at o n (read_at off m bs) = read_at (off + o) n bs.
Proof.
  intros ?. apply list_eq. intros i. rewrite !lookup_read_at. case_decide; [|done].
  rewrite decide_True by lia. f_equal. lia.
Qed.

(** Reading a field of a structure given as the concatenation of its fields. *)
Ltac read_fields :=
  repeat (first
    [ rewrite read_at_app_r by (rewrite ?length_app, ?length_le_bytes; simpl in *; lia)
    | rewrite read_at_app_l by (rewrite ?length_app, ?length_le_bytes; simpl in *; lia)
    | rewrite read_at_0_length by (rewrite ?length_app, ?length_le_bytes; simpl in *; lia)];
    rewrite ?length_le_bytes; cbn [Nat.sub]).

Lemma length_encode_msg m :
  length (msg_pad m) = 4%nat → length (value m) = MAX_VALUE_LEN →
  length (encode_msg m) = sizeof_kv_message.
Proof.
  intros Hp Hv. unfold encode_msg.
  rewrite !length_app, !length_le_bytes, Hp, Hv. done.
Qed.

Lemma length_encode_header h :
  length (snap_pad h) = 4%nat → length (encode_header h) = sizeof_kv_snapshot_message.
Proof. intros Hp. unfold encode_header. by rewrite !length_app, !length_le_bytes, Hp. Qed.

Lemma le_value_u64 z : is_u64 z → le_value (le_bytes 8 z) = z.
Proof.
  intros [??]. rewrite le_value_bytes. change (256 ^ Z.of_nat 8) with 18446744073709551616.
  apply Z.mod_small. unfold u64_max in *. lia.
Qed.

Lemma le_value_u32 z : is_u32 z → le_value (le_bytes 4 z) = z.
Proof.
  intros [??]. rewrite le_value_bytes. change (256 ^ Z.of_nat 4) with 4294967296.
  apply Z.mod_small. unfold u32_max in *. lia.
Qed.

Lemma le_value_s32 z : is_s32 z → wrap_s32 (le_value (le_bytes 4 z)) = z.
Proof.
  intros Hz. rewrite le_value_bytes. change (z mod 256 ^ Z.of_nat 4) with (wrap_u32 z).
  rewrite wrap_s32_u32. by apply wrap_s32_id.
Qed.

Lemma decode_encode_msg m : msg_ok m → decode_msg (encode_msg m) = m.
Proof.
  destruct m as [st pad k v]. intros (Hs & Hp & Hk & Hv).
  cbn [status msg_pad key value] in *. unfold MAX_VALUE_LEN in Hv.
  unfold decode_msg, encode_msg, off_status, off_key, off_value, MAX_VALUE_LEN.
  cbn [status msg_pad key value].
  f_equal; read_fields; rewrite ?Hp; cbn [Nat.sub]; read_fields.
  - by apply le_value_s32.
  - done.
  - by apply le_value_u64.
  - done.
Qed.

Lemma decode_encode_header h : header_ok h → decode_header (encode_header h) = h.
Proof.
  destruct h as [st cap cnt pad]. intros (Hs & Hc & Hn & Hp).
  cbn [snap_status snap_capacity snap_count snap_pad] in *.
  unfold decode_header, encode_header, off_snap_status, off_snap_capacity, off_snap_count.
  cbn [snap_status snap_capacity snap_count snap_pad].
  f_equal; read_fields; eauto using le_value_s32, le_value_u32.
Qed.

(** [le_bytes] sees its argument modulo the width. *)
Lemma le_bytes_mod n z : le_bytes n (z mod 256 ^ Z.of_nat n) = le_bytes n z.
Proof.
  rewrite <- le_value_bytes. rewrite <- (length_le_bytes n z) at 1. apply le_bytes_value.
Qed.

Lemma le_bytes_s32 bs : length bs = 4%nat → le_bytes 4 (wrap_s32 (le_value bs)) = bs.
Proof.
  intros Hl. rewrite <- le_bytes_mod. change (256 ^ Z.of_nat 4) with 4294967296.
  change (wrap_s32 (le_value bs) mod 4294967296) with (wrap_u32 (wrap_s32 (le_value bs))).
  rewrite wrap_u32_s32. change (wrap_u32 (le_value bs)) with (le_value bs mod 256 ^ Z.of_nat 4).
  rewrite le_bytes_mod, <- Hl. apply le_bytes_value.
Qed.

Lemma read_at_split off n m bs :
  (off + n + m <= length bs)%nat →
  read_at off (n + m) bs = read_at off n bs ++ read_at (off + n) m bs.
Proof.
  intros Hl. unfold read_at. rewrite <- (take_drop n (take (n + m) (drop off bs))).
  rewrite take_take, skipn_firstn_comm, drop_drop. do 3 f_equal; lia.
Qed.

(** Any 80 bytes are the image of a message. *)
Lemma encode_decode_msg bs :
  length bs = sizeof_kv_message → encode_msg (decode_msg bs) = bs.
Proof.
  unfold sizeof_kv_message. intros Hl. unfold encode_msg, decode_msg. cbn [status msg_pad key value].
  unfold off_status, off_key, off_value, MAX_VALUE_LEN.
  rewrite le_bytes_s32 by (apply length_read_at; lia).
  assert (length (read_at 8 8 bs) = 8%nat) as H8 by (apply length_read_at; lia).
  rewrite <- H8 at 1. rewrite le_bytes_value.
  rewrite <- (read_at_split 8 8 64), <- (read_at_split 4 4 72), <- (read_at_split 0 4 76) by lia.
  apply read_at_0_length. lia.
Qed.

Lemma le_value_read_range n bs off :
  0 <= le_value (read_at off n bs) < 256 ^ Z.of_nat n.
Proof.
  pose proof (le_value_range (read_at off n bs)) as [??].
  assert (length (read_at off n bs) <= n)%nat by (unfold read_at; rewrite length_take; lia).
  split; [lia|]. eapply Z.lt_le_trans; [done|]. apply Z.pow_le_mono_r; lia.
Qed.

(** Whatever the bytes a caller passes, the kernel's copy is a well-formed
    message. *)
Lemma decode_msg_ok bs : length bs = sizeof_kv_message → msg_ok (decode_msg bs).
Proof.
  intros Hl. unfold sizeof_kv_message in Hl. repeat split; simpl.
  1-2: pose proof (wrap_s32_range (le_value (read_at off_status 4 bs))) as [??]; done.
  - apply length_read_at. lia.
  - apply (le_value_read_range 8).
  - pose proof (le_value_read_range 8 bs off_key) as [_ Hlt].
    change (256 ^ Z.of_nat 8) with 18446744073709551616 in Hlt. unfold u64_max. lia.
  - apply length_read_at. unfold off_value, MAX_VALUE_LEN. lia.
Qed.

Lemma decode_header_ok bs :
  length bs = sizeof_kv_snapshot_message → header_ok (decode_header bs).
Proof.
  intros Hl. unfold sizeof_kv_snapshot_message in Hl.
  pose proof (le_value_read_range 4 bs off_snap_capacity) as [H1 H2].
  pose proof (le_value_read_range 4 bs off_snap_count) as [H3 H4].
  change (256 ^ Z.of_nat 4) with 4294967296 in *.
  repeat split; simpl; unfold u32_max; try lia.
  1-2: pose proof (wrap_s32_range (le_value (read_at off_snap_status 4 bs))) as [??]; done.
  apply length_read_at. lia.
Qed.

#[export] Hint Resolve decode_msg_ok decode_header_ok : kv.
