(* ===== verification/KMem.v ===== *)
(** * Kernel memory, spinlocks and the kernel services the module calls

    The module's C code runs on a heap of allocated objects.  Its accesses to
    that heap and its calls of the kernel's allocator, string and spinlock
    functions are the actions [kact]; [kexec] gives their documented meaning,
    with a [fault] for every access C leaves undefined: a null or freed
    pointer, an index or an offset out of bounds, memory that was never
    initialised, a string without its terminator, a double free, an unlock of a
    free lock.

    What the kernel is free to choose is a parameter ([KernelApi]): the hash
    function of [linux/hashtable.h], which address an allocation returns or
    whether it fails, what a fresh buffer contains, [strscpy], and how much of a
    copy to user space is done when it fails. *)

From S2P Require Import Prelude Prog CStr.

Abbreviation addr := positive.

(** A pointer into the heap; [None] is [NULL]. *)
Abbreviation ptr := (option positive).

(** ** Heap objects

    An [hlist_head] is the list of the entries linked from it, in order; its
    [first]/[next]/[pprev] words are the kernel's business ([linux/list.h]).
    [None] in an array or a field is memory nobody has written yet. *)
Inductive obj : Type :=
  | OBytes (bs : bytes)
  | OHeads (hs : list (option (list addr)))
  | OLocks (ls : list (option bool))
  | OEntry (e_key : option Z) (e_value : option ptr).

(** What an allocation asks for: a byte buffer, an array of [n] list heads, an
    array of [n] spinlocks, or a [struct kv_hash_entry]. *)
Inductive kind : Type :=
  | KBytes (n : nat)
  | KHeads (n : nat)
  | KLocks (n : nat)
  | KEntry.

(** The flags of an allocation, as far as they say whether it may sleep. *)
Inductive gfp : Type := GFP_KERNEL | GFP_ATOMIC.

Abbreviation heap := (gmap addr obj).

Class KernelApi : Type := {
  (** [hash_min (key, bits)]: the bucket of a key in a table of [2^bits]. *)
  hash_min : Z → Z → Z;
  (** The address the [n]-th allocation gets on this heap, or [NULL]. *)
  kmalloc_addr : nat → heap → ptr;
  (** What the [n]-th allocation finds in its [len] bytes. *)
  kmalloc_garbage : nat → nat → bytes;
  (** [strscpy (dst, src, size)]: the destination buffer afterwards. *)
  strscpy : bytes → bytes → nat → bytes;
  (** How far a copy of [n] bytes to user space gets when only the first [room]
      bytes there can be written. *)
  copied_before_fault : nat → nat → nat;
}.

Class KernelLaws (api : KernelApi) : Prop := {
  hash_min_range k bits :
    is_u64 k → 1 <= bits <= 31 → 0 <= hash_min k bits < 2 ^ bits;
  kmalloc_addr_fresh n h a : kmalloc_addr n h = Some a → h !! a = None;
  length_kmalloc_garbage n len : length (kmalloc_garbage n len) = len;
  length_strscpy dst src n :
    (0 < n <= length dst)%nat → length (strscpy dst src n) = length dst;
  c_str_strscpy dst src n :
    no_nul src → (0 < n <= length dst)%nat →
    c_str (strscpy dst src n) = Some (take (n - 1) src);
}.

Inductive fault : Type :=
  | NullDeref
  | WildPointer
  | OutOfBounds
  | Uninitialised
  | UnterminatedString
  | BadUnlock
  | BadShift.

Record kst : Type := mk_kst {
  k_heap : heap;
  (** Allocation calls made so far. *)
  k_allocs : nat;
}.

Inductive kact : Type → Type :=
  (** [kmalloc], [kmalloc_array]. *)
  | Kmalloc (k : kind) (flags : gfp) : kact ptr
  (** [kstrdup (s, flags)] of the C string in a [char] array. *)
  | Kstrdup (buf : bytes) (flags : gfp) : kact ptr
  | Kfree (p : ptr) : kact unit
  (** The list starting at [&heads[i]]; and linking a new list there. *)
  | HeadRead (p : ptr) (i : Z) : kact (list addr)
  | HeadWrite (p : ptr) (i : Z) (l : list addr) : kact unit
  (** [e->key], [e->value] and stores to them. *)
  | GetKey (e : addr) : kact Z
  | GetValue (e : addr) : kact ptr
  | SetKey (e : addr) (k : Z) : kact unit
  | SetValue (e : addr) (p : ptr) : kact unit
  (** The C string at [p]: what [strlen], [memcpy] of a whole string and
      [strscpy] read. *)
  | StrRead (p : ptr) : kact bytes
  | BytesRead (p : ptr) (off n : nat) : kact bytes
  | BytesWrite (p : ptr) (off : nat) (bs : bytes) : kact unit
  | SpinLockInit (p : ptr) (i : Z) : kact unit
  | SpinLock (p : ptr) (i : Z) : kact unit
  | SpinUnlock (p : ptr) (i : Z) : kact unit
  (** Undefined behaviour the code runs into. *)
  | Trap (f : fault) : kact Empty_set.

Abbreviation kprog := (prog kact).

Section Exec.
Context {api : KernelApi}.

Definition fresh_obj (n : nat) (k : kind) : obj :=
  match k with
  | KBytes len => OBytes (kmalloc_garbage n len)
  | KHeads len => OHeads (replicate len None)
  | KLocks len => OLocks (replicate len None)
  | KEntry => OEntry None None
  end.

Definition with_heap (s : kst) (h : heap) : kst := mk_kst h (k_allocs s).

(** Allocate [o]. *)
Definition alloc (o : obj) (s : kst) : outcome fault kst ptr :=
  match kmalloc_addr (k_allocs s) (k_heap s) with
  | Some a => Done (Some a) (mk_kst (<[a := o]> (k_heap s)) (S (k_allocs s)))
  | None => Done None (mk_kst (k_heap s) (S (k_allocs s)))
  end.

(** Dereference a pointer. *)
Definition deref {X : Type} (p : ptr) (s : kst)
    (f : addr → obj → outcome fault kst X) : outcome fault kst X :=
  match p with
  | None => Faulted NullDeref
  | Some a =>
      match k_heap s !! a with
      | Some o => f a o
      | None => Faulted WildPointer
      end
  end.

Definition in_array {A X : Type} (i : Z) (l : list A)
    (f : nat → A → outcome fault kst X) : outcome fault kst X :=
  if decide (0 <= i) then
    match l !! Z.to_nat i with
    | Some x => f (Z.to_nat i) x
    | None => Faulted OutOfBounds
    end
  else Faulted OutOfBounds.

Definition initialised {A X : Type} (x : option A)
    (f : A → outcome fault kst X) : outcome fault kst X :=
  match x with Some v => f v | None => Faulted Uninitialised end.

Definition kexec (X : Type) (e : kact X) (s : kst) : outcome fault kst X :=
  match e in kact X return outcome fault kst X with
  | Kmalloc k _ => alloc (fresh_obj (k_allocs s) k) s
  | Kstrdup buf _ =>
      match c_str buf with
      | Some str => alloc (OBytes (str ++ [NUL])) s
      | None => Faulted UnterminatedString
      end
  | Kfree None => Done tt s
  | Kfree (Some a) =>
      deref (Some a) s (λ a _, Done tt (with_heap s (delete a (k_heap s))))
  | HeadRead p i =>
      deref p s (λ _ o,
        match o with
        | OHeads hs => in_array i hs (λ _ x, initialised x (λ l, Done l s))
        | _ => Faulted WildPointer
        end)
  | HeadWrite p i l =>
      deref p s (λ a o,
        match o with
        | OHeads hs =>
            in_array i hs (λ j _,
              Done tt (with_heap s (<[a := OHeads (<[j := Some l]> hs)]> (k_heap s))))
        | _ => Faulted WildPointer
        end)
  | GetKey e =>
      deref (Some e) s (λ _ o,
        match o with
        | OEntry k _ => initialised k (λ k, Done k s)
        | _ => Faulted WildPointer
        end)
  | GetValue e =>
      deref (Some e) s (λ _ o,
        match o with
        | OEntry _ v => initialised v (λ v, Done v s)
        | _ => Faulted WildPointer
        end)
  | SetKey e k =>
      deref (Some e) s (λ a o,
        match o with
        | OEntry _ v => Done tt (with_heap s (<[a := OEntry (Some k) v]> (k_heap s)))
        | _ => Faulted WildPointer
        end)
  | SetValue e p =>
      deref (Some e) s (λ a o,
        match o with
        | OEntry k _ => Done tt (with_heap s (<[a := OEntry k (Some p)]> (k_heap s)))
        | _ => Faulted WildPointer
        end)
  | StrRead p =>
      deref p s (λ _ o,
        match o with
        | OBytes bs =>
            match c_str bs with
            | Some str => Done str s
            | None => Faulted UnterminatedString
            end
        | _ => Faulted WildPointer
        end)
  | BytesRead p off n =>
      deref p s (λ _ o,
        match o with
        | OBytes bs =>
            if decide (off + n <= length bs)%nat then Done (read_at off n bs) s
            else Faulted OutOfBounds
        | _ => Faulted WildPointer
        end)
  | BytesWrite p off d =>
      deref p s (λ a o,
        match o with
        | OBytes bs =>
            if decide (off + length d <= length bs)%nat
            then Done tt (with_heap s (<[a := OBytes (write_at off d bs)]> (k_heap s)))
            else Faulted OutOfBounds
        | _ => Faulted WildPointer
        end)
  | SpinLockInit p i =>
      deref p s (λ a o,
        match o with
        | OLocks ls =>
            in_array i ls (λ j _,
              Done tt (with_heap s (<[a := OLocks (<[j := Some false]> ls)]> (k_heap s))))
        | _ => Faulted WildPointer
        end)
  | SpinLock p i =>
      deref p s (λ a o,
        match o with
        | OLocks ls =>
            in_array i ls (λ j x, initialised x (λ b : bool,
              if b then Blocked
              else Done tt (with_heap s (<[a := OLocks (<[j := Some true]> ls)]> (k_heap s)))))
        | _ => Faulted WildPointer
        end)
  | SpinUnlock p i =>
      deref p s (λ a o,
        match o with
        | OLocks ls =>
            in_array i ls (λ j x, initialised x (λ b : bool,
              if b
              then Done tt (with_heap s (<[a := OLocks (<[j := Some false]> ls)]> (k_heap s)))
              else Faulted BadUnlock))
        | _ => Faulted WildPointer
        end)
  | Trap f => Faulted f
  end.

(** Sequential execution of kernel code. *)
Definition krun {A : Type} (p : kprog A) (s : kst) : outcome fault kst A := run kexec p s.

(** ** Allocations under a spinlock

    [GFP_KERNEL] lets the allocator sleep, [GFP_ATOMIC] does not; kernel code must
    not sleep while it holds a spinlock.  [sleeps_atomic] counts, along the sequential
    execution of a program, the calls that may sleep made with a lock held. *)
Definition may_sleep {X : Type} (e : kact X) : bool :=
  match e with
  | Kmalloc _ flags | Kstrdup _ flags => match flags with GFP_KERNEL => true | GFP_ATOMIC => false end
  | _ => false
  end.

Definition locks_after {X : Type} (e : kact X) (held : nat) : nat :=
  match e with SpinLock _ _ => S held | SpinUnlock _ _ => Nat.pred held | _ => held end.

Fixpoint sleeps_atomic {A : Type} (p : kprog A) (held : nat) (s : kst) : nat :=
  match p with
  | Ret _ => 0
  | Vis e k =>
      ((if may_sleep e && bool_decide (0 < held)%nat then 1 else 0) +
       match kexec _ e s with
       | Done x s' => sleeps_atomic (k x) (locks_after e held) s'
       | _ => 0
       end)%nat
  end.

End Exec.

(** ** Control structures of the C code

    A loop body returns [Some r] to leave the function with [r], and [None]
    to go on. *)

(** [hlist_for_each_entry]: over the entries of a list, in order. *)
Fixpoint hlist_for_each_entry {R : Type} (l : list addr) (body : addr → kprog (option R))
    : kprog (option R) :=
  match l with
  | [] => mret None
  | e :: l' =>
      r ← body e;
      match r with
      | Some x => mret (Some x)
      | None => hlist_for_each_entry l' body
      end
  end.

(** A loop that threads local variables through its body: [inl] goes on with
    their new values, [inr] leaves the function. *)
Fixpoint for_each_acc {B R : Type} (l : list addr) (acc : B)
    (body : addr → B → kprog (B + R)) : kprog (B + R) :=
  match l with
  | [] => mret (inl acc)
  | e :: l' =>
      r ← body e acc;
      match r with
      | inl acc' => for_each_acc l' acc' body
      | inr x => mret (inr x)
      end
  end.

(** [for (i = start; i < start + cnt; i++)]. *)
Fixpoint for_range {B R : Type} (start cnt : nat) (acc : B)
    (body : Z → B → kprog (B + R)) : kprog (B + R) :=
  match cnt with
  | O => mret (inl acc)
  | S cnt' =>
      r ← body (Z.of_nat start) acc;
      match r with
      | inl acc' => for_range (S start) cnt' acc' body
      | inr x => mret (inr x)
      end
  end.

(** [1U << bits]: undefined from 32 on. *)
Definition shl1_u32 (bits : Z) : kprog nat :=
  if decide (0 <= bits < 32) then mret (Z.to_nat (2 ^ bits))
  else (_ ← call (Trap BadShift); mret 0%nat).

(** [hlist_add_head] and [hlist_del] on the list at [&heads[i]]. *)
Definition hlist_add_head (e : addr) (heads : ptr) (i : Z) : kprog unit :=
  l ← call (HeadRead heads i);
  call (HeadWrite heads i (e :: l)).

Definition hlist_del (e : addr) (heads : ptr) (i : Z) : kprog unit :=
  l ← call (HeadRead heads i);
  call (HeadWrite heads i (filter (λ e', e' ≠ e) l)).
