(* ===== verification/KvHash.v ===== *)
(** * [kernel/kv_hash.c]: the hash table of the kernel module

    One definition per function of the file, in its order.  A [struct
    hash_table] is passed as a pointer in C and no function keeps it.  Only
    [kv_hash_init] and [kv_hash_destroy] write to it: the assignments of the first
    are actions of their own, the second returns what it leaves, and to the others
    the structure is a value ([None] for a null pointer). *)

From S2P Require Import Prelude Prog CStr KvIoctl KMem.

(** Error numbers of [linux/errno.h]. *)
Definition ENOENT : Z := 2.
Definition ENOMEM : Z := 12.
Definition EFAULT : Z := 14.
Definition EINVAL : Z := 22.
Definition ENOSPC : Z := 28.

Record hash_table : Type := mk_ht {
  buckets : ptr;
  bucket_locks : ptr;
  bits : Z;
}.

(** Code that fills a table: actions on the kernel's heap, and assignments to the
    fields of the [struct hash_table] itself. *)
Inductive tact : Type → Type :=
  | OnHeap {X : Type} (e : kact X) : tact X
  | Assign (f : hash_table → hash_table) : tact unit.

Abbreviation tprog := (prog tact).

Definition on_heap {A : Type} (p : kprog A) : tprog A := prog_map (λ X e, OnHeap e) p.

(** [memset (ht, 0, sizeof *ht)], and stores to the fields. *)
Definition clear_table (t : hash_table) : hash_table := mk_ht None None 0.
Definition set_buckets (p : ptr) (t : hash_table) : hash_table := mk_ht p (bucket_locks t) (bits t).
Definition set_locks (p : ptr) (t : hash_table) : hash_table := mk_ht (buckets t) p (bits t).
Definition set_bits (n : Z) (t : hash_table) : hash_table := mk_ht (buckets t) (bucket_locks t) n.

Section KvHash.
Context {api : KernelApi}.

(** The meaning of such code, on the table and the heap. *)
Definition texec (X : Type) (e : tact X) (s : hash_table * kst)
    : outcome fault (hash_table * kst) X :=
  match e in tact X return outcome fault (hash_table * kst) X with
  | OnHeap e =>
      match kexec _ e s.2 with
      | Done x k => Done x (s.1, k)
      | Blocked => Blocked
      | Faulted f => Faulted f
      end
  | Assign f => Done tt (f s.1, s.2)
  end.

Definition kv_bucket (ht : hash_table) (k : Z) : Z := hash_min k (bits ht).

(** [*ht] is the global [kv_store] of the module, and others may look at it while
    it is being filled: its assignments are actions of their own, in the order of
    the source. *)
Definition kv_hash_init (ht : option hash_table) (nbits : Z) : tprog Z :=
  match ht with
  | None => mret EINVAL
  | Some _ =>
      _ ← call (Assign clear_table);
      _ ← call (Assign (set_bits nbits));
      n ← on_heap (shl1_u32 nbits);
      bs ← call (OnHeap (Kmalloc (KHeads n) GFP_KERNEL));
      _ ← call (Assign (set_buckets bs));
      match bs with
      | None =>
          _ ← call (Assign (set_bits 0));
          mret (- ENOMEM)
      | Some _ =>
          ls ← call (OnHeap (Kmalloc (KLocks n) GFP_KERNEL));
          _ ← call (Assign (set_locks ls));
          match ls with
          | None =>
              _ ← call (OnHeap (Kfree bs));
              _ ← call (Assign (set_buckets None));
              _ ← call (Assign (set_bits 0));
              mret (- ENOMEM)
          | Some _ =>
              _ ← on_heap (for_range (R := Empty_set) 0 n tt (λ i _,
                    _ ← call (HeadWrite bs i []);
                    _ ← call (SpinLockInit ls i);
                    mret (inl tt)));
              mret 0
          end
      end
  end.

Definition kv_hash_destroy (ht : option hash_table) : kprog (option hash_table) :=
  match ht with
  | None => mret None
  | Some t =>
      n ← shl1_u32 (bits t);
      _ ← for_range (R := Empty_set) 0 n tt (λ bucket _,
            l ← call (HeadRead (buckets t) bucket);
            _ ← hlist_for_each_entry (R := Empty_set) l (λ e,
                  _ ← hlist_del e (buckets t) bucket;
                  v ← call (GetValue e);
                  _ ← call (Kfree v);
                  _ ← call (Kfree (Some e));
                  mret None);
            mret (inl tt));
      _ ← call (Kfree (buckets t));
      mret (Some (mk_ht None (bucket_locks t) 0))
  end.

(** [value] is the caller's [char] array, [None] for a null pointer. *)
Definition kv_hash_add (ht : option hash_table) (k : Z) (value : option bytes) : kprog Z :=
  match ht, value with
  | Some (mk_ht (Some _) _ _ as t), Some buf =>
      newstr ← call (Kstrdup buf GFP_KERNEL);
      match newstr with
      | None => mret (- ENOMEM)
      | Some _ =>
          let bucket := kv_bucket t k in
          _ ← call (SpinLock (bucket_locks t) bucket);
          l ← call (HeadRead (buckets t) bucket);
          (* update existing key *)
          found ← hlist_for_each_entry l (λ e,
                    ek ← call (GetKey e);
                    if decide (ek = k) then
                      old ← call (GetValue e);
                      _ ← call (Kfree old);
                      _ ← call (SetValue e newstr);
                      _ ← call (SpinUnlock (bucket_locks t) bucket);
                      mret (Some 0)
                    else mret None);
          match found with
          | Some r => mret r
          | None =>
              (* insert new *)
              e ← call (Kmalloc KEntry GFP_KERNEL);
              match e with
              | None =>
                  _ ← call (Kfree newstr);
                  _ ← call (SpinUnlock (bucket_locks t) bucket);
                  mret (- ENOMEM)
              | Some a =>
                  _ ← call (SetKey a k);
                  _ ← call (SetValue a newstr);
                  _ ← hlist_add_head a (buckets t) bucket;
                  _ ← call (SpinUnlock (bucket_locks t) bucket);
                  mret 0
              end
          end
      end
  | _, _ => mret (- EINVAL)
  end.

Definition kv_hash_remove (ht : option hash_table) (k : Z) : kprog Z :=
  match ht with
  | Some (mk_ht (Some _) _ _ as t) =>
      let bucket := kv_bucket t k in
      _ ← call (SpinLock (bucket_locks t) bucket);
      l ← call (HeadRead (buckets t) bucket);
      found ← hlist_for_each_entry l (λ e,
                ek ← call (GetKey e);
                if decide (ek = k) then
                  _ ← hlist_del e (buckets t) bucket;
                  v ← call (GetValue e);
                  _ ← call (Kfree v);
                  _ ← call (Kfree (Some e));
                  _ ← call (SpinUnlock (bucket_locks t) bucket);
                  mret (Some 0)
                else mret None);
      match found with
      | Some r => mret r
      | None =>
          _ ← call (SpinUnlock (bucket_locks t) bucket);
          mret (- ENOENT)
      end
  | _ => mret (- EINVAL)
  end.

(** [out_buf] is the caller's array, [None] for a null pointer; the result is
    the return value and the array afterwards. *)
Definition kv_hash_lookup (ht : option hash_table) (k : Z) (out_buf : option bytes)
    (out_buflen : nat) : kprog (Z * option bytes) :=
  match ht, out_buf with
  | Some (mk_ht (Some _) _ _ as t), Some out =>
      if decide (out_buflen = 0%nat) then mret (- EINVAL, out_buf) else
      let bucket := kv_bucket t k in
      _ ← call (SpinLock (bucket_locks t) bucket);
      l ← call (HeadRead (buckets t) bucket);
      found ← hlist_for_each_entry l (λ e,
                ek ← call (GetKey e);
                if decide (ek = k) then
                  v ← call (GetValue e);
                  str ← call (StrRead v);
                  let len := length str in
                  if decide (out_buflen < len + 1)%nat then
                    _ ← call (SpinUnlock (bucket_locks t) bucket);
                    mret (Some (- ENOSPC, out))
                  else if decide (length out < len + 1)%nat then
                    _ ← call (Trap OutOfBounds);
                    mret None
                  else
                    let out' := write_at 0 (str ++ [NUL]) out in
                    _ ← call (SpinUnlock (bucket_locks t) bucket);
                    mret (Some (Z.of_nat len, out'))
                else mret None);
      match found with
      | Some (r, out') => mret (r, Some out')
      | None =>
          _ ← call (SpinUnlock (bucket_locks t) bucket);
          mret (- ENOENT, out_buf)
      end
  | _, _ => mret (- EINVAL, out_buf)
  end.

(** [count] is an [int]; the kernel is built with wrapping signed overflow. *)
Definition kv_hash_count (ht : option hash_table) : kprog Z :=
  match ht with
  | Some (mk_ht (Some _) _ _ as t) =>
      n ← shl1_u32 (bits t);
      r ← for_range (R := Empty_set) 0 n 0 (λ bucket count,
            _ ← call (SpinLock (bucket_locks t) bucket);
            l ← call (HeadRead (buckets t) bucket);
            c ← for_each_acc (R := Empty_set) l count (λ _ count,
                  mret (inl (wrap_s32 (count + 1))));
            _ ← call (SpinUnlock (bucket_locks t) bucket);
            mret c);
      match r with inl count => mret count | inr e => Empty_set_rect (λ _, kprog Z) e end
  | _ => mret (- EINVAL)
  end.

(** One entry of the output array at [base]: [entries[i].status = 0],
    [memset] and [strscpy] of the value, and the key. *)
Definition snapshot_store (p : ptr) (base : nat) (i : nat) (e : addr) : kprog unit :=
  let at_ := (base + i * sizeof_kv_message)%nat in
  _ ← call (BytesWrite p (at_ + off_status) (le_bytes 4 0));
  _ ← call (BytesWrite p (at_ + off_value) (zeros MAX_VALUE_LEN));
  ek ← call (GetKey e);
  _ ← call (BytesWrite p (at_ + off_key) (le_bytes 8 ek));
  v ← call (GetValue e);
  str ← call (StrRead v);
  dst ← call (BytesRead p (at_ + off_value) MAX_VALUE_LEN);
  call (BytesWrite p (at_ + off_value) (strscpy dst str MAX_VALUE_LEN)).

(** [entries] is a pointer into a buffer, given as the buffer and an offset;
    the result is the return value and [*out_count], [None] when the function
    leaves it unwritten.  [count] is a [u32] that stays below [max_entries]. *)
Definition kv_hash_snapshot (ht : option hash_table) (entries : option (addr * nat))
    (max_entries : Z) : kprog (Z * option Z) :=
  match ht, entries with
  | Some (mk_ht (Some _) _ _ as t), Some (p, base) =>
      if decide (max_entries = 0) then mret (- EINVAL, None) else
      n ← shl1_u32 (bits t);
      r ← for_range 0 n 0 (λ bucket count,
            _ ← call (SpinLock (bucket_locks t) bucket);
            l ← call (HeadRead (buckets t) bucket);
            c ← for_each_acc l count (λ e count,
                  if decide (max_entries <= count) then
                    _ ← call (SpinUnlock (bucket_locks t) bucket);
                    mret (inr (0, Some count))
                  else
                    _ ← snapshot_store (Some p) base (Z.to_nat count) e;
                    mret (inl (wrap_u32 (count + 1))));
            match c with
            | inl count' =>
                _ ← call (SpinUnlock (bucket_locks t) bucket);
                mret (inl count')
            | inr r => mret (inr r)
            end);
      match r with
      | inl count => mret (0, Some count)
      | inr r => mret r
      end
  | _, _ => mret (- EINVAL, None)
  end.

End KvHash.
