(* ===== verification/KLogic.v ===== *)
(** * A program logic for kernel code under per-bucket spinlocks

    Every bucket's list head and the nodes linked from it belong to the bucket's
    spinlock.  A thread owns a private part of the heap and, while it holds a
    lock, the nodes of that bucket; [kwp] is a weakest precondition that lets a
    program touch only what it owns.  A critical section ends by giving back a
    well-formed chain and is recorded as a [commit]: the bucket, its chain
    before and its chain after.

    [Soundness] connects [kwp] to the semantics of a pool of threads: no thread
    ever faults, the chains of the free buckets are well formed in every
    reachable state, and the commits replay, in the order they happened, from the
    initial table to the current one.  The sequential theorems are the case of
    one thread. *)

From S2P Require Import Prelude Prog CStr KvIoctl KMem.

(** ** Chains *)

Record node : Type := mk_node {
  n_addr : addr;
  n_key : Z;
  n_vaddr : addr;
  n_val : bytes;
}.

Fixpoint chain_addrs (c : list node) : list addr :=
  match c with
  | [] => []
  | n :: c' => n_addr n :: n_vaddr n :: chain_addrs c'
  end.

(** The heap cells of one node: the entry and the string it points to. *)
Definition node_heap (n : node) : heap :=
  <[n_addr n := OEntry (Some (n_key n)) (Some (Some (n_vaddr n)))]>
    {[n_vaddr n := OBytes (n_val n ++ [NUL])]}.

Fixpoint chain_heap (c : list node) : heap :=
  match c with
  | [] => ∅
  | n :: c' => node_heap n ∪ chain_heap c'
  end.

(** The key-value pairs of a chain, in list order. *)
Definition chain_kvs (c : list node) : list (Z * bytes) := (λ n, (n_key n, n_val n)) <$> c.

(** The values the table stores: C strings that fit [MAX_VALUE_LEN]. *)
Definition value_ok (v : bytes) : Prop := no_nul v ∧ (length v < MAX_VALUE_LEN)%nat.

Definition commit : Type := nat * list node * list node.

Record tst : Type := mk_tst {
  (** The heap cells the thread owns. *)
  t_heap : heap;
  (** The bucket it holds, with the chain it found and the list of entries
      linked from the head now. *)
  t_held : option (nat * list node * list addr);
  (** Its critical sections so far. *)
  t_hist : list commit;
}.

Definition set_heap (t : tst) (h : heap) : tst := mk_tst h (t_held t) (t_hist t).
Definition set_held (t : tst) (x : option (nat * list node * list addr)) : tst :=
  mk_tst (t_heap t) x (t_hist t).

(** Compute the fields of an updated thread state. *)
Ltac tst_simpl := unfold set_heap, set_held in *; cbn [t_heap t_held t_hist] in *.

(** ** Chain lemmas *)

Lemma lookup_node_heap n a o :
  node_heap n !! a = Some o →
  (a = n_addr n ∧ o = OEntry (Some (n_key n)) (Some (Some (n_vaddr n)))) ∨
  (a ≠ n_addr n ∧ a = n_vaddr n ∧ o = OBytes (n_val n ++ [NUL])).
Proof.
  unfold node_heap. intros [[<- <-]|[? [<- <-]%lookup_singleton_Some]]%lookup_insert_Some;
    auto.
Qed.

Lemma lookup_chain_heap_addrs c a o : chain_heap c !! a = Some o → a ∈ chain_addrs c.
Proof.
  induction c as [|n c IH]; simpl; [by rewrite lookup_empty|].
  intros [H|[_ H]]%lookup_union_Some_raw.
  - apply lookup_node_heap in H as [[-> _]|(_ & -> & _)]; set_solver.
  - apply IH in H. set_solver.
Qed.

Lemma chain_addrs_lookup c a : a ∈ chain_addrs c → is_Some (chain_heap c !! a).
Proof.
  induction c as [|n c IH]; simpl; [set_solver|]. intros Ha.
  apply lookup_union_is_Some.
  apply elem_of_cons in Ha as [->|[->|Ha]%elem_of_cons]; [left|left|right; by apply IH];
    unfold node_heap; rewrite lookup_insert_is_Some, lookup_singleton_is_Some;
    destruct (decide (n_addr n = n_vaddr n)); auto.
Qed.

Lemma chain_heap_disjoint_notin c h :
  (∀ a, a ∈ chain_addrs c → h !! a = None) → h ##ₘ chain_heap c.
Proof.
  intros Hn. apply map_disjoint_spec. intros a o o' Ha Hc.
  apply lookup_chain_heap_addrs in Hc. by rewrite Hn in Ha.
Qed.

Lemma chain_heap_app c1 c2 : chain_heap (c1 ++ c2) = chain_heap c1 ∪ chain_heap c2.
Proof.
  induction c1 as [|n c1 IH]; simpl; [by rewrite (left_id_L ∅ (∪))|].
  by rewrite IH, (assoc_L (∪)).
Qed.

Lemma chain_addrs_app c1 c2 : chain_addrs (c1 ++ c2) = chain_addrs c1 ++ chain_addrs c2.
Proof. induction c1 as [|n c1 IH]; simpl; [done|]. by rewrite IH. Qed.

Lemma chain_addrs_disjoint c1 c2 :
  NoDup (chain_addrs (c1 ++ c2)) → chain_heap c1 ##ₘ chain_heap c2.
Proof.
  rewrite chain_addrs_app. intros (_ & Hd & _)%NoDup_app.
  apply chain_heap_disjoint_notin. intros a Ha.
  apply eq_None_not_Some. intros [o Ho]. apply lookup_chain_heap_addrs in Ho. set_solver.
Qed.

Lemma chain_heap_entry c n :
  NoDup (chain_addrs c) → n ∈ c →
  chain_heap c !! n_addr n = Some (OEntry (Some (n_key n)) (Some (Some (n_vaddr n)))) ∧
  chain_heap c !! n_vaddr n = Some (OBytes (n_val n ++ [NUL])).
Proof.
  induction c as [|m c IH]; simpl; [set_solver|].
  rewrite !NoDup_cons, not_elem_of_cons. intros ((Hne & H1) & H2 & Hnd) [->|Hin]%elem_of_cons.
  - split; apply lookup_union_Some_l; unfold node_heap.
    + apply lookup_insert_eq.
    + rewrite lookup_insert_ne by done. apply lookup_singleton_eq.
  - destruct (IH Hnd Hin) as [He Hv].
    split; (apply lookup_union_Some_raw; right; split; [|done]);
      apply eq_None_not_Some; intros [o [[? _]|(_ & ? & _)]%lookup_node_heap].
    all: apply lookup_chain_heap_addrs in He, Hv; congruence.
Qed.

Section Logic.
Context {api : KernelApi}.

(** The table: the addresses of its two arrays, and its number of bits. *)
Variables (pb pl : addr) (nbits : Z).

Definition nbuckets : nat := Z.to_nat (2 ^ nbits).

Record chain_ok (i : nat) (c : list node) : Prop := {
  chain_ok_addrs : NoDup (chain_addrs c);
  chain_ok_keys : NoDup (n_key <$> c);
  chain_ok_nodes : ∀ n, n ∈ c →
    is_u64 (n_key n) ∧ hash_min (n_key n) nbits = Z.of_nat i ∧ value_ok (n_val n);
}.

(** The allocator returns [NULL] at least once. *)
Definition may_fail : Prop := ∃ n h, kmalloc_addr n h = None.

(** ** The weakest precondition of an action and of a program *)

Definition act_wp {X : Type} (e : kact X) (t : tst) : (X → tst → Prop) → Prop :=
  match e in kact X return (X → tst → Prop) → Prop with
  | Kmalloc k _ => λ Φ,
      (may_fail → Φ None t) ∧
      ∀ n a, t_heap t !! a = None → Φ (Some a) (set_heap t (<[a := fresh_obj n k]> (t_heap t)))
  | Kstrdup buf _ => λ Φ,
      ∃ str, c_str buf = Some str ∧ (may_fail → Φ None t) ∧
      ∀ a, t_heap t !! a = None →
        Φ (Some a) (set_heap t (<[a := OBytes (str ++ [NUL])]> (t_heap t)))
  | Kfree None => λ Φ, Φ tt t
  | Kfree (Some a) => λ Φ,
      is_Some (t_heap t !! a) ∧ Φ tt (set_heap t (delete a (t_heap t)))
  | HeadRead p i => λ Φ,
      ∃ j c cur, p = Some pb ∧ i = Z.of_nat j ∧ t_held t = Some (j, c, cur) ∧ Φ cur t
  | HeadWrite p i l => λ Φ,
      ∃ j c cur, p = Some pb ∧ i = Z.of_nat j ∧ t_held t = Some (j, c, cur) ∧
      Φ tt (set_held t (Some (j, c, l)))
  | GetKey e => λ Φ,
      ∃ k v, t_heap t !! e = Some (OEntry (Some k) v) ∧ Φ k t
  | GetValue e => λ Φ,
      ∃ k v, t_heap t !! e = Some (OEntry k (Some v)) ∧ Φ v t
  | SetKey e k => λ Φ,
      ∃ k0 v, t_heap t !! e = Some (OEntry k0 v) ∧
      Φ tt (set_heap t (<[e := OEntry (Some k) v]> (t_heap t)))
  | SetValue e p => λ Φ,
      ∃ k v0, t_heap t !! e = Some (OEntry k v0) ∧
      Φ tt (set_heap t (<[e := OEntry k (Some p)]> (t_heap t)))
  | StrRead p => λ Φ,
      ∃ a bs str, p = Some a ∧ t_heap t !! a = Some (OBytes bs) ∧
      c_str bs = Some str ∧ Φ str t
  | BytesRead p off n => λ Φ,
      ∃ a bs, p = Some a ∧ t_heap t !! a = Some (OBytes bs) ∧
      (off + n <= length bs)%nat ∧ Φ (read_at off n bs) t
  | BytesWrite p off d => λ Φ,
      ∃ a bs, p = Some a ∧ t_heap t !! a = Some (OBytes bs) ∧
      (off + length d <= length bs)%nat ∧
      Φ tt (set_heap t (<[a := OBytes (write_at off d bs)]> (t_heap t)))
  | SpinLockInit _ _ => λ _, False
  | SpinLock p i => λ Φ,
      ∃ j, p = Some pl ∧ i = Z.of_nat j ∧ (j < nbuckets)%nat ∧ t_held t = None ∧
      ∀ c, chain_ok j c → t_heap t ##ₘ chain_heap c →
        Φ tt (mk_tst (t_heap t ∪ chain_heap c) (Some (j, c, n_addr <$> c)) (t_hist t))
  | SpinUnlock p i => λ Φ,
      ∃ j c0 c h, p = Some pl ∧ i = Z.of_nat j ∧ t_held t = Some (j, c0, n_addr <$> c) ∧
      chain_ok j c ∧ h ##ₘ chain_heap c ∧ t_heap t = h ∪ chain_heap c ∧
      Φ tt (mk_tst h None (t_hist t ++ [(j, c0, c)]))
  | Trap _ => λ _, False
  end.

Fixpoint kwp {A : Type} (p : kprog A) (Q : A → tst → Prop) (t : tst) : Prop :=
  match p with
  | Ret a => Q a t
  | Vis e k => act_wp e t (λ x t', kwp (k x) Q t')
  end.

Lemma act_wp_mono {X : Type} (e : kact X) t (Φ Ψ : X → tst → Prop) :
  (∀ x t', Φ x t' → Ψ x t') → act_wp e t Φ → act_wp e t Ψ.
Proof.
  intros HΦ. destruct e; simpl; try (destruct p); intros;
    destruct_ands; naive_solver.
Qed.

Lemma kwp_mono {A : Type} (p : kprog A) t (Q R : A → tst → Prop) :
  (∀ a t', Q a t' → R a t') → kwp p Q t → kwp p R t.
Proof.
  intros HQ. revert t. induction p as [a|X e k IH]; intros t; simpl; [auto|].
  apply act_wp_mono. intros x t'. apply IH.
Qed.

Lemma kwp_bind {A B : Type} (p : kprog A) (f : A → kprog B) t Q :
  kwp (p ≫= f) Q t ↔ kwp p (λ a t', kwp (f a) Q t') t.
Proof.
  revert t. induction p as [a|X e k IH]; intros t; simpl; [done|].
  split; apply act_wp_mono; intros x t'; apply IH.
Qed.

Lemma kwp_act {A X : Type} (e : kact X) (f : X → kprog A) t Q :
  act_wp e t (λ x t', kwp (f x) Q t') → kwp (call e ≫= f) Q t.
Proof. done. Qed.

Lemma kwp_ret {A : Type} (a : A) t Q : kwp (mret a) Q t ↔ Q a t.
Proof. done. Qed.

(** A search of an [hlist] for a key, the loop all the operations share: [f]
    runs on the first entry that has the key and leaves the function. *)
Lemma kwp_find {R : Type} (k : Z) (f : addr → kprog (option R)) (c : list node) t Q :
  (∀ n, n ∈ c → ∃ v, t_heap t !! n_addr n = Some (OEntry (Some (n_key n)) v)) →
  (∀ c1 n c2, c = c1 ++ n :: c2 → n_key n = k → k ∉ n_key <$> c1 →
     kwp (f (n_addr n)) (λ r t', ∃ x, r = Some x ∧ Q (Some x) t') t) →
  (k ∉ n_key <$> c → Q None t) →
  kwp (hlist_for_each_entry (n_addr <$> c) (λ e,
         ek ← call (GetKey e);
         if decide (ek = k) then f e else mret None)) Q t.
Proof.
  intros Hin Hf Hnone. induction c as [|n c IH]; simpl.
  { apply Hnone. set_solver. }
  destruct (Hin n) as [v Hv]; [set_solver|].
  exists (n_key n), v. split; [done|]. case_decide as Hk.
  - apply kwp_bind. eapply kwp_mono; [|apply (Hf [] n c); set_solver].
    by intros r t' (x & -> & HQ).
  - simpl. apply IH.
    + intros m Hm. apply Hin. set_solver.
    + intros c1 m c2 -> Hm Hn. apply (Hf (n :: c1) m c2); [done|done|].
      rewrite fmap_cons, not_elem_of_cons. auto.
    + intros Hn. apply Hnone. rewrite fmap_cons, not_elem_of_cons. auto.
Qed.

(** The counting loop and the loop over a list, with an invariant on the
    position reached. *)
Lemma kwp_for_range {B R : Type} (I : nat → B → tst → Prop) start cnt (acc : B)
    (body : Z → B → kprog (B + R)) t Q :
  I start acc t →
  (∀ i acc t, (start <= i < start + cnt)%nat → I i acc t →
     kwp (body (Z.of_nat i) acc)
       (λ r t', match r with inl acc' => I (S i) acc' t' | inr x => Q (inr x) t' end) t) →
  (∀ acc t, I (start + cnt)%nat acc t → Q (inl acc) t) →
  kwp (for_range start cnt acc body) Q t.
Proof.
  revert start acc t. induction cnt as [|cnt IH]; intros start acc t HI Hbody Hend; simpl.
  { apply Hend. by rewrite Nat.add_0_r. }
  apply kwp_bind. eapply kwp_mono; [|apply Hbody; [lia|done]].
  intros [acc'|x] t' Hr; [|done]. apply IH; [done| |].
  - intros i acc1 t1 Hi. apply Hbody. lia.
  - intros acc1 t1. rewrite Nat.add_succ_l, <- Nat.add_succ_r. apply Hend.
Qed.

Lemma kwp_for_each_acc {B R : Type} (I : nat → B → tst → Prop) (l : list addr) start (acc : B)
    (body : addr → B → kprog (B + R)) t Q :
  I start acc t →
  (∀ i e acc t, l !! i = Some e → I (start + i)%nat acc t →
     kwp (body e acc)
       (λ r t', match r with inl acc' => I (S (start + i)) acc' t' | inr x => Q (inr x) t' end) t) →
  (∀ acc t, I (start + length l)%nat acc t → Q (inl acc) t) →
  kwp (for_each_acc l acc body) Q t.
Proof.
  revert start acc t. induction l as [|e l IH]; intros start acc t HI Hbody Hend; simpl.
  { apply Hend. simpl. by rewrite Nat.add_0_r. }
  apply kwp_bind. eapply kwp_mono; [|apply (Hbody 0%nat e); [done|by rewrite Nat.add_0_r]].
  intros [acc'|x] t'; [|done]. rewrite Nat.add_0_r. intros Hr.
  apply (IH (S start)); [done| |].
  - intros i e1 acc1 t1 Hi. rewrite Nat.add_succ_l, <- Nat.add_succ_r. by apply Hbody.
  - intros acc1 t1. rewrite Nat.add_succ_l, <- Nat.add_succ_r. apply Hend.
Qed.

Lemma kwp_shl1 Q t : 0 <= nbits < 32 → Q nbuckets t → kwp (shl1_u32 nbits) Q t.
Proof. intros Hb HQ. unfold shl1_u32. by rewrite decide_True. Qed.

End Logic.
