(* ===== verification/KSound.v ===== *)
(** * Soundness of the kernel program logic

    The heap of a running kernel is split between the table's two arrays, the
    free buckets, the threads and a frame nobody touches.  [ginv] states that
    split; every action of a thread that is [act_wp]-safe preserves it. *)

From S2P Require Import Prelude Prog CStr KvIoctl KMem KLogic.

Inductive owner : Type :=
  | OwnArrays
  | OwnFrame
  | OwnBucket (i : nat)
  | OwnThread (j : nat).

#[global] Instance owner_eq_dec : EqDecision owner.
Proof. solve_decision. Defined.

Definition upd (f : owner → heap) (w : owner) (h : heap) : owner → heap :=
  λ w', if decide (w' = w) then h else f w'.

(** The heap [h] is the disjoint union of the shares [f]. *)
Record shares (f : owner → heap) (h : heap) : Prop := {
  shares_lookup a o : h !! a = Some o ↔ ∃ w, f w !! a = Some o;
  shares_disjoint w w' : w ≠ w' → f w ##ₘ f w';
}.

(** [replay L H L']: the critical sections [H], in this order, lead from the
    chains [L] to [L']: each finds the chain it recorded. *)
Inductive replay : list (list node) → list commit → list (list node) → Prop :=
  | replay_nil L : replay L [] L
  | replay_cons L i c c' H L' :
      L !! i = Some c → replay (<[i := c']> L) H L' → replay L ((i, c, c') :: H) L'.

Lemma replay_app L1 H1 L2 H2 L3 : replay L1 H1 L2 → replay L2 H2 L3 → replay L1 (H1 ++ H2) L3.
Proof. induction 1; [done|]. intros ?. simpl. econstructor; eauto. Qed.

Lemma replay_one L i c c' : L !! i = Some c → replay L [(i, c, c')] (<[i := c']> L).
Proof. intros ?. econstructor; [done|]. constructor. Qed.

(** The table's arrays as seen by the threads [ts]: [L] is the chain of each
    bucket, for a locked bucket the one its holder found. *)
Section Invariant.
Context {api : KernelApi}.
Variables (pb pl : addr) (nbits : Z).

Abbreviation nb := (nbuckets nbits).

Definition arrays (hs : list (option (list addr))) (ls : list (option bool)) : heap :=
  <[pb := OHeads hs]> {[pl := OLocks ls]}.

Definition holds (t : tst) (i : nat) : Prop := ∃ c cur, t_held t = Some (i, c, cur).

Record bucket_free (f : owner → heap) (ts : list tst)
    (hs : list (option (list addr))) (ls : list (option bool)) (i : nat) (c : list node) : Prop := {
  free_nobody j t : ts !! j = Some t → ¬ holds t i;
  free_head : hs !! i = Some (Some (n_addr <$> c));
  free_lock : ls !! i = Some (Some false);
  free_heap : f (OwnBucket i) = chain_heap c;
}.

Record bucket_locked (f : owner → heap) (ts : list tst)
    (hs : list (option (list addr))) (ls : list (option bool)) (i : nat) (c : list node) : Prop := {
  locked_holder : ∃ j t cur, ts !! j = Some t ∧ t_held t = Some (i, c, cur) ∧
    hs !! i = Some (Some cur) ∧ (∀ j' t', ts !! j' = Some t' → holds t' i → j' = j);
  locked_lock : ls !! i = Some (Some true);
  locked_heap : f (OwnBucket i) = ∅;
}.

Record ginv_at (F : heap) (ts : list tst) (L : list (list node)) (h : heap)
    (f : owner → heap) (hs : list (option (list addr))) (ls : list (option bool)) : Prop := {
  gi_shares : shares f h;
  gi_neq : pb ≠ pl;
  gi_arrays : f OwnArrays = arrays hs ls;
  gi_frame : f OwnFrame = F;
  gi_threads j t : ts !! j = Some t → f (OwnThread j) = t_heap t;
  gi_no_thread j : ts !! j = None → f (OwnThread j) = ∅;
  gi_no_bucket i : (nb <= i)%nat → f (OwnBucket i) = ∅;
  gi_len_heads : length hs = nb;
  gi_len_locks : length ls = nb;
  gi_len_chains : length L = nb;
  gi_chains i c : L !! i = Some c → chain_ok nbits i c;
  gi_buckets i c : L !! i = Some c →
    bucket_free f ts hs ls i c ∨ bucket_locked f ts hs ls i c;
  gi_held j t i c cur : ts !! j = Some t → t_held t = Some (i, c, cur) → (i < nb)%nat;
}.

Definition ginv (F : heap) (ts : list tst) (L : list (list node)) (s : kst) : Prop :=
  ∃ f hs ls, ginv_at F ts L (k_heap s) f hs ls.

(** ** Shares *)

Lemma upd_eq f w h : upd f w h w = h.
Proof. unfold upd. by rewrite decide_True. Qed.
Lemma upd_ne f w w' h : w' ≠ w → upd f w h w' = f w'.
Proof. intros ?. unfold upd. by rewrite decide_False. Qed.

Lemma shares_get f h w a o : shares f h → f w !! a = Some o → h !! a = Some o.
Proof. intros Hs Ho. apply (shares_lookup _ _ Hs). by exists w. Qed.

Lemma shares_fresh f h w a : shares f h → h !! a = None → f w !! a = None.
Proof.
  intros Hs Hn. destruct (f w !! a) eqn:E; [|done].
  apply (shares_get _ _ _ _ _ Hs) in E. congruence.
Qed.

Lemma shares_other f h w w' a :
  shares f h → is_Some (f w !! a) → w' ≠ w → f w' !! a = None.
Proof.
  intros Hs [o Ho] Hne. destruct (f w' !! a) eqn:E; [|done].
  pose proof (shares_disjoint _ _ Hs w' w Hne) as Hd.
  rewrite map_disjoint_spec in Hd. exfalso. eauto.
Qed.

(** An owner writes a cell it owns, or a fresh one. *)
Lemma shares_write f h w a o :
  shares f h → (h !! a = None ∨ is_Some (f w !! a)) →
  shares (upd f w (<[a := o]> (f w))) (<[a := o]> h).
Proof.
  intros Hs Ha.
  assert (∀ w', w' ≠ w → f w' !! a = None) as Hother.
  { intros w' ?. destruct Ha as [Hn|Hsome]; eauto using shares_fresh, shares_other. }
  split.
  - intros b o'. destruct (decide (b = a)) as [->|Hb].
    + rewrite lookup_insert_eq. split.
      * intros [= <-]. exists w. by rewrite upd_eq, lookup_insert_eq.
      * intros [w' Hw']. destruct (decide (w' = w)) as [->|Hw].
        { by rewrite upd_eq, lookup_insert_eq in Hw'. }
        rewrite upd_ne, Hother in Hw' by done. done.
    + rewrite lookup_insert_ne, (shares_lookup _ _ Hs) by done.
      apply exist_proper. intros w'. destruct (decide (w' = w)) as [->|Hw].
      * by rewrite upd_eq, lookup_insert_ne.
      * by rewrite upd_ne.
  - assert (∀ w', w' ≠ w → upd f w (<[a:=o]> (f w)) w ##ₘ upd f w (<[a:=o]> (f w)) w') as Hd.
    { intros w' Hw. rewrite upd_eq, upd_ne by done.
      apply map_disjoint_insert_l. split; [by apply Hother|].
      apply (shares_disjoint _ _ Hs). congruence. }
    intros w1 w2 Hne. destruct (decide (w1 = w)) as [->|]; [auto|].
    destruct (decide (w2 = w)) as [->|]; [symmetry; auto|].
    rewrite !upd_ne by done. by apply (shares_disjoint _ _ Hs).
Qed.

Lemma shares_free f h w a :
  shares f h → is_Some (f w !! a) → shares (upd f w (delete a (f w))) (delete a h).
Proof.
  intros Hs Ha. split.
  - intros b o'. destruct (decide (b = a)) as [->|Hb].
    + rewrite lookup_delete_eq. split; [done|].
      intros [w' Hw']. destruct (decide (w' = w)) as [->|Hw].
      { by rewrite upd_eq, lookup_delete_eq in Hw'. }
      rewrite upd_ne in Hw' by done.
      by rewrite (shares_other _ _ _ _ _ Hs Ha) in Hw'.
    + rewrite lookup_delete_ne, (shares_lookup _ _ Hs) by done.
      apply exist_proper. intros w'. destruct (decide (w' = w)) as [->|Hw].
      * by rewrite upd_eq, lookup_delete_ne.
      * by rewrite upd_ne.
  - intros w1 w2 Hne.
    assert (∀ w0, upd f w (delete a (f w)) w0 ⊆ f w0) as Hsub.
    { intros w0. destruct (decide (w0 = w)) as [->|].
      - rewrite upd_eq. apply delete_subseteq.
      - by rewrite upd_ne. }
    eapply map_disjoint_weaken; [|apply Hsub|apply Hsub].
    by apply (shares_disjoint _ _ Hs).
Qed.

(** A part [y] of one owner's share moves to another owner. *)
Lemma shares_move f h w w' x y :
  shares f h → w ≠ w' → f w' = x ∪ y → x ##ₘ y →
  shares (upd (upd f w' x) w (f w ∪ y)) h.
Proof.
  intros Hs Hne Hxy Hd.
  assert (f w ##ₘ x ∧ f w ##ₘ y) as [Hwx Hwy].
  { pose proof (shares_disjoint _ _ Hs w w' Hne) as H.
    rewrite Hxy in H. by apply map_disjoint_union_r in H. }
  set (g := upd (upd f w' x) w (f w ∪ y)).
  assert (g w = f w ∪ y) as Gw by (unfold g; by rewrite upd_eq).
  assert (g w' = x) as Gw' by (unfold g; by rewrite upd_ne, upd_eq).
  assert (∀ v, v ≠ w → v ≠ w' → g v = f v) as Gv by (intros; unfold g; by rewrite !upd_ne).
  split.
  - intros a o. rewrite (shares_lookup _ _ Hs). split; intros [v Hv].
    + destruct (decide (v = w)) as [->|]; [exists w; rewrite Gw; by apply lookup_union_Some_l|].
      destruct (decide (v = w')) as [->|]; [|exists v; by rewrite Gv].
      rewrite Hxy in Hv. apply lookup_union_Some in Hv as [Hv|Hv]; [| |done].
      * exists w'. by rewrite Gw'.
      * exists w. rewrite Gw. by apply lookup_union_Some_r.
    + destruct (decide (v = w)) as [->|].
      { rewrite Gw in Hv. apply lookup_union_Some in Hv as [Hv|Hv]; [by exists w| |done].
        exists w'. rewrite Hxy. by apply lookup_union_Some_r. }
      destruct (decide (v = w')) as [->|]; [|exists v; by rewrite <- Gv].
      exists w'. rewrite Hxy. rewrite Gw' in Hv. by apply lookup_union_Some_l.
  - assert (∀ v, v ≠ w → v ≠ w' → f v ##ₘ x ∧ f v ##ₘ y) as Hv'.
    { intros v ? Hv. pose proof (shares_disjoint _ _ Hs v w' Hv) as Hw.
      rewrite Hxy in Hw. by apply map_disjoint_union_r in Hw. }
    assert (∀ v, v ≠ w → g w ##ₘ g v) as Hgw.
    { intros v Hv. rewrite Gw. destruct (decide (v = w')) as [->|Hv2].
      - rewrite Gw'. apply map_disjoint_union_l. split; [done|by symmetry].
      - rewrite Gv by done. apply map_disjoint_union_l. split.
        + apply (shares_disjoint _ _ Hs). congruence.
        + symmetry. by apply Hv'. }
    assert (∀ v, v ≠ w → v ≠ w' → g w' ##ₘ g v) as Hgw'.
    { intros v ??. rewrite Gw', Gv by done. symmetry. by apply Hv'. }
    intros v1 v2 Hv.
    destruct (decide (v1 = w)) as [->|]; [by auto|].
    destruct (decide (v2 = w)) as [->|]; [symmetry; by auto|].
    destruct (decide (v1 = w')) as [->|]; [by auto|].
    destruct (decide (v2 = w')) as [->|]; [symmetry; by auto|].
    rewrite !Gv by done. by apply (shares_disjoint _ _ Hs).
Qed.

(** ** Steps of one thread *)

(** A bucket's state survives a step of thread [j] that does not concern the
    bucket. *)
Definition same_holding (t t' : tst) (i : nat) : Prop :=
  ∀ c cur, t_held t' = Some (i, c, cur) ↔ t_held t = Some (i, c, cur).

Lemma holds_insert (ts : list tst) j t t' i j1 t1 :
  ts !! j = Some t → same_holding t t' i → <[j := t']> ts !! j1 = Some t1 → holds t1 i →
  ∃ t0, ts !! j1 = Some t0 ∧ holds t0 i.
Proof.
  intros Hj Hsame. destruct (decide (j1 = j)) as [->|Hne].
  - rewrite list_lookup_insert_eq by (by eapply lookup_lt_Some).
    intros [= <-] (c & cur & Hc). exists t. split; [done|].
    exists c, cur. by apply Hsame.
  - rewrite list_lookup_insert_ne by done. eauto.
Qed.

Lemma bucket_transfer f f' ts hs hs' ls ls' i c j t t' :
  ts !! j = Some t → same_holding t t' i →
  f' (OwnBucket i) = f (OwnBucket i) → hs' !! i = hs !! i → ls' !! i = ls !! i →
  bucket_free f ts hs ls i c ∨ bucket_locked f ts hs ls i c →
  bucket_free f' (<[j := t']> ts) hs' ls' i c ∨ bucket_locked f' (<[j := t']> ts) hs' ls' i c.
Proof.
  intros Hj Hsame Hf Hhs Hls [[H1 H2 H3 H4]|[(j0 & t0 & cur & H1 & H2 & H3 & H4) H5 H6]];
    [left|right].
  - split; [|congruence..]. intros j1 t1 Hj1 Ht1.
    destruct (holds_insert _ _ _ _ _ _ _ Hj Hsame Hj1 Ht1) as (t0 & ? & ?). naive_solver.
  - split; [|congruence..].
    assert (∃ t1, <[j := t']> ts !! j0 = Some t1 ∧ t_held t1 = Some (i, c, cur))
      as (t1 & Hl & He).
    { destruct (decide (j0 = j)) as [->|Hne].
      - exists t'. rewrite list_lookup_insert_eq by (by eapply lookup_lt_Some).
        split; [done|]. apply Hsame. congruence.
      - exists t0. by rewrite list_lookup_insert_ne. }
    exists j0, t1, cur. split_and!; [done|done|congruence|].
    intros j2 t2 Hj2 Ht2.
    destruct (holds_insert _ _ _ _ _ _ _ Hj Hsame Hj2 Ht2) as (t3 & ? & ?). eauto.
Qed.

(** The thread changed its own share only. *)
Lemma ginv_local F ts L h h' f hs ls j t t' :
  ginv_at F ts L h f hs ls → ts !! j = Some t → t_held t' = t_held t →
  shares (upd f (OwnThread j) (t_heap t')) h' →
  ginv_at F (<[j := t']> ts) L h' (upd f (OwnThread j) (t_heap t')) hs ls.
Proof.
  intros [] Hj Hh Hs. pose proof (lookup_lt_Some _ _ _ Hj) as Hlt.
  split; rewrite ?upd_ne by done; try done.
  - intros j1 t1. destruct (decide (j1 = j)) as [->|Hne].
    + rewrite list_lookup_insert_eq by done. intros [= <-]. by rewrite upd_eq.
    + rewrite list_lookup_insert_ne, upd_ne by congruence. auto.
  - intros j1 Hj1. destruct (decide (j1 = j)) as [->|Hne].
    + rewrite list_lookup_insert_eq in Hj1 by done. done.
    + rewrite list_lookup_insert_ne in Hj1 by done. rewrite upd_ne by congruence. auto.
  - intros i c Hi. eapply (bucket_transfer f _ _ hs _ ls); eauto. intros ??. by rewrite Hh.
  - intros j1 t1 i c cur Hj1 Ht1. destruct (decide (j1 = j)) as [->|Hne].
    + rewrite list_lookup_insert_eq in Hj1 by done. simplify_eq. rewrite Hh in Ht1. eauto.
    + rewrite list_lookup_insert_ne in Hj1 by done. eauto.
Qed.

(** What the invariant says of a bucket some thread holds. *)
Lemma ginv_holder F ts L h f hs ls j t i c cur :
  ginv_at F ts L h f hs ls → ts !! j = Some t → t_held t = Some (i, c, cur) →
  L !! i = Some c ∧ hs !! i = Some (Some cur) ∧ bucket_locked f ts hs ls i c ∧
  ∀ j' t', ts !! j' = Some t' → holds t' i → j' = j.
Proof.
  intros [] Hj Ht. pose proof (gi_held0 _ _ _ _ _ Hj Ht) as Hi.
  destruct (lookup_lt_is_Some_2 L i) as [c1 Hc1]; [lia|].
  destruct (gi_buckets0 i c1 Hc1) as [Hfree|Hlock].
  { exfalso. eapply free_nobody; [done..|]. by exists c, cur. }
  pose proof Hlock as [(j0 & t0 & cur0 & H1 & H2 & H3 & H4) _ _].
  assert (j = j0) as <- by (eapply H4; [done|by exists c, cur]).
  assert (t0 = t) as -> by congruence.
  assert ((i, c, cur) = (i, c1, cur0)) as [= <- <-] by congruence.
  done.
Qed.

Lemma ginv_heads F ts L h f hs ls :
  ginv_at F ts L h f hs ls → h !! pb = Some (OHeads hs) ∧ h !! pl = Some (OLocks ls).
Proof.
  intros []. split; apply (shares_lookup _ _ gi_shares0); exists OwnArrays;
    rewrite gi_arrays0; unfold arrays.
  - apply lookup_insert_eq.
  - rewrite lookup_insert_ne by done. apply lookup_singleton_eq.
Qed.

(** Writing the arrays: the share of [OwnArrays] follows. *)
Lemma shares_heads f h hs ls hs' :
  shares f h → pb ≠ pl → f OwnArrays = arrays hs ls →
  shares (upd f OwnArrays (arrays hs' ls)) (<[pb := OHeads hs']> h).
Proof.
  intros Hs Hne Ha. pose proof (shares_write f h OwnArrays pb (OHeads hs') Hs) as H.
  rewrite Ha in H. unfold arrays in H at 2. rewrite insert_insert_eq in H.
  apply H. right. unfold arrays. rewrite lookup_insert_eq. eauto.
Qed.

Lemma shares_locks f h hs ls ls' :
  shares f h → pb ≠ pl → f OwnArrays = arrays hs ls →
  shares (upd f OwnArrays (arrays hs ls')) (<[pl := OLocks ls']> h).
Proof.
  intros Hs Hne Ha. pose proof (shares_write f h OwnArrays pl (OLocks ls') Hs) as H.
  assert (<[pl := OLocks ls']> (arrays hs ls) = arrays hs ls') as Heq.
  { unfold arrays. rewrite insert_insert_ne by done. f_equal.
    unfold singletonM, map_singleton. by rewrite insert_insert_eq. }
  rewrite Ha, Heq in H. apply H. right. unfold arrays.
  rewrite lookup_insert_ne, lookup_singleton_eq by done. eauto.
Qed.

(** The owner shares of thread [j] and of the other threads after an update. *)
Lemma threads_insert (f : owner → heap) (ts : list tst) j (t t' : tst) g :
  (∀ j t, ts !! j = Some t → f (OwnThread j) = t_heap t) →
  ts !! j = Some t → g (OwnThread j) = t_heap t' →
  (∀ j1, j1 ≠ j → g (OwnThread j1) = f (OwnThread j1)) →
  ∀ j1 t1, <[j := t']> ts !! j1 = Some t1 → g (OwnThread j1) = t_heap t1.
Proof.
  intros Hf Hj Hg Hg' j1 t1. pose proof (lookup_lt_Some _ _ _ Hj).
  destruct (decide (j1 = j)) as [->|Hne].
  - rewrite list_lookup_insert_eq by done. by intros [= <-].
  - rewrite list_lookup_insert_ne, Hg' by done. eauto.
Qed.

Lemma no_threads_insert (f g : owner → heap) (ts : list tst) j t' :
  (∀ j, ts !! j = None → f (OwnThread j) = ∅) →
  (∀ j1, j1 ≠ j → g (OwnThread j1) = f (OwnThread j1)) → (j < length ts)%nat →
  ∀ j1, <[j := t']> ts !! j1 = None → g (OwnThread j1) = ∅.
Proof.
  intros Hf Hg Hlt j1. destruct (decide (j1 = j)) as [->|Hne].
  - by rewrite list_lookup_insert_eq.
  - rewrite list_lookup_insert_ne, Hg by done. eauto.
Qed.

Lemma held_insert (ts : list tst) j t' nbk :
  (∀ j t i c cur, ts !! j = Some t → t_held t = Some (i, c, cur) → (i < nbk)%nat) →
  (∀ i c cur, t_held t' = Some (i, c, cur) → (i < nbk)%nat) →
  ∀ j1 t1 i c cur, <[j := t']> ts !! j1 = Some t1 → t_held t1 = Some (i, c, cur) →
    (i < nbk)%nat.
Proof.
  intros Hts Ht' j1 t1 i c cur Hj1 Hc. destruct (decide (j1 = j)) as [->|Hne].
  - destruct (decide (j < length ts)%nat).
    + rewrite list_lookup_insert_eq in Hj1 by done. simplify_eq. eauto.
    + rewrite list_insert_ge in Hj1 by lia. eauto.
  - rewrite list_lookup_insert_ne in Hj1 by done. eauto.
Qed.

(** The holder of a bucket relinks its list head. *)
Lemma ginv_head_write F ts L h f hs ls j t i c cur l :
  ginv_at F ts L h f hs ls → ts !! j = Some t → t_held t = Some (i, c, cur) →
  let hs' := <[i := Some l]> hs in
  ginv_at F (<[j := set_held t (Some (i, c, l))]> ts) L (<[pb := OHeads hs']> h)
    (upd f OwnArrays (arrays hs' ls)) hs' ls.
Proof.
  intros Hg Hj Ht hs'.
  destruct (ginv_holder _ _ _ _ _ _ _ _ _ _ _ _ Hg Hj Ht) as (HL & Hhs & Hlk & Huniq).
  pose proof Hg as []. pose proof (lookup_lt_Some _ _ _ Hj) as Hlt.
  split; try done.
  - by apply (shares_heads _ _ hs).
  - eapply threads_insert; [done|done| |done]. simpl. by rewrite upd_ne, (gi_threads0 _ _ Hj).
  - by eapply no_threads_insert.
  - unfold hs'. by rewrite length_insert.
  - intros i1 c1 Hi1. destruct (decide (i1 = i)) as [->|Hne].
    + right. destruct Hlk as [_ Hl1 Hl2]. simplify_eq. split; [|done|done].
      exists j, (set_held t (Some (i, c, l))), l.
      rewrite list_lookup_insert_eq by done. split_and!; [done|done| |].
      * unfold hs'. apply list_lookup_insert_eq. by eapply lookup_lt_Some.
      * intros j' t' Hj' Ht'. destruct (decide (j' = j)) as [|Hne]; [done|].
        rewrite list_lookup_insert_ne in Hj' by done. eauto.
    + eapply (bucket_transfer f _ _ hs _ ls); eauto.
      * intros c2 cur2. simpl. rewrite Ht. split; congruence.
      * unfold hs'. by rewrite list_lookup_insert_ne.
  - eapply held_insert; [done|]. simpl. intros ??? [= <- <- <-]. eauto.
Qed.

(** A thread takes a free lock, and with it the bucket's nodes. *)
Lemma ginv_lock F ts L h f hs ls j t i c :
  ginv_at F ts L h f hs ls → ts !! j = Some t → t_held t = None →
  L !! i = Some c → bucket_free f ts hs ls i c →
  let ls' := <[i := Some true]> ls in
  let t' := mk_tst (t_heap t ∪ chain_heap c) (Some (i, c, n_addr <$> c)) (t_hist t) in
  ginv_at F (<[j := t']> ts) L (<[pl := OLocks ls']> h)
    (upd (upd (upd f OwnArrays (arrays hs ls')) (OwnBucket i) ∅)
       (OwnThread j) (t_heap t ∪ chain_heap c)) hs ls'.
Proof.
  intros Hg Hj Ht HL [Hf1 Hf2 Hf3 Hf4] ls' t'.
  pose proof Hg as []. pose proof (lookup_lt_Some _ _ _ Hj) as Hlt.
  pose proof (shares_locks _ _ hs ls ls' gi_shares0 gi_neq0 gi_arrays0) as Hs.
  split; try done.
  - rewrite <- (gi_threads0 _ _ Hj).
    apply (shares_move _ _ (OwnThread j) (OwnBucket i) ∅ (chain_heap c) Hs); [done| |].
    + rewrite upd_ne, Hf4 by done. by rewrite (left_id_L ∅ (∪)).
    + apply map_disjoint_empty_l.
  - eapply threads_insert; [done|done|by rewrite upd_eq|].
    intros j1 ?. by rewrite !upd_ne by congruence.
  - eapply no_threads_insert; [done| |done].
    intros j1 ?. by rewrite !upd_ne by congruence.
  - intros i1 Hi1. rewrite upd_ne by done. destruct (decide (i1 = i)) as [->|Hne].
    + by rewrite upd_eq.
    + rewrite !upd_ne by congruence. auto.
  - unfold ls'. by rewrite length_insert.
  - intros i1 c1 Hi1. destruct (decide (i1 = i)) as [->|Hne].
    + right. simplify_eq. split.
      * exists j, t', (n_addr <$> c). rewrite list_lookup_insert_eq by done.
        split_and!; [done|done|done|].
        intros j1 t1 Hj1 Ht1. destruct (decide (j1 = j)) as [|Hne]; [done|].
        rewrite list_lookup_insert_ne in Hj1 by done. exfalso. by eapply Hf1.
      * unfold ls'. apply list_lookup_insert_eq. by eapply lookup_lt_Some.
      * by rewrite upd_ne, upd_eq by done.
    + eapply (bucket_transfer f _ _ hs _ ls); eauto.
      * intros c2 cur2. simpl. rewrite Ht. split; congruence.
      * by rewrite !upd_ne by congruence.
      * unfold ls'. by rewrite list_lookup_insert_ne.
  - eapply held_insert; [done|]. simpl. intros ??? [= <- <- <-].
    apply lookup_lt_Some in HL. lia.
Qed.

(** The holder gives back a well-formed chain and releases the lock. *)
Lemma ginv_unlock F ts L h f hs ls j t i c0 c h1 :
  ginv_at F ts L h f hs ls → ts !! j = Some t → t_held t = Some (i, c0, n_addr <$> c) →
  chain_ok nbits i c → h1 ##ₘ chain_heap c → t_heap t = h1 ∪ chain_heap c →
  let ls' := <[i := Some false]> ls in
  let t' := mk_tst h1 None (t_hist t ++ [(i, c0, c)]) in
  ginv_at F (<[j := t']> ts) (<[i := c]> L) (<[pl := OLocks ls']> h)
    (upd (upd (upd f OwnArrays (arrays hs ls')) (OwnThread j) h1)
       (OwnBucket i) (chain_heap c)) hs ls'.
Proof.
  intros Hg Hj Ht Hc Hd Hh ls' t'.
  destruct (ginv_holder _ _ _ _ _ _ _ _ _ _ _ _ Hg Hj Ht) as (HL & Hhs & Hlk & Huniq).
  pose proof Hg as []. pose proof (lookup_lt_Some _ _ _ Hj) as Hlt.
  pose proof (shares_locks _ _ hs ls ls' gi_shares0 gi_neq0 gi_arrays0) as Hs.
  pose proof (lookup_lt_Some _ _ _ HL) as HiL.
  destruct Hlk as [_ Hl1 Hl2].
  split; try done.
  - replace (chain_heap c) with (upd f OwnArrays (arrays hs ls') (OwnBucket i) ∪ chain_heap c).
    2: { rewrite upd_ne, Hl2 by done. by rewrite (left_id_L ∅ (∪)). }
    apply (shares_move _ _ (OwnBucket i) (OwnThread j) h1 (chain_heap c) Hs); [done| |done].
    rewrite upd_ne by done. by rewrite (gi_threads0 _ _ Hj).
  - eapply threads_insert; [done|done|by rewrite upd_ne, upd_eq by done|].
    intros j1 ?. by rewrite !upd_ne by congruence.
  - eapply no_threads_insert; [done| |done].
    intros j1 ?. by rewrite !upd_ne by congruence.
  - intros i1 Hi1. rewrite !upd_ne by (congruence || (intros [= ->]; lia)). auto.
  - unfold ls'. by rewrite length_insert.
  - by rewrite length_insert.
  - intros i1 c1. destruct (decide (i1 = i)) as [->|Hne].
    + rewrite list_lookup_insert_eq by done. by intros [= <-].
    + rewrite list_lookup_insert_ne by done. auto.
  - intros i1 c1. destruct (decide (i1 = i)) as [->|Hne].
    + rewrite list_lookup_insert_eq by done. intros [= <-]. left. split; [|done| |].
      * intros j1 t1 Hj1 Ht1. destruct (decide (j1 = j)) as [->|Hne].
        { rewrite list_lookup_insert_eq in Hj1 by done. simplify_eq.
          by destruct Ht1 as (? & ? & ?). }
        rewrite list_lookup_insert_ne in Hj1 by done. eauto.
      * unfold ls'. apply list_lookup_insert_eq. by eapply lookup_lt_Some.
      * by rewrite upd_eq.
    + rewrite list_lookup_insert_ne by done. intros Hi1.
      eapply (bucket_transfer f _ _ hs _ ls); eauto.
      * intros c2 cur2. simpl. rewrite Ht. split; congruence.
      * by rewrite !upd_ne by congruence.
      * unfold ls'. by rewrite list_lookup_insert_ne.
  - eapply held_insert; [done|]. done.
Qed.

(** Threads that own and hold nothing. *)
Definition idle (t : tst) : Prop := t_heap t = ∅ ∧ t_held t = None.

(** They can join the others, *)
Lemma ginv_born F ts n L s :
  ginv F ts L s → ginv F (ts ++ replicate n (mk_tst ∅ None [])) L s.
Proof.
  intros (f & hs & ls & []).
  assert (∀ j t, (ts ++ replicate n (mk_tst ∅ None [])) !! j = Some t →
    ts !! j = Some t ∨ ts !! j = None ∧ t = mk_tst ∅ None []) as Hborn.
  { intros j t [?|[Hj [-> _]%lookup_replicate]]%lookup_app_Some; [by left|].
    right. split; [|done]. by apply lookup_ge_None. }
  exists f, hs, ls. split; try done.
  - intros j t [?|[Hj ->]]%Hborn; [auto|]. by apply gi_no_thread0.
  - intros j Hj%lookup_ge_None. rewrite length_app in Hj. apply gi_no_thread0, lookup_ge_None. lia.
  - intros i c Hi. destruct (gi_buckets0 i c Hi) as [[]|[(j & t & cur & Hj & Ht & Hh & Hu) ? ?]]; [left|right].
    + split; [|done..]. intros j t [?|[_ ->]]%Hborn; [by eapply free_nobody0|]. by intros (? & ? & ?).
    + split; [|done..]. exists j, t, cur. split_and!; [by apply lookup_app_l_Some|done..|].
      intros j' t' [?|[_ ->]]%Hborn; [by apply Hu|]. by intros (? & ? & ?).
  - intros j t i c cur [?|[_ ->]]%Hborn; [by eapply gi_held0|done].
Qed.

(** and can come and go when there are no others. *)
Lemma ginv_idle F ts ts' L s :
  Forall idle ts → Forall idle ts' → ginv F ts L s → ginv F ts' L s.
Proof.
  intros Hts Hts' (f & hs & ls & []). rewrite Forall_lookup in Hts, Hts'.
  assert (∀ j, f (OwnThread j) = ∅) as Hempty.
  { intros j. destruct (ts !! j) as [t|] eqn:Hj; [|auto].
    rewrite (gi_threads0 _ _ Hj). by apply Hts in Hj as [? _]. }
  exists f, hs, ls. split; try done.
  - intros j t Hj. rewrite Hempty. by apply Hts' in Hj as [-> _].
  - intros i c Hi. left. destruct (gi_buckets0 i c Hi) as [[]|[(j & t & cur & Hj & Ht & _) _ _]].
    + split; [|done..]. intros j t Hj (? & ? & Hh). apply Hts' in Hj as [_ Hn]. congruence.
    + apply Hts in Hj as [_ Hn]. congruence.
  - intros j t i c cur Hj Ht. apply Hts' in Hj as [_ Hn]. congruence.
Qed.

(** ** Every safe action preserves the invariant *)

(** The table after a step: unchanged, or one more critical section. *)
Definition commit_step (t t' : tst) (L L' : list (list node)) : Prop :=
  (L' = L ∧ t_hist t' = t_hist t) ∨
  (∃ i c c', L !! i = Some c ∧ L' = <[i := c']> L ∧ t_hist t' = t_hist t ++ [(i, c, c')]).

Lemma ginv_cell F ts L s j t a o :
  ginv F ts L s → ts !! j = Some t → t_heap t !! a = Some o → k_heap s !! a = Some o.
Proof.
  intros (f & hs & ls & []) Hj Ha. eapply shares_get; [done|]. by rewrite (gi_threads0 _ _ Hj).
Qed.

Lemma ginv_fresh F ts L s j t a :
  ginv F ts L s → ts !! j = Some t → k_heap s !! a = None → t_heap t !! a = None.
Proof.
  intros (f & hs & ls & []) Hj Ha. rewrite <- (gi_threads0 _ _ Hj). by eapply shares_fresh.
Qed.

Lemma ginv_write F ts L s j t a o n :
  ginv F ts L s → ts !! j = Some t →
  (k_heap s !! a = None ∨ is_Some (t_heap t !! a)) →
  ginv F (<[j := set_heap t (<[a := o]> (t_heap t))]> ts) L (mk_kst (<[a := o]> (k_heap s)) n).
Proof.
  intros (f & hs & ls & Hg) Hj Ha. do 3 eexists. eapply ginv_local; [done..|].
  simpl. rewrite <- (gi_threads _ _ _ _ _ _ _ Hg _ _ Hj) in *.
  apply shares_write; [apply Hg|done].
Qed.

Lemma ginv_free F ts L s j t a n :
  ginv F ts L s → ts !! j = Some t → is_Some (t_heap t !! a) →
  ginv F (<[j := set_heap t (delete a (t_heap t))]> ts) L (mk_kst (delete a (k_heap s)) n).
Proof.
  intros (f & hs & ls & Hg) Hj Ha. do 3 eexists. eapply ginv_local; [done..|].
  simpl. rewrite <- (gi_threads _ _ _ _ _ _ _ Hg _ _ Hj) in *.
  apply shares_free; [apply Hg|done].
Qed.

Lemma ginv_same F ts L s j t n :
  ginv F ts L s → ts !! j = Some t → ginv F (<[j := t]> ts) L (mk_kst (k_heap s) n).
Proof. intros Hg Hj. by rewrite list_insert_id. Qed.

Lemma commit_same t t' L : t_hist t' = t_hist t → commit_step t t' L L.
Proof. by left. Qed.

Context {laws : KernelLaws api}.

(** Outcome of a safe action. *)
Definition act_post {X : Type} F (ts : list tst) L j t (Φ : X → tst → Prop)
    (r : outcome fault kst X) : Prop :=
  match r with
  | Done x s' =>
      ∃ t' L', Φ x t' ∧ ginv F (<[j := t']> ts) L' s' ∧ commit_step t t' L L'
  | Blocked => t_held t = None ∧ ∃ j' t', ts !! j' = Some t' ∧ t_held t' ≠ None
  | Faulted _ => False
  end.

Lemma alloc_sound F ts L s j t (Φ : ptr → tst → Prop) o :
  ginv F ts L s → ts !! j = Some t → (may_fail → Φ None t) →
  (∀ a, t_heap t !! a = None → Φ (Some a) (set_heap t (<[a := o]> (t_heap t)))) →
  act_post F ts L j t Φ (alloc o s).
Proof.
  intros Hg Hj Hnone Hsome. unfold alloc.
  destruct (kmalloc_addr _ _) as [a|] eqn:Ha; simpl.
  - apply kmalloc_addr_fresh in Ha.
    do 2 eexists. split_and!; [apply Hsome|apply ginv_write|by apply commit_same]; eauto using ginv_fresh.
  - exists t, L. split_and!; [apply Hnone; by do 2 eexists|by apply ginv_same|by apply commit_same].
Qed.

Lemma lock_sound F ts L s j t (Φ : unit → tst → Prop) p i :
  ginv F ts L s → ts !! j = Some t → act_wp pb pl nbits (SpinLock p i) t Φ →
  act_post F ts L j t Φ (kexec _ (SpinLock p i) s).
Proof.
  intros (f & hs & ls & Hg) Hj (i0 & -> & -> & Hi & Ht & HΦ).
  destruct (ginv_heads _ _ _ _ _ _ _ Hg) as [_ Hpl].
  destruct (lookup_lt_is_Some_2 L i0) as [c Hc]; [by rewrite (gi_len_chains _ _ _ _ _ _ _ Hg)|].
  simpl. rewrite Hpl. unfold in_array. rewrite decide_True, Nat2Z.id by lia.
  destruct (gi_buckets _ _ _ _ _ _ _ Hg i0 c Hc) as [Hfree|[(j' & t' & cur & H1 & H2 & _ & _) Hl _]].
  - pose proof Hfree as []. rewrite free_lock0. simpl.
    exists (mk_tst (t_heap t ∪ chain_heap c) (Some (i0, c, n_addr <$> c)) (t_hist t)), L.
    split_and!; [| |by apply commit_same].
    + apply (HΦ c); [by eapply gi_chains|].
      rewrite <- free_heap0, <- (gi_threads _ _ _ _ _ _ _ Hg _ _ Hj).
      apply (shares_disjoint _ _ (gi_shares _ _ _ _ _ _ _ Hg)). done.
    + do 3 eexists. by apply ginv_lock.
  - rewrite Hl. simpl. split; [done|]. exists j', t'. by rewrite H2.
Qed.

Lemma unlock_sound F ts L s j t (Φ : unit → tst → Prop) p i :
  ginv F ts L s → ts !! j = Some t → act_wp pb pl nbits (SpinUnlock p i) t Φ →
  act_post F ts L j t Φ (kexec _ (SpinUnlock p i) s).
Proof.
  intros (f & hs & ls & Hg) Hj (i0 & c0 & c & h & -> & -> & Ht & Hc & Hd & Hh & HΦ).
  destruct (ginv_heads _ _ _ _ _ _ _ Hg) as [_ Hpl].
  destruct (ginv_holder _ _ _ _ _ _ _ _ _ _ _ _ Hg Hj Ht) as (HL & _ & [_ Hl _] & _).
  simpl. rewrite Hpl. unfold in_array. rewrite decide_True, Nat2Z.id, Hl by lia. simpl.
  exists (mk_tst h None (t_hist t ++ [(i0, c0, c)])), (<[i0 := c]> L).
  split_and!; [done| |right; eauto 10].
  do 3 eexists. by eapply ginv_unlock.
Qed.

Lemma act_sound {X : Type} F ts L s j t (e : kact X) (Φ : X → tst → Prop) :
  ginv F ts L s → ts !! j = Some t → act_wp pb pl nbits e t Φ →
  act_post F ts L j t Φ (kexec X e s).
Proof.
  intros Hg Hj. pose proof (λ a o, ginv_cell F ts L s j t a o Hg Hj) as Hcell.
  assert (∀ t', t_hist t' = t_hist t → commit_step t t' L L) as Hsame by (intros; by left).
  assert (ginv F (<[j := t]> ts) L s) as Hid by (by rewrite list_insert_id).
  destruct e as [k|buf|p|p i|p i l|e|e|e k|e p|p|p off n|p off d|p i|p i|p i|f];
    try (by apply lock_sound); try (by apply unlock_sound).
  - intros [Hn Ha]. apply alloc_sound; auto.
  - intros (str & Hstr & Hn & Ha). simpl. rewrite Hstr. apply alloc_sound; auto.
  - destruct p as [a|]; simpl.
    + intros [Ha HΦ]. pose proof Ha as [o Ho]. rewrite (Hcell _ _ Ho).
      do 2 eexists. split_and!; [done|by apply ginv_free|by apply Hsame].
    + intros HΦ. exists t, L. by split_and!; [|rewrite list_insert_id|apply Hsame].
  - intros (i0 & c & cur & -> & -> & Ht & HΦ). destruct Hg as (f & hs & ls & Hg).
    destruct (ginv_heads _ _ _ _ _ _ _ Hg) as [Hpb _].
    destruct (ginv_holder _ _ _ _ _ _ _ _ _ _ _ _ Hg Hj Ht) as (_ & Hh & _).
    simpl. rewrite Hpb. unfold in_array. rewrite decide_True, Nat2Z.id, Hh by lia.
    exists t, L. eauto.
  - intros (i0 & c & cur & -> & -> & Ht & HΦ). destruct Hg as (f & hs & ls & Hg).
    destruct (ginv_heads _ _ _ _ _ _ _ Hg) as [Hpb _].
    destruct (ginv_holder _ _ _ _ _ _ _ _ _ _ _ _ Hg Hj Ht) as (_ & Hh & _).
    simpl. rewrite Hpb. unfold in_array. rewrite decide_True, Nat2Z.id, Hh by lia.
    do 2 eexists. split_and!; [done| |by apply Hsame].
    do 3 eexists. by eapply ginv_head_write.
  - intros (k & v & He & HΦ). simpl. rewrite (Hcell _ _ He). exists t, L. eauto.
  - intros (k & v & He & HΦ). simpl. rewrite (Hcell _ _ He). exists t, L. eauto.
  - intros (k0 & v & He & HΦ). simpl. rewrite (Hcell _ _ He).
    do 2 eexists. split_and!; [done|apply ginv_write; eauto|by apply Hsame].
  - intros (k & v0 & He & HΦ). simpl. rewrite (Hcell _ _ He).
    do 2 eexists. split_and!; [done|apply ginv_write; eauto|by apply Hsame].
  - intros (a & bs & str & -> & Ha & Hs & HΦ). simpl. rewrite (Hcell _ _ Ha), Hs.
    exists t, L. eauto.
  - intros (a & bs & -> & Ha & Hl & HΦ). simpl. rewrite (Hcell _ _ Ha), decide_True by done.
    exists t, L. eauto.
  - intros (a & bs & -> & Ha & Hl & HΦ). simpl. rewrite (Hcell _ _ Ha), decide_True by done.
    do 2 eexists. split_and!; [done|apply ginv_write; eauto|by apply Hsame].
  - done.
  - done.
Qed.

(** ** Sequential runs *)

Theorem run_sound {A : Type} (p : kprog A) F L s t (Q : A → tst → Prop) :
  ginv F [t] L s → kwp pb pl nbits p Q t →
  ∃ a s' t' L' H, krun p s = Done a s' ∧ Q a t' ∧ ginv F [t'] L' s' ∧
    t_hist t' = t_hist t ++ H ∧ replay L H L'.
Proof.
  revert L s t. induction p as [a|X e k IH]; intros L s t Hg Hwp.
  { exists a, s, t, L, []. rewrite app_nil_r. split_and!; try done. constructor. }
  pose proof (act_sound F [t] L s 0 t e _ Hg eq_refl Hwp) as Hact.
  unfold krun. cbn [run]. unfold act_post in Hact.
  destruct (kexec X e s) as [x s1| |]; [| |done].
  - destruct Hact as (t1 & L1 & HQ & Hg1 & Hc). simpl in Hg1.
    destruct (IH x L1 s1 t1 Hg1 HQ) as (a & s' & t' & L' & H & Hr & HQ' & Hg' & Hh & Hrep).
    destruct Hc as [[-> Hh1]|(i & c & c' & Hi & -> & Hh1)].
    + exists a, s', t', L', H. split_and!; try done. by rewrite Hh, Hh1.
    + exists a, s', t', L', ((i, c, c') :: H). split_and!; try done.
      * by rewrite Hh, Hh1, <- app_assoc.
      * by econstructor.
  - destruct Hact as (Hnone & [|j'] & t' & Ht' & Hsome); simplify_eq/=; done.
Qed.

(** ** Pools of threads

    The threads' side of a pool, whatever programs they run: who owns what, the
    critical sections so far with the thread of each, and the chains they led
    to. *)
Record pool_table (F : heap) (L0 : list (list node)) (ts : list tst) (L : list (list node))
    (G : list (nat * commit)) (s : kst) : Prop := {
  pt_ginv : ginv F ts L s;
  pt_replay : replay L0 (snd <$> G) L;
  pt_hist j t : ts !! j = Some t → t_hist t = snd <$> filter (λ x, x.1 = j) G;
  pt_tags x : x ∈ G → (x.1 < length ts)%nat;
}.

(** Threads before their first step. *)
Lemma pool_table_init F L s n :
  ginv F [] L s → pool_table F L (replicate n (mk_tst ∅ None [])) L [] s.
Proof.
  intros Hg. split.
  - eapply ginv_idle; [| |done]; [constructor|]. by apply Forall_replicate.
  - constructor.
  - by intros j t [-> _]%lookup_replicate.
  - by intros x ?%not_elem_of_nil.
Qed.

Lemma pool_table_born F L0 ts L G s n :
  pool_table F L0 ts L G s → pool_table F L0 (ts ++ replicate n (mk_tst ∅ None [])) L G s.
Proof.
  intros [Hg Hrep Hhist Htags]. split; [by apply ginv_born|done| |].
  - intros j t [Hj|[Hj [-> _]%lookup_replicate]]%lookup_app_Some; [by apply Hhist|].
    cbn [t_hist]. destruct (filter (λ x, x.1 = j) G) as [|x l] eqn:Hf; [done|].
    assert (x ∈ filter (λ x, x.1 = j) G) as [Hx Hin%Htags]%list_elem_of_filter
      by (rewrite Hf; apply elem_of_cons; by left). lia.
  - intros x Hx%Htags. rewrite length_app. lia.
Qed.

(** A safe action of one thread. *)
Lemma pool_table_step {X : Type} F L0 ts L G s j t (Φ : X → tst → Prop) x s' :
  pool_table F L0 ts L G s → ts !! j = Some t → act_post F ts L j t Φ (Done x s') →
  ∃ t' L' cs, Φ x t' ∧ t_hist t' = t_hist t ++ cs ∧
    pool_table F L0 (<[j := t']> ts) L' (G ++ (pair j <$> cs)) s'.
Proof.
  intros [Hg Hrep Hhist Htags] Ht (t1 & L1 & HQ & Hg1 & Hc).
  assert (∀ j1 t2, <[j := t1]> ts !! j1 = Some t2 →
            (j1 = j ∧ t2 = t1) ∨ (j1 ≠ j ∧ ts !! j1 = Some t2)) as Hins.
  { intros j1 t2. pose proof (lookup_lt_Some _ _ _ Ht).
    destruct (decide (j1 = j)) as [->|Hne].
    - rewrite list_lookup_insert_eq by done. intros [= <-]. by left.
    - rewrite list_lookup_insert_ne by done. by right. }
  destruct Hc as [[-> Hh1]|(i & c0 & c1 & Hi & -> & Hh1)].
  - exists t1, L, []. split_and!; [done|by rewrite app_nil_r|]. cbn [fmap list_fmap]. rewrite app_nil_r.
    split; rewrite ?length_insert; [done|done| |done].
    intros j1 t2 [[-> ->]|[Hne Hj1]]%Hins; [rewrite Hh1|]; eauto.
  - exists t1, (<[i := c1]> L), [(i, c0, c1)]. split_and!; [done..|]. cbn [fmap list_fmap].
    split; rewrite ?length_insert; [done| | |].
    + rewrite fmap_app. eapply replay_app; [done|]. by apply replay_one.
    + intros j1 t2 [[-> ->]|[Hne Hj1]]%Hins; rewrite filter_app, fmap_app.
      * rewrite Hh1, (Hhist _ _ Ht). f_equal. by rewrite filter_cons_True.
      * rewrite filter_cons_False by done. rewrite app_nil_r. eauto.
    + intros y [Hy|Hy%list_elem_of_singleton]%elem_of_app; [auto|]. subst y.
      by eapply lookup_lt_Some.
Qed.

(** [Q j] is what thread [j] guarantees when it returns. *)
Record pool_inv_at {A : Type} (F : heap) (L0 : list (list node))
    (Q : nat → A → tst → Prop) (c : list (kprog A) * kst)
    (ts : list tst) (L : list (list node)) (G : list (nat * commit)) : Prop := {
  pi_ginv : ginv F ts L c.2;
  pi_length : length ts = length c.1;
  pi_replay : replay L0 (snd <$> G) L;
  pi_hist j t : ts !! j = Some t → t_hist t = snd <$> filter (λ x, x.1 = j) G;
  pi_tags x : x ∈ G → (x.1 < length ts)%nat;
  pi_wp j p t : c.1 !! j = Some p → ts !! j = Some t → kwp pb pl nbits p (Q j) t;
}.

Definition pool_inv {A : Type} F L0 (Q : nat → A → tst → Prop) c : Prop :=
  ∃ ts L G, pool_inv_at F L0 Q c ts L G.

Lemma pool_thread {A : Type} F L0 (Q : nat → A → tst → Prop) c ts L G j p :
  pool_inv_at F L0 Q c ts L G → c.1 !! j = Some p →
  ∃ t, ts !! j = Some t ∧ kwp pb pl nbits p (Q j) t.
Proof.
  intros [] Hj. destruct (lookup_lt_is_Some_2 ts j) as [t Ht].
  { rewrite pi_length0. by eapply lookup_lt_Some. }
  eauto.
Qed.

Lemma pool_inv_table {A : Type} F L0 (Q : nat → A → tst → Prop) c ts L G :
  pool_inv_at F L0 Q c ts L G → pool_table F L0 ts L G c.2.
Proof. by intros []. Qed.

Lemma pool_step_inv {A : Type} F L0 (Q : nat → A → tst → Prop) c c' :
  pool_inv F L0 Q c → pstep kexec c c' → pool_inv F L0 Q c'.
Proof.
  intros (ts & L & G & Hp) Hstep. inversion Hstep as [ps s j p p' s' Hj Hs]; subst.
  destruct (pool_thread _ _ _ _ _ _ _ _ _ Hp Hj) as (t & Ht & Hwp).
  destruct p as [a|X e k]; [done|]. simpl in Hs, Hwp.
  pose proof (pool_inv_table _ _ _ _ _ _ _ Hp) as Htab.
  destruct Hp as [Hg Hlen _ _ _ Hall]. cbn [fst snd] in *.
  pose proof (act_sound F ts L s j t e _ Hg Ht Hwp) as Hact.
  destruct (kexec X e s) as [x s1| |]; [|done..]. injection Hs as <- <-.
  destruct (pool_table_step _ _ _ _ _ _ _ _ _ _ _ Htab Ht Hact) as (t1 & L1 & cs & HQ & _ & []).
  exists (<[j := t1]> ts), L1, (G ++ (pair j <$> cs)). split; cbn [fst snd]; try done; [by rewrite !length_insert|].
  intros j1 p1 t2. pose proof (lookup_lt_Some _ _ _ Hj). pose proof (lookup_lt_Some _ _ _ Ht).
  destruct (decide (j1 = j)) as [->|Hne].
  - rewrite !list_lookup_insert_eq by done. by intros [= <-] [= <-].
  - rewrite !list_lookup_insert_ne by done. eauto.
Qed.

(** A pool that starts on a table nobody uses. *)
Lemma pool_inv_init {A : Type} F L s (Q : nat → A → tst → Prop) (ps : list (kprog A)) :
  ginv F [] L s → (∀ j p, ps !! j = Some p → kwp pb pl nbits p (Q j) (mk_tst ∅ None [])) →
  pool_inv F L Q (ps, s).
Proof.
  intros Hg Hps. destruct (pool_table_init F L s (length ps) Hg).
  exists (replicate (length ps) (mk_tst ∅ None [])), L, [].
  split; cbn [fst snd]; try done; [apply length_replicate|].
  intros j p t Hj [-> _]%lookup_replicate. by apply Hps.
Qed.

Theorem pool_steps_inv {A : Type} F L0 (Q : nat → A → tst → Prop) c c' :
  pool_inv F L0 Q c → rtc (pstep kexec) c c' → pool_inv F L0 Q c'.
Proof. intros Hp. induction 1; eauto using pool_step_inv. Qed.

Theorem pool_no_fault {A : Type} F L0 (Q : nat → A → tst → Prop) c :
  pool_inv F L0 Q c → ¬ pool_faults kexec c.
Proof.
  intros (ts & L & G & Hp) (j & p & f & Hj & Hs).
  destruct (pool_thread _ _ _ _ _ _ _ _ _ Hp Hj) as (t & Ht & Hwp).
  destruct p as [a|X e k]; [done|]. simpl in Hs, Hwp.
  pose proof (act_sound F ts L c.2 j t e _ (pi_ginv _ _ _ _ _ _ _ Hp) Ht Hwp) as Hact.
  unfold act_post in Hact. destruct (kexec X e c.2); done.
Qed.

(** A thread with no lock in its hands can only wait for one that has. *)
Lemma thread_step_or_wait {A : Type} F L0 (Q : nat → A → tst → Prop) c ts L G j p t :
  pool_inv_at F L0 Q c ts L G → c.1 !! j = Some p → ts !! j = Some t → (∀ a, p ≠ Ret a) →
  (∃ c', pstep kexec c c') ∨
  (t_held t = None ∧ ∃ j' t', ts !! j' = Some t' ∧ t_held t' ≠ None).
Proof.
  intros Hp Hj Ht Hret. destruct p as [a|X e k]; [by destruct (Hret a)|].
  pose proof (act_sound F ts L c.2 j t e _ (pi_ginv _ _ _ _ _ _ _ Hp) Ht
    (pi_wp _ _ _ _ _ _ _ Hp _ _ _ Hj Ht)) as Hact.
  unfold act_post in Hact. destruct (kexec X e c.2) as [x s'| |] eqn:He; [|by right|done].
  left. destruct c as [ps s]. eexists. econstructor; [done|]. simpl in *. by rewrite He.
Qed.

(** No deadlock: as long as some thread has not returned, some thread can
    step, provided threads return with no lock held. *)
Theorem pool_progress {A : Type} F L0 (Q : nat → A → tst → Prop) c :
  (∀ j a t, Q j a t → t_held t = None) →
  pool_inv F L0 Q c → pool_done c.1 ∨ ∃ c', pstep kexec c c'.
Proof.
  intros HQ (ts & L & G & Hp).
  destruct (decide (Exists (λ t, t_held t ≠ None) ts)) as [Hex|Hnone].
  - apply Exists_exists in Hex as (t & [j Ht]%list_elem_of_lookup & Hheld). right.
    destruct (lookup_lt_is_Some_2 c.1 j) as [p Hj].
    { rewrite <- (pi_length _ _ _ _ _ _ _ Hp). by eapply lookup_lt_Some. }
    destruct (thread_step_or_wait _ _ _ _ _ _ _ _ _ _ Hp Hj Ht) as [|[? _]]; [|done..].
    intros a ->. pose proof (pi_wp _ _ _ _ _ _ _ Hp _ _ _ Hj Ht) as Hq. simpl in Hq. eauto.
  - destruct (decide (Forall (λ p, is_ret p = true) c.1)) as [Hd|Hd]; [by left|].
    right. apply not_Forall_Exists in Hd; [|apply _].
    apply Exists_exists in Hd as (p & [j Hj]%list_elem_of_lookup & Hp').
    destruct (pool_thread _ _ _ _ _ _ _ _ _ Hp Hj) as (t & Ht & _).
    destruct (thread_step_or_wait _ _ _ _ _ _ _ _ _ _ Hp Hj Ht) as [|(_ & j' & t' & ? & ?)];
      [intros a ->; by apply Hp'|done|].
    destruct Hnone. apply Exists_exists. exists t'. split; [|done].
    by eapply list_elem_of_lookup_2.
Qed.

End Invariant.
