(* ===== verification/KTyping.v ===== *)
(** * The type of the table's heap

    What the C declarations promise of the memory between two operations: the
    two arrays have an element for each bucket, and from the head of a bucket
    nobody holds hangs a list of entries, each with a key of that bucket and a
    terminated string.  The predicates read the heap itself, with no mention of
    the chains of the proofs. *)

From S2P Require Import Prelude Prog CStr KvIoctl KMem KLogic KSound.

(** The pair of an entry: a key, and the string that fills the value's buffer. *)
Definition entry_pair (h : heap) (e : addr) : option (Z * bytes) :=
  match h !! e with
  | Some (OEntry (Some k) (Some (Some p))) =>
      match h !! p with
      | Some (OBytes bs) =>
          v ← c_str bs;
          if decide (length bs = S (length v)) then Some (k, v) else None
      | _ => None
      end
  | _ => None
  end.

Section Typing.
Context {api : KernelApi}.
Variables (pb pl : addr) (nbits : Z).

Abbreviation nb := (nbuckets nbits).

Definition bucket_typed (h : heap) (i : nat) (es : list addr) : Prop :=
  ∃ l, mapM (entry_pair h) es = Some l ∧ NoDup l.*1 ∧
    Forall (λ kv, is_u64 kv.1 ∧ hash_min kv.1 nbits = Z.of_nat i ∧ value_ok kv.2) l.

Definition heap_typed (h : heap) : Prop :=
  ∃ hs ls, h !! pb = Some (OHeads hs) ∧ h !! pl = Some (OLocks ls) ∧
    length hs = nb ∧ length ls = nb ∧
    ∀ i, (i < nb)%nat → ∃ es locked,
      hs !! i = Some (Some es) ∧ ls !! i = Some (Some locked) ∧
      (locked = false → bucket_typed h i es).

Lemma entry_pair_node h n :
  h !! n_addr n = Some (OEntry (Some (n_key n)) (Some (Some (n_vaddr n)))) →
  h !! n_vaddr n = Some (OBytes (n_val n ++ [NUL])) → no_nul (n_val n) →
  entry_pair h (n_addr n) = Some (n_key n, n_val n).
Proof.
  intros He Hv Hn. unfold entry_pair. rewrite He, Hv, c_str_app by done. simpl.
  rewrite decide_True; [done|]. rewrite length_app. simpl. lia.
Qed.

Lemma chain_typed h i c :
  chain_ok nbits i c → (∀ a o, chain_heap c !! a = Some o → h !! a = Some o) →
  bucket_typed h i (n_addr <$> c).
Proof.
  intros [Haddrs Hkeys Hnodes] Hsub. exists (chain_kvs c). split_and!.
  - apply mapM_Some_2, Forall2_fmap_2, Forall_Forall2_diag, Forall_forall. intros n Hn.
    destruct (chain_heap_entry c n Haddrs Hn) as [He Hv]. destruct (Hnodes n Hn) as (_ & _ & Hval & _).
    by apply entry_pair_node; [apply Hsub|apply Hsub|].
  - unfold chain_kvs. by rewrite <- list_fmap_compose.
  - unfold chain_kvs. by apply Forall_fmap, Forall_forall.
Qed.

(** The invariant of the proofs gives the type. *)
Lemma ginv_typed F ts L s : ginv pb pl nbits F ts L s → heap_typed (k_heap s).
Proof.
  intros (f & hs & ls & Hg). pose proof (ginv_heads _ _ _ _ _ _ _ _ _ _ Hg) as [Hhs Hls].
  destruct Hg as []. exists hs, ls. split_and!; [done..|]. intros i Hi.
  destruct (lookup_lt_is_Some_2 L i) as [c Hc]; [lia|].
  destruct (gi_buckets i c Hc) as [[_ Hhead Hlock Hheap]|[(j & t & cur & _ & _ & Hhead & _) Hlock _]].
  - exists (n_addr <$> c), false. split_and!; [done..|]. intros _. apply chain_typed; [by apply gi_chains|].
    intros a o Ho. apply (shares_get _ _ (OwnBucket i) _ _ gi_shares). by rewrite Hheap.
  - exists cur, true. by split_and!.
Qed.

End Typing.
