(* ===== verification/KvHashSpec.v ===== *)
(** * Correctness of the hash table operations

    What each operation of [kernel/kv_hash.c] does, stated on the chains its
    critical sections find and leave ([kwp]): the result, the private heap it
    leaves (nothing is leaked) and the commits it makes.  The chains are then
    read as association lists ([kv_find], [kv_update], [kv_del]) and the whole
    table as a finite map. *)

From S2P Require Import Prelude Prog CStr KvIoctl KMem KvHash KLogic KSound.

(** ** Association lists *)

Abbreviation kvs := (list (Z * bytes)).

Fixpoint kv_find (k : Z) (l : kvs) : option bytes :=
  match l with
  | [] => None
  | (k', v) :: l' => if decide (k' = k) then Some v else kv_find k l'
  end.

Fixpoint kv_update (k : Z) (v : bytes) (l : kvs) : kvs :=
  match l with
  | [] => []
  | (k', v') :: l' => if decide (k' = k) then (k', v) :: l' else (k', v') :: kv_update k v l'
  end.

(** Update in place, or link a new pair at the head. *)
Definition kv_set (k : Z) (v : bytes) (l : kvs) : kvs :=
  match kv_find k l with Some _ => kv_update k v l | None => (k, v) :: l end.

Definition kv_del (k : Z) (l : kvs) : kvs := filter (λ p, p.1 ≠ k) l.

Lemma kv_find_None k l : k ∉ l.*1 → kv_find k l = None.
Proof.
  induction l as [|[k' v] l IH]; simpl; [done|].
  rewrite not_elem_of_cons. intros [??]. rewrite decide_False by done. auto.
Qed.

Lemma kv_find_middle k v l1 l2 : k ∉ l1.*1 → kv_find k (l1 ++ (k, v) :: l2) = Some v.
Proof.
  induction l1 as [|[k' v'] l1 IH]; simpl; [by rewrite decide_True|].
  rewrite not_elem_of_cons. intros [??]. rewrite decide_False by done. auto.
Qed.

Lemma kv_update_middle k v v' l1 l2 :
  k ∉ l1.*1 → kv_update k v (l1 ++ (k, v') :: l2) = l1 ++ (k, v) :: l2.
Proof.
  induction l1 as [|[k' v''] l1 IH]; simpl; [by rewrite decide_True|].
  rewrite not_elem_of_cons. intros [??]. rewrite decide_False by done. by rewrite IH.
Qed.

Lemma kv_del_notin k l : k ∉ l.*1 → kv_del k l = l.
Proof.
  unfold kv_del. induction l as [|[k' v] l IH]; simpl; [done|].
  rewrite not_elem_of_cons. intros [??].
  rewrite filter_cons_True by (simpl; congruence). by rewrite IH.
Qed.

Lemma kv_del_middle k v l1 l2 :
  k ∉ l1.*1 → k ∉ l2.*1 → kv_del k (l1 ++ (k, v) :: l2) = l1 ++ l2.
Proof.
  intros ??. unfold kv_del. rewrite filter_app, filter_cons_False by (simpl; auto).
  fold (kv_del k l1) (kv_del k l2). by rewrite !kv_del_notin.
Qed.

Lemma kv_find_map k l : kv_find k l = (list_to_map l : gmap Z bytes) !! k.
Proof.
  induction l as [|[k' v] l IH]; simpl; [by rewrite lookup_empty|].
  rewrite lookup_insert. by case_decide.
Qed.

(** ** Chains as association lists *)

Lemma chain_kvs_keys c : (chain_kvs c).*1 = n_key <$> c.
Proof. unfold chain_kvs. by rewrite <- list_fmap_compose. Qed.

Lemma chain_kvs_middle c1 n c2 :
  chain_kvs (c1 ++ n :: c2) = chain_kvs c1 ++ (n_key n, n_val n) :: chain_kvs c2.
Proof. unfold chain_kvs. by rewrite fmap_app. Qed.

Lemma elem_of_middle {A : Type} (l1 : list A) x l2 : x ∈ l1 ++ x :: l2.
Proof. apply elem_of_app. right. apply elem_of_cons. by left. Qed.

(** A node inside a chain, and a chain without it. *)
Lemma chain_heap_middle c1 n c2 :
  NoDup (chain_addrs (c1 ++ n :: c2)) →
  chain_heap (c1 ++ n :: c2) = node_heap n ∪ chain_heap (c1 ++ c2).
Proof.
  intros Hnd. rewrite !chain_heap_app. simpl. rewrite !(assoc_L (∪)). f_equal.
  apply map_union_comm. apply chain_addrs_disjoint in Hnd. simpl in Hnd.
  by apply map_disjoint_union_r in Hnd as [? _].
Qed.

Lemma chain_addrs_middle c1 n c2 :
  chain_addrs (c1 ++ n :: c2) ≡ₚ n_addr n :: n_vaddr n :: chain_addrs (c1 ++ c2).
Proof. rewrite !chain_addrs_app. simpl. by rewrite <- !Permutation_middle. Qed.

Lemma chain_heap_None c a : a ∉ chain_addrs c ↔ chain_heap c !! a = None.
Proof.
  split.
  - intros Ha. apply eq_None_not_Some. intros [o Ho]. by apply lookup_chain_heap_addrs in Ho.
  - intros Hn Ha%chain_addrs_lookup. rewrite Hn in Ha. by destruct Ha.
Qed.

(** Case analysis on whether an address is one of two. *)
Ltac cases_at b xs :=
  lazymatch xs with
  | (?ys, ?x) => cases_at b ys; destruct (decide (b = x))
  | ?x => destruct (decide (b = x))
  end.

Ltac map_at xs :=
  apply map_eq; intros ?;
  match goal with |- _ !! ?b = _ => cases_at b xs end; try congruence; subst; unfold node_heap; simpl;
  rewrite ?lookup_union, ?lookup_insert, ?lookup_delete, ?lookup_union,
    ?lookup_insert, ?lookup_singleton;
  repeat (case_decide; simplify_eq; try done);
  repeat match goal with H : ?m !! _ = None |- _ => rewrite H end;
  rewrite ?(left_id_L None (∪)), ?(right_id_L None (∪)); try done.

Lemma heap_replace (h r : heap) n a v k :
  n_addr n ≠ n_vaddr n → a ≠ n_addr n → a ≠ n_vaddr n →
  h !! n_addr n = None → h !! n_vaddr n = None → h !! a = None → r !! a = None →
  r !! n_addr n = None → r !! n_vaddr n = None →
  <[n_addr n := OEntry (Some k) (Some (Some a))]>
    (delete (n_vaddr n) (<[a := OBytes (v ++ [NUL])]> h ∪ (node_heap n ∪ r))) =
  h ∪ (node_heap (mk_node (n_addr n) k a v) ∪ r).
Proof. intros. map_at (n_addr n, n_vaddr n, a). Qed.

Lemma heap_remove (h r : heap) n :
  n_addr n ≠ n_vaddr n → h !! n_addr n = None → h !! n_vaddr n = None →
  r !! n_addr n = None → r !! n_vaddr n = None →
  delete (n_addr n) (delete (n_vaddr n) (h ∪ (node_heap n ∪ r))) = h ∪ r.
Proof. intros. map_at (n_addr n, n_vaddr n). Qed.

Lemma heap_insert (h r : heap) e a k v :
  e ≠ a → h !! e = None → h !! a = None → r !! e = None → r !! a = None →
  <[e := OEntry (Some k) (Some (Some a))]> (<[a := OBytes (v ++ [NUL])]> h ∪ r) =
  h ∪ (node_heap (mk_node e k a v) ∪ r).
Proof. intros. map_at (e, a). Qed.

Lemma heap_give_up (h r : heap) a o :
  h !! a = None → r !! a = None → delete a (<[a := o]> h ∪ r) = h ∪ r.
Proof. intros. map_at a. Qed.

(** ** Buffers that are filled entry by entry *)

(** The entry at offset [at_] of a buffer holds the pair [kv]. *)
Definition entry_ok (bs : bytes) (at_ : nat) (kv : Z * bytes) : Prop :=
  let m := decode_msg (read_at at_ sizeof_kv_message bs) in
  status m = 0 ∧ key m = kv.1 ∧ c_str (value m) = Some kv.2.

(** The four bytes between the status and the key of a message belong to no
    field. *)
Definition off_pad : nat := off_status + 4.

(** [bs] is [bs0] with the pairs [l] stored from [base] on, and nothing changed
    before [base] and in the padding. *)
Record snap_buf (base : nat) (bs0 bs : bytes) (l : kvs) : Prop := {
  sb_length : length bs = length bs0;
  sb_before off n : (off + n <= base)%nat → read_at off n bs = read_at off n bs0;
  sb_entries i kv : l !! i = Some kv → entry_ok bs (base + i * sizeof_kv_message) kv;
  sb_padding i : read_at (base + i * sizeof_kv_message + off_pad) 4 bs =
    read_at (base + i * sizeof_kv_message + off_pad) 4 bs0;
}.

Lemma entry_ok_fields bs at_ kv :
  entry_ok bs at_ kv ↔
  wrap_s32 (le_value (read_at (at_ + off_status) 4 bs)) = 0 ∧
  le_value (read_at (at_ + off_key) 8 bs) = kv.1 ∧
  c_str (read_at (at_ + off_value) MAX_VALUE_LEN bs) = Some kv.2.
Proof.
  unfold entry_ok, decode_msg. cbn [status key value].
  rewrite !read_at_read_at; unfold sizeof_kv_message, off_status, off_key, off_value,
    MAX_VALUE_LEN; [done|lia..].
Qed.

Lemma entry_ok_frame bs bs' at_ kv :
  (∀ off n, (at_ <= off)%nat → (off + n <= at_ + sizeof_kv_message)%nat →
     read_at off n bs' = read_at off n bs) →
  entry_ok bs at_ kv → entry_ok bs' at_ kv.
Proof.
  intros Hf. rewrite !entry_ok_fields, !Hf; [done|..];
    unfold off_status, off_key, off_value, MAX_VALUE_LEN, sizeof_kv_message; lia.
Qed.

Lemma snap_buf_nil base bs : snap_buf base bs bs [].
Proof. split; [done|done| |done]. intros ??. by rewrite lookup_nil. Qed.

(** ** Specifications of the operations on a table of [2^nbits] buckets *)

Section Specs.
Context {api : KernelApi} {laws : KernelLaws api}.
Variables (pb pl : addr) (nbits : Z).
Hypothesis nbits_range : 1 <= nbits <= 31.

Abbreviation nb := (nbuckets nbits).
Abbreviation ht := (mk_ht (Some pb) (Some pl) nbits).
Abbreviation wp := (kwp pb pl nbits).
Abbreviation ok := (chain_ok nbits).

(** The bucket of a key. *)
Definition bucket_of (k : Z) : nat := Z.to_nat (hash_min k nbits).

(** The thread after one critical section on bucket [i]. *)
Definition after_section (t : tst) (i : nat) (c c' : list node) : tst :=
  mk_tst (t_heap t) None (t_hist t ++ [(i, c, c')]).

Lemma bucket_of_lt k : is_u64 k → (bucket_of k < nb)%nat.
Proof.
  intros Hk. unfold bucket_of, nbuckets. pose proof (hash_min_range k nbits Hk nbits_range). lia.
Qed.

Lemma bucket_of_Z k : is_u64 k → kv_bucket ht k = Z.of_nat (bucket_of k).
Proof.
  intros Hk. unfold bucket_of, kv_bucket. simpl.
  pose proof (hash_min_range k nbits Hk nbits_range). lia.
Qed.

(** *** Owned cells *)

Lemma owned_entry i c n h :
  ok i c → h ##ₘ chain_heap c → n ∈ c →
  (h ∪ chain_heap c) !! n_addr n = Some (OEntry (Some (n_key n)) (Some (Some (n_vaddr n)))).
Proof.
  intros Hok Hd Hn. apply lookup_union_Some_r; [done|].
  by apply (chain_heap_entry c n (chain_ok_addrs _ _ _ Hok)).
Qed.

Lemma owned_value i c n h :
  ok i c → h ##ₘ chain_heap c → n ∈ c →
  (h ∪ chain_heap c) !! n_vaddr n = Some (OBytes (n_val n ++ [NUL])).
Proof.
  intros Hok Hd Hn. apply lookup_union_Some_r; [done|].
  by apply (chain_heap_entry c n (chain_ok_addrs _ _ _ Hok)).
Qed.

Lemma node_value_c_str i c n : ok i c → n ∈ c → c_str (n_val n ++ [NUL]) = Some (n_val n).
Proof. intros Hok Hn. apply c_str_app. by apply (chain_ok_nodes _ _ _ Hok). Qed.

(** Facts about the node a search found: [c = c1 ++ n :: c2]. *)
Record found_node (h : heap) (c1 : list node) (n : node) (c2 : list node) : Prop := {
  fn_neq : n_addr n ≠ n_vaddr n;
  fn_h_addr : h !! n_addr n = None;
  fn_h_vaddr : h !! n_vaddr n = None;
  fn_r_addr : chain_heap (c1 ++ c2) !! n_addr n = None;
  fn_r_vaddr : chain_heap (c1 ++ c2) !! n_vaddr n = None;
  fn_rest : NoDup (chain_addrs (c1 ++ c2));
  fn_heap : chain_heap (c1 ++ n :: c2) = node_heap n ∪ chain_heap (c1 ++ c2);
  fn_disjoint : h ##ₘ chain_heap (c1 ++ c2);
  fn_key2 : n_key n ∉ n_key <$> c2;
}.

Lemma found_node_intro i h c1 n c2 :
  ok i (c1 ++ n :: c2) → h ##ₘ chain_heap (c1 ++ n :: c2) → found_node h c1 n c2.
Proof.
  intros [Hnd Hk _] Hd. pose proof (chain_heap_middle _ _ _ Hnd) as Hmid.
  pose proof Hnd as Hnd'. rewrite chain_addrs_middle, !NoDup_cons, not_elem_of_cons in Hnd'.
  destruct Hnd' as ((? & ?) & ? & ?).
  rewrite Hmid in Hd. pose proof Hd as Hd'. apply map_disjoint_union_r in Hd' as [Hdn Hdr].
  assert (∀ a, a = n_addr n ∨ a = n_vaddr n → h !! a = None) as Hh.
  { intros a [->| ->]; (eapply map_disjoint_Some_r; [exact Hdn|]; unfold node_heap);
      [apply lookup_insert_eq|].
    rewrite lookup_insert_ne by done. apply lookup_singleton_eq. }
  split; auto; try (by apply chain_heap_None).
  rewrite fmap_app, fmap_cons in Hk. apply NoDup_app in Hk as (_ & _ & Hk).
  by apply NoDup_cons in Hk as [? _].
Qed.

(** *** Opening the critical section of a key's bucket

    Every operation on one key takes the lock, reads the list and searches it. *)
Lemma wp_search {R A : Type} k (f : addr → kprog (option R)) (rest : option R → kprog A) t Q :
  is_u64 k → t_held t = None →
  (∀ c h, h = t_heap t → ok (bucket_of k) c → h ##ₘ chain_heap c →
     let t1 := mk_tst (h ∪ chain_heap c) (Some (bucket_of k, c, n_addr <$> c)) (t_hist t) in
     (∀ c1 n c2, c = c1 ++ n :: c2 → n_key n = k → k ∉ n_key <$> c1 → found_node h c1 n c2 →
        wp (f (n_addr n)) (λ r t', ∃ x, r = Some x ∧ wp (rest (Some x)) Q t') t1) ∧
     (k ∉ n_key <$> c → wp (rest None) Q t1)) →
  wp (_ ← call (SpinLock (Some pl) (kv_bucket ht k));
      l ← call (HeadRead (Some pb) (kv_bucket ht k));
      found ← hlist_for_each_entry l (λ e,
                ek ← call (GetKey e);
                if decide (ek = k) then f e else mret None);
      rest found) Q t.
Proof.
  intros Hk Ht Hcases. apply kwp_bind. simpl. exists (bucket_of k).
  split_and!; [done|by apply bucket_of_Z|by apply bucket_of_lt|done|].
  intros c Hc Hd. destruct (Hcases c _ eq_refl Hc Hd) as [Hfound Hnone].
  do 3 eexists. split_and!; [done|by apply bucket_of_Z|done|].
  apply kwp_bind. apply kwp_find.
  - intros n Hn. simpl. eexists. by eapply owned_entry.
  - intros c1 n c2 -> Hnk Hk1. eapply Hfound; eauto using found_node_intro.
  - done.
Qed.

(** Leaving it with a well-formed chain. *)
Lemma wp_unlock {A : Type} k h h1 c0 c' H (p : kprog A) Q :
  is_u64 k → ok (bucket_of k) c' → h1 ##ₘ chain_heap c' → h = h1 ∪ chain_heap c' →
  wp p Q (mk_tst h1 None (H ++ [(bucket_of k, c0, c')])) →
  wp (_ ← call (SpinUnlock (Some pl) (kv_bucket ht k)); p) Q
    (mk_tst h (Some (bucket_of k, c0, n_addr <$> c')) H).
Proof.
  intros Hk Hc Hd -> Hp. simpl. exists (bucket_of k), c0, c', h1.
  split_and!; try done. by apply bucket_of_Z.
Qed.

(** *** [kv_hash_lookup] *)

Definition lookup_result (found : option bytes) (out : bytes) (buflen : nat) : Z * option bytes :=
  match found with
  | None => (- ENOENT, Some out)
  | Some v =>
      if decide (buflen < length v + 1)%nat then (- ENOSPC, Some out)
      else (Z.of_nat (length v), Some (write_at 0 (v ++ [NUL]) out))
  end.

Lemma wp_kv_hash_lookup k out buflen t :
  is_u64 k → t_held t = None → (0 < buflen <= length out)%nat →
  wp (kv_hash_lookup (Some ht) k (Some out) buflen)
    (λ r t', ∃ c, ok (bucket_of k) c ∧ t' = after_section t (bucket_of k) c c ∧
       r = lookup_result (kv_find k (chain_kvs c)) out buflen) t.
Proof.
  intros Hk Ht Hlen. unfold kv_hash_lookup. rewrite decide_False by lia.
  cbn [buckets bucket_locks]. apply wp_search; [done|done|].
  intros c h -> Hc Hd t1. split.
  - intros c1 n c2 -> <- Hk1 Hfn.
    pose proof (elem_of_middle c1 n c2) as Hn.
    apply kwp_act. do 2 eexists. split; [by eapply owned_entry|].
    apply kwp_act. do 3 eexists. split_and!; [done|by eapply owned_value|by eapply node_value_c_str|].
    assert (kv_find (n_key n) (chain_kvs (c1 ++ n :: c2)) = Some (n_val n)) as Hfind.
    { rewrite chain_kvs_middle. apply kv_find_middle. by rewrite chain_kvs_keys. }
    case_decide as Hlen'; [|rewrite decide_False by lia];
      (apply wp_unlock with (t_heap t); [done..|]; eexists; split; [done|];
       eexists; split_and!; [done|done|]; unfold lookup_result; rewrite Hfind).
    + by rewrite decide_True.
    + by rewrite decide_False.
  - intros Hnone. apply wp_unlock with (t_heap t); [done..|]. simpl. eexists.
    split_and!; [done|done|]. unfold lookup_result.
    by rewrite kv_find_None by by rewrite chain_kvs_keys.
Qed.

(** *** Chains after an update, a removal and an insertion *)

Lemma ok_middle_iff i c1 n c2 :
  ok i (c1 ++ n :: c2) ↔
  n_addr n ≠ n_vaddr n ∧ (n_addr n ∉ chain_addrs (c1 ++ c2)) ∧
  (n_vaddr n ∉ chain_addrs (c1 ++ c2)) ∧ (n_key n ∉ n_key <$> (c1 ++ c2)) ∧
  is_u64 (n_key n) ∧ hash_min (n_key n) nbits = Z.of_nat i ∧ value_ok (n_val n) ∧
  ok i (c1 ++ c2).
Proof.
  assert (n_key <$> (c1 ++ n :: c2) ≡ₚ n_key n :: (n_key <$> c1 ++ c2)) as Hk.
  { rewrite !fmap_app, fmap_cons. by rewrite <- Permutation_middle. }
  split.
  - intros [H1 H2 H3]. rewrite chain_addrs_middle, !NoDup_cons, not_elem_of_cons in H1.
    rewrite Hk, NoDup_cons in H2. destruct H1 as ((? & ?) & ? & ?), H2 as [? ?].
    destruct (H3 n (elem_of_middle _ _ _)) as (? & ? & ?). split_and!; try done.
    split; [done..|]. intros m Hm. apply H3.
    apply elem_of_app in Hm. apply elem_of_app. rewrite elem_of_cons. tauto.
  - intros (? & ? & ? & ? & ? & ? & ? & [H1 H2 H3]). split.
    + rewrite chain_addrs_middle, !NoDup_cons, not_elem_of_cons. done.
    + by rewrite Hk, NoDup_cons.
    + intros m Hm. apply elem_of_app in Hm as [Hm|[->|Hm]%elem_of_cons]; [| done |];
        apply H3, elem_of_app; auto.
Qed.

Lemma ok_replace i c1 n c2 a v :
  ok i (c1 ++ n :: c2) → value_ok v → a ∉ chain_addrs (c1 ++ n :: c2) →
  ok i (c1 ++ mk_node (n_addr n) (n_key n) a v :: c2).
Proof.
  rewrite !ok_middle_iff, chain_addrs_middle, !not_elem_of_cons. simpl.
  intros (? & ? & ? & ? & ? & ? & ? & ?) ? (? & ? & ?). by split_and!.
Qed.

Lemma ok_cons i c e k a v :
  ok i c → value_ok v → is_u64 k → hash_min k nbits = Z.of_nat i → k ∉ n_key <$> c →
  e ≠ a → e ∉ chain_addrs c → a ∉ chain_addrs c →
  ok i (mk_node e k a v :: c).
Proof. intros. apply (ok_middle_iff i []). by split_and!. Qed.

Lemma hash_min_bucket k : is_u64 k → hash_min k nbits = Z.of_nat (bucket_of k).
Proof. intros Hk. by rewrite <- bucket_of_Z. Qed.

(** *** [kv_hash_add] *)

Definition add_post (k : Z) (v : bytes) (t : tst) (r : Z) (t' : tst) : Prop :=
  (* kstrdup failed: no critical section *)
  (may_fail ∧ r = - ENOMEM ∧ t' = t) ∨
  (* a new key, and kmalloc failed *)
  (∃ c, may_fail ∧ ok (bucket_of k) c ∧ (k ∉ n_key <$> c) ∧ r = - ENOMEM ∧
     t' = after_section t (bucket_of k) c c) ∨
  (∃ c c', ok (bucket_of k) c ∧ ok (bucket_of k) c' ∧ r = 0 ∧
     t' = after_section t (bucket_of k) c c' ∧ chain_kvs c' = kv_set k v (chain_kvs c)).

Lemma wp_kv_hash_add_update k v a (t : tst) c h :
  is_u64 k → value_ok v → h !! a = None →
  ok (bucket_of k) c → <[a := OBytes (v ++ [NUL])]> h ##ₘ chain_heap c →
  ∀ c1 n c2 Q, c = c1 ++ n :: c2 → n_key n = k → k ∉ n_key <$> c1 →
  (∀ c', ok (bucket_of k) c' → chain_kvs c' = kv_set k v (chain_kvs c) →
     Q (Some 0) (mk_tst h None (t_hist t ++ [(bucket_of k, c, c')]))) →
  wp (old ← call (GetValue (n_addr n));
      _ ← call (Kfree old);
      _ ← call (SetValue (n_addr n) (Some a));
      _ ← call (SpinUnlock (Some pl) (kv_bucket ht k));
      mret (Some 0)) Q
    (mk_tst (<[a := OBytes (v ++ [NUL])]> h ∪ chain_heap c)
       (Some (bucket_of k, c, n_addr <$> c)) (t_hist t)).
Proof.
  intros Hk Hv Ha Hc Hd c1 n c2 Q -> <- Hk1 HQ.
  pose proof (elem_of_middle c1 n c2) as Hn.
  pose proof (found_node_intro _ _ _ _ _ Hc Hd) as [].
  assert (a ∉ chain_addrs (c1 ++ n :: c2)) as Hac.
  { apply chain_heap_None. eapply map_disjoint_Some_r; [symmetry; exact Hd|].
    apply lookup_insert_eq. }
  pose proof Hac as Hac'. rewrite chain_addrs_middle, !not_elem_of_cons in Hac'.
  destruct Hac' as (Ha1 & Ha2 & Har). apply chain_heap_None in Har.
  rewrite lookup_insert_ne in fn_h_addr0, fn_h_vaddr0 by done.
  apply kwp_act. do 2 eexists. split; [by eapply owned_entry|].
  apply kwp_act. split; [eexists; by eapply owned_value|].
  tst_simpl.
  apply kwp_act. do 2 eexists. split.
  { cbn [t_heap]. rewrite lookup_delete_ne by done. by eapply owned_entry. }
  tst_simpl. rewrite fn_heap0, heap_replace by done.
  replace (n_addr <$> c1 ++ n :: c2) with
    (n_addr <$> c1 ++ mk_node (n_addr n) (n_key n) a v :: c2) by by rewrite !fmap_app.
  pose proof (ok_replace _ _ _ _ a v Hc Hv Hac) as Hc'.
  assert (h ##ₘ chain_heap (c1 ++ mk_node (n_addr n) (n_key n) a v :: c2)) as Hd'.
  { apply map_disjoint_insert_l in Hd as [_ Hd]. rewrite fn_heap0 in Hd.
    apply map_disjoint_union_r in Hd as [_ Hd].
    rewrite chain_heap_middle by apply Hc'. apply map_disjoint_union_r. split; [|done].
    unfold node_heap. simpl. apply map_disjoint_insert_r. split; [done|].
    by apply map_disjoint_singleton_r. }
  tst_simpl.
  apply wp_unlock with h; [done..|by rewrite chain_heap_middle by apply Hc'|].
  apply HQ; [done|]. unfold kv_set. rewrite !chain_kvs_middle. simpl.
  rewrite kv_find_middle, kv_update_middle by by rewrite chain_kvs_keys. done.
Qed.

Lemma wp_kv_hash_add k buf v t :
  is_u64 k → t_held t = None → c_str buf = Some v → value_ok v →
  wp (kv_hash_add (Some ht) k (Some buf)) (add_post k v t) t.
Proof.
  intros Hk Ht Hbuf Hv. unfold kv_hash_add.
  apply kwp_act. exists v. split_and!; [done|intros ?; by left|]. intros a Ha.
  cbn [buckets bucket_locks]. tst_simpl.
  apply wp_search; [done|done|]. intros c h -> Hc Hd. tst_simpl. cbn zeta. split.
  - intros c1 n c2 Heq Hnk Hk1 _. eapply wp_kv_hash_add_update; try done.
    intros c' Hc' Hkvs. eexists. split; [done|]. simpl. right. right. eauto 10.
  - intros Hnone. apply map_disjoint_insert_l in Hd as [Hca Hd].
    apply kwp_act. split.
    + intros Hfail. (* kmalloc failed *)
      apply kwp_act. split; tst_simpl.
      { rewrite lookup_union_l, lookup_insert_eq by done. eauto. }
      tst_simpl. rewrite heap_give_up by done.
      apply wp_unlock with (t_heap t); try done. right. left. eauto 10.
    + intros n e He. cbn [t_heap] in He. apply lookup_union_None in He as [He Hce].
      apply lookup_insert_None in He as [He Hea].
      tst_simpl. cbn [fresh_obj].
      apply kwp_act. do 2 eexists. split; [apply lookup_insert_eq|].
      apply kwp_act. do 2 eexists. split; [apply lookup_insert_eq|].
      tst_simpl. rewrite !insert_insert_eq.
      rewrite heap_insert by done.
      apply kwp_bind, kwp_act. do 3 eexists. split_and!; [done|by apply bucket_of_Z|done|].
      do 3 eexists. split_and!; [done|by apply bucket_of_Z|done|].
      tst_simpl.
      set (c' := mk_node e k a v :: c).
      change (e :: (n_addr <$> c)) with (n_addr <$> c').
      assert (ok (bucket_of k) c') as Hc'.
      { apply ok_cons; rewrite ?chain_heap_None; auto using hash_min_bucket. }
      apply wp_unlock with (t_heap t); [done|done| |done|].
      { simpl. apply map_disjoint_union_r. split; [|done]. unfold node_heap. simpl.
        apply map_disjoint_insert_r. split; [done|]. by apply map_disjoint_singleton_r. }
      right. right. exists c, c'. split_and!; try done. unfold kv_set.
      by rewrite kv_find_None by by rewrite chain_kvs_keys.
Qed.

(** *** [kv_hash_remove] *)

Definition remove_post (k : Z) (t : tst) (r : Z) (t' : tst) : Prop :=
  ∃ c c', ok (bucket_of k) c ∧ ok (bucket_of k) c' ∧
    t' = after_section t (bucket_of k) c c' ∧ chain_kvs c' = kv_del k (chain_kvs c) ∧
    r = match kv_find k (chain_kvs c) with Some _ => 0 | None => - ENOENT end.

Lemma filter_addrs_notin a (c : list node) :
  a ∉ chain_addrs c → filter (λ e, e ≠ a) (n_addr <$> c) = n_addr <$> c.
Proof.
  induction c as [|n c IH]; [done|]. rewrite fmap_cons. simpl.
  rewrite !not_elem_of_cons. intros (? & ? & ?).
  rewrite filter_cons_True by congruence. by rewrite IH.
Qed.

Lemma filter_addrs_middle (c1 : list node) n c2 :
  n_addr n ∉ chain_addrs (c1 ++ c2) →
  filter (λ e, e ≠ n_addr n) (n_addr <$> (c1 ++ n :: c2)) = n_addr <$> (c1 ++ c2).
Proof.
  rewrite chain_addrs_app, not_elem_of_app. intros [??].
  rewrite !fmap_app, fmap_cons, filter_app, filter_cons_False by auto.
  by rewrite !filter_addrs_notin.
Qed.

Lemma wp_kv_hash_remove k t :
  is_u64 k → t_held t = None → wp (kv_hash_remove (Some ht) k) (remove_post k t) t.
Proof.
  intros Hk Ht. unfold kv_hash_remove. cbn [buckets bucket_locks].
  apply wp_search; [done|done|]. intros c h -> Hc Hd. cbn zeta. split.
  - intros c1 n c2 -> <- Hk1 [].
    pose proof (elem_of_middle c1 n c2) as Hn.
    pose proof Hc as (_ & Hr1 & Hr2 & _ & _ & _ & _ & Hc')%ok_middle_iff.
    apply kwp_bind, kwp_act. do 3 eexists. split_and!; [done|by apply bucket_of_Z|done|].
    do 3 eexists. split_and!; [done|by apply bucket_of_Z|done|]. tst_simpl.
    rewrite filter_addrs_middle by done.
    apply kwp_act. do 2 eexists. split; [by eapply owned_entry|].
    apply kwp_act. split; tst_simpl; [eexists; by eapply owned_value|].
    apply kwp_act. split; tst_simpl.
    { rewrite lookup_delete_ne by done. eexists. by eapply owned_entry. }
    rewrite fn_heap0, heap_remove by done.
    apply wp_unlock with (t_heap t); [done..|]. eexists. split; [done|].
    exists (c1 ++ n :: c2), (c1 ++ c2). split_and!; [done|done|done| |].
    + rewrite chain_kvs_middle, kv_del_middle by by rewrite chain_kvs_keys.
      unfold chain_kvs. by rewrite fmap_app.
    + by rewrite chain_kvs_middle, kv_find_middle by by rewrite chain_kvs_keys.
  - intros Hnone. apply wp_unlock with (t_heap t); [done..|].
    exists c, c. split_and!; [done|done|done| |].
    + by rewrite kv_del_notin by by rewrite chain_kvs_keys.
    + by rewrite kv_find_None by by rewrite chain_kvs_keys.
Qed.

(** *** Loops over all the buckets

    The history of a walk that found the chains [cs] from bucket [start] on. *)
Definition walk (start : nat) (cs : list (list node)) : list commit :=
  imap (λ j c, ((start + j)%nat, c, c)) cs.

Definition walk_ok (cs : list (list node)) : Prop :=
  ∀ i c, cs !! i = Some c → ok i c.

Lemma walk_snoc cs c : walk 0 (cs ++ [c]) = walk 0 cs ++ [(length cs, c, c)].
Proof. unfold walk. rewrite imap_app. simpl. by rewrite Nat.add_0_r. Qed.

Lemma walk_ok_snoc cs c : walk_ok cs → ok (length cs) c → walk_ok (cs ++ [c]).
Proof.
  intros Hcs Hc i c1 [Hi|[Hi H1]]%lookup_app_Some; [by apply Hcs|].
  apply list_lookup_singleton_Some in H1 as [? <-].
  by replace i with (length cs) by lia.
Qed.

(** What a walk has read: the pairs of its chains, in order. *)
Definition walk_kvs (cs : list (list node)) : kvs := chain_kvs (concat cs).

Lemma walk_kvs_snoc cs c : walk_kvs (cs ++ [c]) = walk_kvs cs ++ chain_kvs c.
Proof. unfold walk_kvs, chain_kvs. rewrite concat_app. simpl. by rewrite app_nil_r, fmap_app. Qed.

(** One round: lock bucket [i], read its list. *)
Lemma wp_enter_bucket {A : Type} i (f : list addr → kprog A) t Q :
  (i < nb)%nat → t_held t = None →
  (∀ c, ok i c → t_heap t ##ₘ chain_heap c →
     wp (f (n_addr <$> c)) Q
       (mk_tst (t_heap t ∪ chain_heap c) (Some (i, c, n_addr <$> c)) (t_hist t))) →
  wp (_ ← call (SpinLock (Some pl) (Z.of_nat i));
      l ← call (HeadRead (Some pb) (Z.of_nat i)); f l) Q t.
Proof.
  intros Hi Ht Hf. apply kwp_act. exists i. split_and!; [done..|]. intros c Hc Hd.
  apply kwp_act. do 3 eexists. split_and!; [done..|]. by apply Hf.
Qed.

Lemma wp_leave_bucket {A : Type} i h c c0 H (p : kprog A) Q :
  ok i c → h ##ₘ chain_heap c → wp p Q (mk_tst h None (H ++ [(i, c0, c)])) →
  wp (_ ← call (SpinUnlock (Some pl) (Z.of_nat i)); p) Q
    (mk_tst (h ∪ chain_heap c) (Some (i, c0, n_addr <$> c)) H).
Proof. intros Hc Hd Hp. apply kwp_act. exists i, c0, c, h. by split_and!. Qed.

(** *** [kv_hash_count] *)

Definition count_post (t : tst) (r : Z) (t' : tst) : Prop :=
  ∃ cs, length cs = nb ∧ walk_ok cs ∧
    t' = mk_tst (t_heap t) None (t_hist t ++ walk 0 cs) ∧
    r = wrap_s32 (Z.of_nat (length (walk_kvs cs))).

Lemma wrap_s32_succ z : wrap_s32 (wrap_s32 z + 1) = wrap_s32 (z + 1).
Proof.
  unfold wrap_s32. f_equal.
  replace ((z + 2147483648) mod 4294967296 - 2147483648 + 1 + 2147483648)
    with ((z + 2147483648) mod 4294967296 + 1) by lia.
  rewrite Zplus_mod_idemp_l. f_equal. lia.
Qed.

Lemma wp_kv_hash_count t :
  t_held t = None → wp (kv_hash_count (Some ht)) (count_post t) t.
Proof.
  intros Ht. unfold kv_hash_count. cbn [buckets bucket_locks bits].
  apply kwp_bind, kwp_shl1; [lia|]. apply kwp_bind.
  apply (kwp_for_range pb pl nbits (λ i count t', ∃ cs, length cs = i ∧ walk_ok cs ∧
    t' = mk_tst (t_heap t) None (t_hist t ++ walk 0 cs) ∧
    count = wrap_s32 (Z.of_nat (length (walk_kvs cs))))).
  - exists []. split_and!; [done|by intros ??| |done]. rewrite app_nil_r.
    destruct t; simpl in *; congruence.
  - intros i count t1 Hi (cs & <- & Hcs & -> & ->).
    apply wp_enter_bucket; [lia|done|]. intros c Hc Hd. tst_simpl. apply kwp_bind.
    apply (kwp_for_each_acc pb pl nbits (λ j count t', t' = mk_tst (t_heap t ∪ chain_heap c)
      (Some (length cs, c, n_addr <$> c)) (t_hist t ++ walk 0 cs) ∧
      count = wrap_s32 (Z.of_nat (length (walk_kvs cs) + j))) _ 0).
    + split; [done|]. by rewrite Nat.add_0_r.
    + intros j e acc t2 _ [-> ->]. apply kwp_ret. split; [done|].
      rewrite wrap_s32_succ. f_equal. lia.
    + intros acc t2 [-> ->]. rewrite length_fmap. apply wp_leave_bucket; [done..|].
      apply kwp_ret. exists (cs ++ [c]). split_and!.
      * rewrite length_app. simpl. lia.
      * by apply walk_ok_snoc.
      * by rewrite walk_snoc, app_assoc.
      * rewrite walk_kvs_snoc, length_app. unfold chain_kvs. by rewrite length_fmap.
  - intros count t1 (cs & Hlen & Hcs & -> & ->). apply kwp_ret. by exists cs.
Qed.

(** *** [kv_hash_snapshot] *)

(** The bytes after the five stores of one entry. *)
Definition store_entry (at_ : nat) (k : Z) (v bs : bytes) : bytes :=
  let bs1 := write_at (at_ + off_status) (le_bytes 4 0) bs in
  let bs2 := write_at (at_ + off_value) (zeros MAX_VALUE_LEN) bs1 in
  let bs3 := write_at (at_ + off_key) (le_bytes 8 k) bs2 in
  write_at (at_ + off_value)
    (strscpy (read_at (at_ + off_value) MAX_VALUE_LEN bs3) v MAX_VALUE_LEN) bs3.

Ltac offsets := unfold off_pad, off_status, off_key, off_value, MAX_VALUE_LEN, sizeof_kv_message in *.

Lemma store_entry_spec at_ k v bs :
  is_u64 k → value_ok v → (at_ + sizeof_kv_message <= length bs)%nat →
  let bs' := store_entry at_ k v bs in
  length bs' = length bs ∧ entry_ok bs' at_ (k, v) ∧
  ∀ off n, (off + n <= at_ ∨ at_ + sizeof_kv_message <= off ∨
      at_ + off_pad <= off ∧ off + n <= at_ + off_key)%nat →
    read_at off n bs' = read_at off n bs.
Proof.
  intros Hk [Hn Hv] Hl. unfold store_entry.
  set (bs1 := write_at (at_ + off_status) (le_bytes 4 0) bs).
  set (bs2 := write_at (at_ + off_value) (zeros MAX_VALUE_LEN) bs1).
  set (bs3 := write_at (at_ + off_key) (le_bytes 8 k) bs2).
  set (dst := read_at (at_ + off_value) MAX_VALUE_LEN bs3).
  assert (length (le_bytes 4 0) = 4%nat ∧ length (zeros MAX_VALUE_LEN) = MAX_VALUE_LEN ∧
    length (le_bytes 8 k) = 8%nat) as (D1 & D2 & D3) by (by rewrite !length_le_bytes, length_zeros).
  offsets.
  assert (length bs1 = length bs) as L1 by (apply length_write_at; lia).
  assert (length bs2 = length bs) as L2 by (unfold bs2; rewrite length_write_at; lia).
  assert (length bs3 = length bs) as L3 by (unfold bs3; rewrite length_write_at; lia).
  assert (length dst = 64%nat) as Ld by (apply length_read_at; lia).
  assert (length (strscpy dst v 64) = 64%nat) as D4 by (rewrite length_strscpy; lia).
  split_and!.
  - rewrite length_write_at; lia.
  - apply entry_ok_fields. offsets. cbn [fst snd]. split_and!.
    + rewrite read_write_ne by lia. unfold bs3. rewrite read_write_ne by lia.
      unfold bs2. rewrite read_write_ne by lia.
      unfold bs1. rewrite read_write_eq by lia. done.
    + rewrite read_write_ne by lia. unfold bs3. rewrite read_write_eq by lia.
      by apply le_value_u64.
    + rewrite read_write_eq by lia. rewrite c_str_strscpy by (done || lia).
      by rewrite take_ge by lia.
  - intros off n Ho. rewrite read_write_ne by lia. unfold bs3. rewrite read_write_ne by lia.
    unfold bs2. rewrite read_write_ne by lia. unfold bs1. by rewrite read_write_ne by lia.
Qed.

(** The buffer grows by one pair. *)
Lemma snap_buf_snoc base bs0 bs l k v :
  is_u64 k → value_ok v →
  (base + S (length l) * sizeof_kv_message <= length bs0)%nat →
  snap_buf base bs0 bs l →
  snap_buf base bs0 (store_entry (base + length l * sizeof_kv_message) k v bs) (l ++ [(k, v)]).
Proof.
  intros Hk Hv Hl []. set (at_ := (base + length l * sizeof_kv_message)%nat).
  destruct (store_entry_spec at_ k v bs Hk Hv) as (H1 & H2 & H3).
  { rewrite sb_length0. unfold at_. lia. }
  split; [congruence| | |].
  - intros off n Ho. rewrite H3 by (unfold at_; lia). auto.
  - intros i kv [Hi|[Hi Hkv]]%lookup_app_Some.
    + pose proof (lookup_lt_Some _ _ _ Hi). eapply entry_ok_frame; [|by apply sb_entries0].
      intros off n Ho1 Ho2. apply H3. unfold at_. left.
      assert (S i * sizeof_kv_message <= length l * sizeof_kv_message)%nat
        by (apply Nat.mul_le_mono_r; lia).
      lia.
    + apply list_lookup_singleton_Some in Hkv as [Hi0 <-].
      by replace i with (length l) by lia.
  - intros i. rewrite <- sb_padding0. apply H3. unfold at_. offsets.
    destruct (Nat.lt_trichotomy i (length l)) as [Hi|[->|Hi]]; [|lia|]; nia.
Qed.

Definition snapshot_post (p : addr) (base : nat) (max : Z) (bs0 : bytes) (t : tst)
    (r : Z * option Z) (t' : tst) : Prop :=
  ∃ cs bs, (length cs <= nb)%nat ∧ walk_ok cs ∧
    t' = mk_tst (<[p := OBytes bs]> (t_heap t)) None (t_hist t ++ walk 0 cs) ∧
    let l := walk_kvs cs in
    r = (0, Some (Z.min max (Z.of_nat (length l)))) ∧
    (length cs = nb ∨ max < Z.of_nat (length l)) ∧
    snap_buf base bs0 bs (take (Z.to_nat max) l).

Lemma wp_snapshot_store p base j n i c h t0 l bs0 bs H :
  ok i c → n ∈ c → <[p := OBytes bs]> h ##ₘ chain_heap c → (j = length l)%nat →
  snap_buf base bs0 bs l → (base + S j * sizeof_kv_message <= length bs0)%nat →
  wp (snapshot_store (Some p) base j (n_addr n))
    (λ _ t', ∃ bs', t' = mk_tst (<[p := OBytes bs']> h ∪ chain_heap c) t0 H ∧
       snap_buf base bs0 bs' (l ++ [(n_key n, n_val n)]))
    (mk_tst (<[p := OBytes bs]> h ∪ chain_heap c) t0 H).
Proof.
  intros Hc Hn Hd -> Hb Hl. pose proof (sb_length _ _ _ _ Hb) as Hlen.
  destruct (chain_ok_nodes _ _ _ Hc n Hn) as (Hk & _ & Hv).
  set (at_ := (base + length l * sizeof_kv_message)%nat).
  assert (chain_heap c !! p = None) as Hp by (by apply map_disjoint_insert_l in Hd as [? _]).
  assert (∀ b, (<[p := OBytes b]> h ∪ chain_heap c) !! p = Some (OBytes b)) as Hget.
  { intros b. apply lookup_union_Some_l, lookup_insert_eq. }
  assert (∀ b b', <[p := OBytes b']> (<[p := OBytes b]> h ∪ chain_heap c) =
    <[p := OBytes b']> h ∪ chain_heap c) as Hput.
  { intros b b'. by rewrite insert_union_l, insert_insert_eq. }
  assert (∀ b, <[p := OBytes b]> h ##ₘ chain_heap c) as Hdis.
  { intros b. apply map_disjoint_insert_l. apply map_disjoint_insert_l in Hd as [_ ?]. done. }
  unfold snapshot_store. fold at_.
  assert (at_ + sizeof_kv_message <= length bs)%nat as Hat by (unfold at_; lia).
  pose proof (store_entry_spec at_ (n_key n) (n_val n) bs Hk Hv Hat) as (Hlen' & _ & _).
  unfold store_entry in Hlen'.
  set (bs1 := write_at (at_ + off_status) (le_bytes 4 0) bs) in *.
  set (bs2 := write_at (at_ + off_value) (zeros MAX_VALUE_LEN) bs1) in *.
  set (bs3 := write_at (at_ + off_key) (le_bytes 8 (n_key n)) bs2) in *.
  assert (length bs1 = length bs) as L1.
  { apply length_write_at. rewrite length_le_bytes. offsets. lia. }
  assert (length bs2 = length bs) as L2.
  { unfold bs2. rewrite length_write_at; [done|]. rewrite length_zeros. offsets. lia. }
  assert (length bs3 = length bs) as L3.
  { unfold bs3. rewrite length_write_at; [done|]. rewrite length_le_bytes. offsets. lia. }
  apply kwp_act. do 2 eexists. split_and!; [done|apply Hget|rewrite length_le_bytes; offsets; lia|].
  tst_simpl. rewrite Hput. fold bs1.
  apply kwp_act. do 2 eexists. split_and!; [done|apply Hget|rewrite length_zeros; offsets; lia|].
  tst_simpl. rewrite Hput. fold bs2.
  apply kwp_act. do 2 eexists. split; [by eapply owned_entry|].
  apply kwp_act. do 2 eexists. split_and!; [done|apply Hget|rewrite length_le_bytes; offsets; lia|].
  tst_simpl. rewrite Hput. fold bs3.
  apply kwp_act. do 2 eexists. split; [by eapply owned_entry|].
  apply kwp_act. do 3 eexists. split_and!; [done|by eapply owned_value|by eapply node_value_c_str|].
  apply kwp_act. do 2 eexists. split_and!; [done|apply Hget|offsets; lia|].
  assert (length (read_at (at_ + off_value) MAX_VALUE_LEN bs3) = MAX_VALUE_LEN) as Ld.
  { apply length_read_at. offsets. lia. }
  do 2 eexists. split_and!; [done|apply Hget| |].
  { rewrite length_strscpy, Ld by (rewrite Ld; offsets; lia). offsets. lia. }
  tst_simpl. rewrite Hput. eexists. split; [done|].
  by apply (snap_buf_snoc base bs0 bs l (n_key n) (n_val n)).
Qed.

Lemma take_snoc_lookup {A : Type} (l : list A) j x :
  l !! j = Some x → take (S j) l = take j l ++ [x].
Proof. intros Hj. by apply take_S_r. Qed.

(** The walk so far, with the pairs already stored. *)
Definition snap_inv p base max bs0 (t : tst) (i : nat) (count : Z) (t' : tst) : Prop :=
  ∃ cs bs, length cs = i ∧ walk_ok cs ∧
    t' = mk_tst (<[p := OBytes bs]> (t_heap t)) None (t_hist t ++ walk 0 cs) ∧
    count = Z.of_nat (length (walk_kvs cs)) ∧ count <= max ∧
    snap_buf base bs0 bs (walk_kvs cs).

(** Inside bucket [i], after [j] of its entries. *)
Definition snap_chain_inv p base max bs0 (t : tst) cs c (j : nat) (count : Z) (t' : tst) : Prop :=
  ∃ bs, t' = mk_tst (<[p := OBytes bs]> (t_heap t) ∪ chain_heap c)
      (Some (length cs, c, n_addr <$> c)) (t_hist t ++ walk 0 cs) ∧
    count = Z.of_nat (length (walk_kvs cs) + j) ∧ count <= max ∧ (j <= length c)%nat ∧
    snap_buf base bs0 bs (walk_kvs cs ++ take j (chain_kvs c)).

Lemma wp_snapshot_chain p base max bs0 t cs c :
  let t1 bs := mk_tst (<[p := OBytes bs]> (t_heap t) ∪ chain_heap c)
      (Some (length cs, c, n_addr <$> c)) (t_hist t ++ walk 0 cs) in
  ∀ bs,
  is_u32 max → 0 < max → (base + Z.to_nat max * sizeof_kv_message <= length bs0)%nat →
  (length cs < nb)%nat → walk_ok cs → ok (length cs) c →
  (∀ b, <[p := OBytes b]> (t_heap t) ##ₘ chain_heap c) →
  Z.of_nat (length (walk_kvs cs)) <= max → snap_buf base bs0 bs (walk_kvs cs) →
  wp (for_each_acc (n_addr <$> c) (Z.of_nat (length (walk_kvs cs))) (λ e count,
        if decide (max <= count) then
          _ ← call (SpinUnlock (Some pl) (Z.of_nat (length cs)));
          mret (inr (0, Some count))
        else
          _ ← snapshot_store (Some p) base (Z.to_nat count) e;
          mret (inl (wrap_u32 (count + 1)))))
    (λ r t', match r with
             | inl count => snap_chain_inv p base max bs0 t cs c (length c) count t'
             | inr r => snapshot_post p base max bs0 t r t'
             end) (t1 bs).
Proof.
  intros t1 bs [_ Hmax] Hpos Hsize Hi Hcs Hc Hd Hle Hb. unfold u32_max in Hmax.
  apply (kwp_for_each_acc pb pl nbits (snap_chain_inv p base max bs0 t cs c) _ 0).
  - exists bs. split_and!; [done|lia|done|lia|by rewrite take_0, app_nil_r].
  - intros j e count t2 He (bs2 & -> & -> & Hmax2 & Hj & Hb2).
    rewrite list_lookup_fmap in He. destruct (c !! j) as [n|] eqn:Hn; [|done].
    injection He as <-.
    assert (chain_kvs c !! j = Some (n_key n, n_val n)) as Hkv
      by (unfold chain_kvs; by rewrite list_lookup_fmap, Hn).
    pose proof (lookup_lt_Some _ _ _ Hn) as Hjlt.
    assert (length (chain_kvs c) = length c) as Hlc by (unfold chain_kvs; by rewrite length_fmap).
    assert (length (walk_kvs cs ++ take j (chain_kvs c)) = length (walk_kvs cs) + j)%nat as Hlen
      by (rewrite length_app, length_take; lia).
    case_decide as Hfull.
    + (* no room: the walk stops here *)
      apply wp_leave_bucket; [done|apply Hd|]. apply kwp_ret.
      exists (cs ++ [c]), bs2. cbn zeta. rewrite walk_kvs_snoc, !length_app, Hlc, walk_snoc, app_assoc.
      split_and!; [simpl; lia|by apply walk_ok_snoc|done|do 2 f_equal; lia|right; lia|].
      rewrite take_app_ge by lia.
      by replace (Z.to_nat max - length (walk_kvs cs))%nat with j by lia.
    + apply kwp_bind. rewrite Nat2Z.id.
      eapply kwp_mono; [|eapply (wp_snapshot_store p base _ n (length cs) c); eauto].
      2: { by eapply list_elem_of_lookup_2. }
      2: { assert (S (length (walk_kvs cs) + j) <= Z.to_nat max)%nat by lia.
           assert (S (length (walk_kvs cs) + j) * sizeof_kv_message <=
             Z.to_nat max * sizeof_kv_message)%nat by (apply Nat.mul_le_mono_r; lia). lia. }
      intros _ t3 (bs3 & -> & Hb3). apply kwp_ret. cbn [Nat.add]. exists bs3.
      rewrite wrap_u32_id by (unfold is_u32, u32_max; lia).
      split_and!; [done|lia|lia|lia|].
      by rewrite (take_snoc_lookup _ _ _ Hkv), app_assoc.
  - intros count t2. by rewrite length_fmap.
Qed.

Lemma wp_kv_hash_snapshot p base max bs0 t :
  t_held t = None → is_u32 max → 0 < max → t_heap t !! p = Some (OBytes bs0) →
  (base + Z.to_nat max * sizeof_kv_message <= length bs0)%nat →
  wp (kv_hash_snapshot (Some ht) (Some (p, base)) max) (snapshot_post p base max bs0 t) t.
Proof.
  intros Ht Hmax Hpos Hp Hsize. unfold kv_hash_snapshot. rewrite decide_False by lia.
  cbn [buckets bucket_locks bits].
  apply kwp_bind, kwp_shl1; [lia|]. apply kwp_bind.
  apply (kwp_for_range pb pl nbits (snap_inv p base max bs0 t)).
  - exists [], bs0. split_and!; [done|by intros ??| |done|lia|apply snap_buf_nil].
    rewrite app_nil_r, insert_id by done. destruct t; simpl in *; congruence.
  - intros i count t1 Hi (cs & bs & <- & Hcs & -> & -> & Hle & Hb).
    apply wp_enter_bucket; [lia|done|]. intros c Hc Hd. tst_simpl. apply kwp_bind.
    assert (∀ b, <[p := OBytes b]> (t_heap t) ##ₘ chain_heap c) as Hdis.
    { intros b. apply map_disjoint_insert_l. apply map_disjoint_insert_l in Hd as [? ?]. done. }
    eapply kwp_mono; [|apply (wp_snapshot_chain p base max bs0 t cs c bs); done || lia].
    intros [count|r] t2; [|done].
    intros (bs2 & -> & -> & Hle2 & _ & Hb2). apply wp_leave_bucket; [done|apply Hdis|].
    apply kwp_ret. exists (cs ++ [c]), bs2.
    rewrite walk_kvs_snoc, walk_snoc, app_assoc, !length_app.
    unfold chain_kvs in *. rewrite take_ge in Hb2 by (by rewrite length_fmap).
    rewrite length_fmap. split_and!; [simpl; lia|by apply walk_ok_snoc|done|lia|lia|done].
  - intros count t1 (cs & bs & Hlen & Hcs & -> & -> & Hle & Hb). apply kwp_ret.
    exists cs, bs. cbn zeta. rewrite take_ge by lia.
    split_and!; [lia|done|done|do 2 f_equal; lia|by left|done].
Qed.

End Specs.
