(* ===== verification/KvStore.v ===== *)
(** * The sequential behaviour of the hash table

    [store_rep m s]: in kernel state [s] the table represents the map [m], the
    rest of the heap is [F], and nothing else is allocated.  Each operation,
    run to completion with nobody else in the kernel, returns (it neither
    faults nor blocks) and acts on the map as specified. *)

From S2P Require Import Prelude Prog CStr KvIoctl KMem KvHash KLogic KSound KvHashSpec KvTable.

Section Store.
Context {api : KernelApi} {laws : KernelLaws api}.
Variables (pb pl : addr) (nbits : Z) (F : heap).
Hypothesis nbits_range : 1 <= nbits <= 31.

Abbreviation nb := (nbuckets nbits).
Abbreviation ht := (mk_ht (Some pb) (Some pl) nbits).
Abbreviation bucket := (bucket_of nbits).

Definition idle_thread : tst := mk_tst ∅ None [].

Definition store_rep (m : gmap Z bytes) (s : kst) : Prop :=
  ∃ L, ginv pb pl nbits F [] L s ∧ m = table_map L.

Lemma ginv_table_ok ts L s : ginv pb pl nbits F ts L s → table_ok nbits L.
Proof. intros (f & hs & ls & []). by split. Qed.

(** A program proved in the logic, run alone from a table. *)
Lemma seq_run {A : Type} (p : kprog A) L s (Q : A → tst → Prop) :
  ginv pb pl nbits F [] L s → kwp pb pl nbits p Q idle_thread →
  (∀ a t, Q a t → idle t) →
  ∃ a s' t' L', krun p s = Done a s' ∧ Q a t' ∧ ginv pb pl nbits F [] L' s' ∧
    replay L (t_hist t') L'.
Proof.
  intros Hg Hwp Hidle.
  assert (ginv pb pl nbits F [idle_thread] L s) as Hg1.
  { eapply ginv_idle; [| |done]; repeat constructor. }
  destruct (run_sound pb pl nbits p F L s _ Q Hg1 Hwp) as (a & s' & t' & L' & H & Hr & HQ & Hg' & Hh & Hrep).
  exists a, s', t', L'. split_and!; [done|done| |by rewrite Hh].
  eapply ginv_idle; [| |done]; repeat constructor; by apply (Hidle a).
Qed.

(** One critical section, replayed on the table. *)
Lemma replay_section L i c c' L' :
  replay L [(i, c, c')] L' → L !! i = Some c ∧ L' = <[i := c']> L.
Proof. intros Hr. inversion Hr as [|????? ? ? Hr']; subst. by inversion Hr'. Qed.

Lemma replay_same L i c L' : replay L [(i, c, c)] L' → L !! i = Some c ∧ L' = L.
Proof. intros [Hi ->]%replay_section. split; [done|]. by apply list_insert_id. Qed.

Lemma replay_walk L cs L' :
  replay L (walk 0 cs) L' → L' = L ∧ ∀ i c, cs !! i = Some c → L !! i = Some c.
Proof.
  assert (∀ s, replay L (walk s cs) L' →
    L' = L ∧ ∀ i c, cs !! i = Some c → L !! (s + i)%nat = Some c) as Hgen; [|by apply Hgen].
  induction cs as [|c cs IH]; intros s Hr; unfold walk in Hr; simpl in Hr.
  { inversion Hr; subst. split; [done|]. intros ??. by rewrite lookup_nil. }
  inversion Hr as [|????? ? Hi Hr']; subst. rewrite Nat.add_0_r in Hi, Hr'.
  rewrite list_insert_id in Hr' by done.
  destruct (IH (S s)) as [-> Hcs].
  { unfold walk. erewrite imap_ext; [exact Hr'|]. intros j c1 _. simpl. do 2 f_equal. lia. }
  split; [done|]. intros [|i] c1; simpl.
  - intros [= <-]. by rewrite Nat.add_0_r.
  - intros Hi1. replace (s + S i)%nat with (S s + i)%nat by lia. by apply Hcs.
Qed.

Lemma replay_walk_all L cs L' :
  replay L (walk 0 cs) L' → length cs = length L → L' = L ∧ cs = L.
Proof.
  intros [-> Hcs]%replay_walk Hl. split; [done|].
  apply list_eq. intros i. destruct (cs !! i) as [c|] eqn:Hi; [symmetry; auto|].
  symmetry. apply lookup_ge_None. apply lookup_ge_None in Hi. lia.
Qed.

Lemma store_lookup m s k out buflen :
  store_rep m s → is_u64 k → (0 < buflen <= length out)%nat →
  ∃ s', krun (kv_hash_lookup (Some ht) k (Some out) buflen) s =
      Done (lookup_result (m !! k) out buflen) s' ∧ store_rep m s'.
Proof.
  intros (L & Hg & ->) Hk Hlen. pose proof (ginv_table_ok _ _ _ Hg) as HL.
  destruct (seq_run _ L s _ Hg (wp_kv_hash_lookup pb pl nbits nbits_range k out buflen
    idle_thread Hk eq_refl Hlen)) as (a & s' & t' & L' & Hr & (c & Hc & -> & ->) & Hg' & Hrep).
  { by intros a t (c & _ & -> & _). }
  apply replay_same in Hrep as [Hi ->].
  exists s'. rewrite Hr, (table_lookup _ _ _ _ HL Hk Hi). split; [done|]. by exists L.
Qed.

Lemma store_add m s k buf v :
  store_rep m s → is_u64 k → c_str buf = Some v → value_ok v →
  ∃ r s', krun (kv_hash_add (Some ht) k (Some buf)) s = Done r s' ∧
    ((r = 0 ∧ store_rep (<[k := v]> m) s') ∨ (may_fail ∧ r = - ENOMEM ∧ store_rep m s')).
Proof.
  intros (L & Hg & ->) Hk Hbuf Hv. pose proof (ginv_table_ok _ _ _ Hg) as HL.
  destruct (seq_run _ L s _ Hg (wp_kv_hash_add pb pl nbits nbits_range k buf v
    idle_thread Hk eq_refl Hbuf Hv)) as (a & s' & t' & L' & Hr & Hpost & Hg' & Hrep).
  { intros a t [(_ & _ & ->)|[(c & _ & _ & _ & _ & ->)|(c & c' & _ & _ & _ & -> & _)]]; done. }
  exists a, s'. split; [done|].
  destruct Hpost as [(Hf & -> & ->)|[(c & Hf & Hc & Hk1 & -> & ->)|(c & c' & Hc & Hc' & -> & -> & Hset)]].
  - right. inversion Hrep; subst. split_and!; [done|done|]. by exists L'.
  - right. apply replay_same in Hrep as [_ ->]. split_and!; [done|done|]. by exists L.
  - left. apply replay_section in Hrep as [Hi ->]. split; [done|].
    eexists. split; [done|]. symmetry. by eapply table_map_set.
Qed.

Lemma store_remove m s k :
  store_rep m s → is_u64 k →
  ∃ s', krun (kv_hash_remove (Some ht) k) s =
      Done (match m !! k with Some _ => 0 | None => - ENOENT end) s' ∧
    store_rep (delete k m) s'.
Proof.
  intros (L & Hg & ->) Hk. pose proof (ginv_table_ok _ _ _ Hg) as HL.
  destruct (seq_run _ L s _ Hg (wp_kv_hash_remove pb pl nbits nbits_range k
    idle_thread Hk eq_refl)) as (a & s' & t' & L' & Hr & (c & c' & Hc & Hc' & -> & Hdel & ->) & Hg' & Hrep).
  { by intros a t (c & c' & _ & _ & -> & _). }
  apply replay_section in Hrep as [Hi ->].
  exists s'. rewrite Hr, (table_lookup _ _ _ _ HL Hk Hi). split; [done|].
  eexists. split; [done|]. symmetry. by eapply table_map_del.
Qed.

Lemma store_count m s :
  store_rep m s →
  ∃ s', krun (kv_hash_count (Some ht)) s = Done (wrap_s32 (Z.of_nat (size m))) s' ∧
    store_rep m s'.
Proof.
  intros (L & Hg & ->). pose proof (ginv_table_ok _ _ _ Hg) as HL.
  destruct (seq_run _ L s _ Hg (wp_kv_hash_count pb pl nbits nbits_range idle_thread eq_refl))
    as (a & s' & t' & L' & Hr & (cs & Hlen & _ & -> & ->) & Hg' & Hrep).
  { by intros a t (cs & _ & _ & -> & _). }
  apply replay_walk_all in Hrep as [-> ->]; [|by rewrite Hlen; destruct HL].
  exists s'. rewrite Hr, (table_map_size _ _ HL). split; [done|]. by exists L.
Qed.

End Store.
