(* ===== verification/KvSleep.v ===== *)
(** * Allocations under a spinlock

    How often [kv_hash_add] calls an allocator that may sleep while it holds the
    spinlock of the bucket ([sleeps_atomic]): once for a new key, whatever the
    table holds. *)

From S2P Require Import Prelude Prog CStr KvIoctl KMem KvHash KLogic KSound KvHashSpec KvTable.
From S2P Require Import KvStore.

Definition no_sleep (X : Type) (e : kact X) : Prop := may_sleep e = false.

(** Walks through a program none of whose actions may sleep. *)
Ltac awake := repeat first [split; [done|intros ?] | done].

Section Sleep.
Context {api : KernelApi} {laws : KernelLaws api}.

Lemma sleeps_none {A : Type} (p : kprog A) held s : all_acts no_sleep p → sleeps_atomic p held s = 0%nat.
Proof.
  revert held s. induction p as [a|X e k IH]; intros held s; [done|]. intros [He Hk].
  cbn [sleeps_atomic]. rewrite He. destruct (kexec X e s); [|done..]. by apply IH.
Qed.

Lemma sleeps_act {A X : Type} (e : kact X) (f : X → kprog A) held s x s' :
  may_sleep e = false → kexec X e s = Done x s' →
  sleeps_atomic (call e ≫= f) held s = sleeps_atomic (f x) (locks_after e held) s'.
Proof. intros He Hx. cbn. by rewrite He, Hx. Qed.

Lemma sleeps_unlocked {A X : Type} (e : kact X) (f : X → kprog A) s :
  sleeps_atomic (call e ≫= f) 0 s =
  match kexec X e s with Done x s' => sleeps_atomic (f x) (locks_after e 0) s' | _ => 0%nat end.
Proof. cbn. by rewrite andb_false_r. Qed.

Lemma sleeps_locked {A X : Type} (e : kact X) (f : X → kprog A) held s :
  may_sleep e = true → (∀ x, all_acts no_sleep (f x)) → sleeps_atomic (call e ≫= f) (S held) s = 1%nat.
Proof.
  intros He Hf. cbn. rewrite He. cbn. f_equal. destruct (kexec X e s); [|done..]. by apply sleeps_none.
Qed.

(** The search for a key, in a chain whose entries can be read: when the key is
    found, nothing more sleeps. *)
Lemma sleeps_find {A R : Type} k (g : addr → kprog (option R)) (f : option R → kprog A) c held s :
  (∀ n, n ∈ c → ∃ v, k_heap s !! n_addr n = Some (OEntry (Some (n_key n)) v)) →
  (∀ e next, all_acts no_sleep
    ((g e ≫= λ r, match r with Some x => mret (Some x) | None => next end) ≫= f)) →
  sleeps_atomic
    (hlist_for_each_entry (n_addr <$> c)
       (λ e, ek ← call (GetKey e); if decide (ek = k) then g e else mret None) ≫= f) held s =
  if decide (k ∈ n_key <$> c) then 0%nat else sleeps_atomic (f None) held s.
Proof.
  intros Hc Hg. set (body := λ e, ek ← call (GetKey e); if decide (ek = k) then g e else mret None).
  induction c as [|n c IH].
  { rewrite decide_False by (apply not_elem_of_nil). done. }
  destruct (Hc n) as [v Hn]; [apply elem_of_cons; by left|].
  change (sleeps_atomic (call (GetKey (n_addr n)) ≫= λ ek, (((if decide (ek = k) then g (n_addr n) else mret None)
    ≫= λ r, match r with Some x => mret (Some x) | None => hlist_for_each_entry (n_addr <$> c) body end) ≫= f)) held s =
    if decide (k ∈ n_key n :: (n_key <$> c)) then 0%nat else sleeps_atomic (f None) held s).
  erewrite sleeps_act; [|done|cbn; by rewrite Hn]. cbn [locks_after].
  destruct (decide (n_key n = k)) as [Hk|Hk].
  - rewrite decide_True by (apply elem_of_cons; by left). apply sleeps_none, Hg.
  - cbn [mbind mret]. etrans; [apply IH; intros n' Hn'; apply Hc, elem_of_cons; by right|].
    by apply decide_ext; rewrite elem_of_cons; intuition congruence.
Qed.

Variables (pb pl : addr) (nbits : Z) (F : heap).
Hypothesis nbits_range : 1 <= nbits <= 31.

(** What the table has in the heap for the bucket of a key. *)
Lemma store_bucket m s k :
  store_rep pb pl nbits F m s → is_u64 k →
  ∃ c hs ls j, kv_bucket (mk_ht (Some pb) (Some pl) nbits) k = Z.of_nat j ∧ pb ≠ pl ∧
    k_heap s !! pb = Some (OHeads hs) ∧ hs !! j = Some (Some (n_addr <$> c)) ∧
    k_heap s !! pl = Some (OLocks ls) ∧ ls !! j = Some (Some false) ∧
    (∀ n, n ∈ c → k_heap s !! n_addr n = Some (OEntry (Some (n_key n)) (Some (Some (n_vaddr n))))) ∧
    m !! k = kv_find k (chain_kvs c).
Proof.
  intros (L & Hg & ->) Hk. pose proof (ginv_table_ok _ _ _ _ _ _ _ Hg) as HL.
  destruct Hg as (f & hs & ls & [Hs Hne Harr _ _ _ _ _ _ HlenL Hok Hb _]). set (j := bucket_of nbits k).
  pose proof (hash_min_range k nbits Hk nbits_range) as Hr.
  destruct (lookup_lt_is_Some_2 L j) as [c Hc].
  { rewrite HlenL. unfold j, bucket_of, nbuckets. lia. }
  destruct (Hb j c Hc) as [[_ Hhead Hlock Hheap]|[(j' & t & cur & Ht & _) _ _]]; [|done].
  assert (∀ a o, f OwnArrays !! a = Some o → k_heap s !! a = Some o) as Harrays
    by (intros a o; by apply shares_get).
  rewrite Harr in Harrays. unfold arrays in Harrays.
  exists c, hs, ls, j. split_and!; try done.
  - unfold kv_bucket, j, bucket_of. cbn [bits]. lia.
  - apply Harrays, lookup_insert_eq.
  - apply Harrays. rewrite lookup_insert_ne by done. apply lookup_singleton_eq.
  - intros n Hn. apply (shares_get f _ (OwnBucket j)); [done|]. rewrite Hheap.
    by apply (chain_heap_entry c n (chain_ok_addrs _ _ _ (Hok j c Hc))).
  - by apply (table_lookup nbits).
Qed.

Lemma in_array_lookup {A X : Type} j (l : list A) x (f : nat → A → outcome fault kst X) :
  l !! j = Some x → in_array (Z.of_nat j) l f = f j x.
Proof. intros Hx. unfold in_array. rewrite decide_True by lia. by rewrite Nat2Z.id, Hx. Qed.

(** One call of an allocator under the lock for a new key, none for a key that is
    there, and none when [kstrdup] has failed before. *)
Lemma kv_hash_add_sleeps m s k buf v :
  store_rep pb pl nbits F m s → is_u64 k → c_str buf = Some v →
  sleeps_atomic (kv_hash_add (Some (mk_ht (Some pb) (Some pl) nbits)) k (Some buf)) 0 s =
  match kmalloc_addr (k_allocs s) (k_heap s), m !! k with
  | Some _, None => 1%nat
  | _, _ => 0%nat
  end.
Proof.
  intros Hrep Hk Hv.
  destruct (store_bucket m s k Hrep Hk) as (c & hs & ls & j & Hj & Hne & Hpb & Hhead & Hpl & Hlock & Hc & Hm).
  unfold kv_hash_add. cbv zeta. rewrite Hj. cbn [buckets bucket_locks].
  rewrite sleeps_unlocked. cbn [kexec]. rewrite Hv. unfold alloc.
  destruct (kmalloc_addr _ _) as [a|] eqn:Ha; [|done]. apply kmalloc_addr_fresh in Ha.
  cbn [locks_after]. set (h1 := <[a := OBytes (v ++ [NUL])]> (k_heap s)).
  assert (∀ b o, k_heap s !! b = Some o → h1 !! b = Some o) as Hh1.
  { intros b o Hb. unfold h1. rewrite lookup_insert_ne; [done|]. intros ->. congruence. }
  erewrite sleeps_act; [|done|].
  2: { cbn [kexec deref k_heap]. rewrite (Hh1 _ _ Hpl). rewrite (in_array_lookup _ _ _ _ Hlock). reflexivity. }
  erewrite sleeps_act; [|done|].
  2: { cbn [kexec deref k_heap with_heap]. rewrite lookup_insert_ne, (Hh1 _ _ Hpb) by done.
       rewrite (in_array_lookup _ _ _ _ Hhead). reflexivity. }
  cbn [locks_after]. rewrite sleeps_find.
  - rewrite Hm. destruct (kv_find k (chain_kvs c)) as [v'|] eqn:Hf.
    + apply kv_find_Some_key in Hf. rewrite chain_kvs_keys in Hf. by rewrite decide_True.
    + rewrite decide_False.
      2: { rewrite <- chain_kvs_keys. rewrite kv_find_map in Hf. by eapply not_elem_of_list_to_map_2. }
      apply (sleeps_locked (Kmalloc KEntry GFP_KERNEL)); [done|]. intros [b|]; awake.
  - intros n Hn. exists (Some (Some (n_vaddr n))). cbn [k_heap with_heap]. rewrite lookup_insert_ne.
    + by apply Hh1, Hc.
    + intros ->. apply Hc in Hn. congruence.
  - intros e next. awake.
Qed.
End Sleep.
