(* ===== verification/KvLifecycle.v ===== *)
(** * Creation and destruction of the table

    [kv_hash_init] and [kv_hash_destroy] run while nobody else can reach the
    table: at module load and unload.  Their loops are followed on the heap
    itself. *)

From S2P Require Import Prelude Prog CStr KvIoctl KMem KvHash KLogic KSound KvHashSpec KvTable.
From S2P Require Import KvStore.

(** ** Total correctness of a sequential run *)

Section Sdone.
Context {api : KernelApi}.

Definition sdone {A : Type} (p : kprog A) (s : kst) (Q : A → kst → Prop) : Prop :=
  ∃ a s', krun p s = Done a s' ∧ Q a s'.

Lemma sdone_ret {A : Type} (a : A) s Q : Q a s → sdone (mret a) s Q.
Proof. intros ?. by exists a, s. Qed.

Lemma sdone_bind {A B : Type} (p : kprog A) (f : A → kprog B) s Q :
  sdone p s (λ a s', sdone (f a) s' Q) → sdone (p ≫= f) s Q.
Proof.
  intros (a & s1 & Hr & b & s2 & Hf & HQ). exists b, s2. split; [|done].
  unfold krun in *. by rewrite run_bind, Hr.
Qed.

Lemma sdone_act {A X : Type} (e : kact X) (f : X → kprog A) s x s' Q :
  kexec X e s = Done x s' → sdone (f x) s' Q → sdone (call e ≫= f) s Q.
Proof.
  intros He Hf. apply sdone_bind. exists x, s'. split; [|done].
  unfold krun. by rewrite run_call.
Qed.

Lemma sdone_mono {A : Type} (p : kprog A) s (Q R : A → kst → Prop) :
  (∀ a s', Q a s' → R a s') → sdone p s Q → sdone p s R.
Proof. intros HQ (a & s' & ? & ?). exists a, s'. auto. Qed.

Lemma sdone_for_range {B R : Type} (I : nat → B → kst → Prop) start cnt (acc : B)
    (body : Z → B → kprog (B + R)) s Q :
  I start acc s →
  (∀ i acc s, (start <= i < start + cnt)%nat → I i acc s →
     sdone (body (Z.of_nat i) acc) s (λ r s', ∃ acc', r = inl acc' ∧ I (S i) acc' s')) →
  (∀ acc s, I (start + cnt)%nat acc s → Q (inl acc) s) →
  sdone (for_range start cnt acc body) s Q.
Proof.
  revert start acc s. induction cnt as [|cnt IH]; intros start acc s HI Hbody Hend; simpl.
  { apply sdone_ret, Hend. by rewrite Nat.add_0_r. }
  apply sdone_bind. eapply sdone_mono; [|apply Hbody; [lia|done]].
  intros r s1 (acc' & -> & HI'). apply IH; [done| |].
  - intros i acc1 s2 Hi. apply Hbody. lia.
  - intros acc1 s2. rewrite Nat.add_succ_l, <- Nat.add_succ_r. apply Hend.
Qed.

End Sdone.

(** Arrays that are being initialised from the left. *)
Lemma replicate_step {A : Type} (x y : A) i n :
  (i < n)%nat →
  (replicate i x ++ replicate (n - i) y) !! i = Some y ∧
  <[i := x]> (replicate i x ++ replicate (n - i) y) =
    replicate (S i) x ++ replicate (n - S i) y.
Proof.
  intros Hi. replace (n - i)%nat with (S (n - S i)) by lia. split.
  - by rewrite lookup_app_r, length_replicate, Nat.sub_diag by (rewrite length_replicate; lia).
  - rewrite insert_app_r_alt, length_replicate, Nat.sub_diag by (rewrite length_replicate; lia).
    rewrite (replicate_S_end i x). by rewrite <- app_assoc.
Qed.

Section Init.
Context {api : KernelApi} {laws : KernelLaws api}.
Variable (nbits : Z).
Hypothesis nbits_range : 1 <= nbits <= 31.

Abbreviation nb := (nbuckets nbits).

(** The heap with both arrays initialised up to index [i]. *)
Definition init_heap (a b : addr) (h : heap) (i : nat) : heap :=
  <[b := OLocks (replicate i (Some false) ++ replicate (nb - i) None)]>
    (<[a := OHeads (replicate i (Some []) ++ replicate (nb - i) None)]> h).

Lemma init_step a b h i n :
  a ≠ b → (i < nb)%nat →
  sdone (_ ← call (HeadWrite (Some a) (Z.of_nat i) []);
         _ ← call (SpinLockInit (Some b) (Z.of_nat i));
         mret (inl tt : () + Empty_set)) (mk_kst (init_heap a b h i) n)
    (λ r s', r = inl tt ∧ s' = mk_kst (init_heap a b h (S i)) n).
Proof.
  intros Hab Hi. destruct (replicate_step (Some ([] : list addr)) None i nb Hi) as [H1 H2].
  destruct (replicate_step (Some false) None i nb Hi) as [H3 H4].
  eapply sdone_act.
  { simpl. unfold init_heap. rewrite lookup_insert_ne, lookup_insert_eq by done.
    unfold in_array. rewrite decide_True, Nat2Z.id, H1 by lia. done. }
  eapply sdone_act.
  { simpl. unfold init_heap. rewrite lookup_insert_ne, lookup_insert_eq by done.
    unfold in_array. rewrite decide_True, Nat2Z.id, H3 by lia. done. }
  apply sdone_ret. split; [done|]. unfold with_heap. simpl. f_equal.
  unfold init_heap. rewrite H2, H4. rewrite (insert_insert_ne _ a b) by done.
  by rewrite !insert_insert_eq.
Qed.

(** The empty table satisfies the invariant. *)
Lemma init_ginv a b h n :
  h !! a = None → h !! b = None → a ≠ b →
  ginv a b nbits h [] (replicate nb []) (mk_kst (init_heap a b h nb) n).
Proof.
  intros Ha Hb Hab.
  set (hs := replicate nb (Some ([] : list addr))). set (ls := replicate nb (Some false)).
  exists (λ w, match w with OwnArrays => arrays a b hs ls | OwnFrame => h | _ => ∅ end), hs, ls.
  assert (init_heap a b h nb = arrays a b hs ls ∪ h) as Hheap.
  { unfold init_heap, arrays. rewrite Nat.sub_diag, !app_nil_r. fold hs ls.
    rewrite insert_insert_ne, <- insert_union_l by done. f_equal.
    by rewrite <- insert_union_singleton_l. }
  assert (arrays a b hs ls ##ₘ h) as Hd.
  { unfold arrays. apply map_disjoint_insert_l. split; [done|].
    by apply map_disjoint_singleton_l. }
  split; try done.
  - simpl. rewrite Hheap. split.
    + intros c o. rewrite lookup_union_Some by done. split.
      * intros [?|?]; [by exists OwnArrays|by exists OwnFrame].
      * intros [[] Hw]; auto; by rewrite lookup_empty in Hw.
    + intros [] [] Hne; try done; try apply map_disjoint_empty_l;
        try apply map_disjoint_empty_r; done.
  - by apply length_replicate.
  - by apply length_replicate.
  - by apply length_replicate.
  - intros i c [-> _]%lookup_replicate. split; [constructor|constructor|].
    intros m Hm. by apply not_elem_of_nil in Hm.
  - intros i c [-> Hi]%lookup_replicate. left. split; [by intros ??| | |done];
      apply lookup_replicate; done.
Qed.

Lemma table_map_replicate n : table_map (replicate n []) = ∅.
Proof.
  unfold table_map, walk_kvs. assert (concat (replicate n ([] : list node)) = []) as ->; [|done].
  induction n; simpl; auto.
Qed.

(** Code of the heap alone leaves the table as it is. *)
Lemma ends_on_heap {A : Type} (p : kprog A) t s (Q : A → hash_table * kst → Prop) :
  sdone p s (λ a s', Q a (t, s')) → ends texec (on_heap p) (t, s) Q.
Proof.
  intros (a & s' & Hr & HQ). apply (ends_map texec kexec (λ X e, OnHeap e) (pair t) id); [done|].
  unfold ends. unfold krun in Hr. by rewrite Hr.
Qed.

Lemma texec_heap {X : Type} (e : kact X) t s x s' :
  kexec X e s = Done x s' → texec X (OnHeap e) (t, s) = Done x (t, s').
Proof. intros He. simpl. by rewrite He. Qed.

Definition init_post (s : kst) (r : Z) (ts : hash_table * kst) : Prop :=
  (∃ pb pl, r = 0 ∧ ts.1 = mk_ht (Some pb) (Some pl) nbits ∧
     store_rep pb pl nbits (k_heap s) ∅ ts.2) ∨
  (may_fail ∧ r = - ENOMEM ∧ ts.1 = mk_ht None None 0 ∧ k_heap ts.2 = k_heap s).

(** The loop of [kv_hash_init] over the buckets. *)
Lemma init_buckets a b h n :
  a ≠ b → h !! a = None → h !! b = None →
  sdone (for_range (R := Empty_set) 0 nb tt (λ i _,
           _ ← call (HeadWrite (Some a) i []);
           _ ← call (SpinLockInit (Some b) i);
           mret (inl tt)))
    (mk_kst (<[b := OLocks (replicate nb None)]> (<[a := OHeads (replicate nb None)]> h)) n)
    (λ _ s', store_rep a b nbits h ∅ s').
Proof.
  intros Hab Ha Hb.
  eapply (sdone_for_range (λ i _ s', s' = mk_kst (init_heap a b h i) n)).
  - unfold init_heap. by rewrite Nat.sub_0_r.
  - intros i [] s1 Hi ->. eapply sdone_mono; [|apply init_step; [done|lia]].
    intros r s2 [-> ->]. eauto.
  - intros [] s1 ->. exists (replicate nb []). split; [|by rewrite table_map_replicate].
    by apply init_ginv.
Qed.

Lemma init_ends t t0 s : ends texec (kv_hash_init (Some t) nbits) (t0, s) (init_post s).
Proof.
  unfold kv_hash_init. eapply ends_act; [done|]. eapply ends_act; [done|].
  apply ends_bind, ends_on_heap. unfold shl1_u32. rewrite decide_True by lia. apply sdone_ret. fold nb.
  destruct (kmalloc_addr (k_allocs s) (k_heap s)) as [a|] eqn:Ha.
  2: { eapply ends_act; [apply texec_heap; simpl; unfold alloc; by rewrite Ha|].
       do 2 (eapply ends_act; [done|]). apply ends_ret. right. split_and!; [by do 2 eexists|done..]. }
  eapply ends_act; [apply texec_heap; simpl; unfold alloc; by rewrite Ha|].
  eapply ends_act; [done|].
  apply kmalloc_addr_fresh in Ha. cbn [k_allocs k_heap fst snd].
  match goal with |- ends _ _ (_, mk_kst ?h ?n) _ => destruct (kmalloc_addr n h) as [b|] eqn:Hb end.
  2: { eapply ends_act; [apply texec_heap; simpl; unfold alloc; simpl in *; by rewrite Hb|].
       eapply ends_act; [done|]. cbn [snd].
       eapply ends_act; [apply texec_heap; simpl; by rewrite lookup_insert_eq|].
       do 2 (eapply ends_act; [done|]). apply ends_ret. right. split_and!; [by do 2 eexists|done..|].
       simpl. by rewrite delete_insert_id. }
  eapply ends_act; [apply texec_heap; simpl; unfold alloc; simpl in *; by rewrite Hb|].
  eapply ends_act; [done|].
  apply kmalloc_addr_fresh in Hb. apply lookup_insert_None in Hb as [Hb Hab].
  cbn [k_allocs k_heap fst snd]. apply ends_bind, ends_on_heap.
  eapply sdone_mono; [|apply (init_buckets a b (k_heap s)); done].
  intros r s1 Hrep. apply ends_ret. left. exists a, b. by split_and!.
Qed.

(** Two moments of [kv_hash_init]: the buckets are allocated and the locks are not;
    both are, and the locks hold what the allocator left. *)
Lemma init_moments t t0 s :
  ¬ may_fail → ∃ a b p1 p2 s1 s2,
    rtc (solo_step texec) (kv_hash_init (Some t) nbits, (t0, s)) (p1, (mk_ht (Some a) None nbits, s1)) ∧
    rtc (solo_step texec) (p1, (mk_ht (Some a) None nbits, s1)) (p2, (mk_ht (Some a) (Some b) nbits, s2)) ∧
    k_heap s2 !! b = Some (OLocks (replicate nb None)) ∧
    ends texec p2 (mk_ht (Some a) (Some b) nbits, s2) (λ r ts,
      r = 0 ∧ ts.1 = mk_ht (Some a) (Some b) nbits ∧ store_rep a b nbits (k_heap s) ∅ ts.2).
Proof.
  intros Hf.
  destruct (kmalloc_addr (k_allocs s) (k_heap s)) as [a|] eqn:Ha; [|destruct Hf; by do 2 eexists].
  set (s1 := mk_kst (<[a := OHeads (replicate nb None)]> (k_heap s)) (S (k_allocs s))).
  destruct (kmalloc_addr (k_allocs s1) (k_heap s1)) as [b|] eqn:Hb; [|destruct Hf; by do 2 eexists].
  pose proof (kmalloc_addr_fresh _ _ _ Ha) as Ha'. pose proof (kmalloc_addr_fresh _ _ _ Hb) as Hb'.
  change (<[a := OHeads (replicate nb None)]> (k_heap s) !! b = None) in Hb'. apply lookup_insert_None in Hb' as [Hb' Hab].
  exists a, b. eexists _, _, s1, _. split; [|split].
  - unfold kv_hash_init. eapply solo_act; [done|]. eapply solo_act; [done|].
    etrans.
    { apply solo_run_bind. unfold shl1_u32. rewrite decide_True by lia. reflexivity. }
    eapply solo_act; [apply texec_heap; simpl; unfold alloc; by rewrite Ha|].
    eapply solo_act; [done|]. constructor.
  - eapply solo_act; [apply texec_heap; cbn [kexec]; unfold alloc; by rewrite Hb|].
    eapply solo_act; [done|]. constructor.
  - split; [apply lookup_insert_eq|]. apply ends_bind, ends_on_heap.
    eapply sdone_mono; [|by apply (init_buckets a b (k_heap s))].
    intros r s2 Hrep. apply ends_ret. by split_and!.
Qed.

End Init.

(** ** Destruction *)

Section Destroy.
Context {api : KernelApi} {laws : KernelLaws api}.
Variables (pb pl : addr) (nbits : Z) (F : heap).
Hypothesis nbits_range : 1 <= nbits <= 31.

Abbreviation nb := (nbuckets nbits).

(** The list heads of the chains [L]. *)
Definition heads_of (L : list (list node)) : list (option (list addr)) :=
  (λ c : list node, Some (n_addr <$> c)) <$> L.

(** What the heap holds besides the arrays: the nodes of [c], and the frame. *)
Definition nodes_heap (c : list node) : heap := chain_heap c ∪ F.

Definition lock_array : obj := OLocks (replicate nb (Some false)).

Definition table_heap (L : list (list node)) (c : list node) : heap :=
  <[pb := OHeads (heads_of L)]> (<[pl := lock_array]> (nodes_heap c)).

(** All the nodes are apart from each other, the arrays and the frame. *)
Record nodes_apart (c : list node) : Prop := {
  na_arrays : pb ≠ pl;
  na_nodup : NoDup (chain_addrs c);
  na_frame a : a ∈ chain_addrs c → F !! a = None ∧ a ≠ pb ∧ a ≠ pl;
  na_pb : F !! pb = None;
  na_pl : F !! pl = None;
}.

Lemma lookup_chain_concat (L : list (list node)) a o :
  chain_heap (concat L) !! a = Some o → ∃ i c, L !! i = Some c ∧ chain_heap c !! a = Some o.
Proof.
  induction L as [|c L IH]; simpl; [by rewrite lookup_empty|].
  rewrite chain_heap_app. intros [?|[_ ?]]%lookup_union_Some_raw.
  - by exists 0%nat, c.
  - destruct IH as (i & c1 & ? & ?); [done|]. by exists (S i), c1.
Qed.

Lemma NoDup_chain_concat (L : list (list node)) :
  (∀ i c, L !! i = Some c → NoDup (chain_addrs c)) →
  (∀ i j c c', L !! i = Some c → L !! j = Some c' → i ≠ j → chain_heap c ##ₘ chain_heap c') →
  NoDup (chain_addrs (concat L)).
Proof.
  induction L as [|c L IH]; intros Hnd Hd; simpl; [constructor|].
  rewrite chain_addrs_app. apply NoDup_app. split_and!.
  - by apply (Hnd 0%nat).
  - intros a Ha [o Ho]%chain_addrs_lookup. apply lookup_chain_concat in Ho as (i & c1 & Hi & Ho).
    apply chain_addrs_lookup in Ha as [o' Ho'].
    assert (chain_heap c ##ₘ chain_heap c1) as Hcc by (by apply (Hd 0%nat (S i))).
    rewrite map_disjoint_spec in Hcc. by eapply Hcc.
  - apply IH.
    + intros i. apply (Hnd (S i)).
    + intros i j c1 c2 ???. apply (Hd (S i) (S j)); [done|done|lia].
Qed.

(** The shares of a table nobody is using. *)
Record quiet (L : list (list node)) (h : heap) (f : owner → heap) : Prop := {
  q_shares : shares f h;
  q_neq : pb ≠ pl;
  q_arrays : f OwnArrays = arrays pb pl (heads_of L) (replicate nb (Some false));
  q_frame : f OwnFrame = F;
  q_bucket i c : L !! i = Some c → f (OwnBucket i) = chain_heap c;
  q_nodup i c : L !! i = Some c → NoDup (chain_addrs c);
  q_other w : match w with
              | OwnBucket i => L !! i = None → f w = ∅
              | OwnThread _ => f w = ∅
              | _ => True
              end;
}.

Lemma ginv_quiet L s : ginv pb pl nbits F [] L s → length L = nb ∧ ∃ f, quiet L (k_heap s) f.
Proof.
  intros (f & hs & ls & []). split; [done|]. exists f.
  assert (∀ i c, L !! i = Some c → bucket_free f [] hs ls i c) as Hfree.
  { intros i c Hi. by destruct (gi_buckets i c Hi) as [|[(j & t & cur & Hj & _) _ _]]. }
  assert (hs = heads_of L) as ->.
  { apply list_eq. intros i. unfold heads_of. rewrite list_lookup_fmap.
    destruct (L !! i) as [c|] eqn:Hi; simpl; [by apply Hfree|].
    apply lookup_ge_None. apply lookup_ge_None in Hi. lia. }
  assert (ls = replicate nb (Some false)) as ->.
  { apply list_eq. intros i. destruct (L !! i) as [c|] eqn:Hi.
    - rewrite (free_lock _ _ _ _ _ _ (Hfree i c Hi)). symmetry. apply lookup_replicate.
      split; [done|]. apply lookup_lt_Some in Hi. lia.
    - apply lookup_ge_None in Hi. rewrite !(proj2 (lookup_ge_None _ _)); [done| |lia].
      rewrite length_replicate. lia. }
  split; try done.
  - intros i c Hi. apply (free_heap _ _ _ _ _ _ (Hfree i c Hi)).
  - intros i c Hi. apply (chain_ok_addrs _ _ _ (gi_chains i c Hi)).
  - intros [| |i|j]; try done; [|by apply gi_no_thread].
    intros Hi. apply gi_no_bucket. apply lookup_ge_None in Hi. lia.
Qed.

Lemma quiet_apart L h f : quiet L h f → nodes_apart (concat L).
Proof.
  intros []. pose proof (shares_disjoint _ _ q_shares0) as Hd.
  assert (∀ a, is_Some (f OwnArrays !! a) → F !! a = None) as HF.
  { intros a [o Ha]. rewrite <- q_frame0. eapply map_disjoint_Some_r; [|done]. by apply Hd. }
  rewrite q_arrays0 in HF. unfold arrays in HF.
  split; [done| | | |].
  - apply NoDup_chain_concat; [done|]. intros i j c c' Hi Hj Hne.
    rewrite <- (q_bucket0 i c Hi), <- (q_bucket0 j c' Hj). apply Hd. congruence.
  - intros a [o Ho]%chain_addrs_lookup. apply lookup_chain_concat in Ho as (i & c & Hi & Ho).
    rewrite <- (q_bucket0 i c Hi) in Ho. split.
    + rewrite <- q_frame0. eapply map_disjoint_Some_r; [|done]. by apply Hd.
    + assert (f OwnArrays !! a = None) as Hn
        by (eapply map_disjoint_Some_r; [|done]; by apply Hd).
      rewrite q_arrays0 in Hn. unfold arrays in Hn.
      apply lookup_insert_None in Hn as [Hn ?]. split; [congruence|].
      intros ->. by rewrite lookup_singleton_eq in Hn.
  - apply HF. by rewrite lookup_insert_eq.
  - apply HF. by rewrite lookup_insert_ne, lookup_singleton_eq.
Qed.

Lemma lookup_concat_chain (L : list (list node)) i c a o :
  NoDup (chain_addrs (concat L)) → L !! i = Some c → chain_heap c !! a = Some o →
  chain_heap (concat L) !! a = Some o.
Proof.
  intros Hnd (L1 & L2 & -> & _)%list_elem_of_split_length Ha.
  rewrite concat_app in *. simpl in *. rewrite !chain_heap_app.
  rewrite chain_addrs_app in Hnd. apply NoDup_app in Hnd as (_ & Hn1 & _).
  apply lookup_union_Some_raw. right. split; [|by apply lookup_union_Some_raw; left].
  apply chain_heap_None. intros Hin%Hn1. apply Hin. rewrite chain_addrs_app.
  apply elem_of_app. left. by eapply lookup_chain_heap_addrs.
Qed.

Lemma lookup_table_heap L c a o :
  nodes_apart c →
  table_heap L c !! a = Some o ↔
    (a = pb ∧ o = OHeads (heads_of L)) ∨ (a = pl ∧ o = lock_array) ∨
    chain_heap c !! a = Some o ∨ F !! a = Some o.
Proof.
  intros []. unfold table_heap, nodes_heap.
  rewrite !lookup_insert_Some, lookup_union_Some.
  2: { symmetry. apply chain_heap_disjoint_notin. intros b Hb. by apply na_frame0. }
  assert (∀ o, chain_heap c !! a = Some o → a ≠ pb ∧ a ≠ pl) as Hc
    by (intros o' Ho'; apply (na_frame0 a); by eapply lookup_chain_heap_addrs).
  assert (∀ o, F !! a = Some o → a ≠ pb ∧ a ≠ pl) as HF by (intros; split; congruence).
  split; [intros [[<- <-]|[? [[<- <-]|[? [?|?]]]]]; auto|].
  intros [[-> ->]|[[-> ->]|[Ho|Ho]]]; [by left|by right; auto| |].
  - destruct (Hc _ Ho). right. split; [done|]. right. auto.
  - destruct (HF _ Ho). right. split; [done|]. right. auto.
Qed.

(** The heap of a table nobody is using. *)
Lemma ginv_heap L s :
  ginv pb pl nbits F [] L s →
  length L = nb ∧ nodes_apart (concat L) ∧ k_heap s = table_heap L (concat L).
Proof.
  intros (Hl & f & Hq)%ginv_quiet. pose proof (quiet_apart _ _ _ Hq) as Hna.
  split_and!; [done|done|]. apply map_eq. intros a. apply option_eq. intros o.
  rewrite (lookup_table_heap _ _ _ _ Hna). destruct Hq as [Hs Hne Ha Hf Hb _ Ho].
  rewrite (shares_lookup _ _ Hs). split.
  - intros [w Hw]. destruct w as [| |i|j].
    + rewrite Ha in Hw. unfold arrays in Hw.
      apply lookup_insert_Some in Hw as [[<- <-]|[? [<- <-]%lookup_singleton_Some]]; auto.
    + rewrite Hf in Hw. auto.
    + destruct (L !! i) as [c|] eqn:Hi.
      * rewrite (Hb _ _ Hi) in Hw. right. right. left.
        eapply lookup_concat_chain; [apply Hna|done|done].
      * by rewrite (Ho (OwnBucket i) Hi), lookup_empty in Hw.
    + by rewrite (Ho (OwnThread j)), lookup_empty in Hw.
  - intros [[-> ->]|[[-> ->]|[Hc|HF]]].
    + exists OwnArrays. rewrite Ha. apply lookup_insert_eq.
    + exists OwnArrays. rewrite Ha. unfold arrays.
      by rewrite lookup_insert_ne, lookup_singleton_eq.
    + apply lookup_chain_concat in Hc as (i & c & Hi & Hc).
      exists (OwnBucket i). by rewrite (Hb _ _ Hi).
    + exists OwnFrame. by rewrite Hf.
Qed.

(** Nobody holds a lock of it. *)
Lemma rep_unlocked m s : store_rep pb pl nbits F m s → k_heap s !! pl = Some lock_array.
Proof.
  intros (L & (_ & Hna & ->)%ginv_heap & _). unfold table_heap.
  rewrite lookup_insert_ne by (apply (na_arrays _ Hna)). apply lookup_insert_eq.
Qed.

(** *** The loops of [kv_hash_destroy] *)

(** Bucket [i] during its inner loop: [c] is what is left of its chain, [L1]
    the chains emptied before it, [L2] the ones after. *)
Lemma heads_of_app L1 L2 : heads_of (L1 ++ L2) = heads_of L1 ++ heads_of L2.
Proof. apply fmap_app. Qed.

Lemma heads_of_middle L1 (c : list node) L2 :
  heads_of (L1 ++ c :: L2) !! length L1 = Some (Some (n_addr <$> c)).
Proof.
  rewrite heads_of_app. replace (length L1) with (length (heads_of L1)) by apply length_fmap.
  by rewrite lookup_app_r, Nat.sub_diag.
Qed.

Lemma heads_of_update L1 (c c' : list node) L2 :
  <[length L1 := Some (n_addr <$> c')]> (heads_of (L1 ++ c :: L2)) = heads_of (L1 ++ c' :: L2).
Proof.
  rewrite !heads_of_app. replace (length L1) with (length (heads_of L1)) by apply length_fmap.
  by rewrite insert_app_r_alt, Nat.sub_diag.
Qed.

Lemma nodes_apart_cons n c :
  nodes_apart (n :: c) →
  nodes_apart c ∧ n_addr n ≠ n_vaddr n ∧ n_addr n ≠ pb ∧ n_addr n ≠ pl ∧
  n_vaddr n ≠ pb ∧ n_vaddr n ≠ pl ∧ nodes_heap c !! n_addr n = None ∧
  nodes_heap c !! n_vaddr n = None.
Proof.
  intros [Hne Hnd HF ??]. simpl in Hnd, HF. rewrite !NoDup_cons, not_elem_of_cons in Hnd.
  destruct Hnd as ((Hav & Ha) & Hv & Hnd).
  destruct (HF (n_addr n)) as (? & ? & ?); [apply elem_of_cons; auto|].
  destruct (HF (n_vaddr n)) as (? & ? & ?); [rewrite !elem_of_cons; auto|].
  split_and!; try done.
  - split; try done. intros a Hin. apply HF. rewrite !elem_of_cons. auto.
  - unfold nodes_heap. apply lookup_union_None. by rewrite <- chain_heap_None.
  - unfold nodes_heap. apply lookup_union_None. by rewrite <- chain_heap_None.
Qed.

Lemma nodes_heap_cons n c : nodes_heap (n :: c) = node_heap n ∪ nodes_heap c.
Proof. unfold nodes_heap. simpl. by rewrite (assoc_L (∪)). Qed.

Lemma table_heap_free L n c :
  nodes_apart (n :: c) →
  delete (n_addr n) (delete (n_vaddr n) (table_heap L (n :: c))) = table_heap L c.
Proof.
  intros (Hna & Hne & ? & ? & ? & ? & H1 & H2)%nodes_apart_cons. unfold table_heap.
  rewrite !(delete_insert_ne _ (n_vaddr n)), !(delete_insert_ne _ (n_addr n)) by congruence.
  do 2 f_equal. rewrite nodes_heap_cons.
  rewrite <- (left_id_L ∅ (∪) (node_heap n ∪ nodes_heap c)).
  rewrite (heap_remove ∅ (nodes_heap c) n) by (by rewrite ?lookup_empty).
  by rewrite (left_id_L ∅ (∪)).
Qed.

Lemma table_heap_entry L n c :
  nodes_apart (n :: c) →
  table_heap L (n :: c) !! n_addr n = Some (OEntry (Some (n_key n)) (Some (Some (n_vaddr n)))) ∧
  table_heap L (n :: c) !! n_vaddr n = Some (OBytes (n_val n ++ [NUL])).
Proof.
  intros Hna. pose proof (nodes_apart_cons _ _ Hna) as (_ & Hne & _).
  rewrite !lookup_table_heap by done. split; right; right; left; simpl;
    (apply lookup_union_Some_raw; left); unfold node_heap; [apply lookup_insert_eq|].
  rewrite lookup_insert_ne by done. apply lookup_singleton_eq.
Qed.

(** One round of the inner loop unlinks and frees the first node left. *)
Lemma destroy_entry {A : Type} L1 n c L2 cs k (f : kprog A) Q :
  nodes_apart (n :: cs) → n_addr n ∉ chain_addrs c →
  sdone f (mk_kst (table_heap (L1 ++ c :: L2) cs) k) Q →
  sdone (_ ← hlist_del (n_addr n) (Some pb) (Z.of_nat (length L1));
         v ← call (GetValue (n_addr n));
         _ ← call (Kfree v);
         _ ← call (Kfree (Some (n_addr n)));
         f) (mk_kst (table_heap (L1 ++ (n :: c) :: L2) (n :: cs)) k) Q.
Proof.
  intros Hna Hn Hf. pose proof (nodes_apart_cons _ _ Hna) as (_ & Hne & _).
  set (L := L1 ++ (n :: c) :: L2).
  assert (table_heap L (n :: cs) !! pb = Some (OHeads (heads_of L))) as Hpb
    by apply lookup_insert_eq.
  pose proof (heads_of_middle L1 (n :: c) L2) as Hmid. fold L in Hmid.
  apply sdone_bind. eapply sdone_act.
  { simpl. rewrite Hpb. unfold in_array. rewrite decide_True, Nat2Z.id, Hmid by lia. done. }
  eexists _, _. split.
  { unfold krun. rewrite run_call. simpl. rewrite Hpb. unfold in_array.
    rewrite decide_True, Nat2Z.id, Hmid by lia. done. }
  rewrite filter_cons_False, filter_addrs_notin by auto. 
  pose proof (heads_of_update L1 (n :: c) c L2) as Hupd. fold L in Hupd.
  fold (n_addr <$> c). rewrite Hupd.
  assert (<[pb := OHeads (heads_of (L1 ++ c :: L2))]> (table_heap L (n :: cs)) =
    table_heap (L1 ++ c :: L2) (n :: cs)) as -> by (unfold table_heap; by rewrite insert_insert_eq).
  destruct (table_heap_entry (L1 ++ c :: L2) n cs Hna) as [He Hv].
  unfold with_heap. cbn [k_heap k_allocs].
  eapply sdone_act; [simpl; by rewrite He|].
  eapply sdone_act; [simpl; by rewrite Hv|].
  eapply sdone_act; [simpl; rewrite lookup_delete_ne by done; by rewrite He|].
  unfold with_heap. cbn [k_heap k_allocs]. by rewrite table_heap_free.
Qed.

Lemma destroy_bucket L1 c L2 k :
  nodes_apart (c ++ concat L2) →
  sdone (hlist_for_each_entry (R := Empty_set) (n_addr <$> c) (λ e,
           _ ← hlist_del e (Some pb) (Z.of_nat (length L1));
           v ← call (GetValue e);
           _ ← call (Kfree v);
           _ ← call (Kfree (Some e));
           mret None)) (mk_kst (table_heap (L1 ++ c :: L2) (c ++ concat L2)) k)
    (λ r s', s' = mk_kst (table_heap (L1 ++ [] :: L2) (concat L2)) k).
Proof.
  induction c as [|n c IH]; intros Hna; [by apply sdone_ret|].
  rewrite fmap_cons. cbn [hlist_for_each_entry app].
  pose proof (nodes_apart_cons _ _ Hna) as (Hna' & _).
  apply sdone_bind. apply destroy_entry; [done| |].
  { pose proof (na_nodup _ Hna) as Hnd. simpl in Hnd.
    rewrite chain_addrs_app, !NoDup_cons, not_elem_of_cons, not_elem_of_app in Hnd. tauto. }
  apply sdone_ret. by apply IH.
Qed.

Lemma nodes_apart_drop c1 c2 : nodes_apart (c1 ++ c2) → nodes_apart c2.
Proof.
  induction c1 as [|n c1 IH]; [done|]. simpl. intros (H & _)%nodes_apart_cons. by apply IH.
Qed.

(** After destroying the table only its array of locks is left of it. *)
Lemma destroy_sdone m s :
  store_rep pb pl nbits F m s →
  sdone (kv_hash_destroy (Some (mk_ht (Some pb) (Some pl) nbits))) s (λ r s',
    r = Some (mk_ht None (Some pl) 0) ∧ k_heap s' = <[pl := lock_array]> F).
Proof.
  intros (L & Hg & _). destruct (ginv_heap _ _ Hg) as (Hl & Hna & Hheap).
  destruct s as [h k]. simpl in Hheap. subst h.
  unfold kv_hash_destroy. cbn [bits buckets bucket_locks].
  apply sdone_bind. unfold shl1_u32. rewrite decide_True by lia. apply sdone_ret. fold nb.
  apply sdone_bind.
  apply (sdone_for_range (λ i _ s', s' = mk_kst
    (table_heap (replicate i [] ++ drop i L) (concat (drop i L))) k)).
  - by rewrite drop_0.
  - intros i [] s1 Hi ->. destruct (lookup_lt_is_Some_2 L i) as [c Hc]; [lia|].
    rewrite (drop_S _ _ _ Hc). simpl concat.
    assert (nodes_apart (c ++ concat (drop (S i) L))) as Hna'.
    { rewrite <- (take_drop i L), concat_app in Hna. apply nodes_apart_drop in Hna.
      by rewrite (drop_S _ _ _ Hc) in Hna. }
    pose proof (length_replicate i ([] : list node)) as Hlen.
    pose proof (replicate_S_end i ([] : list node)) as Hsnoc.
    set (L1 := replicate i ([] : list node)) in *.
    replace (Z.of_nat i) with (Z.of_nat (length L1)) by by rewrite Hlen.
    assert (∀ L2 c2, table_heap (L1 ++ c :: L2) c2 !! pb =
      Some (OHeads (heads_of (L1 ++ c :: L2)))) as Hpb by (intros; apply lookup_insert_eq).
    eapply sdone_act.
    { simpl. rewrite Hpb. unfold in_array. rewrite decide_True, Nat2Z.id, heads_of_middle by lia. done. }
    apply sdone_bind. eapply sdone_mono; [|by apply destroy_bucket].
    intros r s2 ->. apply sdone_ret. exists tt. split; [done|].
    by rewrite Hsnoc, <- app_assoc.
  - intros [] s1 ->. rewrite drop_ge by lia. rewrite app_nil_r. simpl concat.
    eapply sdone_act; [simpl; unfold table_heap; by rewrite lookup_insert_eq|].
    apply sdone_ret. split; [done|]. simpl. unfold table_heap, nodes_heap. simpl.
    rewrite (left_id_L ∅ (∪)), delete_insert_eq, delete_id; [done|].
    rewrite lookup_insert_ne by (pose proof (na_arrays _ Hna); done). exact (na_pb _ Hna).
Qed.

End Destroy.
