(* ===== verification/KvTrace.v ===== *)
(** * Map-level events of the critical sections

    Every critical section of the hash table is one atomic event on the map the
    table represents.  A program proved in the logic has a trace of events
    ([wp_trace]); the traces of the threads of a pool merge into one sequence of
    atomic steps on the map. *)

From S2P Require Import Prelude Prog CStr KvIoctl KMem KvHash KLogic KSound KvHashSpec KvTable.
From S2P Require Import KvStore.

Inductive event : Type :=
  (** A lookup of a key, and what it found. *)
  | ELookup (k : Z) (r : option bytes)
  (** The key was given this value. *)
  | EAdd (k : Z) (v : bytes)
  (** No memory for a new key. *)
  | ENoMem (k : Z)
  | ERemove (k : Z) (r : option bytes)
  (** The pairs of bucket [i] were read, in this order. *)
  | ERead (i : nat) (l : kvs).

Definition is_read (e : event) : Prop := match e with ERead _ _ => True | _ => False end.

Section Trace.
Context {api : KernelApi} {laws : KernelLaws api}.
Variables (pb pl : addr) (nbits : Z) (F : heap).
Hypothesis nbits_range : 1 <= nbits <= 31.

Abbreviation nb := (nbuckets nbits).
Abbreviation ht := (mk_ht (Some pb) (Some pl) nbits).
Abbreviation ok := (chain_ok nbits).
Abbreviation bucket := (bucket_of nbits).
Abbreviation wp := (kwp pb pl nbits).

(** [l] lists the pairs of [m] whose keys belong to bucket [i]. *)
Definition bucket_content (m : gmap Z bytes) (i : nat) (l : kvs) : Prop :=
  NoDup l.*1 ∧ ∀ k v, (k, v) ∈ l ↔ m !! k = Some v ∧ bucket k = i.

Definition event_step (e : event) (m m' : gmap Z bytes) : Prop :=
  match e with
  | ELookup k r => m' = m ∧ r = m !! k
  | EAdd k v => m' = <[k := v]> m
  | ENoMem k => m' = m ∧ m !! k = None
  | ERemove k r => m' = delete k m ∧ r = m !! k
  | ERead i l => m' = m ∧ bucket_content m i l
  end.

Inductive events_run : list event → gmap Z bytes → gmap Z bytes → Prop :=
  | events_nil m : events_run [] m m
  | events_cons e es m m1 m2 :
      event_step e m m1 → events_run es m1 m2 → events_run (e :: es) m m2.

(** The critical section that leads from chain [c] to chain [c'] in bucket [i]
    performs the event. *)
Definition commit_event (e : event) (x : commit) : Prop :=
  let '(i, c, c') := x in
  ok i c ∧ ok i c' ∧
  match e with
  | ELookup k r => is_u64 k ∧ i = bucket k ∧ c' = c ∧ r = kv_find k (chain_kvs c)
  | EAdd k v => is_u64 k ∧ i = bucket k ∧ chain_kvs c' = kv_set k v (chain_kvs c)
  | ENoMem k => is_u64 k ∧ i = bucket k ∧ c' = c ∧ kv_find k (chain_kvs c) = None
  | ERemove k r =>
      is_u64 k ∧ i = bucket k ∧ chain_kvs c' = kv_del k (chain_kvs c) ∧
      r = kv_find k (chain_kvs c)
  | ERead j l => i = j ∧ (i < nb)%nat ∧ c' = c ∧ l = chain_kvs c
  end.

(** ** From critical sections to events *)

Lemma kv_find_elem k v (l : kvs) : NoDup l.*1 → (k, v) ∈ l ↔ kv_find k l = Some v.
Proof. intros Hnd. rewrite kv_find_map. by apply elem_of_list_to_map. Qed.

Lemma table_bucket_content L i c :
  table_ok nbits L → L !! i = Some c → bucket_content (table_map L) i (chain_kvs c).
Proof.
  intros HL Hi. pose proof HL as [_ Hw]. pose proof (Hw i c Hi) as Hc.
  assert (NoDup (chain_kvs c).*1) as Hnd
    by (rewrite chain_kvs_keys; apply (chain_ok_keys _ _ _ Hc)).
  split; [done|]. intros k v. rewrite kv_find_elem by done. split.
  - intros Hf. destruct (decide (bucket k = i)) as [Hk|Hk].
    2: { rewrite (chain_find_None nbits i c k) in Hf by auto. done. }
    split; [|done]. unfold chain_kvs in Hf. apply kv_find_elem in Hf as Hin; [|done].
    apply list_elem_of_fmap in Hin as (n & [= -> ->] & Hn).
    destruct (chain_ok_nodes _ _ _ Hc n Hn) as (Hu & _ & _). subst i.
    by rewrite (table_lookup nbits L _ c HL Hu Hi).
  - intros [Hm Hk]. destruct (table_map_values nbits L k v HL Hm) as [Hu _]. subst i.
    by rewrite <- (table_lookup nbits L k c HL Hu Hi).
Qed.

Lemma commit_event_step L e i c c' :
  table_ok nbits L → L !! i = Some c → commit_event e (i, c, c') →
  table_ok nbits (<[i := c']> L) ∧ event_step e (table_map L) (table_map (<[i := c']> L)).
Proof.
  intros HL Hi (Hc & Hc' & He). split; [by apply table_ok_insert|].
  destruct e as [k r|k v|k|k r|j l]; simpl.
  - destruct He as (Hk & -> & -> & ->). rewrite list_insert_id by done.
    split; [done|]. by rewrite (table_lookup _ _ _ _ HL Hk Hi).
  - destruct He as (Hk & -> & Hset). by apply (table_map_set nbits nbits_range L k v c c').
  - destruct He as (Hk & -> & -> & Hn). rewrite list_insert_id by done.
    split; [done|]. by rewrite (table_lookup _ _ _ _ HL Hk Hi).
  - destruct He as (Hk & -> & Hdel & ->).
    rewrite (table_lookup _ _ _ _ HL Hk Hi). split; [|done].
    by apply (table_map_del nbits nbits_range L k c c').
  - destruct He as (-> & _ & -> & ->). rewrite list_insert_id by done.
    split; [done|]. by apply table_bucket_content.
Qed.

Lemma replay_events L H L' es :
  table_ok nbits L → replay L H L' → Forall2 commit_event es H →
  table_ok nbits L' ∧ events_run es (table_map L) (table_map L').
Proof.
  intros HL Hr. revert es HL. induction Hr as [L|L i c c' H L' Hi Hr IH]; intros es HL Hes.
  - inversion Hes; subst. split; [done|]. constructor.
  - inversion Hes as [|e ? es' ? He Hes']; subst.
    destruct (commit_event_step _ _ _ _ _ HL Hi He) as [HL1 Hstep].
    destruct (IH es' HL1 Hes') as [HL' Hrun]. split; [done|]. by econstructor.
Qed.

Lemma events_run_app es1 es2 m m' :
  events_run (es1 ++ es2) m m' ↔ ∃ m1, events_run es1 m m1 ∧ events_run es2 m1 m'.
Proof.
  split.
  - revert m. induction es1 as [|e es1 IH]; intros m; simpl.
    + intros ?. exists m. split; [constructor|done].
    + inversion 1 as [|? ? ? m1 ? He Hr]; subst. apply IH in Hr as (m2 & ? & ?).
      exists m2. split; [by econstructor|done].
  - intros (m1 & H1 & H2). induction H1; simpl; [done|]. econstructor; eauto.
Qed.

(** ** Traces of programs *)

(** The thread ends with no more memory than it had, no lock held, and a trace
    of events that explains the result. *)
Definition trace_post {A : Type} (T : list event → A → Prop) (t : tst) (r : A) (t' : tst) : Prop :=
  ∃ es H, t' = mk_tst (t_heap t) None (t_hist t ++ H) ∧ Forall2 commit_event es H ∧ T es r.

Definition wp_trace {A : Type} (p : kprog A) (T : list event → A → Prop) : Prop :=
  ∀ t, t_held t = None → wp p (trace_post T t) t.

Lemma wp_trace_ret {A : Type} (a : A) (T : list event → A → Prop) :
  T [] a → wp_trace (mret a) T.
Proof.
  intros HT t Ht. apply kwp_ret. exists [], []. rewrite app_nil_r. split_and!; [|constructor|done].
  destruct t. simpl in *. congruence.
Qed.

Lemma wp_trace_mono {A : Type} (p : kprog A) (T T' : list event → A → Prop) :
  (∀ es r, T es r → T' es r) → wp_trace p T → wp_trace p T'.
Proof.
  intros HT Hp t Ht. eapply kwp_mono; [|by apply Hp].
  intros r t' (es & H & ? & ? & ?). exists es, H. auto.
Qed.

(** Continue after a program whose trace is known, in the middle of one whose
    heap may be larger. *)
Lemma wp_trace_then {A B : Type} (p : kprog A) (f : A → kprog B) T t Q :
  wp_trace p T → t_held t = None →
  (∀ r es H, T es r → Forall2 commit_event es H →
     wp (f r) Q (mk_tst (t_heap t) None (t_hist t ++ H))) →
  wp (p ≫= f) Q t.
Proof.
  intros Hp Ht Hf. apply kwp_bind. eapply kwp_mono; [|by apply Hp].
  intros r t' (es & H & -> & Hes & HT). eauto.
Qed.

Lemma wp_trace_bind {A B : Type} (p : kprog A) (f : A → kprog B) T T' :
  wp_trace p T →
  (∀ r es, T es r → wp_trace (f r) (λ es' r', T' (es ++ es') r')) →
  wp_trace (p ≫= f) T'.
Proof.
  intros Hp Hf t Ht. eapply wp_trace_then; [done|done|]. intros r es H HT Hes.
  eapply kwp_mono; [|apply (Hf r es HT); done].
  intros r' t' (es' & H' & -> & Hes' & HT'). exists (es ++ es'), (H ++ H').
  cbn [t_heap t_hist]. split_and!; [by rewrite app_assoc|by apply Forall2_app|done].
Qed.

Lemma wp_trace_fmap {A B : Type} (g : A → B) (p : kprog A) (T : list event → A → Prop) :
  wp_trace p T → wp_trace (g <$> p) (λ es r, ∃ x, r = g x ∧ T es x).
Proof.
  intros Hp. change (g <$> p) with (p ≫= (λ x, mret (g x))).
  eapply wp_trace_bind; [done|]. intros r es HT. apply wp_trace_ret. rewrite app_nil_r. eauto.
Qed.

(** ** Traces of the operations of the table *)

Lemma trace_lookup k out buflen :
  is_u64 k → (0 < buflen <= length out)%nat →
  wp_trace (kv_hash_lookup (Some ht) k (Some out) buflen) (λ es r,
    ∃ found, es = [ELookup k found] ∧ (∀ v, found = Some v → value_ok v) ∧
      r = lookup_result found out buflen).
Proof.
  intros Hk Hl t Ht. eapply kwp_mono; [|by apply wp_kv_hash_lookup].
  intros r t' (c & Hc & -> & ->).
  exists [ELookup k (kv_find k (chain_kvs c))], [(bucket k, c, c)]. split_and!; [done| |].
  - constructor; [|constructor]. by split_and!.
  - eexists. split_and!; [done| |done]. intros v Hv.
    apply kv_find_elem in Hv; [|rewrite chain_kvs_keys; apply Hc].
    apply list_elem_of_fmap in Hv as (n & [= -> ->] & Hn). by apply (chain_ok_nodes _ _ _ Hc n).
Qed.

Lemma trace_add k buf v :
  is_u64 k → c_str buf = Some v → value_ok v →
  wp_trace (kv_hash_add (Some ht) k (Some buf)) (λ es r,
    (may_fail ∧ r = - ENOMEM ∧ (es = [] ∨ es = [ENoMem k])) ∨ (r = 0 ∧ es = [EAdd k v])).
Proof.
  intros Hk Hb Hv t Ht. eapply kwp_mono; [|by apply (wp_kv_hash_add pb pl nbits nbits_range k buf v)].
  intros r t' [(Hf & -> & ->)|[(c & Hf & Hc & Hn & -> & ->)|(c & c' & Hc & Hc' & -> & -> & Hs)]].
  - exists [], []. rewrite app_nil_r. split_and!; [|constructor|by eauto].
    destruct t. simpl in *. congruence.
  - exists [ENoMem k], [(bucket k, c, c)]. split_and!; [done| |by eauto].
    constructor; [|constructor]. split_and!; try done. apply kv_find_None. by rewrite chain_kvs_keys.
  - exists [EAdd k v], [(bucket k, c, c')]. split_and!; [done| |by eauto].
    constructor; [|constructor]. by split_and!.
Qed.

Lemma trace_remove k :
  is_u64 k →
  wp_trace (kv_hash_remove (Some ht) k) (λ es r,
    ∃ found, es = [ERemove k found] ∧
      r = match found with Some _ => 0 | None => - ENOENT end).
Proof.
  intros Hk t Ht. eapply kwp_mono; [|by apply wp_kv_hash_remove].
  intros r t' (c & c' & Hc & Hc' & -> & Hdel & ->).
  exists [ERemove k (kv_find k (chain_kvs c))], [(bucket k, c, c')]. split_and!; [done| |by eauto].
  constructor; [|constructor]. by split_and!.
Qed.

(** The events of a walk over the buckets that found the pairs [ls]. *)
Definition walk_events (ls : list kvs) : list event := imap ERead ls.

Lemma walk_events_commits cs :
  walk_ok nbits cs → (length cs <= nb)%nat →
  Forall2 commit_event (walk_events (chain_kvs <$> cs)) (walk 0 cs).
Proof.
  intros Hw Hl. apply Forall2_same_length_lookup. unfold walk_events, walk.
  split; [by rewrite !length_imap, length_fmap|].
  intros i e [[j c] c']. rewrite !list_lookup_imap, list_lookup_fmap.
  destruct (cs !! i) as [c0|] eqn:Hi; [|done]. simpl. intros [= <-] [= <- <- <-].
  pose proof (lookup_lt_Some _ _ _ Hi). pose proof (Hw i c0 Hi).
  split_and!; try done. lia.
Qed.

Lemma walk_kvs_concat cs : walk_kvs cs = concat (chain_kvs <$> cs).
Proof.
  unfold walk_kvs, chain_kvs. induction cs as [|c cs IH]; [done|].
  simpl. by rewrite fmap_app, IH.
Qed.

Lemma trace_count :
  wp_trace (kv_hash_count (Some ht)) (λ es r,
    ∃ ls, length ls = nb ∧ es = walk_events ls ∧ r = wrap_s32 (Z.of_nat (length (concat ls)))).
Proof.
  intros t Ht. eapply kwp_mono; [|by apply wp_kv_hash_count].
  intros r t' (cs & Hl & Hw & -> & ->). do 2 eexists. split_and!; [done| |].
  - apply walk_events_commits; [done|lia].
  - exists (chain_kvs <$> cs). by rewrite length_fmap, walk_kvs_concat.
Qed.

End Trace.
