(* ===== verification/Kvlkm.v ===== *)
(** * [kernel/kvlkm.c]: the ioctl handlers of the kernel module

    The module's global [kv_store] is a section variable: once the module is
    loaded no handler changes its fields.  A handler that works on a message of
    its caller returns the message it leaves; the user-space memory behind the
    ioctl argument is a [ubuf]. *)

From S2P Require Import Prelude Prog CStr KvIoctl KMem KvHash.

(** ** User memory

    The bytes mapped at the argument address, whether the process may read them,
    and how many of them, from the first on, it may write; a null or wild argument
    is the empty region. *)
Record ubuf : Type := mk_ubuf {
  u_bytes : bytes;
  u_readable : bool;
  u_writable : nat;
}.

(** [copy_from_user (dst, arg, n)]: [None] when it reports uncopied bytes. *)
Definition copy_from_user (u : ubuf) (n : nat) : option bytes :=
  if u_readable u && bool_decide (n <= length (u_bytes u))%nat
  then Some (take n (u_bytes u)) else None.

(** The bytes that a copy to the argument address can reach. *)
Definition u_room (u : ubuf) : nat := Nat.min (u_writable u) (length (u_bytes u)).

(** The memory with its first bytes replaced. *)
Definition u_write (data : bytes) (u : ubuf) : ubuf :=
  mk_ubuf (write_at 0 data (u_bytes u)) (u_readable u) (u_writable u).

(** [copy_to_user (arg, data, length data)]: the number of bytes it did not copy,
    and the memory it leaves, with a prefix of [data] when that is not 0. *)
Definition copy_to_user {api : KernelApi} (u : ubuf) (data : bytes) : nat * ubuf :=
  let n := length data in
  let copied :=
    if decide (n <= u_room u)%nat then n
    else Nat.min (copied_before_fault n (u_room u)) (u_room u) in
  ((n - copied)%nat, u_write (take copied data) u).

(** The texts the handlers leave in [msg->value]. *)
Definition msg_key_exists : bytes := lit "Key exists. Use update." ++ [LF].
Definition msg_insert_failed : bytes := lit "Insert failed." ++ [LF].
Definition msg_update_failed : bytes := lit "Update failed." ++ [LF].
Definition msg_delete_failed : bytes := lit "Failed to delete key." ++ [LF].
Definition msg_no_key (k : Z) : bytes := lit "Key '" ++ to_string k ++ lit "' does not exist".
Definition msg_no_update (k : Z) : bytes :=
  lit "Cannot update non-existent key: " ++ to_string k ++ [LF].

(** [snprintf (msg->value, MAX_VALUE_LEN, ...)]. *)
Definition say (text : bytes) (m : kv_message) : kv_message :=
  set_value (snprintf (value m) MAX_VALUE_LEN text) m.

Section Kvlkm.
Context {ioc_api : IocApi} {api : KernelApi}.
Variable kv_store : hash_table.

(** ** Handlers of one message *)

Definition _handle_insert (msg : kv_message) : kprog (Z * kv_message) :=
  let existing := zeros MAX_VALUE_LEN in
  '(ret, _) ← kv_hash_lookup (Some kv_store) (key msg) (Some existing) MAX_VALUE_LEN;
  if decide (0 <= ret) then
    mret (0, say msg_key_exists (set_status 1 msg))
  else
    (* a terminated copy of the value is made here, and not used *)
    let _input_value := strscpy (zeros MAX_VALUE_LEN) (upto_nul (value msg)) MAX_VALUE_LEN in
    ret ← kv_hash_add (Some kv_store) (key msg) (Some (value msg));
    if decide (ret < 0) then mret (0, say msg_insert_failed (set_status ret msg))
    else mret (0, set_status 0 msg).

Definition _handle_delete (msg : kv_message) : kprog (Z * kv_message) :=
  let msg := set_status 1 msg in
  ret ← kv_hash_remove (Some kv_store) (key msg);
  if decide (ret < 0) then mret (0, say msg_delete_failed msg)
  else mret (0, set_status 0 msg).

Definition _handle_get (msg : kv_message) : kprog (Z * kv_message) :=
  let msg := set_status 1 (set_value (zeros MAX_VALUE_LEN) msg) in
  '(ret, out) ← kv_hash_lookup (Some kv_store) (key msg) (Some (value msg)) MAX_VALUE_LEN;
  let msg := set_value (default (value msg) out) msg in
  if decide (ret < 0) then mret (0, say (msg_no_key (key msg)) msg)
  else mret (0, set_status 0 msg).

Definition _handle_update (msg : kv_message) : kprog (Z * kv_message) :=
  let msg := set_status 1 msg in
  let tmp := zeros MAX_VALUE_LEN in
  '(ret, _) ← kv_hash_lookup (Some kv_store) (key msg) (Some tmp) MAX_VALUE_LEN;
  if decide (ret < 0) then mret (0, say (msg_no_update (key msg)) msg)
  else
    ret ← kv_hash_add (Some kv_store) (key msg) (Some (value msg));
    if decide (ret < 0) then mret (0, say msg_update_failed (set_status ret msg))
    else mret (0, set_status 0 msg).

(** [msg] points to the kernel's buffer. *)
Definition _handle_snapshot (msg : ptr) : kprog Z :=
  match msg with
  | None => mret (- EINVAL)
  | Some p =>
      cap ← call (BytesRead msg off_snap_capacity 4);
      '(ret, count) ← kv_hash_snapshot (Some kv_store) (Some (p, off_snap_entries)) (le_value cap);
      if decide (ret < 0) then
        _ ← call (BytesWrite msg off_snap_status (le_bytes 4 ERROR));
        _ ← call (BytesWrite msg off_snap_count (le_bytes 4 0));
        mret ret
      else
        _ ← call (BytesWrite msg off_snap_count (le_bytes 4 (default 0 count)));
        _ ← call (BytesWrite msg off_snap_status (le_bytes 4 SUCCESS));
        mret 0
  end.

(** ** Commands *)

Definition _handle_kv_count (arg : ubuf) : kprog (Z * ubuf) :=
  count ← kv_hash_count (Some kv_store);
  if decide (count < 0) then mret (count, arg)
  else
    let out_count := wrap_u32 count in
    let '(uncopied, arg) := copy_to_user arg (le_bytes 4 out_count) in
    if decide (uncopied ≠ 0%nat) then mret (- EFAULT, arg) else mret (0, arg).

Definition _handle_kv_message (cmd : Z) (arg : ubuf) : kprog (Z * ubuf) :=
  match copy_from_user arg sizeof_kv_message with
  | None => mret (- EFAULT, arg)
  | Some bs =>
      let msg := decode_msg bs in
      r ← (if decide (cmd = wrap_s32 KV_INSERT) then Some <$> _handle_insert msg
           else if decide (cmd = wrap_s32 KV_UPDATE) then Some <$> _handle_update msg
           else if decide (cmd = wrap_s32 KV_GET) then Some <$> _handle_get msg
           else if decide (cmd = wrap_s32 KV_DELETE) then Some <$> _handle_delete msg
           else mret None);
      match r with
      | None => mret (- EINVAL, arg)
      | Some (ret, msg') =>
          if decide (ret < 0) then mret (ret, arg)
          else
            let '(uncopied, arg) := copy_to_user arg (encode_msg msg') in
            if decide (uncopied ≠ 0%nat) then mret (- EFAULT, arg) else mret (ret, arg)
      end
  end.

Definition snapshot_alloc_size (count : Z) : Z :=
  wrap_u64 (Z.of_nat sizeof_kv_snapshot_message + wrap_u64 count * Z.of_nat sizeof_kv_message).

Definition _handle_kv_snapshot (arg : ubuf) : kprog (Z * ubuf) :=
  match copy_from_user arg sizeof_kv_snapshot_message with
  | None => mret (- EFAULT, arg)
  | Some bs =>
      let user_header := decode_header bs in
      actual_count ← kv_hash_count (Some kv_store);
      if decide (wrap_u32 actual_count ≠ snap_capacity user_header) then
        mret (actual_count, arg)
      else
        snapshot_msg ← call (Kmalloc (KBytes (Z.to_nat (snapshot_alloc_size actual_count))) GFP_KERNEL);
        match snapshot_msg with
        | None => mret (- ENOMEM, arg)
        | Some _ =>
            _ ← call (BytesWrite snapshot_msg off_snap_capacity (le_bytes 4 actual_count));
            ret ← _handle_snapshot snapshot_msg;
            if decide (ret < 0) then
              _ ← call (Kfree snapshot_msg);
              mret (ret, arg)
            else
              cnt ← call (BytesRead snapshot_msg off_snap_count 4);
              data ← call (BytesRead snapshot_msg 0
                       (Z.to_nat (snapshot_alloc_size (le_value cnt))));
              let '(uncopied, arg) := copy_to_user arg data in
              if decide (uncopied ≠ 0%nat) then
                _ ← call (Kfree snapshot_msg);
                mret (- EFAULT, arg)
              else
                _ ← call (Kfree snapshot_msg);
                mret (ret, arg)
        end
  end.

Definition kv_ioctl (cmd : Z) (arg : ubuf) : kprog (Z * ubuf) :=
  if decide (cmd = KV_SNAPSHOT) then _handle_kv_snapshot arg
  else if decide (cmd = KV_COUNT) then _handle_kv_count arg
  else _handle_kv_message (wrap_s32 cmd) arg.

End Kvlkm.
