(* ===== verification/KvlkmSpec.v ===== *)
(** * What the ioctl handlers do, as traces of map events

    One relation per kind of command: the atomic events on the map that a call
    performs, in order, and what it returns and writes back to its caller for
    them.  [trace_ioctl] proves that every call of [kv_ioctl] has such a trace. *)

From S2P Require Import Prelude Prog CStr KvIoctl KMem KvHash KLogic KSound KvHashSpec KvTable.
From S2P Require Import KvStore KvTrace Kvlkm.

Inductive kv_op : Type := OpInsert | OpUpdate | OpGet | OpDelete.

(** The value field of a message after a successful [GET]. *)
Definition stored_value (v : bytes) : bytes := write_at 0 (v ++ [NUL]) (zeros MAX_VALUE_LEN).

Section Traces.
Context {ioc_api : IocApi} {api : KernelApi}.
Variable nbits : Z.

(** [message_trace m op es m']: the handler of [op], given the message [m],
    performs the events [es] and leaves [m']. *)
Inductive message_trace (m : kv_message) : kv_op → list event → kv_message → Prop :=
  | insert_exists v :
      message_trace m OpInsert [ELookup (key m) (Some v)] (say msg_key_exists (set_status 1 m))
  | insert_done v :
      c_str (value m) = Some v →
      message_trace m OpInsert [ELookup (key m) None; EAdd (key m) v] (set_status 0 m)
  | insert_nomem es :
      may_fail → es = [] ∨ es = [ENoMem (key m)] →
      message_trace m OpInsert (ELookup (key m) None :: es)
        (say msg_insert_failed (set_status (- ENOMEM) m))
  | update_missing :
      message_trace m OpUpdate [ELookup (key m) None] (say (msg_no_update (key m)) (set_status 1 m))
  | update_done v0 v :
      c_str (value m) = Some v →
      message_trace m OpUpdate [ELookup (key m) (Some v0); EAdd (key m) v] (set_status 0 m)
  | update_nomem v0 es :
      may_fail → es = [] ∨ es = [ENoMem (key m)] →
      message_trace m OpUpdate (ELookup (key m) (Some v0) :: es)
        (say msg_update_failed (set_status (- ENOMEM) m))
  | get_found v :
      value_ok v →
      message_trace m OpGet [ELookup (key m) (Some v)] (set_status 0 (set_value (stored_value v) m))
  | get_missing :
      message_trace m OpGet [ELookup (key m) None]
        (say (msg_no_key (key m)) (set_status 1 (set_value (zeros MAX_VALUE_LEN) m)))
  | delete_found v :
      message_trace m OpDelete [ERemove (key m) (Some v)] (set_status 0 m)
  | delete_missing :
      message_trace m OpDelete [ERemove (key m) None] (say msg_delete_failed (set_status 1 m)).

Definition op_code (op : kv_op) : Z :=
  match op with
  | OpInsert => KV_INSERT | OpUpdate => KV_UPDATE | OpGet => KV_GET | OpDelete => KV_DELETE
  end.

(** Reply: the structure goes back to the caller, all of it or, when its memory
    cannot be written that far, the part that [copy_to_user] got done. *)
Definition reply (data : bytes) (ret : Z) (arg : ubuf) (r : Z * ubuf) : Prop :=
  r = (if decide ((copy_to_user arg data).1 ≠ 0%nat) then - EFAULT else ret, (copy_to_user arg data).2).

(** The header of a snapshot ends in four bytes of padding. *)
Definition off_header_pad : nat := off_snap_count + 4.

(** The image a snapshot writes: a header and the entries of [l]. *)
Record snapshot_image (cap : Z) (l : kvs) (data : bytes) : Prop := {
  si_length : length data = (sizeof_kv_snapshot_message + length l * sizeof_kv_message)%nat;
  si_status : snap_status (decode_header data) = SUCCESS;
  si_capacity : snap_capacity (decode_header data) = cap;
  si_count : snap_count (decode_header data) = Z.of_nat (length l);
  si_entries i kv : l !! i = Some kv →
    status (entry_at data i) = 0 ∧ key (entry_at data i) = kv.1 ∧
    c_str (value (entry_at data i)) = Some kv.2;
}.

(** Where the buffer of a snapshot has padding, [data] holds what [g] holds. *)
Definition padding_of (g : bytes) (entries : nat) (data : bytes) : Prop :=
  read_at off_header_pad 4 data = read_at off_header_pad 4 g ∧
  ∀ i, (i < entries)%nat →
    read_at (off_snap_entries + i * sizeof_kv_message + off_pad) 4 data =
    read_at (off_snap_entries + i * sizeof_kv_message + off_pad) 4 g.

Inductive count_trace (arg : ubuf) : list event → Z * ubuf → Prop :=
  | count_done ls r :
      length ls = nbuckets nbits →
      let count := wrap_s32 (Z.of_nat (length (concat ls))) in
      (if decide (count < 0) then r = (count, arg)
       else reply (le_bytes 4 (wrap_u32 count)) 0 arg r) →
      count_trace arg (walk_events ls) r.

(** A snapshot walks the buckets twice: once to count, once to copy. *)
Inductive snapshot_trace (arg : ubuf) : list event → Z * ubuf → Prop :=
  | snapshot_fault :
      copy_from_user arg sizeof_kv_snapshot_message = None →
      snapshot_trace arg [] (- EFAULT, arg)
  | snapshot_mismatch bs ls :
      copy_from_user arg sizeof_kv_snapshot_message = Some bs →
      length ls = nbuckets nbits →
      let count := wrap_s32 (Z.of_nat (length (concat ls))) in
      wrap_u32 count ≠ snap_capacity (decode_header bs) →
      snapshot_trace arg (walk_events ls) (count, arg)
  | snapshot_nomem bs ls :
      may_fail → copy_from_user arg sizeof_kv_snapshot_message = Some bs →
      length ls = nbuckets nbits →
      wrap_u32 (Z.of_nat (length (concat ls))) = snap_capacity (decode_header bs) →
      snapshot_trace arg (walk_events ls) (- ENOMEM, arg)
  | snapshot_empty bs ls :
      copy_from_user arg sizeof_kv_snapshot_message = Some bs →
      length ls = nbuckets nbits →
      snap_capacity (decode_header bs) = 0 → wrap_u32 (Z.of_nat (length (concat ls))) = 0 →
      snapshot_trace arg (walk_events ls) (- EINVAL, arg)
  | snapshot_copy bs ls ls' data r :
      copy_from_user arg sizeof_kv_snapshot_message = Some bs →
      length ls = nbuckets nbits → (length ls' <= nbuckets nbits)%nat →
      let cap := snap_capacity (decode_header bs) in
      wrap_u32 (Z.of_nat (length (concat ls))) = cap → 0 < cap →
      length ls' = nbuckets nbits ∨ cap < Z.of_nat (length (concat ls')) →
      snapshot_image cap (take (Z.to_nat cap) (concat ls')) data →
      (∃ n len, padding_of (kmalloc_garbage n len) (length (take (Z.to_nat cap) (concat ls'))) data) →
      reply data 0 arg r →
      snapshot_trace arg (walk_events ls ++ walk_events ls') r.

(** A call returned [r] and left [u] where [arg] was, to answer with [data]: a copy
    that comes to its end gives 0; one that finds too little memory to write to gives
    [-EFAULT] and leaves a prefix of [data]. *)
Definition copied_out (arg : ubuf) (data : bytes) (r : Z) (u : ubuf) : Prop :=
  (length data <= u_room arg)%nat ∧ r = 0 ∧ u = u_write data arg ∨
  ∃ n, (n <= u_room arg < length data)%nat ∧ r = - EFAULT ∧ u = u_write (take n data) arg.

(** What the caller's buffer can be after a snapshot of capacity [cap]: as it was,
    or with the image of at most [cap] pairs copied out. *)
Definition snapshot_written (arg : ubuf) (cap : nat) (r : Z) (u : ubuf) : Prop :=
  u = arg ∨
  ∃ l data, (length l <= cap)%nat ∧ snapshot_image (Z.of_nat cap) l data ∧ copied_out arg data r u.

Lemma copy_to_user_all u data :
  (length data <= u_room u)%nat → copy_to_user u data = (0%nat, u_write data u).
Proof.
  intros Hl. unfold copy_to_user. rewrite decide_True, Nat.sub_diag by done. by rewrite take_ge.
Qed.

Lemma reply_copied data arg r u : reply data 0 arg (r, u) → copied_out arg data r u.
Proof.
  unfold reply. destruct (decide (length data <= u_room arg)%nat) as [Hl|Hl].
  { rewrite copy_to_user_all by done. intros [= -> ->]. by left. }
  unfold copy_to_user. rewrite (decide_False (P := (length data <= _)%nat)) by done. cbn [fst snd].
  rewrite decide_True by lia. intros [= -> ->]. right.
  exists (Nat.min (copied_before_fault (length data) (u_room arg)) (u_room arg)). split_and!; [lia|lia|done|done].
Qed.

(** The memory after a copy: its first [n] bytes are new, all of the answer's if the
    call succeeded. *)
Lemma copied_out_memory arg data r u :
  copied_out arg data r u →
  length (u_bytes u) = length (u_bytes arg) ∧
  ∃ n, (n <= u_room arg)%nat ∧ (n <= length data)%nat ∧
    take n (u_bytes u) = take n data ∧ (∀ m, (n <= m)%nat → drop m (u_bytes u) = drop m (u_bytes arg)) ∧
    (r = 0 ∧ n = length data ∨ r = - EFAULT ∧ (u_room arg < length data)%nat).
Proof.
  assert (u_room arg <= length (u_bytes arg))%nat as Hroom by (unfold u_room; lia).
  intros [(Hl & -> & ->)|(n & [Hn Hl] & -> & ->)].
  - split; [apply length_write_at; lia|]. exists (length data). split_and!; [lia|done| | |by left].
    + rewrite (take_ge data) by done. apply take_write_at_0.
    + intros m Hm. by apply drop_write_at_0.
  - assert (length (take n data) = n) as Hlen by (rewrite length_take; lia).
    split; [apply length_write_at; lia|]. exists n. split_and!; [done|lia| | |by right].
    + rewrite <- Hlen at 1. apply take_write_at_0.
    + intros m Hm. apply drop_write_at_0. lia.
Qed.

Lemma snapshot_trace_written arg bs es r u :
  snapshot_trace arg es (r, u) → copy_from_user arg sizeof_kv_snapshot_message = Some bs →
  snapshot_written arg (Z.to_nat (snap_capacity (decode_header bs))) r u.
Proof.
  intros Htr Hbs.
  inversion Htr as [Hnone|bs1 ls Hbs1 Hls count Hm|bs1 ls Hf Hbs1 Hls Heq|bs1 ls Hbs1 Hls Hc0 Heq
    |bs1 ls ls' data r' Hbs1 Hls Hls' cap Heq Hpos Hend Himg _ Hrp]; subst; try by left.
  rewrite Hbs in Hbs1. injection Hbs1 as <-. right. eexists _, data. split_and!; [| |by apply reply_copied].
  - rewrite length_take. apply Nat.le_min_l.
  - fold cap. rewrite Z2Nat.id by lia. exact Himg.
Qed.

(** A call of [kv_ioctl (_, cmd, arg)]. *)
Inductive ioctl_trace (cmd : Z) (arg : ubuf) : list event → Z * ubuf → Prop :=
  | ioctl_snapshot es r :
      cmd = KV_SNAPSHOT → snapshot_trace arg es r → ioctl_trace cmd arg es r
  | ioctl_count es r :
      cmd = KV_COUNT → count_trace arg es r → ioctl_trace cmd arg es r
  | ioctl_fault :
      cmd ∉ [KV_SNAPSHOT; KV_COUNT] → copy_from_user arg sizeof_kv_message = None →
      ioctl_trace cmd arg [] (- EFAULT, arg)
  | ioctl_unknown :
      cmd ∉ command_codes → ioctl_trace cmd arg [] (- EINVAL, arg)
  | ioctl_message op bs es m' r :
      cmd = op_code op → copy_from_user arg sizeof_kv_message = Some bs →
      message_trace (decode_msg bs) op es m' → reply (encode_msg m') 0 arg r →
      ioctl_trace cmd arg es r.

(** What the handlers rely on: the value of an [INSERT] or [UPDATE] is
    terminated inside its array. *)
Definition op_needs_value (op : kv_op) : bool :=
  match op with OpInsert | OpUpdate => true | _ => false end.

Definition request_ok (cmd : Z) (arg : ubuf) : Prop :=
  is_u32 cmd ∧
  ∀ op bs, cmd = op_code op → op_needs_value op = true →
    copy_from_user arg sizeof_kv_message = Some bs →
    is_Some (c_str (value (decode_msg bs))).

End Traces.

(** ** Values and messages *)

Lemma value_ok_c_str buf v : length buf = MAX_VALUE_LEN → c_str buf = Some v → value_ok v.
Proof.
  intros Hl Hv. split; [by apply c_str_Some in Hv as [? _]|].
  apply c_str_length in Hv. lia.
Qed.

Lemma c_str_stored v : value_ok v → c_str (stored_value v) = Some v.
Proof.
  intros [Hn Hl]. unfold stored_value, write_at. simpl. rewrite <- app_assoc. by apply c_str_app.
Qed.

Lemma stored_value_zeros v : value_ok v → stored_value v = v ++ replicate (64 - length v) NUL.
Proof.
  intros [_ Hl]. unfold stored_value, write_at, zeros, MAX_VALUE_LEN in *.
  rewrite take_0, length_app, drop_replicate, <- app_assoc. cbn [app length Nat.add]. f_equal.
  by replace (64 - length v)%nat with (S (64 - (length v + 1))) by lia.
Qed.

Lemma length_stored v : value_ok v → length (stored_value v) = MAX_VALUE_LEN.
Proof.
  intros [_ Hl]. unfold stored_value. rewrite length_write_at; rewrite length_zeros; [done|].
  rewrite length_app. simpl. lia.
Qed.

Lemma lookup_result_value_ok found out :
  (∀ v, found = Some v → value_ok v) →
  lookup_result found out MAX_VALUE_LEN =
  match found with
  | Some v => (Z.of_nat (length v), Some (write_at 0 (v ++ [NUL]) out))
  | None => (- ENOENT, Some out)
  end.
Proof.
  intros Hv. destruct found as [v|]; [|done]. simpl. destruct (Hv v eq_refl) as [_ Hl].
  by rewrite decide_False by lia.
Qed.

Lemma copy_from_user_length u n bs : copy_from_user u n = Some bs → length bs = n.
Proof.
  unfold copy_from_user. destruct (_ && _) eqn:Hb; [|done]. intros [= <-].
  apply andb_true_iff in Hb as [_ Hl%bool_decide_eq_true]. rewrite length_take. lia.
Qed.

Lemma u_write_reads u data :
  (length data <= u_room u)%nat →
  read_at 0 (length data) (u_bytes (u_write data u)) = data ∧
  length (u_bytes (u_write data u)) = length (u_bytes u).
Proof.
  unfold u_room. intros Hl. simpl. split; [apply read_write_at|apply length_write_at]; lia.
Qed.

(** ** Command codes *)

Section Codes.
Context {ioc_api : IocApi} {ioc_laws : IocLaws ioc_api}.

Lemma op_code_u32 op : is_u32 (op_code op).
Proof.
  pose proof (command_codes_u32 (laws := ioc_laws)) as H. unfold command_codes in H.
  rewrite !Forall_cons in H. destruct op; apply H.
Qed.

Lemma op_code_inj op op' : op_code op = op_code op' → op = op'.
Proof.
  pose proof (command_codes_NoDup (laws := ioc_laws)) as H. unfold command_codes in H.
  rewrite !NoDup_cons, !not_elem_of_cons in H.
  destruct op, op'; simpl; intros; try done; intuition congruence.
Qed.

Lemma op_code_snapshot op : op_code op ≠ KV_SNAPSHOT ∧ op_code op ≠ KV_COUNT.
Proof.
  pose proof (command_codes_NoDup (laws := ioc_laws)) as H. unfold command_codes in H.
  rewrite !NoDup_cons, !not_elem_of_cons in H. destruct op; simpl; intuition congruence.
Qed.

Lemma count_not_snapshot : KV_COUNT ≠ KV_SNAPSHOT.
Proof.
  pose proof (command_codes_NoDup (laws := ioc_laws)) as H. unfold command_codes in H.
  rewrite !NoDup_cons, !not_elem_of_cons in H. intuition congruence.
Qed.

Lemma op_code_command op : op_code op ∈ command_codes.
Proof. unfold command_codes. destruct op; simpl; set_solver. Qed.

Lemma command_u32 cmd : cmd ∈ command_codes → is_u32 cmd.
Proof.
  pose proof (command_codes_u32 (laws := ioc_laws)) as H. rewrite Forall_forall in H. apply H.
Qed.

Lemma snapshot_command : KV_SNAPSHOT ∈ command_codes.
Proof. unfold command_codes. set_solver. Qed.
Lemma count_command : KV_COUNT ∈ command_codes.
Proof. unfold command_codes. set_solver. Qed.
End Codes.

(** ** The handlers of one message *)

Section Handlers.
Context {ioc_api : IocApi} {ioc_laws : IocLaws ioc_api}.
Context {api : KernelApi} {laws : KernelLaws api}.
Variables (pb pl : addr) (nbits : Z).
Hypothesis nbits_range : 1 <= nbits <= 31.

Abbreviation store := (mk_ht (Some pb) (Some pl) nbits).
Abbreviation traces := (wp_trace pb pl nbits).

(** A handler that first looks the key up. *)
Lemma trace_lookup_then {A : Type} k out (f : Z * option bytes → kprog A) T :
  is_u64 k → length out = MAX_VALUE_LEN →
  (∀ v, value_ok v → traces (f (Z.of_nat (length v), Some (write_at 0 (v ++ [NUL]) out)))
     (λ es r, T (ELookup k (Some v) :: es) r)) →
  traces (f (- ENOENT, Some out)) (λ es r, T (ELookup k None :: es) r) →
  traces (kv_hash_lookup (Some store) k (Some out) MAX_VALUE_LEN ≫= f) T.
Proof.
  intros Hk Hl Hsome Hnone. eapply wp_trace_bind.
  - apply trace_lookup; [done|done|]. rewrite Hl. unfold MAX_VALUE_LEN. lia.
  - intros r es (found & -> & Hv & ->). rewrite lookup_result_value_ok by done.
    destruct found as [v|]; simpl; eauto.
Qed.

(** The end of [_handle_insert] and [_handle_update]: store the value. *)
Lemma trace_store_value (msg m : kv_message) (text : bytes) v (T : list event → Z * kv_message → Prop) :
  is_u64 (key msg) → length (value msg) = MAX_VALUE_LEN → c_str (value msg) = Some v →
  T [EAdd (key msg) v] (0, set_status 0 m) →
  (∀ es, may_fail → es = [] ∨ es = [ENoMem (key msg)] →
     T es (0, say text (set_status (- ENOMEM) m))) →
  traces (ret ← kv_hash_add (Some store) (key msg) (Some (value msg));
          if decide (ret < 0) then mret (0, say text (set_status ret m))
          else mret (0, set_status 0 m)) T.
Proof.
  intros Hk Hl Hv Hdone Hfail. eapply wp_trace_bind.
  - apply (trace_add pb pl nbits nbits_range (key msg) (value msg) v); [done|done|].
    by eapply value_ok_c_str.
  - intros r es [(Hf & -> & Hes)|[-> ->]].
    + rewrite decide_True by (unfold ENOMEM; lia). apply wp_trace_ret. rewrite app_nil_r. auto.
    + rewrite decide_False by lia. by apply wp_trace_ret.
Qed.

Abbreviation answers msg op := (λ es (r : Z * kv_message), ∃ m', r = (0, m') ∧ message_trace msg op es m').

Lemma trace_handle_insert msg v :
  msg_ok msg → c_str (value msg) = Some v →
  traces (_handle_insert store msg) (answers msg OpInsert).
Proof.
  intros (Hs & Hp & Hk & Hl) Hv. unfold _handle_insert. apply trace_lookup_then.
  - done.
  - apply length_zeros.
  - intros v0 Hv0. rewrite decide_True by lia. apply wp_trace_ret.
    eexists. split; [done|]. constructor.
  - rewrite decide_False by (unfold ENOENT; lia). apply trace_store_value with v; try done.
    + eexists. split; [done|]. by constructor.
    + intros es Hf Hes. eexists. split; [done|]. by constructor.
Qed.

Lemma trace_handle_update msg v :
  msg_ok msg → c_str (value msg) = Some v →
  traces (_handle_update store msg) (answers msg OpUpdate).
Proof.
  intros (Hs & Hp & Hk & Hl) Hv. unfold _handle_update. apply trace_lookup_then.
  - done.
  - apply length_zeros.
  - intros v0 Hv0. rewrite decide_False by lia.
    apply (trace_store_value (set_status 1 msg) (set_status 1 msg) _ v); try done.
    + exists (set_status 0 msg). split; [done|]. by apply (update_done msg v0 v).
    + intros es Hf Hes. exists (say msg_update_failed (set_status (- ENOMEM) msg)).
      split; [done|]. by apply (update_nomem msg).
  - rewrite decide_True by (unfold ENOENT; lia). apply wp_trace_ret.
    exists (say (msg_no_update (key msg)) (set_status 1 msg)). split; [done|]. exact (update_missing msg).
Qed.

Lemma trace_handle_get msg :
  msg_ok msg → traces (_handle_get store msg) (answers msg OpGet).
Proof.
  intros (Hs & Hp & Hk & Hl). unfold _handle_get. apply trace_lookup_then.
  - done.
  - apply length_zeros.
  - intros v Hv. rewrite decide_False by lia. apply wp_trace_ret.
    exists (set_status 0 (set_value (stored_value v) msg)). split; [done|]. exact (get_found msg v Hv).
  - rewrite decide_True by (unfold ENOENT; lia). apply wp_trace_ret.
    eexists. split; [done|]. exact (get_missing msg).
Qed.

Lemma trace_handle_delete msg :
  msg_ok msg → traces (_handle_delete store msg) (answers msg OpDelete).
Proof.
  intros (Hs & Hp & Hk & Hl). unfold _handle_delete. eapply wp_trace_bind.
  - by apply trace_remove.
  - intros r es ([v|] & -> & ->).
    + rewrite decide_False by lia. apply wp_trace_ret.
      exists (set_status 0 msg). split; [done|]. exact (delete_found msg v).
    + rewrite decide_True by (unfold ENOENT; lia). apply wp_trace_ret.
      exists (say msg_delete_failed (set_status 1 msg)). split; [done|]. exact (delete_missing msg).
Qed.

(** ** [KV_COUNT] and the dispatch of the messages *)

Lemma trace_handle_count arg :
  traces (_handle_kv_count store arg) (count_trace nbits arg).
Proof.
  unfold _handle_kv_count. eapply wp_trace_bind; [by apply trace_count|].
  intros r es (ls & Hl & -> & ->). case_decide as Hc.
  - apply wp_trace_ret. rewrite app_nil_r. constructor; [done|]. cbn zeta. by rewrite decide_True.
  - destruct (copy_to_user _ _) as [uncopied arg'] eqn:Hcp.
    case_decide; apply wp_trace_ret; rewrite app_nil_r; (constructor; [done|]); cbn zeta;
      rewrite decide_False by done; unfold reply; rewrite Hcp; by case_decide.
Qed.

(** The switch over the truncated command word. *)
Definition op_of (cmd : Z) : option kv_op :=
  if decide (cmd = KV_INSERT) then Some OpInsert
  else if decide (cmd = KV_UPDATE) then Some OpUpdate
  else if decide (cmd = KV_GET) then Some OpGet
  else if decide (cmd = KV_DELETE) then Some OpDelete
  else None.

Lemma op_of_Some cmd op : op_of cmd = Some op → cmd = op_code op.
Proof. unfold op_of. intros. repeat case_decide; simplify_eq; done. Qed.

Lemma op_of_None cmd :
  op_of cmd = None → cmd ∉ [KV_SNAPSHOT; KV_COUNT] → cmd ∉ command_codes.
Proof.
  unfold op_of, command_codes. rewrite !not_elem_of_cons. intros.
  repeat case_decide; simplify_eq. tauto.
Qed.

Definition handle (t : hash_table) (op : kv_op) (msg : kv_message) : kprog (Z * kv_message) :=
  match op with
  | OpInsert => _handle_insert t msg
  | OpUpdate => _handle_update t msg
  | OpGet => _handle_get t msg
  | OpDelete => _handle_delete t msg
  end.

Lemma dispatch_switch (t : hash_table) cmd msg :
  is_u32 cmd →
  (if decide (wrap_s32 cmd = wrap_s32 KV_INSERT) then Some <$> _handle_insert t msg
   else if decide (wrap_s32 cmd = wrap_s32 KV_UPDATE) then Some <$> _handle_update t msg
   else if decide (wrap_s32 cmd = wrap_s32 KV_GET) then Some <$> _handle_get t msg
   else if decide (wrap_s32 cmd = wrap_s32 KV_DELETE) then Some <$> _handle_delete t msg
   else mret None) =
  match op_of cmd with Some op => Some <$> handle t op msg | None => mret None end.
Proof using ioc_laws.
  clear nbits_range.
  intros Hc. unfold op_of.
  assert (∀ op, wrap_s32 cmd = wrap_s32 (op_code op) ↔ cmd = op_code op) as Hiff.
  { intros op. split; [|by intros ->]. apply wrap_s32_inj_u32; [done|apply op_code_u32]. }
  pose proof (Hiff OpInsert). pose proof (Hiff OpUpdate).
  pose proof (Hiff OpGet). pose proof (Hiff OpDelete). simpl in *.
  repeat case_decide; tauto.
Qed.

Lemma op_of_code op : op_of (op_code op) = Some op.
Proof.
  assert (∀ o, op_code op = op_code o → op = o) as Hinj by (intros o; apply op_code_inj).
  pose proof (Hinj OpInsert). pose proof (Hinj OpUpdate). pose proof (Hinj OpGet).
  pose proof (Hinj OpDelete). unfold op_of. simpl in *. repeat case_decide; auto using f_equal, eq_sym.
  by destruct op.
Qed.

(** What [_handle_kv_message] does with the result of a handler. *)
Definition message_reply (arg : ubuf) (r : option (Z * kv_message)) : kprog (Z * ubuf) :=
  match r with
  | None => mret (- EINVAL, arg)
  | Some (ret, msg') =>
      if decide (ret < 0) then mret (ret, arg)
      else
        let '(uncopied, arg) := copy_to_user arg (encode_msg msg') in
        if decide (uncopied ≠ 0%nat) then mret (- EFAULT, arg) else mret (ret, arg)
  end.

(** A message goes to the handler of its operation, whatever the table. *)
Lemma kv_ioctl_message t op arg bs :
  copy_from_user arg sizeof_kv_message = Some bs →
  kv_ioctl t (op_code op) arg =
  (handle t op (decode_msg bs) ≫= λ x, mret (Some x)) ≫= message_reply arg.
Proof.
  intros Hbs. pose proof (op_code_snapshot op) as [Hs Hc].
  unfold kv_ioctl. rewrite !decide_False by done. unfold _handle_kv_message. rewrite Hbs.
  by rewrite dispatch_switch, op_of_code by apply op_code_u32.
Qed.

(** Every handler takes the lock of the key's bucket before it does anything else. *)
Lemma message_lock_faults t op arg bs s b f :
  copy_from_user arg sizeof_kv_message = Some bs → buckets t = Some b →
  kexec unit (SpinLock (bucket_locks t) (kv_bucket t (key (decode_msg bs)))) s = Faulted f →
  krun (kv_ioctl t (op_code op) arg) s = Faulted f.
Proof.
  intros Hbs Hb Hf. rewrite (kv_ioctl_message t op arg bs Hbs). unfold krun. rewrite run_bind, run_bind.
  destruct t as [? ls n]. simpl in Hb. subst.
  destruct op; cbn -[kexec zeros decode_msg]; rewrite ?decide_False by done;
    cbn -[kexec zeros decode_msg]; unfold kv_bucket in *; cbn [bits bucket_locks] in *; by rewrite Hf.
Qed.

Lemma trace_handle op msg :
  msg_ok msg → (op_needs_value op = true → is_Some (c_str (value msg))) →
  traces (handle store op msg) (answers msg op).
Proof.
  intros Hm Hv. destruct op; simpl.
  - destruct (Hv eq_refl) as [v ?]. by eapply trace_handle_insert.
  - destruct (Hv eq_refl) as [v ?]. by eapply trace_handle_update.
  - by apply trace_handle_get.
  - by apply trace_handle_delete.
Qed.

Lemma trace_handle_message cmd arg :
  request_ok cmd arg → cmd ∉ [KV_SNAPSHOT; KV_COUNT] →
  traces (_handle_kv_message store (wrap_s32 cmd) arg) (ioctl_trace nbits cmd arg).
Proof.
  intros [Hc Hreq] Hn. unfold _handle_kv_message.
  destruct (copy_from_user _ _) as [bs|] eqn:Hcp.
  2: { apply wp_trace_ret. by constructor. }
  rewrite dispatch_switch by done.
  destruct (op_of cmd) as [op|] eqn:Hop.
  2: { apply wp_trace_ret. apply ioctl_unknown. by apply op_of_None. }
  apply op_of_Some in Hop. eapply wp_trace_bind.
  - apply wp_trace_fmap, (trace_handle op (decode_msg bs)); [|by eauto].
    apply decode_msg_ok. by eapply copy_from_user_length.
  - intros r es (x & -> & m' & -> & HT). rewrite decide_False by lia.
    destruct (copy_to_user _ _) as [uncopied arg'] eqn:Hto.
    case_decide; apply wp_trace_ret; rewrite app_nil_r;
      (eapply ioctl_message; [done..|]); unfold reply; rewrite Hto; by case_decide.
Qed.

(** ** [KV_SNAPSHOT] *)

Lemma alloc_size_fits a :
  is_s32 a →
  (off_snap_entries + Z.to_nat (wrap_u32 a) * sizeof_kv_message <=
   Z.to_nat (snapshot_alloc_size a))%nat.
Proof.
  intros [??]. unfold snapshot_alloc_size, wrap_u32, wrap_u64, off_snap_entries,
    sizeof_kv_snapshot_message, sizeof_kv_message.
  assert (16 + a mod 4294967296 * 80 <=
    (Z.of_nat 16 + a mod 18446744073709551616 * Z.of_nat 80) mod 18446744073709551616).
  2: { pose proof (Z.mod_pos_bound a 4294967296). lia. }
  destruct (decide (0 <= a)).
  - rewrite !(Z.mod_small a), Z.mod_small by lia. lia.
  - rewrite !(mod_neg_wrap _ a) by lia.
    rewrite <- (Z.mod_unique _ _ 79 (a * Z.of_nat 80 + 16 + 18446744073709551616)); lia.
Qed.

(** Room for [n] entries, [n] a 32-bit count. *)
Lemma alloc_size_u32 n :
  is_u32 n →
  Z.to_nat (snapshot_alloc_size n) = (off_snap_entries + Z.to_nat n * sizeof_kv_message)%nat.
Proof.
  intros [??]. unfold snapshot_alloc_size, wrap_u64, off_snap_entries,
    sizeof_kv_snapshot_message, sizeof_kv_message, u32_max in *.
  rewrite (Z.mod_small n), Z.mod_small by lia. lia.
Qed.

(** The buffer after [_handle_snapshot] holds a snapshot image. *)
Lemma snapshot_image_intro cap l bs0 bs :
  read_at off_snap_capacity 4 bs0 = le_bytes 4 cap → is_u32 (Z.of_nat (length l)) →
  (off_snap_entries + length l * sizeof_kv_message <= length bs0)%nat →
  snap_buf off_snap_entries bs0 bs l →
  snapshot_image (wrap_u32 cap) l
    (read_at 0 (off_snap_entries + length l * sizeof_kv_message)
      (write_at off_snap_status (le_bytes 4 SUCCESS)
        (write_at off_snap_count (le_bytes 4 (Z.of_nat (length l))) bs))).
Proof.
  intros Hcap Hn Hl [Hlen Hbefore Hent].
  set (bs1 := write_at off_snap_count _ bs). set (bs2 := write_at off_snap_status _ bs1).
  unfold off_snap_entries, off_snap_capacity, off_snap_count, off_snap_status,
    sizeof_kv_message in *.
  assert (length bs1 = length bs) as L1 by (apply length_write_at; rewrite length_le_bytes; lia).
  assert (length bs2 = length bs) as L2.
  { unfold bs2. rewrite length_write_at; [done|]. rewrite length_le_bytes. lia. }
  assert (∀ off n, (4 <= off)%nat → (off + n <= length bs)%nat →
    (off + n <= 8 ∨ 12 <= off)%nat → read_at off n bs2 = read_at off n bs) as Hframe.
  { intros off n ???. unfold bs2. rewrite read_write_ne by (rewrite ?length_le_bytes; lia).
    unfold bs1. by rewrite read_write_ne by (rewrite ?length_le_bytes; lia). }
  split; unfold decode_header, off_snap_capacity, off_snap_count, off_snap_status;
    cbn [snap_status snap_capacity snap_count].
  - rewrite length_read_at; [done|]. lia.
  - rewrite read_at_read_at by lia. unfold bs2.
    rewrite read_write_eq by (rewrite ?length_le_bytes; lia). done.
  - rewrite read_at_read_at by lia. cbn [Nat.add]. rewrite Hframe, Hbefore, Hcap by lia.
    rewrite le_value_bytes. done.
  - rewrite read_at_read_at by lia. unfold bs2.
    rewrite read_write_ne by (rewrite ?length_le_bytes; lia). unfold bs1.
    rewrite read_write_eq by (rewrite ?length_le_bytes; lia). by apply le_value_u32.
  - intros i kv Hi. pose proof (lookup_lt_Some _ _ _ Hi) as Hlt.
    unfold entry_at, sizeof_kv_message, off_snap_entries.
    rewrite read_at_read_at by lia. rewrite Hframe by lia. by apply Hent.
Qed.

(** Nothing has been stored into the padding. *)
Lemma padding_intro bs0 bs l n z1 z2 :
  (off_snap_entries + length l * sizeof_kv_message <= length bs0)%nat →
  snap_buf off_snap_entries bs0 bs l → (n <= length l)%nat →
  padding_of bs0 n (read_at 0 (off_snap_entries + length l * sizeof_kv_message)
    (write_at off_snap_status (le_bytes 4 z1) (write_at off_snap_count (le_bytes 4 z2) bs))).
Proof.
  intros Hl [Hlen Hbefore _ Hpad] Hn.
  set (bs1 := write_at off_snap_count _ bs). set (bs2 := write_at off_snap_status _ bs1).
  assert (∀ off, (off_header_pad <= off)%nat → (off + 4 <= off_snap_entries + length l * sizeof_kv_message)%nat →
    read_at off 4 (read_at 0 (off_snap_entries + length l * sizeof_kv_message) bs2) = read_at off 4 bs) as Hframe.
  { unfold off_header_pad, off_pad, off_snap_entries, off_snap_count, off_snap_status, sizeof_kv_message in *.
    assert (length bs1 = length bs) as L1 by (apply length_write_at; rewrite length_le_bytes; lia).
    intros off Ho Hend. rewrite read_at_read_at by lia. cbn [Nat.add]. unfold bs2.
    rewrite read_write_ne by (rewrite ?length_le_bytes; lia). unfold bs1.
    by rewrite read_write_ne by (rewrite ?length_le_bytes; lia). }
  split.
  - rewrite Hframe by (unfold off_header_pad, off_snap_count, off_snap_entries; lia). apply Hbefore.
    unfold off_header_pad, off_snap_count, off_snap_entries. lia.
  - intros i Hi. rewrite Hframe; [apply Hpad| |];
      unfold off_header_pad, off_pad, off_status, off_snap_entries, off_snap_count, sizeof_kv_message; lia.
Qed.

(** What [_handle_snapshot] leaves in the buffer [p], which held [bs0], for a
    capacity [cap]. *)
Definition handle_snapshot_post (p : addr) (cap : Z) (bs0 : bytes) (t : tst) (r : Z) (t' : tst)
    : Prop :=
  ∃ bs es H, t' = mk_tst (<[p := OBytes bs]> (t_heap t)) None (t_hist t ++ H) ∧
    Forall2 (commit_event nbits) es H ∧ length bs = length bs0 ∧
    ((cap = 0 ∧ r = - EINVAL ∧ es = []) ∨
     (0 < cap ∧ r = 0 ∧ ∃ ls, es = walk_events ls ∧
        (length ls <= nbuckets nbits)%nat ∧
        (length ls = nbuckets nbits ∨ cap < Z.of_nat (length (concat ls))) ∧
        let l := take (Z.to_nat cap) (concat ls) in
        read_at off_snap_count 4 bs = le_bytes 4 (Z.of_nat (length l)) ∧
        let data := read_at 0 (off_snap_entries + length l * sizeof_kv_message) bs in
        snapshot_image cap l data ∧ padding_of bs0 (length l) data)).

Lemma length_take_le {A : Type} cap (l : list A) :
  0 <= cap → Z.min cap (Z.of_nat (length l)) = Z.of_nat (length (take (Z.to_nat cap) l)).
Proof. intros ?. rewrite length_take. lia. Qed.

(** Offsets into the header stay inside the buffer. *)
Ltac snap_room :=
  rewrite ?length_le_bytes;
  unfold off_snap_status, off_snap_capacity, off_snap_count, off_snap_entries in *; lia.

(** Both ends of [_handle_snapshot]: two fields of the header are written. *)
Lemma wp_two_fields p o1 o2 z1 z2 bs h t0 H (r : Z) Q :
  (o1 + 4 <= length bs)%nat → (o2 + 4 <= length bs)%nat →
  Q r (mk_tst (<[p := OBytes (write_at o2 (le_bytes 4 z2) (write_at o1 (le_bytes 4 z1) bs))]> h) t0 H) →
  h !! p = Some (OBytes bs) →
  kwp pb pl nbits (_ ← call (BytesWrite (Some p) o1 (le_bytes 4 z1));
                   _ ← call (BytesWrite (Some p) o2 (le_bytes 4 z2)); mret r) Q (mk_tst h t0 H).
Proof.
  intros H1 H2 HQ Hp.
  assert (length (write_at o1 (le_bytes 4 z1) bs) = length bs) as L1
    by (apply length_write_at; by rewrite length_le_bytes).
  apply kwp_act. do 2 eexists. split_and!; [done|done|by rewrite length_le_bytes|].
  tst_simpl. apply kwp_act. do 2 eexists.
  split_and!; [done|apply lookup_insert_eq|by rewrite length_le_bytes, L1|].
  tst_simpl. rewrite insert_insert_eq. by apply kwp_ret.
Qed.

Lemma length_two_fields o1 o2 z1 z2 bs :
  (o1 + 4 <= length bs)%nat → (o2 + 4 <= length bs)%nat →
  length (write_at o2 (le_bytes 4 z2) (write_at o1 (le_bytes 4 z1) bs)) = length bs.
Proof. intros. by rewrite !length_write_at by (rewrite ?length_write_at; by rewrite length_le_bytes). Qed.

Lemma wrap_u32_range z : is_u32 (wrap_u32 z).
Proof. unfold wrap_u32, is_u32, u32_max. pose proof (Z.mod_pos_bound z 4294967296). lia. Qed.

Lemma wp_handle_snapshot_copied p a bs0 h H :
  0 < wrap_u32 a → h !! p = Some (OBytes bs0) →
  read_at off_snap_capacity 4 bs0 = le_bytes 4 a →
  (off_snap_entries + Z.to_nat (wrap_u32 a) * sizeof_kv_message <= length bs0)%nat →
  ∀ r t', snapshot_post nbits p off_snap_entries (wrap_u32 a) bs0 (mk_tst h None H) r t' →
  kwp pb pl nbits
    (if decide (r.1 < 0) then
       _ ← call (BytesWrite (Some p) off_snap_status (le_bytes 4 ERROR));
       _ ← call (BytesWrite (Some p) off_snap_count (le_bytes 4 0));
       mret r.1
     else
       _ ← call (BytesWrite (Some p) off_snap_count (le_bytes 4 (default 0 r.2)));
       _ ← call (BytesWrite (Some p) off_snap_status (le_bytes 4 SUCCESS));
       mret 0)
    (handle_snapshot_post p (wrap_u32 a) bs0 (mk_tst h None H)) t'.
Proof.
  intros Hpos Hp Hcap Hsize r t' (cs & bs & Hcs & Hw & -> & Hr). cbn zeta in Hr.
  pose proof (wrap_u32_range a) as [_ Hmax].
  destruct Hr as (-> & Hend & Hb). cbn [t_heap t_hist] in *. rewrite length_take_le in * by lia.
  cbn [fst snd]. rewrite decide_False by lia. cbn [default].
  set (l := take (Z.to_nat (wrap_u32 a)) (walk_kvs cs)) in *.
  assert (Z.of_nat (length l) <= wrap_u32 a) as Hl by (unfold l; rewrite length_take; lia).
  pose proof (sb_length _ _ _ _ Hb) as Hlen.
  assert (length l * sizeof_kv_message <= Z.to_nat (wrap_u32 a) * sizeof_kv_message)%nat as Hmul
    by (apply Nat.mul_le_mono_r; lia).
  apply wp_two_fields with bs; [snap_room|snap_room| |apply lookup_insert_eq].
  rewrite insert_insert_eq.
  eexists _, _, _. split_and!; [done|apply walk_events_commits; done|..].
  { rewrite length_two_fields by snap_room. done. }
  right. split_and!; [lia|done|]. exists (chain_kvs <$> cs).
  rewrite length_fmap, <- walk_kvs_concat. split_and!; [done|lia|lia|]. fold l. split.
  - rewrite read_write_ne by (rewrite ?length_write_at; snap_room).
    by rewrite read_write_eq by snap_room.
  - split; [|apply padding_intro; [lia|done|done]].
    apply snapshot_image_intro with bs0; try done; [|lia]. unfold is_u32. lia.
Qed.

Lemma wp_handle_snapshot p a bs0 h H :
  h !! p = Some (OBytes bs0) → read_at off_snap_capacity 4 bs0 = le_bytes 4 a →
  (off_snap_entries + Z.to_nat (wrap_u32 a) * sizeof_kv_message <= length bs0)%nat →
  kwp pb pl nbits (_handle_snapshot store (Some p))
    (handle_snapshot_post p (wrap_u32 a) bs0 (mk_tst h None H)) (mk_tst h None H).
Proof.
  intros Hp Hcap Hsize. unfold _handle_snapshot. pose proof (wrap_u32_range a) as Hu.
  apply kwp_act. do 2 eexists. split_and!; [done|done|snap_room|].
  rewrite Hcap, le_value_bytes. change (a mod 256 ^ Z.of_nat 4) with (wrap_u32 a).
  apply kwp_bind. destruct (decide (wrap_u32 a = 0)) as [Hz|Hnz].
  - unfold kv_hash_snapshot. rewrite decide_True by done. apply kwp_ret.
    rewrite decide_True by (unfold EINVAL; lia).
    apply wp_two_fields with bs0; [snap_room|snap_room| |done].
    eexists _, [], []. rewrite app_nil_r. split_and!; [done|constructor| |by left].
    rewrite length_two_fields by snap_room. done.
  - assert (0 < wrap_u32 a) by (destruct Hu; lia).
    eapply kwp_mono; [|apply (wp_kv_hash_snapshot pb pl nbits nbits_range p off_snap_entries
      (wrap_u32 a) bs0 (mk_tst h None H)); done].
    intros [r count] t' Hpost. by eapply (wp_handle_snapshot_copied p a bs0 h H _ _ _ _ _ _ Hpost).
    Unshelve. all: done.
Qed.

(** The capacity is no padding. *)
Lemma padding_written g z n data :
  (off_snap_capacity + 4 <= length g)%nat →
  padding_of (write_at off_snap_capacity (le_bytes 4 z) g) n data → padding_of g n data.
Proof.
  intros Hg [H1 H2].
  assert (∀ off, (off_header_pad <= off)%nat →
    read_at off 4 (write_at off_snap_capacity (le_bytes 4 z) g) = read_at off 4 g) as Hframe.
  { intros off Ho. apply read_write_ne; rewrite length_le_bytes; [done|].
    unfold off_header_pad, off_snap_capacity, off_snap_count in *. lia. }
  split; [by rewrite H1, Hframe|]. intros i Hi. rewrite H2 by done. apply Hframe.
  unfold off_header_pad, off_snap_entries, off_pad, off_snap_count. lia.
Qed.

(** The rest of [_handle_kv_snapshot], once the buffer [a] is allocated. *)
Lemma wp_snapshot_buffer arg bs ls count a bs0 h (H0 : list commit) :
  copy_from_user arg sizeof_kv_snapshot_message = Some bs →
  length ls = nbuckets nbits → count = wrap_s32 (Z.of_nat (length (concat ls))) →
  wrap_u32 count = snap_capacity (decode_header bs) →
  h !! a = None → length bs0 = Z.to_nat (snapshot_alloc_size count) →
  (∃ n len, bs0 = kmalloc_garbage n len) →
  kwp pb pl nbits
    (_ ← call (BytesWrite (Some a) off_snap_capacity (le_bytes 4 count));
     ret ← _handle_snapshot store (Some a);
     if decide (ret < 0) then
       _ ← call (Kfree (Some a)); mret (ret, arg)
     else
       cnt ← call (BytesRead (Some a) off_snap_count 4);
       data ← call (BytesRead (Some a) 0 (Z.to_nat (snapshot_alloc_size (le_value cnt))));
       let '(uncopied, arg) := copy_to_user arg data in
       if decide (uncopied ≠ 0%nat) then _ ← call (Kfree (Some a)); mret (- EFAULT, arg)
       else _ ← call (Kfree (Some a)); mret (ret, arg))
    (λ r t', ∃ es H, t' = mk_tst h None (H0 ++ H) ∧ Forall2 (commit_event nbits) es H ∧
       snapshot_trace nbits arg (walk_events ls ++ es) r)
    (mk_tst (<[a := OBytes bs0]> h) None H0).
Proof.
  intros Hcp Hls Hcount Hcap Ha Hlen (n & len & Hg).
  assert (is_s32 count) as Hs32 by (subst count; apply wrap_s32_range).
  pose proof (alloc_size_fits count Hs32) as Hfit. rewrite <- Hlen in Hfit.
  pose proof (wrap_u32_range count) as [_ Hmax].
  apply kwp_act. do 2 eexists. split_and!; [done|apply lookup_insert_eq|snap_room|].
  tst_simpl. rewrite insert_insert_eq. set (bs1 := write_at _ _ bs0).
  assert (length bs1 = length bs0) as L1 by (apply length_write_at; snap_room).
  apply kwp_bind. eapply kwp_mono; [|apply (wp_handle_snapshot a count bs1)].
  2: { apply lookup_insert_eq. }
  2: { unfold bs1. apply read_write_eq; snap_room. }
  2: { lia. }
  intros r t' (bs2 & es & H & -> & Hes & L2 & Hr). cbn [t_heap t_hist].
  rewrite insert_insert_eq.
  destruct Hr as [(Hz & -> & ->)|(Hpos & -> & ls' & -> & Hls' & Hend & Hcnt & Himg & Hpad)].
  - rewrite decide_True by (unfold EINVAL; lia). apply kwp_act.
    split; tst_simpl; [rewrite lookup_insert_eq; eauto|]. rewrite delete_insert_id by done.
    apply kwp_ret. exists [], H. split_and!; [done|done|]. rewrite app_nil_r.
    apply (snapshot_empty _ _ bs); [done|done|congruence|].
    rewrite <- wrap_u32_s32, <- Hcount. done.
  - rewrite decide_False by lia. cbn zeta in *. set (l := take _ (concat ls')) in *.
    assert (Z.of_nat (length l) <= wrap_u32 count) as Hl by (unfold l; rewrite length_take; lia).
    assert (length l * sizeof_kv_message <= Z.to_nat (wrap_u32 count) * sizeof_kv_message)%nat
      as Hmul by (apply Nat.mul_le_mono_r; lia).
    apply kwp_act. do 2 eexists. split_and!; [done|apply lookup_insert_eq|snap_room|].
    rewrite Hcnt, le_value_u32, alloc_size_u32, Nat2Z.id by (unfold is_u32; lia).
    apply kwp_act. do 2 eexists. split_and!; [done|apply lookup_insert_eq|snap_room|].
    set (data := read_at 0 _ bs2) in *.
    assert (∀ r, reply data 0 arg r → snapshot_trace nbits arg (walk_events ls ++ walk_events ls') r)
      as Htr.
    { intros r Hr. eapply (snapshot_copy _ _ bs ls ls' data r); rewrite <- ?Hcap; try done.
      - by rewrite Hcount, wrap_u32_s32.
      - exists n, len. rewrite <- Hg. eapply padding_written; [|exact Hpad]. snap_room. }
    destruct (copy_to_user arg data) as [uncopied arg'] eqn:Hto. case_decide;
      (apply kwp_act; split; tst_simpl; [rewrite lookup_insert_eq; eauto|]);
      rewrite delete_insert_id by done; apply kwp_ret; eexists _, H;
      (split_and!; [done|done|apply Htr; unfold reply; rewrite Hto; by case_decide]).
Qed.

Lemma trace_handle_snapshot arg :
  traces (_handle_kv_snapshot store arg) (snapshot_trace nbits arg).
Proof.
  unfold _handle_kv_snapshot.
  destruct (copy_from_user _ _) as [bs|] eqn:Hcp.
  2: { apply wp_trace_ret. by constructor. }
  eapply wp_trace_bind; [by apply trace_count|].
  intros count es (ls & Hls & -> & Hcount). case_decide as Hcap.
  { apply wp_trace_ret. rewrite app_nil_r, Hcount. rewrite Hcount in Hcap.
    by apply (snapshot_mismatch _ _ bs). }
  intros t Ht. apply kwp_act. split.
  - intros Hf. apply kwp_ret. exists [], []. rewrite !app_nil_r.
    split_and!; [destruct t; simpl in *; congruence|constructor|].
    apply (snapshot_nomem _ _ bs); try done. by rewrite <- wrap_u32_s32, <- Hcount.
  - intros n a Ha. tst_simpl. rewrite Ht.
    apply (wp_snapshot_buffer arg bs ls count a); try done; [apply length_kmalloc_garbage|eauto].
Qed.

(** Every call has a trace. *)
Lemma trace_ioctl cmd arg :
  request_ok cmd arg → traces (kv_ioctl store cmd arg) (ioctl_trace nbits cmd arg).
Proof.
  intros Hreq. unfold kv_ioctl. case_decide as Hs.
  { eapply wp_trace_mono; [|by apply trace_handle_snapshot].
    intros es r ?. by apply ioctl_snapshot. }
  case_decide as Hc.
  { eapply wp_trace_mono; [|by apply trace_handle_count].
    intros es r ?. by apply ioctl_count. }
  apply trace_handle_message; [done|]. rewrite !not_elem_of_cons. auto using not_elem_of_nil.
Qed.

Lemma snapshot_ioctl_trace arg es r : ioctl_trace nbits KV_SNAPSHOT arg es r → snapshot_trace nbits arg es r.
Proof.
  pose proof count_not_snapshot as Hne.
  inversion 1 as [es' r' Hc Hs|es' r' Hc _|Hc _|Hc|op bs' es' m' r' Hc _ _ _]; subst; try done.
  - destruct Hc. apply elem_of_cons. by left.
  - by destruct (Hc snapshot_command).
  - by destruct (op_code_snapshot op).
Qed.

Lemma count_ioctl_trace arg es r : ioctl_trace nbits KV_COUNT arg es r → count_trace nbits arg es r.
Proof.
  pose proof count_not_snapshot as Hne.
  inversion 1 as [es' r' Hc _|es' r' Hc Hs|Hc _|Hc|op bs' es' m' r' Hc _ _ _]; subst; try done.
  - destruct Hc. apply elem_of_cons. right. by apply list_elem_of_singleton.
  - by destruct (Hc count_command).
  - by destruct (op_code_snapshot op).
Qed.

End Handlers.
