(* ===== verification/KvDevice.v ===== *)
(** * The device as its callers see it: calls on a map

    [message_spec] is the function on maps that a single message implements;
    [seq_ioctl] is the refinement for one caller at a time, [pool_ioctl] for
    any number of concurrent callers: the atomic events of all the calls merge
    into one sequence of steps on the map. *)

From S2P Require Import Prelude Prog Timeline CStr KvIoctl KMem KvHash KLogic KSound KvHashSpec.
From S2P Require Import KvTable.
From S2P Require Import KvStore KvTrace Kvlkm KvlkmSpec.

(** ** The abstract device: one message on a map

    [alloc_ok] tells whether the allocations of the call succeeded. *)
Definition message_spec (op : kv_op) (msg : kv_message) (m : gmap Z bytes) (alloc_ok : bool)
    : kv_message * gmap Z bytes :=
  let v := upto_nul (value msg) in
  match op, m !! key msg with
  | OpInsert, Some _ => (say msg_key_exists (set_status 1 msg), m)
  | OpInsert, None =>
      if alloc_ok then (set_status 0 msg, <[key msg := v]> m)
      else (say msg_insert_failed (set_status (- ENOMEM) msg), m)
  | OpUpdate, None => (say (msg_no_update (key msg)) (set_status 1 msg), m)
  | OpUpdate, Some _ =>
      if alloc_ok then (set_status 0 msg, <[key msg := v]> m)
      else (say msg_update_failed (set_status (- ENOMEM) msg), m)
  | OpGet, Some v => (set_status 0 (set_value (stored_value v) msg), m)
  | OpGet, None => (say (msg_no_key (key msg)) (set_status 1 (set_value (zeros MAX_VALUE_LEN) msg)), m)
  | OpDelete, Some _ => (set_status 0 msg, delete (key msg) m)
  | OpDelete, None => (say msg_delete_failed (set_status 1 msg), m)
  end.

Section Device.
Context {ioc_api : IocApi} {ioc_laws : IocLaws ioc_api}.
Context {api : KernelApi} {laws : KernelLaws api}.
Variables (pb pl : addr) (nbits : Z) (F : heap).
Hypothesis nbits_range : 1 <= nbits <= 31.

Abbreviation nb := (nbuckets nbits).
Abbreviation store := (mk_ht (Some pb) (Some pl) nbits).
Abbreviation runs := (events_run nbits).
Abbreviation rep := (store_rep pb pl nbits F).

(** ** Events in sequence *)

Lemma events_run_nil m m' : runs [] m m' → m' = m.
Proof. by inversion 1. Qed.

Lemma events_run_cons e es m m' :
  runs (e :: es) m m' → ∃ m1, event_step nbits e m m1 ∧ runs es m1 m'.
Proof. inversion 1; subst. eauto. Qed.

(** Walks change nothing; a whole walk with nobody else around reads the map. *)
Lemma walk_events_read ls s m m' :
  runs (imap (λ j l, ERead (s + j) l) ls) m m' →
  m' = m ∧ ∀ i l, ls !! i = Some l → bucket_content nbits m (s + i) l.
Proof.
  revert s. induction ls as [|l ls IH]; intros s; simpl.
  - intros ->%events_run_nil. split; [done|]. intros i l. by rewrite lookup_nil.
  - intros (m1 & [-> Hl] & Hr)%events_run_cons.
    destruct (IH (S s)) as [-> Hls].
    { erewrite imap_ext; [exact Hr|]. intros i x _. simpl. f_equal. lia. }
    split; [done|]. intros [|i] l1 Hi; simpl in *.
    + injection Hi as <-. by rewrite Nat.add_0_r in *.
    + rewrite <- Nat.add_succ_comm. by apply Hls.
Qed.

Lemma walk_concat_elem (ls : list kvs) k v :
  (k, v) ∈ concat ls ↔ ∃ i l, ls !! i = Some l ∧ (k, v) ∈ l.
Proof.
  rewrite list_elem_of_In, in_concat. split.
  - intros (l & [i Hi]%list_elem_of_In%list_elem_of_lookup & Hl%list_elem_of_In). eauto.
  - intros (i & l & Hi & Hl). exists l. split; apply list_elem_of_In; [|done].
    by eapply list_elem_of_lookup_2.
Qed.

Lemma walk_keys_NoDup (ls : list kvs) s m :
  (∀ i l, ls !! i = Some l → bucket_content nbits m (s + i) l) → NoDup ((concat ls).*1).
Proof.
  revert s. induction ls as [|l ls IH]; intros s Hls; simpl; [constructor|].
  rewrite fmap_app. apply NoDup_app. split_and!.
  - by apply (Hls 0%nat l).
  - intros k ([k1 v] & -> & Hv)%list_elem_of_fmap ([k2 v'] & Hk & Hv')%list_elem_of_fmap.
    simpl in Hk. subst k2. apply walk_concat_elem in Hv' as (i & l' & Hi & Hv').
    apply (Hls 0%nat l) in Hv as [_ Hb]; [|done].
    apply (Hls (S i) l') in Hv' as [_ Hb']; [|done]. lia.
  - apply (IH (S s)). intros i l1 Hi. rewrite Nat.add_succ_comm. by apply (Hls (S i)).
Qed.

(** Part of a walk reads part of the map. *)
Lemma walk_events_part ls m m' :
  runs (walk_events ls) m m' → m' = m ∧ (length (concat ls) <= size m)%nat.
Proof.
  intros Hr. destruct (walk_events_read ls 0 m m') as [-> Hls]; [done|]. split; [done|].
  rewrite <- length_map_to_list. apply submseteq_length, NoDup_submseteq.
  - eapply NoDup_fmap_1, (walk_keys_NoDup ls 0 m Hls).
  - intros [k v] (i & l & Hi & Hkv)%walk_concat_elem. apply elem_of_map_to_list.
    by apply (Hls i l Hi) in Hkv as [? _].
Qed.

Lemma walk_events_map ls m m' :
  (∀ k, is_Some (m !! k) → is_u64 k) → length ls = nb →
  runs (walk_events ls) m m' → m' = m ∧ concat ls ≡ₚ map_to_list m.
Proof.
  intros Hu Hl Hr. destruct (walk_events_read ls 0 m m') as [-> Hls]; [done|].
  split; [done|]. pose proof (walk_keys_NoDup ls 0 m Hls) as Hnd.
  apply NoDup_Permutation; [by eapply NoDup_fmap_1|apply NoDup_map_to_list|].
  intros [k v]. rewrite elem_of_map_to_list, walk_concat_elem. split.
  - intros (i & l & Hi & Hkv). by apply (Hls i l Hi) in Hkv as [? _].
  - intros Hm. destruct (lookup_lt_is_Some_2 ls (bucket_of nbits k)) as [l Hi].
    { rewrite Hl. apply bucket_of_lt; [done|]. eauto. }
    exists (bucket_of nbits k), l. split; [done|]. by apply (Hls _ l Hi).
Qed.

(** ** One message *)

Lemma message_trace_spec op msg es msg' m m' :
  message_trace msg op es msg' → runs es m m' →
  ∃ alloc_ok, (alloc_ok = false → may_fail) ∧ (msg', m') = message_spec op msg m alloc_ok.
Proof.
  intros Htr Hr.
  assert (∀ k es, es = [] ∨ es = [ENoMem k] → ∀ m, runs es m m' → m' = m) as Hnomem.
  { intros k es' [->| ->] m0; [by intros ?%events_run_nil|].
    by intros (m1 & [-> _] & ->%events_run_nil)%events_run_cons. }
  destruct Htr as [v|v Hv|es Hf Hes| |v0 v Hv|v0 es Hf Hes|v Hv| |v|];
    apply events_run_cons in Hr as (m1 & Hstep & Hr); simpl in Hstep;
    destruct Hstep as [-> Hk].
  1, 4, 7-9: apply events_run_nil in Hr as ->; exists true; split; [done|];
    unfold message_spec; by rewrite <- Hk.
  - apply events_run_cons in Hr as (m1 & Hst & ->%events_run_nil). simpl in Hst. subst m1.
    exists true. split; [done|]. unfold message_spec.
    by rewrite <- Hk, (c_str_upto_nul _ _ Hv).
  - apply (Hnomem _ _ Hes) in Hr as ->. exists false. split; [done|].
    unfold message_spec. by rewrite <- Hk.
  - apply events_run_cons in Hr as (m1 & Hst & ->%events_run_nil). simpl in Hst. subst m1.
    exists true. split; [done|]. unfold message_spec.
    by rewrite <- Hk, (c_str_upto_nul _ _ Hv).
  - apply (Hnomem _ _ Hes) in Hr as ->. exists false. split; [done|].
    unfold message_spec. by rewrite <- Hk.
  - apply events_run_nil in Hr as ->. exists true. split; [done|].
    unfold message_spec. by rewrite <- Hk, delete_id.
Qed.

(** ** One caller at a time *)

Lemma rep_ok m s : rep m s → ∀ k v, m !! k = Some v → is_u64 k ∧ value_ok v.
Proof.
  intros (L & Hg & ->) k v. apply (table_map_values nbits). by eapply ginv_table_ok.
Qed.

Lemma seq_trace {A : Type} (p : kprog A) T m s :
  rep m s → wp_trace pb pl nbits p T →
  ∃ es m' r s', krun p s = Done r s' ∧ rep m' s' ∧ runs es m m' ∧ T es r.
Proof.
  intros (L & Hg & ->) Hp.
  destruct (seq_run pb pl nbits F p L s _ Hg (Hp idle_thread eq_refl))
    as (r & s' & t' & L' & Hr & (es & H & -> & Hes & HT) & Hg' & Hrep).
  { by intros r t (es & H & -> & _). }
  pose proof (ginv_table_ok _ _ _ _ _ _ _ Hg) as HL.
  destruct (replay_events nbits nbits_range _ _ _ es HL Hrep Hes) as [_ Hrun].
  exists es, (table_map L'), r, s'. split_and!; try done. by exists L'.
Qed.

Lemma seq_ioctl cmd arg m s :
  rep m s → request_ok cmd arg →
  ∃ es m' r s', krun (kv_ioctl store cmd arg) s = Done r s' ∧ rep m' s' ∧ runs es m m' ∧
    ioctl_trace nbits cmd arg es r.
Proof. intros Hr Hreq. eapply seq_trace; [done|]. by apply trace_ioctl. Qed.

End Device.

(** ** Any number of callers at once *)

Section Pool.
Context {ioc_api : IocApi} {ioc_laws : IocLaws ioc_api}.
Context {api : KernelApi} {laws : KernelLaws api}.
Variables (pb pl : addr) (nbits : Z) (F : heap).
Hypothesis nbits_range : 1 <= nbits <= 31.

Abbreviation store := (mk_ht (Some pb) (Some pl) nbits).
Abbreviation runs := (events_run nbits).
Abbreviation rep := (store_rep pb pl nbits F).

Definition calls (reqs : list (Z * ubuf)) : list (kprog (Z * ubuf)) :=
  (λ x, kv_ioctl store x.1 x.2) <$> reqs.

Definition requests_ok (reqs : list (Z * ubuf)) : Prop :=
  Forall (λ x, request_ok x.1 x.2) reqs.

(** What call [j] guarantees when it returns. *)
Definition call_post (reqs : list (Z * ubuf)) (j : nat) (r : Z * ubuf) (t : tst) : Prop :=
  ∃ cmd arg, reqs !! j = Some (cmd, arg) ∧
    trace_post nbits (ioctl_trace nbits cmd arg) idle_thread r t.

Lemma calls_inv reqs L s :
  requests_ok reqs → ginv pb pl nbits F [] L s →
  pool_inv pb pl nbits F L (call_post reqs) (calls reqs, s).
Proof.
  intros Hreqs Hg. apply pool_inv_init; [done|]. intros j p Hj.
  unfold calls in Hj. rewrite list_lookup_fmap in Hj.
  destruct (reqs !! j) as [[cmd arg]|] eqn:Hr; [|done]. injection Hj as <-.
  eapply kwp_mono; [|apply (trace_ioctl pb pl nbits nbits_range cmd arg); [|done]].
  - intros r t Ht. by exists cmd, arg.
  - unfold requests_ok in Hreqs. rewrite Forall_lookup in Hreqs. apply (Hreqs _ _ Hr).
Qed.

Lemma pool_done_ret {A : Type} (ps : list (kprog A)) j p :
  pool_done ps → ps !! j = Some p → ∃ r, p = Ret r.
Proof.
  unfold pool_done. rewrite Forall_lookup. intros Hd Hj. specialize (Hd _ _ Hj).
  destruct p; [eauto|done].
Qed.

(** Threads that have come to rest, each with events that explain its critical
    sections: the table is well formed, nothing else is allocated, and the map
    went through the events of all the threads, in some order. *)
Lemma pool_table_events (P : nat → list event → Prop) L0 ts L G s :
  table_ok nbits L0 → pool_table pb pl nbits F L0 ts L G s →
  (∀ j t, ts !! j = Some t →
     idle t ∧ ∃ es, Forall2 (commit_event nbits) es (t_hist t) ∧ P j es) →
  ∃ GE m', runs (snd <$> GE) (table_map L0) m' ∧ rep m' s ∧
    (∀ j e, (j, e) ∈ GE → (j < length ts)%nat) ∧
    ∀ j, (j < length ts)%nat → P j (thread_events j GE).
Proof.
  intros HL0 [Hg Hrep Hhist Htags] Hts.
  destruct (merge_threads (commit_event nbits) P G (length ts)) as (GE & HGE & Hj).
  { done. }
  { intros j [t Ht]%lookup_lt_is_Some_2. destruct (Hts j t Ht) as (_ & es & Hes & HP). exists es.
    by rewrite (Hhist j t Ht) in Hes. }
  destruct (replay_events nbits nbits_range _ _ _ _ HL0 Hrep (tagged_snd _ _ _ HGE)) as [_ Hrun].
  exists GE, (table_map L). split_and!; [done| | |done].
  - exists L. split; [|done]. eapply ginv_idle; [|constructor|done].
    apply Forall_lookup. intros j t Ht. by apply (Hts j t Ht).
  - intros j e Hin. by apply (tagged_tags _ _ _ _ HGE Htags (j, e)).
Qed.

Lemma pool_returned_all reqs L0 ps s :
  table_ok nbits L0 → length ps = length reqs →
  pool_inv pb pl nbits F L0 (call_post reqs) (ps, s) → pool_done ps →
  ∃ GE m', runs (snd <$> GE) (table_map L0) m' ∧ rep m' s ∧
    (∀ j e, (j, e) ∈ GE → (j < length reqs)%nat) ∧
    ∀ j cmd arg, reqs !! j = Some (cmd, arg) →
      ∃ r, ps !! j = Some (Ret r) ∧ ioctl_trace nbits cmd arg (thread_events j GE) r.
Proof.
  intros HL0 Hlen (ts & L & G & Hp) Hd. pose proof (pool_inv_table _ _ _ _ _ _ _ _ _ _ Hp) as Htab.
  destruct Hp as [_ Hlt _ _ _ Hwp]. cbn [fst snd] in *.
  destruct (pool_table_events (λ j es, ∀ cmd arg, reqs !! j = Some (cmd, arg) →
      ∃ r, ps !! j = Some (Ret r) ∧ ioctl_trace nbits cmd arg es r) L0 ts L G s HL0 Htab)
    as (GE & m' & Hrun & Hrep & Htags & Hall).
  { intros j t Ht. destruct (lookup_lt_is_Some_2 ps j) as [p Hj].
    { rewrite <- Hlt. by eapply lookup_lt_Some. }
    destruct (pool_done_ret _ _ _ Hd Hj) as [r ->].
    destruct (Hwp _ _ _ Hj Ht) as (cmd & arg & Hreq & es & H & -> & Hes & Htr).
    split; [done|]. exists es. split; [done|]. intros cmd' arg' Hr. simplify_eq. by exists r. }
  exists GE, m'. rewrite Hlt, Hlen in *. split_and!; [done..|]. intros j cmd arg Hr.
  apply (Hall j); [by eapply lookup_lt_Some|done].
Qed.

(** ** Where a value that was read comes from *)

Lemma value_source es m m' k v : runs es m m' → m' !! k = Some v → m !! k = Some v ∨ EAdd k v ∈ es.
Proof.
  induction 1 as [|e es m m1 m2 Hstep Hr IH]; [by left|]. intros Hv.
  destruct (IH Hv) as [Hv1|?]; [|right; by apply elem_of_cons; right].
  destruct e as [k' r|k' v'|k'|k' r|i l]; simpl in Hstep.
  - destruct Hstep as [-> _]. by left.
  - subst m1. rewrite lookup_insert in Hv1. case_decide; [|by left]. simplify_eq.
    right. apply elem_of_cons. by left.
  - destruct Hstep as [-> _]. by left.
  - destruct Hstep as [-> _]. apply lookup_delete_Some in Hv1 as [_ ?]. by left.
  - destruct Hstep as [-> _]. by left.
Qed.

Lemma lookup_event_prefix es es' m m' k v :
  runs (es ++ ELookup k (Some v) :: es') m m' → m !! k = Some v ∨ EAdd k v ∈ es.
Proof.
  intros Hr. apply events_run_app in Hr as (m1 & Hr & Hr'). inversion Hr' as [|? ? ? m2 ? Hstep _]; subst.
  destruct Hstep as [_ Hv]. by eapply value_source.
Qed.

Lemma lookup_event_source es m m' k v :
  runs es m m' → ELookup k (Some v) ∈ es → m !! k = Some v ∨ EAdd k v ∈ es.
Proof.
  intros Hr (es1 & es2 & ->)%list_elem_of_split.
  destruct (lookup_event_prefix _ _ _ _ _ _ Hr); [by left|right]. apply elem_of_app. by left.
Qed.

(** A pair that was read while the buckets were walked. *)
Definition read_pair (es : list event) (k : Z) (v : bytes) : Prop := ∃ i l, ERead i l ∈ es ∧ (k, v) ∈ l.

Lemma read_pair_source es m m' k v :
  runs es m m' → read_pair es k v → m !! k = Some v ∨ EAdd k v ∈ es.
Proof.
  intros Hr (i & l & (es1 & es2 & ->)%list_elem_of_split & Hl).
  apply events_run_app in Hr as (m1 & Hr & Hr'). inversion Hr' as [|? ? ? m2 ? Hstep _]; subst.
  destruct Hstep as [_ [_ Hb]]. apply Hb in Hl as [Hv _].
  destruct (value_source _ _ _ _ _ Hr Hv); [by left|right]. apply elem_of_app. by left.
Qed.

(** Some request stores the value [v] at [k]. *)
Definition wrote (reqs : list (Z * ubuf)) (k : Z) (v : bytes) : Prop :=
  ∃ j op arg bs, reqs !! j = Some (op_code op, arg) ∧ op_needs_value op = true ∧
    copy_from_user arg sizeof_kv_message = Some bs ∧
    key (decode_msg bs) = k ∧ c_str (value (decode_msg bs)) = Some v.

(** An event of an operation on key [k] that may store the value [v]. *)
Definition event_of_op (op : kv_op) (k : Z) (v : option bytes) (e : event) : Prop :=
  match e with
  | ELookup k' _ | ENoMem k' => k' = k
  | EAdd k' v' => k' = k ∧ v = Some v' ∧ op_needs_value op = true
  | ERemove k' _ => k' = k ∧ op = OpDelete
  | ERead _ _ => False
  end.

Lemma walk_reads ls : Forall is_read (walk_events ls).
Proof.
  apply Forall_lookup. intros i e. unfold walk_events. rewrite list_lookup_imap. by destruct (ls !! i) as [l|]; [intros [= <-]|].
Qed.

(** The events that are not the walk of a snapshot are those of an operation. *)
Lemma event_source cmd arg es r e :
  ioctl_trace nbits cmd arg es r → e ∈ es →
  is_read e ∨ ∃ op bs, cmd = op_code op ∧ copy_from_user arg sizeof_kv_message = Some bs ∧
    event_of_op op (key (decode_msg bs)) (c_str (value (decode_msg bs))) e.
Proof.
  assert (∀ ls, e ∈ walk_events ls → is_read e) as Hwalk.
  { intros ls. apply Forall_forall, walk_reads. }
  intros Htr Hin. destruct Htr as [es r _ Hsn|es r _ Hc|_ _|_|op bs es m' r Hop Hbs Hm _].
  - left. destruct Hsn; try (by apply not_elem_of_nil in Hin); try (by eapply Hwalk).
    apply elem_of_app in Hin as [Hin|Hin]; by eapply Hwalk.
  - left. destruct Hc. by eapply Hwalk.
  - by apply not_elem_of_nil in Hin.
  - by apply not_elem_of_nil in Hin.
  - right. exists op, bs. split_and!; [done..|].
    assert (∀ es, es = [] ∨ es = [ENoMem (key (decode_msg bs))] → e ∈ es →
      event_of_op op (key (decode_msg bs)) (c_str (value (decode_msg bs))) e) as Hnomem.
    { intros es' [->| ->]; [by intros ?%not_elem_of_nil|]. by intros ->%list_elem_of_singleton. }
    destruct Hm as [v0|v0 Hv|es Hf Hes| |v1 v0 Hv|v1 es Hf Hes|v0 Hv| |v0|];
      apply elem_of_cons in Hin as [->|Hin]; try done;
      try (by apply not_elem_of_nil in Hin); try (by apply Hnomem in Hin);
      apply list_elem_of_singleton in Hin as ->; by split_and!.
Qed.

Lemma add_event_source cmd arg es r k v :
  ioctl_trace nbits cmd arg es r → EAdd k v ∈ es →
  ∃ op bs, cmd = op_code op ∧ op_needs_value op = true ∧
    copy_from_user arg sizeof_kv_message = Some bs ∧
    key (decode_msg bs) = k ∧ c_str (value (decode_msg bs)) = Some v.
Proof.
  intros Htr Hin. destruct (event_source _ _ _ _ _ Htr Hin) as [[]|(op & bs & ? & ? & -> & ? & ?)].
  by exists op, bs.
Qed.

(** The reply to a GET that found its key. *)
Lemma get_reply arg bs es u :
  ioctl_trace nbits KV_GET arg es (0, u) → copy_from_user arg sizeof_kv_message = Some bs →
  status (decode_msg (read_at 0 sizeof_kv_message (u_bytes u))) = 0 →
  ∃ v, es = [ELookup (key (decode_msg bs)) (Some v)] ∧
    c_str (value (decode_msg (read_at 0 sizeof_kv_message (u_bytes u)))) = Some v.
Proof.
  intros Htr Hbs Hst. pose proof (op_code_snapshot OpGet) as [Hns Hnc].
  remember KV_GET as cmd eqn:Hcmd. remember (0, u) as r eqn:Hr.
  destruct Htr as [es r Hc _|es r Hc _|_ Hnone|Hc|op bs' es m' r Hop Hbs' Hm Hrp]; subst cmd; try done.
  rewrite Hbs in Hbs'. injection Hbs' as <-.
  assert (op = OpGet) as -> by (by apply op_code_inj).
  subst r. apply reply_copied in Hrp as [(Hroom & _ & ->)|(? & _ & ? & _)]; [|done].
  apply u_write_reads in Hroom as [Hto _]. revert Hto Hst. generalize (u_write (encode_msg m') arg).
  intros u Hto Hst.
  pose proof (copy_from_user_length _ _ _ Hbs) as Hlen. pose proof (decode_msg_ok bs Hlen) as Hok.
  assert (is_s32 0 ∧ is_s32 1) as [H0 H1] by (unfold is_s32; lia).
  inversion Hm as [| | | | | |v Hv| | |]; subst.
  - assert (msg_ok (set_status 0 (set_value (stored_value v) (decode_msg bs)))) as Hok'.
    { destruct Hok as (? & ? & ? & ?). split_and!; try done. by apply length_stored. }
    pose proof Hok' as (_ & Hp & _ & Hl). rewrite (length_encode_msg _ Hp Hl) in Hto.
    rewrite Hto, decode_encode_msg by done. exists v. split; [done|]. by apply c_str_stored.
  - exfalso. set (m' := say _ _) in *.
    assert (msg_ok m') as Hok'.
    { destruct Hok as (? & ? & ? & ?). split_and!; try done. unfold m', say.
      cbn [value set_value set_status]. rewrite length_snprintf; rewrite ?length_zeros; unfold MAX_VALUE_LEN; (done || lia). }
    pose proof Hok' as (_ & Hp & _ & Hl). rewrite (length_encode_msg _ Hp Hl) in Hto.
    rewrite Hto, decode_encode_msg in Hst by done. done.
Qed.

End Pool.
