(* ===== verification/KvModule.v ===== *)
(** * [kernel/kvlkm.c]: loading and unloading the module

    [init_module] and [cleanup_module] as programs over the kernel services
    they call: character device registration, device classes, netpoll, and the
    hash table's own code, whose steps are steps of theirs.  The state records
    which resources the module holds; giving back a resource that is not held,
    and sending on a netpoll that was never set up, are faults. *)

From S2P Require Import Prelude Prog CStr KvIoctl KMem KvHash KLogic KvStore KvLifecycle.

(** What [device_create] can return: a device, an error pointer, or [NULL]. *)
Inductive dev_ptr : Type := DevOk | DevErr | DevNull.

#[global] Instance dev_ptr_eq_dec : EqDecision dev_ptr.
Proof. solve_decision. Defined.

Inductive module_fault : Type :=
  | NotHeld            (** released, and not held *)
  | AlreadyHeld        (** acquired twice *)
  | NetpollUnset       (** [netpoll_send_udp] through the null device of an unset netpoll *)
  | KernelFault (f : fault).

(** [struct netpoll]: the fields the module fills in. *)
Record netpoll : Type := mk_np {
  np_local_ip : Z;
  np_remote_ip : Z;
  np_local_port : Z;
  np_remote_port : Z;
  np_remote_mac : list Z;
}.

(** The answers of the kernel services, and [in_aton]. *)
Class ModuleEnv : Type := {
  alloc_chrdev_region : Z;
  cdev_add : Z;
  class_create : bool;
  device_create : dev_ptr;
  netpoll_setup : netpoll → Z;
  netpoll_send_udp : bytes → Z;
  in_aton : bytes → Z;
}.

Record mstate : Type := mk_mstate {
  chrdev : bool;
  cdev : bool;
  kv_class : bool;
  devnode_set : bool;
  device : bool;
  np_up : option netpoll;
  kv_store : hash_table;
  kernel : kst;
  udp_sent : list bytes;
}.

Definition KV_BITS : Z := 10.
Definition LOCAL_IP : bytes := lit "172.20.10.4".
Definition REMOTE_IP : bytes := lit "172.20.10.6".
Definition LOCAL_PORT : Z := 6666.
Definition REMOTE_PORT : Z := 5555.
Definition remote_mac : list Z := [106; 33; 160; 128; 98; 40].
Definition np_init : netpoll := mk_np 0 0 LOCAL_PORT REMOTE_PORT (replicate 6 0).
Definition msg_initialized : bytes := lit "kvlkm initialized" ++ [LF].
Definition msg_unloaded : bytes := lit "KV Store unloaded" ++ [LF].

(** [kv_devnode]: the mode of the device node, behind a pointer that may be
    null. *)
Definition kv_devnode (mode : option Z) : option Z :=
  match mode with Some _ => Some 438 | None => None end.

Definition set_chrdev (b : bool) (s : mstate) : mstate :=
  mk_mstate b (cdev s) (kv_class s) (devnode_set s) (device s) (np_up s) (kv_store s) (kernel s) (udp_sent s).
Definition set_cdev (b : bool) (s : mstate) : mstate :=
  mk_mstate (chrdev s) b (kv_class s) (devnode_set s) (device s) (np_up s) (kv_store s) (kernel s) (udp_sent s).
Definition set_class (b : bool) (s : mstate) : mstate :=
  mk_mstate (chrdev s) (cdev s) b (devnode_set s) (device s) (np_up s) (kv_store s) (kernel s) (udp_sent s).
Definition set_devnode (b : bool) (s : mstate) : mstate :=
  mk_mstate (chrdev s) (cdev s) (kv_class s) b (device s) (np_up s) (kv_store s) (kernel s) (udp_sent s).
Definition set_device (b : bool) (s : mstate) : mstate :=
  mk_mstate (chrdev s) (cdev s) (kv_class s) (devnode_set s) b (np_up s) (kv_store s) (kernel s) (udp_sent s).
Definition set_np (n : option netpoll) (s : mstate) : mstate :=
  mk_mstate (chrdev s) (cdev s) (kv_class s) (devnode_set s) (device s) n (kv_store s) (kernel s) (udp_sent s).
Definition set_kv (t : hash_table) (k : kst) (s : mstate) : mstate :=
  mk_mstate (chrdev s) (cdev s) (kv_class s) (devnode_set s) (device s) (np_up s) t k (udp_sent s).
Definition set_udp (l : list bytes) (s : mstate) : mstate :=
  mk_mstate (chrdev s) (cdev s) (kv_class s) (devnode_set s) (device s) (np_up s) (kv_store s) (kernel s) l.

(** The services the module calls, its write to [kv_class->devnode], and what the
    hash table's code does to the heap and to the global [kv_store]. *)
Inductive mact : Type → Type :=
  | AllocChrdevRegion : mact Z
  | UnregisterChrdevRegion : mact unit
  | CdevAdd : mact Z
  | CdevDel : mact unit
  (** The error pointer of [class_create] is [false]. *)
  | ClassCreate : mact bool
  | ClassDestroy : mact unit
  | SetDevnode : mact unit
  | DeviceCreate : mact dev_ptr
  | DeviceDestroy : mact unit
  | NetpollSetup (np : netpoll) : mact Z
  | NetpollSendUdp (text : bytes) : mact Z
  | NetpollCleanup : mact unit
  | OnStore {X : Type} (e : tact X) : mact X
  | ReadStore : mact hash_table.

Abbreviation mprog := (prog mact).

(** Code of the hash table, called with [&kv_store]. *)
Definition on_store {A : Type} (p : tprog A) : mprog A := prog_map (λ X e, OnStore e) p.

Section Module_.
Context {api : KernelApi} {env : ModuleEnv}.

(** Take or give back a registration. *)
Definition acquire {X : Type} (x : X) (held : mstate → bool) (set : bool → mstate → mstate) (s : mstate)
    : outcome module_fault mstate X :=
  if held s then Faulted AlreadyHeld else Done x (set true s).
Definition release (held : mstate → bool) (set : bool → mstate → mstate) (s : mstate)
    : outcome module_fault mstate unit :=
  if held s then Done tt (set false s) else Faulted NotHeld.

Definition mexec (X : Type) (e : mact X) (s : mstate) : outcome module_fault mstate X :=
  match e in mact X return outcome module_fault mstate X with
  | AllocChrdevRegion =>
      if decide (alloc_chrdev_region < 0) then Done alloc_chrdev_region s
      else acquire alloc_chrdev_region chrdev set_chrdev s
  | UnregisterChrdevRegion => release chrdev set_chrdev s
  | CdevAdd =>
      if decide (cdev_add < 0) then Done cdev_add s else acquire cdev_add cdev set_cdev s
  | CdevDel => release cdev set_cdev s
  | ClassCreate => if class_create then acquire true kv_class set_class s else Done false s
  | ClassDestroy => release kv_class set_class s
  | SetDevnode => Done tt (set_devnode true s)
  | DeviceCreate =>
      match device_create with
      | DevOk => acquire DevOk device set_device s
      | r => Done r s
      end
  (* looks the device up by its number and does nothing when there is none *)
  | DeviceDestroy => Done tt (set_device false s)
  | NetpollSetup np =>
      Done (netpoll_setup np) (if decide (netpoll_setup np < 0) then s else set_np (Some np) s)
  | NetpollSendUdp text =>
      match np_up s with
      | None => Faulted NetpollUnset
      | Some _ =>
          Done (netpoll_send_udp text)
            (if decide (netpoll_send_udp text < 0) then s else set_udp (udp_sent s ++ [text]) s)
      end
  (* returns at once for a netpoll without a device *)
  | NetpollCleanup => Done tt (set_np None s)
  | OnStore e =>
      match texec _ e (kv_store s, kernel s) with
      | Done x (t, k) => Done x (set_kv t k s)
      | Blocked => Blocked
      | Faulted f => Faulted (KernelFault f)
      end
  | ReadStore => Done (kv_store s) s
  end.

Definition mrun {A : Type} (p : mprog A) (s : mstate) : outcome module_fault mstate A := run mexec p s.

Definition init_netpoll : mprog unit :=
  let np := mk_np (in_aton LOCAL_IP) (in_aton REMOTE_IP) (np_local_port np_init)
    (np_remote_port np_init) remote_mac in
  ret ← call (NetpollSetup np);
  if decide (ret < 0) then mret tt
  else
    _ ← call (NetpollSendUdp msg_initialized);
    mret tt.

Definition init_module : mprog Z :=
  r ← call AllocChrdevRegion;
  if decide (r < 0) then mret (-1) else
  r ← call CdevAdd;
  if decide (r < 0) then
    _ ← call UnregisterChrdevRegion;
    mret (-1)
  else
  class_ok ← call ClassCreate;
  if negb class_ok then
    _ ← call CdevDel;
    _ ← call UnregisterChrdevRegion;
    mret (-1)
  else
  _ ← call SetDevnode;
  dev ← call DeviceCreate;
  match dev with
  | DevNull =>
      _ ← call ClassDestroy;
      _ ← call CdevDel;
      _ ← call UnregisterChrdevRegion;
      mret (-1)
  | _ =>
      t ← call ReadStore;
      ret ← on_store (kv_hash_init (Some t) KV_BITS);
      if decide (ret < 0) then
        _ ← call DeviceDestroy;
        _ ← call ClassDestroy;
        _ ← call CdevDel;
        _ ← call UnregisterChrdevRegion;
        mret (-1)
      else
        _ ← init_netpoll;
        mret 0
  end.

Definition cleanup_module : mprog unit :=
  t ← call ReadStore;
  t' ← on_store (on_heap (kv_hash_destroy (Some t)));
  _ ← call (OnStore (Assign (λ t, default t t')));
  _ ← call DeviceDestroy;
  _ ← call ClassDestroy;
  _ ← call CdevDel;
  _ ← call UnregisterChrdevRegion;
  _ ← call (NetpollSendUdp msg_unloaded);
  call NetpollCleanup.

End Module_.

(** ** What loading and unloading leave behind *)

(** Nothing registered; the hash table and the device-node callback are
    whatever an earlier attempt left. *)
Definition unloaded (s : mstate) : Prop :=
  chrdev s = false ∧ cdev s = false ∧ kv_class s = false ∧ device s = false ∧ np_up s = None.

Section ModuleSpec.
Context {api : KernelApi} {laws : KernelLaws api} {env : ModuleEnv}.

Definition np_config : netpoll :=
  mk_np (in_aton LOCAL_IP) (in_aton REMOTE_IP) LOCAL_PORT REMOTE_PORT remote_mac.

(** The netpoll after [init_netpoll]. *)
Definition np_expected : option netpoll :=
  if decide (netpoll_setup np_config < 0) then None else Some np_config.

(** The module is loaded and its table represents [m], over the foreign heap
    [F]. *)
Record loaded (pb pl : addr) (F : heap) (m : gmap Z bytes) (s : mstate) : Prop := {
  l_chrdev : chrdev s = true;
  l_cdev : cdev s = true;
  l_class : kv_class s = true;
  l_devnode : devnode_set s = true;
  l_store : kv_store s = mk_ht (Some pb) (Some pl) KV_BITS;
  l_rep : store_rep pb pl KV_BITS F m (kernel s);
}.

Definition init_succeeds (s s' : mstate) : Prop :=
  (∃ pb pl, loaded pb pl (k_heap (kernel s)) ∅ s') ∧
  device s' = bool_decide (device_create = DevOk) ∧ np_up s' = np_expected.

Definition init_fails (s s' : mstate) : Prop :=
  unloaded s' ∧ k_heap (kernel s') = k_heap (kernel s) ∧ udp_sent s' = udp_sent s.

(** Code of the hash table inside the module's. *)
Lemma ends_on_store {A : Type} (p : tprog A) s (Q : A → mstate → Prop) :
  ends texec p (kv_store s, kernel s) (λ a tk, Q a (set_kv tk.1 tk.2 s)) → ends mexec (on_store p) s Q.
Proof.
  intros Hp. assert (s = (λ tk : hash_table * kst, set_kv tk.1 tk.2 s) (kv_store s, kernel s)) as Hs by by destruct s.
  rewrite Hs at 1.
  apply (ends_map mexec texec (λ X e, OnStore e) (λ tk : hash_table * kst, set_kv tk.1 tk.2 s) KernelFault).
  - intros X e [t k]. simpl. destruct (texec X e (t, k)) as [x [t' k']| |]; done.
  - exact Hp.
Qed.

(** One action, whose outcome the hypotheses determine. *)
Ltac mstep :=
  eapply ends_act;
  [ simpl; unfold acquire, release; simplify_option_eq;
    repeat match goal with H : class_create = _ |- _ => rewrite H end; reflexivity
  | ].

Lemma init_netpoll_ends s (Q : unit → mstate → Prop) :
  np_up s = None → (∀ l, Q tt (set_np np_expected (set_udp l s))) → ends mexec init_netpoll s Q.
Proof.
  intros Hn HQ. unfold init_netpoll.
  change (mk_np (in_aton LOCAL_IP) (in_aton REMOTE_IP) (np_local_port np_init)
    (np_remote_port np_init) remote_mac) with np_config.
  unfold np_expected in HQ. eapply ends_act; [reflexivity|]. case_decide as Hs.
  - apply ends_ret. specialize (HQ (udp_sent s)). destruct s. simpl in *. by subst.
  - apply ends_bind. unfold ends at 1. rewrite run_call. cbn [mexec np_up set_np].
    apply ends_ret. case_decide.
    + specialize (HQ (udp_sent s)). by destruct s.
    + apply (HQ (udp_sent s ++ [msg_initialized])).
Qed.

(** The call of [kv_hash_init] inside [init_module]. *)
Lemma on_store_init t s (Q : Z → mstate → Prop) :
  (∀ pb pl k, store_rep pb pl KV_BITS (k_heap (kernel s)) ∅ k →
    Q 0 (set_kv (mk_ht (Some pb) (Some pl) KV_BITS) k s)) →
  (∀ k, k_heap k = k_heap (kernel s) → Q (- ENOMEM) (set_kv (mk_ht None None 0) k s)) →
  ends mexec (on_store (kv_hash_init (Some t) KV_BITS)) s Q.
Proof.
  intros Hok Hfail. assert (1 <= KV_BITS <= 31) as Hbits by (unfold KV_BITS; lia).
  apply ends_on_store. eapply ends_mono; [|apply (init_ends KV_BITS Hbits)].
  intros r [t' k] [(pb & pl & -> & Ht & Hrep)|(_ & -> & Ht & Hk)]; simpl in *; subst t'; auto.
Qed.

(** Loading: the table is ready and everything is registered, or nothing is
    left registered and the heap is as before. *)
Lemma init_module_spec s :
  unloaded s →
  ends mexec init_module s (λ r s', (r = 0 ∧ init_succeeds s s') ∨ (r = -1 ∧ init_fails s s')).
Proof.
  destruct s as [b1 b2 b3 b4 b5 np t k l]. intros (H1 & H2 & H3 & H4 & H5). simpl in *. subst.
  unfold init_module.
  destruct (decide (alloc_chrdev_region < 0)) as [Ha|Ha]; mstep.
  { rewrite decide_True by done. apply ends_ret. right. by split_and!. }
  rewrite decide_False by done.
  destruct (decide (cdev_add < 0)) as [Hb|Hb]; mstep.
  { rewrite decide_True by done. mstep. apply ends_ret. right. by split_and!. }
  rewrite decide_False by done.
  destruct class_create eqn:Hc; mstep; cbn [negb].
  2: { do 2 mstep. apply ends_ret. right. by split_and!. }
  mstep. apply ends_bind. unfold ends at 1. rewrite run_call. cbn [mexec device set_devnode].
  assert (∀ d, d = bool_decide (device_create = DevOk) → ends mexec
    (ret ← on_store (kv_hash_init (Some t) KV_BITS);
     if decide (ret < 0) then
       _ ← call DeviceDestroy;
       _ ← call ClassDestroy;
       _ ← call CdevDel;
       _ ← call UnregisterChrdevRegion;
       mret (-1)
     else
       _ ← init_netpoll;
       mret 0) (mk_mstate true true true true d None t k l)
    (λ r s', (r = 0 ∧ init_succeeds (mk_mstate false false false b4 false None t k l) s') ∨
       (r = -1 ∧ init_fails (mk_mstate false false false b4 false None t k l) s'))) as Htable.
  { intros d ->. apply ends_bind, on_store_init; cbn [kernel].
    - intros pb pl k' Hrep. rewrite decide_False by lia. apply ends_bind, init_netpoll_ends; [done|].
      intros l'. apply ends_ret. left. split; [done|]. split; [|done]. by exists pb, pl.
    - intros k' Hk. rewrite decide_True by (unfold ENOMEM; lia).
      mstep. mstep. mstep. mstep. apply ends_ret. right. by split_and!. }
  unfold acquire, set_devnode, set_class, set_cdev, set_chrdev.
  destruct device_create eqn:Hdev; cbn [device kv_store]; cbv beta iota.
  - eapply ends_act; [reflexivity|]. by apply Htable.
  - eapply ends_act; [reflexivity|]. by apply Htable.
  - clear Htable. do 3 mstep. apply ends_ret. right. by split_and!.
Qed.

(** Loading while everything is granted: the device is there at both moments of
    [init_moments]. *)
Lemma init_module_moments s :
  unloaded s → ¬ may_fail →
  ¬ alloc_chrdev_region < 0 → ¬ cdev_add < 0 → class_create = true → device_create = DevOk →
  ∃ a b p1 s1 p2 s2,
    rtc (solo_step mexec) (init_module, s) (p1, s1) ∧ rtc (solo_step mexec) (p1, s1) (p2, s2) ∧
    device s1 = true ∧ kv_store s1 = mk_ht (Some a) None KV_BITS ∧
    device s2 = true ∧ kv_store s2 = mk_ht (Some a) (Some b) KV_BITS ∧
    k_heap (kernel s2) !! b = Some (OLocks (replicate (nbuckets KV_BITS) None)) ∧
    ends mexec p2 s2 (λ r _, r = 0).
Proof.
  destruct s as [b1 b2 b3 b4 b5 np t k l]. intros (H1 & H2 & H3 & H4 & H5) Hf Ha Hb Hc Hd. simpl in *. subst.
  assert (1 <= KV_BITS <= 31) as Hbits by (unfold KV_BITS; lia).
  destruct (init_moments KV_BITS Hbits t t k Hf) as (a & b & p1 & p2 & k1 & k2 & Hs1 & Hs2 & Hl & Hend).
  set (with_store := λ tk : hash_table * kst, mk_mstate true true true true true None tk.1 tk.2 l).
  assert (∀ X (e : tact X) tk x tk', texec X e tk = Done x tk' →
    mexec X (OnStore e) (with_store tk) = Done x (with_store tk')) as Hex.
  { intros X e [t1 k3] x [t2 k4] He. cbn [mexec with_store kv_store kernel fst snd]. by rewrite He. }
  pose proof (solo_map texec mexec (λ X e, OnStore e) with_store _ _ _ _ Hex Hs1) as Hm1.
  pose proof (solo_map texec mexec (λ X e, OnStore e) with_store _ _ _ _ Hex Hs2) as Hm2.
  exists a, b. eexists _, (with_store _), _, (with_store _).
  split.
  { unfold init_module. eapply solo_act; [cbn [mexec]; by rewrite decide_False|].
    rewrite decide_False by done. eapply solo_act; [cbn [mexec]; by rewrite decide_False|].
    rewrite decide_False by done. eapply solo_act; [cbn [mexec]; by rewrite Hc|]. cbn [negb].
    eapply solo_act; [done|]. eapply solo_act; [cbn [mexec]; by rewrite Hd|]. cbv beta iota.
    eapply solo_act; [done|]. exact (solo_bind mexec _ _ _ _ _ Hm1). }
  split_and!; [exact (solo_bind mexec _ _ _ _ _ Hm2)|done|done|done|done|done|].
  apply ends_bind, (ends_on_store p2). cbn [with_store kv_store kernel fst snd].
  eapply ends_mono; [|exact Hend]. intros r tk (-> & _ & _). rewrite decide_False by lia.
  apply ends_bind, init_netpoll_ends; [done|]. intros l'. by apply ends_ret.
Qed.

(** The part of [cleanup_module] that is the same with and without a netpoll. *)
Definition torn_down (pl : addr) (F : heap) (s s' : mstate) : Prop :=
  unloaded (set_np None s') ∧ np_up s' = np_up s ∧ kv_store s' = mk_ht None (Some pl) 0 ∧
  k_heap (kernel s') = <[pl := lock_array KV_BITS]> F.

Lemma cleanup_module_run pb pl F m s :
  loaded pb pl F m s →
  ∃ s', torn_down pl F s s' ∧
    mrun cleanup_module s = mrun (_ ← call (NetpollSendUdp msg_unloaded); call NetpollCleanup) s'.
Proof.
  intros [H1 H2 H3 H4 Hst Hrep]. assert (1 <= KV_BITS <= 31) as Hbits by (unfold KV_BITS; lia).
  destruct (destroy_sdone pb pl KV_BITS F Hbits m (kernel s) Hrep) as (r & k & Hr & -> & Hk).
  assert (ends mexec (on_store (on_heap (kv_hash_destroy (Some (kv_store s))))) s (λ r s',
    r = Some (mk_ht None (Some pl) 0) ∧ s' = set_kv (kv_store s) k s)) as (r & s1 & Hrun & -> & ->)%ends_run.
  { apply ends_on_store, ends_on_heap. rewrite Hst. exists (Some (mk_ht None (Some pl) 0)), k. by split. }
  exists (set_chrdev false (set_cdev false (set_class false (set_device false
    (set_kv (mk_ht None (Some pl) 0) k s))))). split; [by split_and!|].
  unfold mrun, cleanup_module. rewrite run_bind, run_call. cbn [mexec]. rewrite run_bind, Hrun.
  destruct s as [b1 b2 b3 b4 b5 np t k0 l]. simpl in *. by subst.
Qed.

(** Unloading gives everything back but the array of locks, when the netpoll is
    up; without it the farewell message goes through a null device. *)
Lemma cleanup_module_spec pb pl F m s :
  loaded pb pl F m s →
  match np_up s with
  | Some _ => ∃ s', mrun cleanup_module s = Done tt s' ∧ unloaded s' ∧
                k_heap (kernel s') = <[pl := lock_array KV_BITS]> F
  | None => mrun cleanup_module s = Faulted NetpollUnset
  end.
Proof.
  intros (s' & (Hu & Hnp & _ & Hh) & ->)%cleanup_module_run. rewrite <- Hnp.
  unfold mrun. rewrite run_bind, run_call. cbn [mexec]. destruct (np_up s') as [np|]; [|done].
  case_decide; eexists; (split; [reflexivity|]); by split.
Qed.

End ModuleSpec.
