(* ===== verification/KvInterface.v ===== *)
(** * The device file, as the daemon relies on it

    [KvDevice] is what a process can do with the open device: one [ioctl] at a
    time.  [KvDeviceLaws] is the contract the daemon's theorems are proved
    against: the device represents a map, and each command acts on it as
    specified.  [kernel_device] is the kernel module's device, and
    [kernel_device_laws] proves that it keeps the contract. *)

From S2P Require Import Prelude Prog CStr KvIoctl KMem KvHash KLogic KSound KvHashSpec KvTable.
From S2P Require Import KvStore KvTrace Kvlkm KvlkmSpec KvDevice.

Class KvDevice : Type := {
  dev_state : Type;
  (** [ioctl (fd, cmd, arg)] on memory that holds [arg]: the result, the memory
      afterwards and the device's new state; [None] when the kernel does not
      survive. *)
  dev_ioctl : Z → bytes → dev_state → option (Z * bytes * dev_state);
}.

(** A snapshot buffer that asks for [cap] entries. *)
Definition snapshot_request (cap : Z) (n : nat) : bytes :=
  write_at off_snap_capacity (le_bytes 4 cap)
    (zeros (sizeof_kv_snapshot_message + n * sizeof_kv_message)).

(** The device's answer to a snapshot request that fits: an image of the whole
    map, at the start of the buffer. *)
Definition snapshot_answer (m : gmap Z bytes) (mem : bytes) : Prop :=
  ∃ l, l ≡ₚ map_to_list m ∧
    length mem = (sizeof_kv_snapshot_message + length l * sizeof_kv_message)%nat ∧
    snapshot_image (Z.of_nat (size m)) l mem.

Class KvDeviceLaws {ioc_api : IocApi} (dev : KvDevice) : Type := {
  dev_rep : gmap Z bytes → dev_state → Prop;
  (** The device may run out of memory. *)
  dev_may_fail : Prop;
  dev_rep_ok m s k v : dev_rep m s → m !! k = Some v → is_u64 k ∧ value_ok v;
  dev_message op msg m s :
    dev_rep m s → msg_ok msg →
    (op_needs_value op = true → is_Some (c_str (value msg))) →
    ∃ alloc_ok s', (alloc_ok = false → dev_may_fail) ∧
      dev_ioctl (op_code op) (encode_msg msg) s =
        Some (0, encode_msg (message_spec op msg m alloc_ok).1, s') ∧
      dev_rep (message_spec op msg m alloc_ok).2 s';
  dev_count m s mem :
    dev_rep m s → Z.of_nat (size m) < 2147483648 → length mem = 4%nat →
    ∃ s', dev_ioctl KV_COUNT mem s = Some (0, le_bytes 4 (Z.of_nat (size m)), s') ∧ dev_rep m s';
  dev_snapshot m s :
    dev_rep m s → 0 < Z.of_nat (size m) < 2147483648 →
    ∃ r mem s',
      dev_ioctl KV_SNAPSHOT (snapshot_request (Z.of_nat (size m)) (size m)) s = Some (r, mem, s') ∧
      dev_rep m s' ∧ ((r = 0 ∧ snapshot_answer m mem) ∨ (dev_may_fail ∧ r = -1));
  (** A request of the wrong size succeeds, with the count and nothing else. *)
  dev_snapshot_mismatch m s cap n :
    dev_rep m s → Z.of_nat (size m) < 2147483648 → is_u32 cap → cap ≠ Z.of_nat (size m) →
    ∃ s', dev_ioctl KV_SNAPSHOT (snapshot_request cap n) s =
        Some (Z.of_nat (size m), snapshot_request cap n, s') ∧ dev_rep m s';
}.

(** ** The kernel module's device *)

(** The process' memory is readable and writable; a negative result of the
    handler becomes [-1] and an [errno]. *)
Definition process_memory (arg : bytes) : ubuf := mk_ubuf arg true (length arg).

Lemma room_process arg : u_room (process_memory arg) = length arg.
Proof. apply Nat.min_id. Qed.

Section Kernel.
Context {ioc_api : IocApi} {ioc_laws : IocLaws ioc_api}.
Context {api : KernelApi} {laws : KernelLaws api}.
Variables (pb pl : addr) (nbits : Z) (F : heap).
Hypothesis nbits_range : 1 <= nbits <= 31.

Abbreviation store := (mk_ht (Some pb) (Some pl) nbits).
Abbreviation runs := (events_run nbits).
Abbreviation rep := (store_rep pb pl nbits F).

Definition kernel_ioctl (cmd : Z) (arg : bytes) (s : kst) : option (Z * bytes * kst) :=
  match krun (kv_ioctl store cmd (process_memory arg)) s with
  | Done (r, u) s' => Some (if decide (r < 0) then -1 else r, u_bytes u, s')
  | _ => None
  end.

Definition kernel_device : KvDevice := {| dev_state := kst; dev_ioctl := kernel_ioctl |}.

Lemma copy_from_process arg n : length arg = n → copy_from_user (process_memory arg) n = Some arg.
Proof.
  intros <-. unfold copy_from_user. simpl. rewrite bool_decide_eq_true_2 by done.
  by rewrite take_ge.
Qed.

Lemma reply_process arg data ret r :
  length data = length arg → reply data ret (process_memory arg) r →
  r = (ret, process_memory data).
Proof.
  intros Hl ->. rewrite copy_to_user_all by (rewrite room_process; lia). cbn [fst snd].
  rewrite decide_False by auto. unfold u_write, process_memory. cbn [u_bytes u_readable u_writable].
  by rewrite Hl, write_at_0_all.
Qed.

Lemma set_value_ok v m : msg_ok m → length v = MAX_VALUE_LEN → msg_ok (set_value v m).
Proof. intros (? & ? & ? & ?) ?. by split_and!. Qed.
Lemma set_status_ok z m : msg_ok m → is_s32 z → msg_ok (set_status z m).
Proof. intros (? & ? & ? & ?) ?. by split_and!. Qed.
Lemma say_ok text m : msg_ok m → msg_ok (say text m).
Proof.
  intros Hm. apply set_value_ok; [done|]. destruct Hm as (_ & _ & _ & Hl).
  rewrite length_snprintf; rewrite ?Hl; unfold MAX_VALUE_LEN; (done || lia).
Qed.

Lemma message_spec_ok op msg m ok :
  msg_ok msg → (∀ k v, m !! k = Some v → is_u64 k ∧ value_ok v) →
  msg_ok (message_spec op msg m ok).1.
Proof.
  intros Hm Hv.
  assert (is_s32 0 ∧ is_s32 1 ∧ is_s32 (- ENOMEM)) as (H0 & H1 & H12) by (unfold is_s32, ENOMEM; lia).
  assert (∀ v, m !! key msg = Some v → length (stored_value v) = MAX_VALUE_LEN) as Hst.
  { intros v Hk. apply length_stored. by eapply Hv. }
  pose proof (length_zeros MAX_VALUE_LEN) as Hz. unfold message_spec.
  destruct op, (m !! key msg) as [v|], ok; cbn [fst]; auto using say_ok, set_status_ok, set_value_ok.
Qed.

Lemma size_wrap (m : gmap Z bytes) (l : kvs) :
  l ≡ₚ map_to_list m → Z.of_nat (size m) < 2147483648 →
  wrap_s32 (Z.of_nat (length l)) = Z.of_nat (size m) ∧
  wrap_u32 (Z.of_nat (length l)) = Z.of_nat (size m).
Proof.
  intros Hl Hs. rewrite Hl, length_map_to_list.
  split; [apply wrap_s32_id; unfold is_s32; lia|apply wrap_u32_id; unfold is_u32, u32_max; lia].
Qed.

(** A whole walk of a table nobody else uses. *)
Lemma seq_walk m s ls m' :
  rep m s → length ls = nbuckets nbits → runs (walk_events ls) m m' →
  m' = m ∧ concat ls ≡ₚ map_to_list m.
Proof.
  intros Hrep Hl Hr. eapply (walk_events_map nbits nbits_range); [|done|done].
  intros k [v Hk]. by eapply (rep_ok pb pl nbits F).
Qed.

Lemma kernel_message op msg m s :
  rep m s → msg_ok msg → (op_needs_value op = true → is_Some (c_str (value msg))) →
  ∃ alloc_ok s', (alloc_ok = false → may_fail) ∧
    kernel_ioctl (op_code op) (encode_msg msg) s =
      Some (0, encode_msg (message_spec op msg m alloc_ok).1, s') ∧
    rep (message_spec op msg m alloc_ok).2 s'.
Proof.
  intros Hrep Hm Hv. pose proof Hm as (_ & Hp & _ & Hl).
  pose proof (length_encode_msg msg Hp Hl) as Hlen.
  pose proof (copy_from_process _ _ Hlen) as Hcp.
  destruct (seq_ioctl pb pl nbits F nbits_range (op_code op) (process_memory (encode_msg msg)) m s)
    as (es & m' & r & s' & Hr & Hrep' & Hruns & Htr); [done| |].
  { split; [apply op_code_u32|]. intros op' bs Hop Hneeds Hbs.
    apply op_code_inj in Hop as <-. rewrite Hcp in Hbs. injection Hbs as <-.
    rewrite decode_encode_msg by done. auto. }
  destruct (op_code_snapshot op) as [Hns Hnc].
  destruct Htr as [es r Hc _|es r Hc _|Hc Hnone|Hc|op' bs es msg' r Hc Hbs Htr Hrp].
  - done.
  - done.
  - congruence.
  - by destruct (Hc (op_code_command op)).
  - apply op_code_inj in Hc as <-. rewrite Hcp in Hbs. injection Hbs as <-.
    rewrite decode_encode_msg in Htr by done.
    destruct (message_trace_spec nbits _ _ _ _ _ _ Htr Hruns) as (ok & Hok & Hspec).
    exists ok, s'. rewrite <- Hspec. cbn [fst snd]. split_and!; [done| |done].
    assert (msg_ok msg') as (_ & Hp' & _ & Hl').
    { change msg' with (msg', m').1. rewrite Hspec. apply message_spec_ok; [done|].
      intros k v. by eapply (rep_ok pb pl nbits F). }
    apply reply_process in Hrp; [|rewrite length_encode_msg; congruence].
    unfold kernel_ioctl. rewrite Hr, Hrp. by rewrite decide_False by lia.
Qed.

Lemma kernel_count m s mem :
  rep m s → Z.of_nat (size m) < 2147483648 → length mem = 4%nat →
  ∃ s', kernel_ioctl KV_COUNT mem s = Some (0, le_bytes 4 (Z.of_nat (size m)), s') ∧ rep m s'.
Proof.
  intros Hrep Hsize Hmem.
  destruct (seq_trace pb pl nbits F nbits_range _ _ m s Hrep
    (trace_handle_count pb pl nbits nbits_range (process_memory mem)))
    as (es & m' & r & s' & Hr & Hrep' & Hruns & Htr).
  destruct Htr as [ls r Hls count Hreply].
  destruct (seq_walk m s ls m' Hrep Hls Hruns) as [-> Hperm].
  destruct (size_wrap m _ Hperm Hsize) as [Hs _].
  assert (count = Z.of_nat (size m)) as Hc by done. rewrite Hc in Hreply.
  rewrite decide_False in Hreply by lia.
  rewrite wrap_u32_id in Hreply by (unfold is_u32, u32_max; lia).
  apply reply_process in Hreply; [|by rewrite length_le_bytes]. subst r.
  exists s'. split; [|done]. unfold kernel_ioctl, kv_ioctl.
  rewrite decide_False by apply count_not_snapshot. rewrite decide_True by done. rewrite Hr. done.
Qed.

Lemma length_snapshot_request cap n :
  length (snapshot_request cap n) = (sizeof_kv_snapshot_message + n * sizeof_kv_message)%nat.
Proof.
  unfold snapshot_request. rewrite length_write_at; rewrite length_zeros; [done|].
  rewrite length_le_bytes. unfold off_snap_capacity, sizeof_kv_snapshot_message. lia.
Qed.

(** The header the kernel copies in. *)
Lemma snapshot_request_header cap n :
  is_u32 cap →
  ∃ bs, copy_from_user (process_memory (snapshot_request cap n)) sizeof_kv_snapshot_message = Some bs ∧
    snap_capacity (decode_header bs) = cap.
Proof.
  intros Hc. unfold copy_from_user, process_memory. cbn [u_readable u_bytes andb].
  rewrite length_snapshot_request.
  rewrite bool_decide_eq_true_2 by lia. eexists. split; [done|].
  unfold decode_header. cbn [snap_capacity].
  change (take sizeof_kv_snapshot_message (snapshot_request cap n)) with
    (read_at 0 sizeof_kv_snapshot_message (snapshot_request cap n)).
  rewrite read_at_read_at by (unfold off_snap_capacity, sizeof_kv_snapshot_message; lia).
  unfold snapshot_request. cbn [Nat.add].
  rewrite read_write_eq; [by apply le_value_u32|done|].
  rewrite length_zeros. unfold off_snap_capacity, sizeof_kv_snapshot_message. lia.
Qed.

(** A snapshot request with nobody else around, case by case. *)
Lemma kernel_snapshot_cases m s cap n :
  rep m s → Z.of_nat (size m) < 2147483648 → is_u32 cap →
  ∃ r mem s', kernel_ioctl KV_SNAPSHOT (snapshot_request cap n) s = Some (r, mem, s') ∧ rep m s' ∧
    ((cap ≠ Z.of_nat (size m) ∧ r = Z.of_nat (size m) ∧ mem = snapshot_request cap n) ∨
     (cap = Z.of_nat (size m) ∧
       ((may_fail ∧ r = -1) ∨ (cap = 0 ∧ r = -1) ∨
        (0 < cap ∧ ∃ l data, l ≡ₚ map_to_list m ∧ snapshot_image cap l data ∧
          (∃ j len, padding_of (kmalloc_garbage j len) (size m) data) ∧
          ((n < size m)%nat ∨ (r = 0 ∧ mem = write_at 0 data (snapshot_request cap n))))))).
Proof.
  intros Hrep Hsize Hcap. destruct (snapshot_request_header cap n Hcap) as (bs & Hbs & Hhd).
  destruct (seq_trace pb pl nbits F nbits_range _ _ m s Hrep
    (trace_handle_snapshot pb pl nbits nbits_range (process_memory (snapshot_request cap n))))
    as (es & m' & r & s' & Hr & Hrep' & Hruns & Htr).
  exists (if decide (r.1 < 0) then -1 else r.1), (u_bytes r.2), s'.
  assert (m' = m) as ->.
  { destruct Htr as [| ? ls ? Hls | ? ls ? ? Hls | ? ls ? Hls | ? ls ls' ? ? ? Hls Hls'].
    - by apply events_run_nil in Hruns.
    - by apply (seq_walk m s ls).
    - by apply (seq_walk m s ls).
    - by apply (seq_walk m s ls).
    - apply events_run_app in Hruns as (m1 & Hw1 & Hw2).
      apply (seq_walk m s ls) in Hw1 as [-> _]; [|done|done].
      by apply (walk_events_read nbits ls' 0) in Hw2 as [-> _]. }
  split_and!; [|done|].
  { unfold kernel_ioctl, kv_ioctl. rewrite decide_True by done. rewrite Hr. by destruct r. }
  destruct Htr as [Hnone|bs' ls Hbs' Hls count Hne|bs' ls Hf Hbs' Hls Heq|bs' ls Hbs' Hls Hc Heq
    |bs' ls ls' data r Hbs' Hls Hls' cap' Heq Hpos Hend Himg Hpad Hrp]; rewrite Hbs in *; try done;
    injection Hbs' as <-; try subst cap'; rewrite ?Hhd in *; cbn [fst].
  all: pose proof Hruns as Hruns'; try apply events_run_app in Hruns' as (m1 & Hruns' & Hr2).
  all: destruct (seq_walk m s ls _ Hrep Hls Hruns') as [? Hperm]; try subst m1;
    destruct (size_wrap m _ Hperm Hsize) as [Hs Hu].
  - left. subst count. rewrite wrap_u32_s32, Hu in Hne. rewrite Hs.
    by rewrite decide_False by lia.
  - right. split; [congruence|]. left. by rewrite decide_True by (unfold ENOMEM; lia).
  - right. split; [congruence|]. right. left. rewrite decide_True by (unfold EINVAL; lia).
    split; congruence.
  - right. split; [congruence|]. right. right. split; [done|].
    destruct (walk_events_part nbits _ _ _ Hr2) as [_ Hpart].
    destruct Hend as [Hend|Hend]; [|lia].
    destruct (seq_walk m s ls' _ Hrep Hend Hr2) as [_ Hperm'].
    assert (length (concat ls') = size m) as Hlen by (rewrite Hperm'; apply length_map_to_list).
    rewrite take_ge in Himg, Hpad by lia. rewrite Hlen in Hpad.
    exists (concat ls'), data. split_and!; [done|done|done|].
    destruct (decide (n < size m)%nat) as [|Hn]; [by left|right].
    pose proof (si_length _ _ _ Himg) as Hdl. unfold reply in Hrp.
    rewrite copy_to_user_all in Hrp by (rewrite room_process, length_snapshot_request; nia).
    subst r. cbn [fst snd]. rewrite (decide_False (P := 0%nat ≠ 0%nat)) by auto. by rewrite decide_False by lia.
Qed.

(** The padding of the entries and of the header is what the allocator left in
    the kernel's buffer. *)
Lemma kernel_snapshot_padding m s mem s' :
  rep m s → 0 < Z.of_nat (size m) < 2147483648 →
  kernel_ioctl KV_SNAPSHOT (snapshot_request (Z.of_nat (size m)) (size m)) s = Some (0, mem, s') →
  ∃ n len, padding_of (kmalloc_garbage n len) (size m) mem.
Proof.
  intros Hrep Hsize Hio.
  destruct (kernel_snapshot_cases m s (Z.of_nat (size m)) (size m) Hrep)
    as (r & mem1 & s1 & Hr & _ & Hcase); [lia|unfold is_u32, u32_max; lia|].
  rewrite Hio in Hr. injection Hr as <- <- <-.
  destruct Hcase as [[? _]|[_ [[? ?]|[[? ?]|(_ & l & data & Hl & Himg & Hpad & [?|[_ ->]])]]]];
    [done|lia..|].
  rewrite write_at_0_all; [done|].
  rewrite length_snapshot_request, (si_length _ _ _ Himg), Hl, length_map_to_list. done.
Qed.

Lemma kernel_snapshot m s :
  rep m s → 0 < Z.of_nat (size m) < 2147483648 →
  ∃ r mem s',
    kernel_ioctl KV_SNAPSHOT (snapshot_request (Z.of_nat (size m)) (size m)) s = Some (r, mem, s') ∧
    rep m s' ∧ ((r = 0 ∧ snapshot_answer m mem) ∨ (may_fail ∧ r = -1)).
Proof.
  intros Hrep Hsize.
  destruct (kernel_snapshot_cases m s (Z.of_nat (size m)) (size m) Hrep)
    as (r & mem & s' & Hr & Hrep' & Hcase); [lia|unfold is_u32, u32_max; lia|].
  exists r, mem, s'. split_and!; [done|done|].
  destruct Hcase as [[? _]|[_ [[? ->]|[[? ->]|(_ & l & data & Hl & Himg & _ & Hres)]]]];
    [done|by right|lia|left].
  destruct Hres as [|[-> ->]]; [lia|]. split; [done|].
  pose proof (si_length _ _ _ Himg) as Hdl.
  assert (length l = size m) as Hlen by (rewrite Hl; apply length_map_to_list).
  rewrite write_at_0_all by (by rewrite length_snapshot_request, Hdl, Hlen).
  by exists l.
Qed.

Lemma kernel_snapshot_mismatch m s cap n :
  rep m s → Z.of_nat (size m) < 2147483648 → is_u32 cap → cap ≠ Z.of_nat (size m) →
  ∃ s', kernel_ioctl KV_SNAPSHOT (snapshot_request cap n) s =
      Some (Z.of_nat (size m), snapshot_request cap n, s') ∧ rep m s'.
Proof.
  intros Hrep Hsize Hcap Hne.
  destruct (kernel_snapshot_cases m s cap n Hrep Hsize Hcap)
    as (r & mem & s' & Hr & Hrep' & [(_ & -> & ->)|[? _]]); [|done].
  by exists s'.
Qed.

(** A well-formed message goes to its handler. *)
Lemma kernel_dispatch op msg :
  msg_ok msg →
  kv_ioctl store (op_code op) (process_memory (encode_msg msg)) =
  (handle store op msg ≫= λ x, mret (Some x)) ≫= message_reply (process_memory (encode_msg msg)).
Proof.
  intros Hm. pose proof Hm as (_ & Hp & _ & Hl).
  rewrite (kv_ioctl_message store op _ (encode_msg msg)) by (by apply copy_from_process, length_encode_msg).
  by rewrite decode_encode_msg.
Qed.

(** A message that goes back whole. *)
Lemma message_reply_done msg msg' :
  msg_ok msg → msg_ok msg' →
  message_reply (process_memory (encode_msg msg)) (Some (0, msg')) = mret (0, process_memory (encode_msg msg')).
Proof.
  intros (_ & Hp & _ & Hl) (_ & Hp' & _ & Hl'). unfold message_reply. rewrite decide_False by lia.
  pose proof (length_encode_msg msg Hp Hl) as H. pose proof (length_encode_msg msg' Hp' Hl') as H'.
  rewrite copy_to_user_all by (rewrite room_process; lia). rewrite decide_False by auto.
  unfold u_write, process_memory. cbn [u_bytes u_readable u_writable]. rewrite write_at_0_all by congruence.
  by rewrite H, H'.
Qed.

Lemma existing_lookup m s msg :
  rep m s → msg_ok msg →
  ∃ s', krun (kv_hash_lookup (Some store) (key msg) (Some (zeros MAX_VALUE_LEN)) MAX_VALUE_LEN) s =
      Done (lookup_result (m !! key msg) (zeros MAX_VALUE_LEN) MAX_VALUE_LEN) s' ∧ rep m s'.
Proof.
  intros Hrep (_ & _ & Hu & _). apply (store_lookup pb pl nbits F nbits_range); [done..|].
  rewrite length_zeros. unfold MAX_VALUE_LEN. lia.
Qed.

(** An [INSERT] of a key that is there says so and reads nothing of the value. *)
Lemma kernel_insert_exists msg m s :
  rep m s → msg_ok msg → is_Some (m !! key msg) →
  ∃ s', kernel_ioctl KV_INSERT (encode_msg msg) s =
      Some (0, encode_msg (say msg_key_exists (set_status 1 msg)), s') ∧ rep m s'.
Proof.
  intros Hrep Hm [v Hk]. destruct (existing_lookup m s msg Hrep Hm) as (s' & Hr & Hrep').
  exists s'. split; [|done]. unfold kernel_ioctl. change KV_INSERT with (op_code OpInsert).
  rewrite kernel_dispatch by done. unfold krun in *. rewrite run_bind, run_bind. cbn [handle].
  unfold _handle_insert. rewrite run_bind, Hr, Hk, lookup_result_value_ok.
  2: { intros ? [= <-]. by eapply (rep_ok pb pl nbits F m s Hrep). }
  rewrite decide_True by lia. cbn [run mret prog_mret].
  assert (is_s32 1) by (unfold is_s32; lia).
  rewrite message_reply_done by auto using say_ok, set_status_ok. done.
Qed.

(** An [INSERT] of a new key whose value is not terminated: the copy that
    [kv_hash_add] makes of it runs past the message. *)
Lemma kernel_insert_unterminated msg m s :
  rep m s → msg_ok msg → m !! key msg = None → c_str (value msg) = None →
  krun (kv_ioctl store KV_INSERT (process_memory (encode_msg msg))) s = Faulted UnterminatedString.
Proof.
  intros Hrep Hm Hk Hv. destruct (existing_lookup m s msg Hrep Hm) as (s' & Hr & _).
  change KV_INSERT with (op_code OpInsert). rewrite kernel_dispatch by done.
  unfold krun in *. rewrite run_bind, run_bind. cbn [handle]. unfold _handle_insert.
  rewrite run_bind, Hr, Hk. simpl. by rewrite Hv.
Qed.

(** An [INSERT] of a new key in its two critical sections: after the lookup the
    program [p] is left, which stores the value into whatever the table is then. *)
Lemma insert_halves msg m s v :
  rep m s → msg_ok msg → m !! key msg = None → c_str (value msg) = Some v → ¬ may_fail →
  ∃ p s', rtc (solo_step kexec) (kv_ioctl store KV_INSERT (process_memory (encode_msg msg)), s) (p, s') ∧
    rep m s' ∧
    ∀ m2 s2, rep m2 s2 → ∃ s3,
      krun p s2 = Done (0, process_memory (encode_msg (set_status 0 msg))) s3 ∧ rep (<[key msg := v]> m2) s3.
Proof.
  intros Hrep Hm Hk Hv Hf. destruct (existing_lookup m s msg Hrep Hm) as (s' & Hr & Hrep').
  change KV_INSERT with (op_code OpInsert). rewrite kernel_dispatch by done. cbn [handle].
  unfold _handle_insert. eexists _, s'. split; [|split; [done|]].
  - exact (solo_bind kexec _ _ _ _ _ (solo_bind kexec _ _ _ _ _ (solo_run_bind kexec _ _ _ _ _ Hr))).
  - intros m2 s2 Hrep2. cbn [fst snd]. rewrite Hk. cbn [lookup_result].
    rewrite decide_False by (unfold ENOENT; lia). unfold krun. rewrite run_bind, run_bind, run_bind.
    destruct Hm as (Hst & Hp & Hu & Hl).
    destruct (store_add pb pl nbits F nbits_range m2 s2 (key msg) (value msg) v Hrep2 Hu Hv)
      as (r & s3 & Hadd & [[-> Hrep3]|[Hf' _]]); [by eapply value_ok_c_str| |done].
    exists s3. split; [|done]. unfold krun in Hadd. rewrite Hadd, decide_False by lia.
    cbn [run mret prog_mret]. rewrite message_reply_done; [done|by split_and!|].
    apply set_status_ok; [by split_and!|unfold is_s32; lia].
Qed.

(** Two of them, the halves interleaved: both report success. *)
Lemma insert_both_succeed msg1 msg2 m s k v1 v2 :
  rep m s → m !! k = None → ¬ may_fail →
  msg_ok msg1 → key msg1 = k → c_str (value msg1) = Some v1 →
  msg_ok msg2 → key msg2 = k → c_str (value msg2) = Some v2 →
  ∃ s', rtc (pstep kexec)
      (calls pb pl nbits [(KV_INSERT, process_memory (encode_msg msg1)); (KV_INSERT, process_memory (encode_msg msg2))], s)
      ([Ret (0, process_memory (encode_msg (set_status 0 msg1)));
        Ret (0, process_memory (encode_msg (set_status 0 msg2)))], s') ∧
    rep (<[k := v2]> m) s'.
Proof.
  intros Hrep Hk Hf Hm1 Hk1 Hv1 Hm2 Hk2 Hv2. subst k.
  destruct (insert_halves msg1 m s v1) as (p1 & s1 & Hs1 & Hrep1 & Hh1); [done..|].
  destruct (insert_halves msg2 m s1 v2) as (p2 & s2 & Hs2 & Hrep2 & Hh2); [done|done|by rewrite Hk2|done..|].
  destruct (Hh1 m s2 Hrep2) as (s3 & Hr3 & Hrep3). destruct (Hh2 _ s3 Hrep3) as (s4 & Hr4 & Hrep4).
  exists s4. split; [|by rewrite Hk2, insert_insert_eq in Hrep4].
  unfold krun in Hr3, Hr4. apply solo_run in Hr3, Hr4.
  set (q1 := kv_ioctl _ _ _) in Hs1. set (q2 := kv_ioctl _ _ _) in Hs2.
  change (calls _ _ _ _) with [q1; q2].
  etrans; [exact (solo_pool kexec [q1; q2] 0 (q1, s) (p1, s1) eq_refl Hs1)|].
  etrans; [exact (solo_pool kexec [p1; q2] 1 (q2, s1) (p2, s2) eq_refl Hs2)|].
  etrans; [exact (solo_pool kexec [p1; p2] 0 (p1, s2) (Ret _, s3) eq_refl Hr3)|].
  exact (solo_pool kexec [Ret _; p2] 1 (p2, s3) (Ret _, s4) eq_refl Hr4).
Qed.

#[export] Instance kernel_device_laws : KvDeviceLaws kernel_device := {|
  dev_rep := rep : gmap Z bytes → dev_state (KvDevice := kernel_device) → Prop;
  dev_may_fail := may_fail;
  dev_rep_ok m s k v H := rep_ok pb pl nbits F m s H k v;
  dev_message := kernel_message;
  dev_count := kernel_count;
  dev_snapshot := kernel_snapshot;
  dev_snapshot_mismatch := kernel_snapshot_mismatch;
|}.

End Kernel.
