(* ===== verification/Auth.v ===== *)
(** * [user/daemon/auth.cpp]: authentication of a client through PAM

    The PAM library is a parameter ([PamApi]) whose answers depend on the user and
    on what the conversation answers; what the program gives it is its conversation
    function, modelled here, and the order of the calls.  The
    state is the library's: the handles it has open and the ones that were
    ended, with the status they were ended with. *)

From S2P Require Import Prelude CStr.

(** Constants of [security/_pam_types.h]. *)
Definition PAM_SUCCESS : Z := 0.
Definition PAM_BUF_ERR : Z := 5.
Definition PAM_PROMPT_ECHO_OFF : Z := 1.

(** One message of the library to the application: its style. *)
Abbreviation pam_style := Z (only parsing).

(** [resp] of one [struct pam_response]; [None] is a null pointer. *)
Abbreviation pam_resp := (option bytes).

(** ** The conversation function

    [alloc n] tells whether the [n]-th allocation of the call succeeds: number
    0 is the [calloc] of the responses.  The result is the return value and
    [*resp], [None] for a null pointer. *)

Fixpoint conv_loop (alloc : nat → bool) (n : nat) (pw : option bytes)
    (done todo : list pam_resp) (msg : list pam_style) : Z * option (list pam_resp) :=
  match msg, todo with
  | style :: msg', r :: todo' =>
      if decide (style = PAM_PROMPT_ECHO_OFF) then
        if alloc n then
          conv_loop alloc (S n) pw (done ++ [Some (default [] pw)]) todo' msg'
        else (PAM_BUF_ERR, Some (done ++ None :: todo'))
      else conv_loop alloc n pw (done ++ [r]) todo' msg'
  | _, _ => (PAM_SUCCESS, Some (done ++ todo))
  end.

Definition conv_func (alloc : nat → bool) (msg : list pam_style) (appdata_ptr : option bytes)
    : Z * option (list pam_resp) :=
  if alloc 0%nat then
    (* calloc: null pointers *)
    conv_loop alloc 1 appdata_ptr [] (replicate (length msg) None) msg
  else (PAM_BUF_ERR, None).

Definition conversation : Type := list pam_style → Z * option (list pam_resp).

Class PamApi : Type := {
  pam_start : bytes → bytes → Z;
  (** Authentication of a user, with the application's conversation. *)
  pam_authenticate : bytes → conversation → Z;
  pam_acct_mgmt : bytes → Z;
  (** The allocations inside a conversation. *)
  pam_alloc : nat → bool;
}.

Record pam_state : Type := mk_pam {
  pam_open : nat;
  pam_ended : list Z;
}.

Section Auth.
Context {pam : PamApi}.

Definition pam_end (status : Z) (s : pam_state) : pam_state :=
  mk_pam (pred (pam_open s)) (pam_ended s ++ [status]).

Definition authenticate (user password : bytes) (s : pam_state) : bool * pam_state :=
  let conv := λ msg, conv_func pam_alloc msg (Some password) in
  let ret := pam_start (lit "login") user in
  if decide (ret ≠ PAM_SUCCESS) then (false, s)
  else
    let s := mk_pam (S (pam_open s)) (pam_ended s) in
    let ret := pam_authenticate user conv in
    let ret := if decide (ret = PAM_SUCCESS) then pam_acct_mgmt user else ret in
    let s := pam_end ret s in
    (bool_decide (ret = PAM_SUCCESS), s).

End Auth.

(** ** Lemmas *)

Lemma conv_loop_ok alloc n pw done (msg : list pam_style) :
  (∀ i, alloc i = true) →
  conv_loop alloc n pw done (replicate (length msg) None) msg =
  (PAM_SUCCESS, Some (done ++
     ((λ style, if decide (style = PAM_PROMPT_ECHO_OFF) then Some (default [] pw) else None) <$> msg))).
Proof.
  intros Ha. revert n done. induction msg as [|style msg IH]; intros n done; simpl.
  - by rewrite app_nil_r.
  - rewrite Ha. case_decide; rewrite IH, <- app_assoc; done.
Qed.

(** Only prompts without echo are answered, and only with the password, also when the
    memory runs out. *)
Lemma conv_loop_only alloc n pw done (msg : list pam_style) r resp (P : nat → bytes → Prop) :
  (∀ i x, done !! i = Some (Some x) → P i x) →
  (∀ j, msg !! j = Some PAM_PROMPT_ECHO_OFF → P (length done + j)%nat (default [] pw)) →
  conv_loop alloc n pw done (replicate (length msg) None) msg = (r, Some resp) →
  ∀ i x, resp !! i = Some (Some x) → P i x.
Proof.
  revert n done. induction msg as [|style msg IH]; intros n done Hdone Hmsg; simpl.
  { rewrite app_nil_r. by intros [= _ <-]. }
  assert (∀ y, (∀ x, y = Some x → P (length done) x) → ∀ i x, (done ++ [y]) !! i = Some (Some x) → P i x) as Hsnoc.
  { intros y Hy i x [[_ Hi]|[-> Hi]]%lookup_snoc_Some; [by eapply Hdone|auto]. }
  assert (∀ y j, msg !! j = Some PAM_PROMPT_ECHO_OFF → P (length (done ++ [y]) + j)%nat (default [] pw)) as Hrest.
  { intros y j Hj. rewrite length_app, Nat.add_1_r, Nat.add_succ_l, <- Nat.add_succ_r. by apply Hmsg. }
  case_decide as Hs; [destruct (alloc n)|].
  - apply IH; [|by apply Hrest]. apply Hsnoc. intros x [= <-].
    rewrite <- (Nat.add_0_r (length done)). apply Hmsg. by subst.
  - intros [= _ <-] i x [Hi|(Hl & Hi)]%lookup_app_Some; [by eapply Hdone|].
    apply list_elem_of_lookup_2 in Hi. apply elem_of_cons in Hi as [|Hi]; [done|].
    by apply elem_of_replicate_inv in Hi.
  - apply IH; [|by apply Hrest]. by apply Hsnoc.
Qed.

Lemma conv_loop_length alloc n pw done todo (msg : list pam_style) r resp :
  conv_loop alloc n pw done todo msg = (r, Some resp) →
  length resp = (length done + length todo)%nat.
Proof.
  revert n done todo. induction msg as [|style msg IH]; intros n done [|t todo]; simpl.
  1-3: intros [= <- <-]; rewrite length_app; simpl; lia.
  repeat case_match; simplify_eq.
  - intros Hr. apply IH in Hr. rewrite Hr, length_app. simpl. lia.
  - intros [= <- <-]. rewrite length_app. simpl. lia.
  - intros Hr. apply IH in Hr. rewrite Hr, length_app. simpl. lia.
Qed.
