(* ===== verification/Daemon.v ===== *)
(** * [user/daemon/daemon.cpp]: the daemon

    The daemon's functions as programs over the actions they perform: [ioctl]
    on the device, PAM, the heap, the snapshot file, sockets, the console.  One
    definition per function of the file; a [std::string] is a list of bytes. *)

From S2P Require Import Prelude Prog CStr KvIoctl.

Inductive dfault : Type :=
  | DNullDeref
  | DOutOfBounds
  | DKernelOops
  | DOutOfFuel.

(** What [accept] and [read] on a socket can answer. *)
Inductive accept_answer : Type :=
  | AcceptFd (fd : Z)
  | AcceptErr (eintr : bool).
Inductive recv_answer : Type :=
  | RecvData (data : bytes)
  | RecvEof
  | RecvErr (eintr : bool).

Inductive dact : Type → Type :=
  | Ioctl (fd cmd : Z) (arg : bytes) : dact (Z * bytes)
  | Authenticate (user password : bytes) : dact bool
  (** [calloc (1, n)] and [malloc (n)]: the buffer, [None] for a null pointer. *)
  | Calloc (n : Z) : dact (option bytes)
  | Malloc (n : Z) : dact (option bytes)
  | Free : dact unit
  (** The snapshot file: its content when it can be opened for reading; opening
      it for writing, which empties it, and writing. *)
  | FileOpenRead : dact (option bytes)
  | FileOpenWrite : dact bool
  | FileWrite (data : bytes) : dact unit
  | Print (text : bytes) : dact unit
  | DevOpen : dact Z
  | Socket : dact Z
  | SetSockOpt (fd : Z) : dact Z
  | Bind (fd port : Z) : dact Z
  | Listen (fd backlog : Z) : dact Z
  | Accept (fd : Z) : dact accept_answer
  (** [std::thread (handle_client, client_fd, kv_fd).detach ()]. *)
  | SpawnClient (client_fd kv_fd : Z) : dact unit
  | Recv (fd : Z) (n : nat) : dact recv_answer
  | Send (fd : Z) (data : bytes) : dact Z
  | Close (fd : Z) : dact unit
  (** The flag and the descriptor the signal handler shares with the program. *)
  | GetShutdownRequested : dact bool
  | SetShutdownRequested : dact unit
  | GetServerFd : dact Z
  | SetServerFd (fd : Z) : dact unit
  (** [signal (signum, handle_shutdown_signal)]. *)
  | InstallHandler (signum : Z) : dact unit
  | DTrap (f : dfault) : dact Empty_set.

Abbreviation dprog := (prog dact).

Definition trap {A : Type} (f : dfault) : dprog A :=
  e ← call (DTrap f); match (e : Empty_set) with end.

Definition PORT : Z := 9999.
Definition BUFFER_SIZE : nat := 1024.

(** The UTF-8 encoding of the arrow in the reply to a GET. *)
Definition arrow : bytes := ascii_of_nat <$> [226; 134; 146]%nat.

(** The texts the daemon answers with. *)
Definition text_bad_command : bytes := lit "Invalid command format. Expected: kv <operation> ..." ++ [LF].
Definition text_no_key : bytes := lit "Invalid command format. Expected: kv <operation> <key> ".
Definition text_no_user : bytes := lit "No username provided".
Definition text_no_password : bytes := lit "No password provided".
Definition text_ok : bytes := lit "OK" ++ [LF].
Definition text_fail : bytes := lit "FAIL" ++ [LF].
Definition text_not_auth : bytes := lit "Connection not authenticated!" ++ [LF].
Definition text_snap : bytes := lit "Snap".
Definition text_insert_value : bytes := lit "KV_INSERT requires a value" ++ [LF].
Definition text_update_value : bytes := lit "KV_UPDATE requires a value" ++ [LF].
Definition text_unknown (operation : bytes) : bytes := lit "Unknown operation: " ++ operation ++ [LF].
Definition text_bad_key : bytes := lit "Invalid key: expected unsigned integer" ++ [LF].
Definition text_ioctl_failed : bytes := lit "ioctl failed".

(** [GET("5")] and the like. *)
Definition op_key (op key_str : bytes) : bytes := op ++ lit "(" ++ [DQ] ++ key_str ++ [DQ] ++ lit ")".
Definition with_status (st : Z) : bytes := lit "(status=" ++ to_string st ++ lit ")" ++ [LF].

Section Daemon.
Context {ioc_api : IocApi}.

(** ** Keys *)

Definition parse_key (key_text : bytes) : option Z :=
  let s := upto_nul key_text in
  let r := strtoull10 s in
  if st_range r || bool_decide (st_rest r = s) || negb (bool_decide (st_rest r = []))
  then None else Some (st_value r).

(** ** Signals *)

Definition handle_shutdown_signal (signal_number : Z) : dprog unit :=
  _ ← call SetShutdownRequested;
  fd ← call GetServerFd;
  if decide (0 <= fd) then call (Close fd) else mret tt.

(** ** The device *)

Definition init_kv : dprog Z :=
  fd ← call DevOpen;
  if decide (fd < 0) then
    _ ← call (Print (lit "Failed to open device"));
    mret (-1)
  else mret fd.

Definition kill_kv (fd : Z) : dprog unit := call (Close fd).

(** The [switch] on [cmd] at the end of [do_kv_operation]. *)
Definition op_response (cmd : Z) (msg : kv_message) (value_str : bytes) : bytes :=
  let key_str := to_string (key msg) in
  if decide (cmd = KV_GET) then
    if decide (status msg = 0)
    then op_key (lit "GET") key_str ++ lit " " ++ arrow ++ lit " " ++ [DQ] ++ value_str ++ [DQ; LF]
    else op_key (lit "GET") key_str ++ lit " failed: key does not exist" ++ [LF]
  else if decide (cmd = KV_INSERT) then
    if decide (status msg = 0) then op_key (lit "INSERT") key_str ++ lit " succeeded" ++ [LF]
    else if decide (status msg = 1)
    then op_key (lit "INSERT") key_str ++ lit " failed, key already exists, use update" ++ [LF]
    else op_key (lit "INSERT") key_str ++ lit " failed " ++ with_status (status msg)
  else if decide (cmd = KV_UPDATE) then
    if decide (status msg = 0) then op_key (lit "UPDATE") key_str ++ lit " succeeded" ++ [LF]
    else op_key (lit "UPDATE") key_str ++ lit " failed " ++ with_status (status msg)
  else if decide (cmd = KV_DELETE) then
    if decide (status msg = 0) then op_key (lit "DELETE") key_str ++ lit " succeeded" ++ [LF]
    else op_key (lit "DELETE") key_str ++ lit " failed: key not found or error " ++ with_status (status msg)
  else lit "Unknown command: " ++ to_string cmd ++ lit " " ++ with_status (status msg).

(** [kv_message msg = {}] with the key and the value copied in. *)
Definition request_message (parsed_key : Z) (value : bytes) : kv_message :=
  let msg := mk_msg 0 (zeros 4) parsed_key (zeros MAX_VALUE_LEN) in
  if decide (value ≠ []) then
    let buf := strncpy (zeros MAX_VALUE_LEN) (upto_nul value) (MAX_VALUE_LEN - 1) in
    set_value (write_at (MAX_VALUE_LEN - 1) [NUL] buf) msg
  else set_value (write_at 0 [NUL] (zeros MAX_VALUE_LEN)) msg.

Definition do_kv_operation (fd cmd : Z) (key value : bytes) : dprog bytes :=
  match parse_key key with
  | None => mret text_bad_key
  | Some parsed_key =>
      '(ret, mem) ← call (Ioctl fd cmd (encode_msg (request_message parsed_key value)));
      if decide (ret < 0) then
        _ ← call (Print text_ioctl_failed);
        mret text_ioctl_failed
      else
        let msg := decode_msg mem in
        match c_str (KvIoctl.value msg) with
        | None => trap DOutOfBounds
        | Some value_str => mret (op_response cmd msg value_str)
        end
  end.

(** ** Snapshots

    The C++ code indexes the buffer through a [kv_snapshot_message] pointer; a
    read past its end is trapped. *)

Definition text_no_entries : bytes := lit "No entries to snapshot" ++ [LF].
Definition text_saved (count : Z) : bytes :=
  lit "Snapshot saved with " ++ to_string count ++
  lit " entries to /var/lib/kvstore/snapshot.bin" ++ [LF].
Definition text_restored (restored skipped : Z) : bytes :=
  lit "Startup restore complete: restored=" ++ to_string restored ++
  lit ", skipped=" ++ to_string skipped ++ [LF].

(** [sizeof (kv_snapshot_message) + n * sizeof (kv_message)] in [size_t]. *)
Definition snapshot_size (n : Z) : Z :=
  wrap_u64 (Z.of_nat sizeof_kv_snapshot_message + n * Z.of_nat sizeof_kv_message).

Definition do_kv_snapshot_to_file (fd : Z) : dprog unit :=
  '(ret, mem) ← call (Ioctl fd KV_COUNT (le_bytes 4 0));
  let entry_count := le_value mem in
  if decide (ret < 0) then call (Print (lit "ioctl KV_COUNT failed"))
  else if decide (entry_count = 0) then call (Print text_no_entries)
  else
    let alloc_size := snapshot_size entry_count in
    snapshot ← call (Calloc alloc_size);
    match snapshot with
    | None => call (Print (lit "Failed to allocate memory for " ++ to_string entry_count ++
                           lit " entries" ++ [LF]))
    | Some buf =>
        let buf := write_at off_snap_capacity (le_bytes 4 entry_count) buf in
        '(ret, buf) ← call (Ioctl fd KV_SNAPSHOT buf);
        if decide (ret < 0) then
          _ ← call (Print (lit "ioctl KV_SNAPSHOT failed"));
          call Free
        else
          let count := snap_count (decode_header buf) in
          let size := Z.to_nat (snapshot_size count) in
          opened ← call FileOpenWrite;
          if negb opened then
            _ ← call (Print (lit "Failed to open output file: /var/lib/kvstore/snapshot.bin" ++ [LF]));
            call Free
          else if decide (length buf < size)%nat then trap DOutOfBounds
          else
            _ ← call (FileWrite (take size buf));
            _ ← call (Print (text_saved count));
            call Free
    end.

(** [for (i = first; i < first + n; i++)] over the entries of the buffer. *)
Fixpoint restore_entries (fd : Z) (status : Z) (snapshot : bytes) (first n : nat)
    (restored skipped : Z) : dprog (Z * Z) :=
  match n with
  | O => mret (restored, skipped)
  | S n' =>
      let entry := read_at (off_snap_entries + first * sizeof_kv_message) sizeof_kv_message snapshot in
      '(ret, _) ← call (Ioctl fd KV_INSERT entry);
      if bool_decide (ret < 0) || negb (bool_decide (status = 0))
      then restore_entries fd status snapshot (S first) n' restored (wrap_u32 (skipped + 1))
      else restore_entries fd status snapshot (S first) n' (wrap_u32 (restored + 1)) skipped
  end.

Definition do_kv_restore_from_file (fd : Z) : dprog unit :=
  file ← call FileOpenRead;
  match file with
  | None =>
      call (Print (lit "No startup snapshot found at /var/lib/kvstore/snapshot.bin" ++ [LF]))
  | Some content =>
      (* a short read leaves the rest of the header zero and fails the stream *)
      let header := write_at 0 (take sizeof_kv_snapshot_message content)
                      (zeros sizeof_kv_snapshot_message) in
      let count := snap_count (decode_header header) in
      snapshot ← call (Malloc (snapshot_size count));
      match snapshot with
      | None => trap DNullDeref
      | Some buf =>
          let buf := write_at 0 header buf in
          let entries_bytes := (Z.to_nat count * sizeof_kv_message)%nat in
          let buf :=
            if decide (length content < sizeof_kv_snapshot_message)%nat then buf
            else write_at off_snap_entries
                   (take entries_bytes (drop sizeof_kv_snapshot_message content)) buf in
          '(restored, skipped) ←
            restore_entries fd (snap_status (decode_header header)) buf 0 (Z.to_nat count) 0 0;
          _ ← call Free;
          call (Print (text_restored restored skipped))
      end
  end.

(** ** Commands of a client

    [authenticated] is the connection's flag, passed by reference: it is
    returned with the response. *)

Definition parse_and_handle_command (command : bytes) (kv_fd : Z) (authenticated : bool)
    : dprog (bytes * bool) :=
  match extract_word command with
  | None =>
      _ ← call (Print (lit "Invalid command format. Expected: <operation> ..." ++ [LF]));
      mret (text_bad_command, authenticated)
  | Some (operation, iss) =>
      if decide (operation = lit "AUTH") then
        match extract_word iss with
        | None => mret (text_no_user, authenticated)
        | Some (username, iss) =>
            match extract_word iss with
            | None => mret (text_no_password, authenticated)
            | Some (password, _) =>
                ok ← call (Authenticate username password);
                if ok : bool then mret (text_ok, true) else mret (text_fail, authenticated)
            end
        end
      else if negb authenticated then mret (text_not_auth, authenticated)
      else if decide (operation = lit "KV_SNAPSHOT") then
        _ ← do_kv_snapshot_to_file kv_fd;
        mret (text_snap, authenticated)
      else
        match extract_word iss with
        | None =>
            _ ← call (Print text_no_key);
            mret (text_no_key, authenticated)
        | Some (key, iss) =>
            let value := getline iss in
            let value := match value with
                         | b :: rest => if decide (b = SP) then rest else value
                         | [] => value
                         end in
            if decide (operation = lit "KV_INSERT") then
              if decide (value = []) then
                _ ← call (Print text_insert_value);
                mret (text_insert_value, authenticated)
              else
                response ← do_kv_operation kv_fd KV_INSERT key value;
                mret (response, authenticated)
            else if decide (operation = lit "KV_DELETE") then
              response ← do_kv_operation kv_fd KV_DELETE key value;
              mret (response, authenticated)
            else if decide (operation = lit "KV_GET") then
              response ← do_kv_operation kv_fd KV_GET key value;
              mret (response, authenticated)
            else if decide (operation = lit "KV_UPDATE") then
              if decide (value = []) then
                _ ← call (Print text_update_value);
                mret (text_update_value, authenticated)
              else
                response ← do_kv_operation kv_fd KV_UPDATE key value;
                mret (response, authenticated)
            else
              _ ← call (Print (text_unknown operation));
              mret (text_unknown operation, authenticated)
        end
  end.

(** ** Connections *)

(** [while (true)] of [handle_client], with fuel for its iterations: the buffer
    holds the data read and zeros, and is passed on as a C string. *)
Fixpoint handle_client_loop (fuel : nat) (client_fd kv_fd : Z) (authenticated : bool)
    : dprog unit :=
  match fuel with
  | O => trap DOutOfFuel
  | S fuel' =>
      n ← call (Recv client_fd (BUFFER_SIZE - 1));
      match n with
      | RecvEof => call (Print (lit "Client disconnected" ++ [LF]))
      | RecvErr true => handle_client_loop fuel' client_fd kv_fd authenticated
      | RecvErr false => call (Print (lit "Failed to read from client" ++ [LF]))
      | RecvData data =>
          let buffer := write_at 0 data (zeros BUFFER_SIZE) in
          _ ← call (Print (lit "Received from client: " ++ upto_nul buffer ++ [LF]));
          '(response, authenticated) ←
            parse_and_handle_command (upto_nul buffer) kv_fd authenticated;
          w ← call (Send client_fd response);
          if decide (w < 0) then call (Print (lit "Failed to write to client" ++ [LF]))
          else handle_client_loop fuel' client_fd kv_fd authenticated
      end
  end.

Definition handle_client (fuel : nat) (client_fd kv_fd : Z) : dprog unit :=
  _ ← handle_client_loop fuel client_fd kv_fd false;
  call (Close client_fd).

(** ** The server socket *)

Definition init_network : dprog Z :=
  server_fd ← call Socket;
  if decide (server_fd = -1) then
    _ ← call (Print (lit "Failed to create socket" ++ [LF]));
    mret (-1)
  else
  r ← call (SetSockOpt server_fd);
  if decide (r < 0) then
    _ ← call (Print (lit "Failed to set socket options" ++ [LF]));
    _ ← call (Close server_fd);
    mret (-1)
  else
  r ← call (Bind server_fd PORT);
  if decide (r < 0) then
    _ ← call (Print (lit "Failed to bind socket" ++ [LF]));
    _ ← call (Close server_fd);
    mret (-1)
  else
  r ← call (Listen server_fd 5);
  if decide (r < 0) then
    _ ← call (Print (lit "Failed to listen on socket" ++ [LF]));
    _ ← call (Close server_fd);
    mret (-1)
  else
    _ ← call (Print (lit "Server is listening on port " ++ to_string PORT ++ lit "..." ++ [LF]));
    mret server_fd.

Definition kill_network (server_fd : Z) : dprog unit := call (Close server_fd).

Fixpoint listen_network (fuel : nat) (server_fd kv_fd : Z) : dprog unit :=
  match fuel with
  | O => trap DOutOfFuel
  | S fuel' =>
      shutdown_requested ← call GetShutdownRequested;
      if shutdown_requested : bool then mret tt
      else
        answer ← call (Accept server_fd);
        match answer with
        | AcceptErr eintr =>
            shutdown_requested ← call GetShutdownRequested;
            if shutdown_requested || eintr then listen_network fuel' server_fd kv_fd
            else
              _ ← call (Print (lit "Failed to accept connection" ++ [LF]));
              listen_network fuel' server_fd kv_fd
        | AcceptFd client_fd =>
            _ ← call (SpawnClient client_fd kv_fd);
            listen_network fuel' server_fd kv_fd
        end
  end.

Definition EXIT_SUCCESS : Z := 0.
Definition EXIT_FAILURE : Z := 1.

Definition SIGINT : Z := 2.
Definition SIGTERM : Z := 15.

Definition main (fuel : nat) : dprog Z :=
  _ ← call (InstallHandler SIGINT);
  _ ← call (InstallHandler SIGTERM);
  kv_fd ← init_kv;
  if decide (kv_fd <= 0) then mret EXIT_FAILURE
  else
    _ ← do_kv_restore_from_file kv_fd;
    server_fd ← init_network;
    if decide (server_fd < 0) then
      _ ← kill_kv kv_fd;
      mret EXIT_FAILURE
    else
      _ ← call (SetServerFd server_fd);
      _ ← listen_network fuel server_fd kv_fd;
      _ ← do_kv_snapshot_to_file kv_fd;
      _ ← kill_network server_fd;
      _ ← kill_kv kv_fd;
      mret EXIT_SUCCESS.

End Daemon.
