(* ===== verification/DaemonSem.v ===== *)
(** * The daemon's environment

    A [world] is what the daemon's actions read and change: the device behind
    its descriptor, PAM, the snapshot file, what the network delivers and is
    sent.  The host's own choices (descriptors, allocation, errors) are the
    parameter [HostApi]; the device is any [KvDevice]. *)

From S2P Require Import Prelude Prog CStr KvIoctl KvlkmSpec KvDevice KvInterface Auth Daemon.

Class HostApi : Type := {
  host_open : Z;
  host_socket : Z;
  host_setsockopt : Z;
  host_bind : Z;
  host_listen : Z;
  host_calloc_ok : Z → bool;
  (** The content of a fresh [malloc] buffer, or a null pointer. *)
  host_malloc : Z → option bytes;
  host_file_readable : bool;
  host_file_writable : bool;
  (** How many bytes of a write to the file reach the disk. *)
  host_disk : bytes → nat;
  host_send : bytes → Z;
}.

Class HostLaws (host : HostApi) : Prop := {
  length_host_malloc n buf : host_malloc n = Some buf → length buf = Z.to_nat n;
}.

Record world {dev : KvDevice} : Type := mk_world {
  w_dev : dev_state;
  w_pam : pam_state;
  (** The snapshot file, [None] when there is none. *)
  w_file : option bytes;
  w_out : list bytes;
  (** What [read] on the client's socket and [accept] will answer; after the
      end of the list the client is gone and [accept] fails. *)
  w_recv : list recv_answer;
  w_sent : list bytes;
  w_accepts : list accept_answer;
  w_spawned : list Z;
  w_closed : list Z;
  (** The values the program will see in [shutdown_requested], a flag a signal
      sets at any time: true after the end of the list. *)
  w_shutdown : list bool;
  w_server_fd : Z;
  (** Buffers of the daemon's heap not freed yet. *)
  w_live : nat;
}.
Arguments world : clear implicits.

Section Sem.
Context {dev : KvDevice} {pam : PamApi} {host : HostApi}.

Abbreviation W := (world dev).

Definition set_dev (d : dev_state) (w : W) : W :=
  mk_world dev d (w_pam w) (w_file w) (w_out w) (w_recv w) (w_sent w) (w_accepts w)
    (w_spawned w) (w_closed w) (w_shutdown w) (w_server_fd w) (w_live w).
Definition set_pam (p : pam_state) (w : W) : W :=
  mk_world dev (w_dev w) p (w_file w) (w_out w) (w_recv w) (w_sent w) (w_accepts w)
    (w_spawned w) (w_closed w) (w_shutdown w) (w_server_fd w) (w_live w).
Definition set_file (f : option bytes) (w : W) : W :=
  mk_world dev (w_dev w) (w_pam w) f (w_out w) (w_recv w) (w_sent w) (w_accepts w)
    (w_spawned w) (w_closed w) (w_shutdown w) (w_server_fd w) (w_live w).
Definition add_out (t : bytes) (w : W) : W :=
  mk_world dev (w_dev w) (w_pam w) (w_file w) (w_out w ++ [t]) (w_recv w) (w_sent w) (w_accepts w)
    (w_spawned w) (w_closed w) (w_shutdown w) (w_server_fd w) (w_live w).
Definition set_recv (l : list recv_answer) (w : W) : W :=
  mk_world dev (w_dev w) (w_pam w) (w_file w) (w_out w) l (w_sent w) (w_accepts w)
    (w_spawned w) (w_closed w) (w_shutdown w) (w_server_fd w) (w_live w).
Definition add_sent (t : bytes) (w : W) : W :=
  mk_world dev (w_dev w) (w_pam w) (w_file w) (w_out w) (w_recv w) (w_sent w ++ [t]) (w_accepts w)
    (w_spawned w) (w_closed w) (w_shutdown w) (w_server_fd w) (w_live w).
Definition set_accepts (l : list accept_answer) (w : W) : W :=
  mk_world dev (w_dev w) (w_pam w) (w_file w) (w_out w) (w_recv w) (w_sent w) l
    (w_spawned w) (w_closed w) (w_shutdown w) (w_server_fd w) (w_live w).
Definition add_spawned (fd : Z) (w : W) : W :=
  mk_world dev (w_dev w) (w_pam w) (w_file w) (w_out w) (w_recv w) (w_sent w) (w_accepts w)
    (w_spawned w ++ [fd]) (w_closed w) (w_shutdown w) (w_server_fd w) (w_live w).
Definition add_closed (fd : Z) (w : W) : W :=
  mk_world dev (w_dev w) (w_pam w) (w_file w) (w_out w) (w_recv w) (w_sent w) (w_accepts w)
    (w_spawned w) (w_closed w ++ [fd]) (w_shutdown w) (w_server_fd w) (w_live w).
Definition set_shutdown (l : list bool) (w : W) : W :=
  mk_world dev (w_dev w) (w_pam w) (w_file w) (w_out w) (w_recv w) (w_sent w) (w_accepts w)
    (w_spawned w) (w_closed w) l (w_server_fd w) (w_live w).
Definition set_server_fd (fd : Z) (w : W) : W :=
  mk_world dev (w_dev w) (w_pam w) (w_file w) (w_out w) (w_recv w) (w_sent w) (w_accepts w)
    (w_spawned w) (w_closed w) (w_shutdown w) fd (w_live w).
Definition set_live (n : nat) (w : W) : W :=
  mk_world dev (w_dev w) (w_pam w) (w_file w) (w_out w) (w_recv w) (w_sent w) (w_accepts w)
    (w_spawned w) (w_closed w) (w_shutdown w) (w_server_fd w) n.

Definition dexec (X : Type) (e : dact X) (w : W) : outcome dfault W X :=
  match e in dact X return outcome dfault W X with
  | Ioctl _ cmd arg =>
      match dev_ioctl cmd arg (w_dev w) with
      | Some (r, mem, d) => Done (r, mem) (set_dev d w)
      | None => Faulted DKernelOops
      end
  | Authenticate user password =>
      let '(ok, p) := authenticate user password (w_pam w) in Done ok (set_pam p w)
  | Calloc n =>
      if host_calloc_ok n then Done (Some (zeros (Z.to_nat n))) (set_live (S (w_live w)) w)
      else Done None w
  | Malloc n =>
      match host_malloc n with
      | Some buf => Done (Some buf) (set_live (S (w_live w)) w)
      | None => Done None w
      end
  | Free => Done tt (set_live (pred (w_live w)) w)
  | FileOpenRead => Done (if host_file_readable then w_file w else None) w
  | FileOpenWrite =>
      if host_file_writable then Done true (set_file (Some []) w) else Done false w
  | FileWrite data => Done tt (set_file (Some (default [] (w_file w) ++ take (host_disk data) data)) w)
  | Print text => Done tt (add_out text w)
  | DevOpen => Done host_open w
  | Socket => Done host_socket w
  | SetSockOpt _ => Done host_setsockopt w
  | Bind _ _ => Done host_bind w
  | Listen _ _ => Done host_listen w
  | Accept _ =>
      match w_accepts w with
      | a :: l => Done a (set_accepts l w)
      | [] => Done (AcceptErr false) w
      end
  | SpawnClient client_fd _ => Done tt (add_spawned client_fd w)
  | Recv _ n =>
      match w_recv w with
      | RecvData data :: l =>
          (* at most [n] bytes, and the rest stays in the stream *)
          if decide (data = []) then Done RecvEof (set_recv l w)
          else Done (RecvData (take n data))
                 (set_recv (if decide (drop n data = []) then l else RecvData (drop n data) :: l) w)
      | a :: l => Done a (set_recv l w)
      | [] => Done RecvEof w
      end
  | Send _ data =>
      Done (host_send data) (if decide (host_send data < 0) then w else add_sent data w)
  | Close fd => Done tt (add_closed fd w)
  | GetShutdownRequested =>
      match w_shutdown w with
      | b :: l => Done b (set_shutdown l w)
      | [] => Done true w
      end
  | SetShutdownRequested => Done tt (set_shutdown [] w)
  | GetServerFd => Done (w_server_fd w) w
  | SetServerFd fd => Done tt (set_server_fd fd w)
  | InstallHandler _ => Done tt w
  | DTrap f => Faulted f
  end.

(** The program returns, without a fault, a value and a world in [Q]. *)
Definition dwp {A : Type} (p : dprog A) (w : W) (Q : A → W → Prop) : Prop :=
  match run dexec p w with Done a w' => Q a w' | _ => False end.

Lemma dwp_ret {A : Type} (a : A) w (Q : A → W → Prop) : Q a w → dwp (mret a) w Q.
Proof. done. Qed.

Lemma dwp_bind {A B : Type} (p : dprog A) (f : A → dprog B) w Q :
  dwp p w (λ a w', dwp (f a) w' Q) → dwp (p ≫= f) w Q.
Proof. unfold dwp. rewrite run_bind. by destruct (run dexec p w). Qed.

Lemma dwp_call {X : Type} (e : dact X) w (Q : X → W → Prop) :
  match dexec X e w with Done x w' => Q x w' | _ => False end → dwp (call e) w Q.
Proof. unfold dwp. by rewrite run_call. Qed.

Lemma dwp_act {A X : Type} (e : dact X) (f : X → dprog A) w Q :
  match dexec X e w with Done x w' => dwp (f x) w' Q | _ => False end →
  dwp (call e ≫= f) w Q.
Proof. intros H. by apply dwp_bind, dwp_call. Qed.

Lemma dwp_mono {A : Type} (p : dprog A) w (Q R : A → W → Prop) :
  (∀ a w', Q a w' → R a w') → dwp p w Q → dwp p w R.
Proof. unfold dwp. destruct (run dexec p w); eauto. Qed.

Lemma dwp_print {A : Type} text (f : unit → dprog A) w Q :
  dwp (f tt) (add_out text w) Q → dwp (call (Print text) ≫= f) w Q.
Proof. intros H. by apply dwp_act. Qed.

Lemma dwp_ioctl {A : Type} fd cmd arg (f : Z * bytes → dprog A) w r mem d Q :
  dev_ioctl cmd arg (w_dev w) = Some (r, mem, d) → dwp (f (r, mem)) (set_dev d w) Q →
  dwp (call (Ioctl fd cmd arg) ≫= f) w Q.
Proof. intros Hd Hf. apply dwp_act. simpl. by rewrite Hd. Qed.

Lemma dwp_run {A : Type} (p : dprog A) w Q :
  dwp p w Q → ∃ a w', run dexec p w = Done a w' ∧ Q a w'.
Proof. unfold dwp. destruct (run dexec p w); [eauto|done..]. Qed.

End Sem.
