(* ===== verification/DaemonSpec.v ===== *)
(** * What the daemon's functions do

    All the lemmas are about an arbitrary device that keeps the contract
    [KvDeviceLaws]: the kernel module is one. *)

From S2P Require Import Prelude Prog CStr KvIoctl KMem KvHash KLogic KvHashSpec Kvlkm KvlkmSpec.
From S2P Require Import KvDevice KvInterface Auth Daemon DaemonSem.

(** ** Keys and request messages *)

Lemma parse_key_to_string k : is_u64 k → parse_key (to_string k) = Some k.
Proof.
  intros Hk. destruct (to_string_spec k Hk) as (Hd & Hne & _). unfold parse_key.
  rewrite upto_nul_id by by apply digits_no_nul.
  rewrite strtoull_to_string by done. simpl.
  by rewrite bool_decide_eq_false_2 by congruence.
Qed.

Lemma parse_key_u64 s k : parse_key s = Some k → is_u64 k.
Proof.
  unfold parse_key. destruct (_ || _); [done|]. intros [= <-]. apply strtoull_u64.
Qed.

(** The value a client's text becomes: what fits the message, up to a NUL. *)
Definition stored_text (v : bytes) : bytes := take (MAX_VALUE_LEN - 1) (upto_nul v).

Lemma stored_text_ok v : value_ok (stored_text v).
Proof.
  split; [apply no_nul_take, no_nul_upto_nul|].
  unfold stored_text. rewrite length_take. unfold MAX_VALUE_LEN. lia.
Qed.

Lemma stored_text_id v : value_ok v → stored_text v = v.
Proof.
  intros [Hn Hl]. unfold stored_text. rewrite upto_nul_id by done. apply take_ge. lia.
Qed.

Lemma write_at_end (s : bytes) n c :
  length s = S n → write_at n [c] s = take n s ++ [c].
Proof. intros Hl. unfold write_at. simpl. rewrite drop_ge by lia. done. Qed.

(** [strncpy] and the terminator: the text, then zeros. *)
Lemma request_value v :
  value (request_message 0 v) = stored_text v ++ zeros (MAX_VALUE_LEN - length (stored_text v)).
Proof.
  unfold request_message, stored_text. case_decide as Hv; cbn [value set_value].
  - set (t := upto_nul v). unfold strncpy.
    assert (length (take (MAX_VALUE_LEN - 1) t) <= 63)%nat as Hl.
    { rewrite length_take. unfold MAX_VALUE_LEN. lia. }
    set (s := take (MAX_VALUE_LEN - 1) t) in *. unfold MAX_VALUE_LEN in *. cbn [Nat.sub] in *.
    assert (write_at 0 (s ++ zeros (63 - length s)) (zeros 64) = s ++ zeros (64 - length s)) as ->.
    { unfold write_at. rewrite take_0. cbn [app Nat.add]. rewrite length_app, length_zeros.
      rewrite <- app_assoc, drop_zeros, zeros_app. do 2 f_equal. lia. }
    rewrite write_at_end by (rewrite length_app, length_zeros; lia).
    rewrite take_app_ge by lia. rewrite <- app_assoc. f_equal.
    rewrite take_zeros. change [NUL] with (zeros 1). rewrite zeros_app. f_equal. lia.
  - by subst v.
Qed.

Lemma request_message_fields k v :
  status (request_message k v) = 0 ∧ key (request_message k v) = k ∧
  msg_pad (request_message k v) = zeros 4 ∧
  value (request_message k v) = value (request_message 0 v).
Proof. unfold request_message. by case_decide. Qed.

Lemma request_message_value k v : c_str (value (request_message k v)) = Some (stored_text v).
Proof.
  destruct (request_message_fields k v) as (_ & _ & _ & ->). rewrite request_value.
  destruct (stored_text_ok v) as [Hn Hl]. rewrite zeros_cons by lia. by apply c_str_app.
Qed.

Lemma request_message_ok k v : is_u64 k → msg_ok (request_message k v).
Proof.
  intros Hk. destruct (request_message_fields k v) as (H1 & H2 & H3 & H4).
  unfold msg_ok. rewrite H1, H2, H3, H4, request_value.
  destruct (stored_text_ok v) as [Hn Hl]. split_and!; [by unfold is_s32|done|done|].
  rewrite length_app, length_zeros. lia.
Qed.

(** ** The replies, as a function of the map *)

(** The text for the client when the key has the value [r], or none. *)
Definition op_reply (op : kv_op) (k : Z) (r : option bytes) (ok : bool) : bytes :=
  let ks := to_string k in
  match op, r with
  | OpGet, Some v => op_key (lit "GET") ks ++ lit " " ++ arrow ++ lit " " ++ [DQ] ++ v ++ [DQ; LF]
  | OpGet, None => op_key (lit "GET") ks ++ lit " failed: key does not exist" ++ [LF]
  | OpInsert, Some _ => op_key (lit "INSERT") ks ++ lit " failed, key already exists, use update" ++ [LF]
  | OpInsert, None =>
      if ok then op_key (lit "INSERT") ks ++ lit " succeeded" ++ [LF]
      else op_key (lit "INSERT") ks ++ lit " failed (status=-12)" ++ [LF]
  | OpUpdate, None => op_key (lit "UPDATE") ks ++ lit " failed (status=1)" ++ [LF]
  | OpUpdate, Some _ =>
      if ok then op_key (lit "UPDATE") ks ++ lit " succeeded" ++ [LF]
      else op_key (lit "UPDATE") ks ++ lit " failed (status=-12)" ++ [LF]
  | OpDelete, Some _ => op_key (lit "DELETE") ks ++ lit " succeeded" ++ [LF]
  | OpDelete, None =>
      op_key (lit "DELETE") ks ++ lit " failed: key not found or error (status=1)" ++ [LF]
  end.

(** The text, and the map afterwards. *)
Definition op_text (op : kv_op) (k : Z) (m : gmap Z bytes) (ok : bool) : bytes :=
  op_reply op k (m !! k) ok.

Definition op_map (op : kv_op) (k : Z) (v : bytes) (m : gmap Z bytes) (ok : bool) : gmap Z bytes :=
  match op, m !! k with
  | OpInsert, None | OpUpdate, Some _ => if ok then <[k := v]> m else m
  | OpDelete, _ => delete k m
  | _, _ => m
  end.

Lemma c_str_NUL buf : NUL ∈ buf → is_Some (c_str buf).
Proof.
  induction buf as [|b buf IH]; [by intros ?%not_elem_of_nil|]. simpl.
  intros [<-|Hin]%elem_of_cons; [by rewrite decide_True|]. case_decide; [eauto|].
  destruct (IH Hin) as [s ->]. simpl. eauto.
Qed.

Lemma say_terminated text m : is_Some (c_str (value (say text m))).
Proof.
  apply c_str_NUL. unfold say, snprintf, write_at. simpl.
  rewrite !elem_of_app. left. right. apply list_elem_of_singleton. done.
Qed.

Lemma message_spec_terminated op msg m ok :
  (∀ k v, m !! k = Some v → is_u64 k ∧ value_ok v) → is_Some (c_str (value msg)) →
  is_Some (c_str (value (message_spec op msg m ok).1)).
Proof.
  intros Hm Hmsg. unfold message_spec.
  destruct op, (m !! key msg) as [v|] eqn:Hk, ok; try done; try apply say_terminated.
  all: simpl; rewrite c_str_stored by (by eapply Hm); eauto.
Qed.

(** The map of [message_spec] is [op_map]. *)
Lemma message_spec_map op msg m ok :
  (message_spec op msg m ok).2 = op_map op (key msg) (upto_nul (value msg)) m ok.
Proof.
  unfold message_spec, op_map.
  destruct op, (m !! key msg) eqn:Hk, ok; try done; by rewrite delete_id.
Qed.

Section Ops.
Context {ioc_api : IocApi} {ioc_laws : IocLaws ioc_api}.

(** The answer that [do_kv_operation] makes of a message whose status and value
    the kernel has set. *)
Lemma op_response_reply (op : kv_op) (msg : kv_message) (r : option bytes) (ok : bool) (s : bytes) :
  status msg = (match op, r with
    | OpInsert, Some _ => 1 | OpUpdate, None => 1 | OpGet, None => 1 | OpDelete, None => 1
    | OpInsert, None | OpUpdate, Some _ => if ok then 0 else - ENOMEM
    | OpGet, Some _ | OpDelete, Some _ => 0 end) →
  (op = OpGet → ∀ v, r = Some v → s = v) →
  op_response (op_code op) msg s = op_reply op (key msg) r ok.
Proof.
  intros Hst Hv. unfold op_response, op_reply. rewrite Hst.
  assert (∀ o o' : kv_op, o ≠ o' → op_code o ≠ op_code o') as Hinj.
  { intros o o' Hne Heq. by apply op_code_inj in Heq. }
  pose proof (Hinj OpInsert OpGet). pose proof (Hinj OpUpdate OpGet). pose proof (Hinj OpDelete OpGet).
  pose proof (Hinj OpUpdate OpInsert). pose proof (Hinj OpDelete OpInsert).
  pose proof (Hinj OpDelete OpUpdate). simpl in *.
  destruct op; simpl;
    repeat first [rewrite (decide_False (P := _ = KV_GET)) by auto
                 |rewrite (decide_False (P := _ = KV_INSERT)) by auto
                 |rewrite (decide_False (P := _ = KV_UPDATE)) by auto
                 |rewrite (decide_True (P := KV_GET = _)) by done
                 |rewrite (decide_True (P := KV_INSERT = _)) by done
                 |rewrite (decide_True (P := KV_UPDATE = _)) by done
                 |rewrite (decide_True (P := KV_DELETE = _)) by done];
    destruct r as [v|]; try destruct ok; try done.
  all: by rewrite (Hv eq_refl v eq_refl).
Qed.

Lemma op_response_text op msg m ok s :
  (∀ k v, m !! k = Some v → is_u64 k ∧ value_ok v) →
  c_str (value (message_spec op msg m ok).1) = Some s →
  op_response (op_code op) (message_spec op msg m ok).1 s = op_text op (key msg) m ok.
Proof.
  intros Hm Hs. unfold op_text.
  pose proof (op_response_reply op (message_spec op msg m ok).1 (m !! key msg) ok s) as Hr.
  assert (key (message_spec op msg m ok).1 = key msg) as Hk
    by by unfold message_spec; destruct op, (m !! key msg), ok.
  rewrite Hk in Hr. apply Hr; clear Hr Hk; unfold message_spec in *; destruct op, (m !! key msg) as [v|] eqn:Hk; try destruct ok; try done.
  all: intros _ v' [= <-]; destruct (Hm _ _ Hk); cbn [fst value set_status set_value] in Hs;
    rewrite c_str_stored in Hs by done; by injection Hs.
Qed.
End Ops.

Section Spec.
Context {ioc_api : IocApi} {ioc_laws : IocLaws ioc_api}.
Context {dev : KvDevice} {dlaws : KvDeviceLaws dev} {pam : PamApi} {host : HostApi}.

Abbreviation W := (world dev).
Abbreviation rep m w := (dev_rep m (w_dev (dev := dev) w)).

(** ** One operation on the device *)

Definition op_done (op : kv_op) (k : Z) (v : bytes) (m : gmap Z bytes) (w : W)
    (r : bytes) (w' : W) : Prop :=
  ∃ ok d, (ok = false → dev_may_fail (dev := dev)) ∧ r = op_text op k m ok ∧
    w' = set_dev d w ∧ dev_rep (op_map op k (stored_text v) m ok) d.

Lemma do_kv_operation_spec fd op key v k m (w : W) :
  rep m w → parse_key key = Some k →
  dwp (do_kv_operation fd (op_code op) key v) w (op_done op k v m w).
Proof.
  intros Hrep Hk. unfold do_kv_operation. rewrite Hk.
  pose proof (parse_key_u64 _ _ Hk) as Hu.
  pose proof (request_message_value k v) as Hval.
  destruct (dev_message op (request_message k v) m (w_dev w)) as (ok & d & Hok & Hio & Hd).
  { done. } { by apply request_message_ok. } { intros _. by rewrite Hval. }
  eapply dwp_ioctl; [exact Hio|]. rewrite decide_False by lia.
  assert (∀ k v, m !! k = Some v → is_u64 k ∧ value_ok v) as Hm 
    by (intros k0 v0; by apply (dev_rep_ok m (w_dev w))).
  rewrite decode_encode_msg by (apply message_spec_ok; [by apply request_message_ok|done]).
  destruct (message_spec_terminated op (request_message k v) m ok Hm) as [s Hs].
  { by rewrite Hval. }
  rewrite Hs. apply dwp_ret.
  destruct (request_message_fields k v) as (_ & Hkey & _).
  exists ok, d. split_and!; [done| |done|].
  - rewrite (op_response_text op (request_message k v) m ok s Hm Hs). by rewrite Hkey.
  - rewrite message_spec_map, Hkey in Hd. by rewrite (c_str_upto_nul _ _ Hval) in Hd.
Qed.

Lemma do_kv_operation_bad_key fd cmd key v (w : W) :
  parse_key key = None → run dexec (do_kv_operation fd cmd key v) w = Done text_bad_key w.
Proof. intros Hk. unfold do_kv_operation. by rewrite Hk. Qed.

(** ** Saving a snapshot *)

Definition file_image (m : gmap Z bytes) (data : bytes) : Prop :=
  ∃ l, l ≡ₚ map_to_list m ∧ snapshot_image (Z.of_nat (length l)) l data.

(** A snapshot changes the file and the console only; the device may go to
    another state that represents the same map. *)
Definition snapshot_world (d : dev_state) (f : option bytes) (t : bytes) (w : W) : W :=
  add_out t (set_file f (set_dev d w)).

Lemma length_snapshot_buffer n :
  is_u32 (Z.of_nat n) →
  Z.to_nat (snapshot_size (Z.of_nat n)) = (sizeof_kv_snapshot_message + n * sizeof_kv_message)%nat.
Proof.
  intros [_ Hn]. unfold snapshot_size, wrap_u64, u32_max, sizeof_kv_snapshot_message,
    sizeof_kv_message in *. rewrite Z.mod_small by lia. lia.
Qed.

Lemma snapshot_count_step {A : Type} fd m (w : W) (f : Z * bytes → dprog A) Q :
  rep m w → Z.of_nat (size m) < 2147483648 →
  (∀ d, dev_rep m d → dwp (f (0, le_bytes 4 (Z.of_nat (size m)))) (set_dev d w) Q) →
  dwp (call (Ioctl fd KV_COUNT (le_bytes 4 0)) ≫= f) w Q.
Proof.
  intros Hrep Hs Hf. destruct (dev_count m (w_dev w) (le_bytes 4 0) Hrep Hs eq_refl) as (d & Hio & Hd).
  eapply dwp_ioctl; [exact Hio|]. by apply Hf.
Qed.

(** With nothing stored the old file stays. *)
Lemma snapshot_to_file_empty fd (w : W) :
  rep ∅ w →
  dwp (do_kv_snapshot_to_file fd) w (λ _ w', ∃ d, dev_rep ∅ d ∧
    w' = add_out text_no_entries (set_dev d w)).
Proof.
  intros Hrep. unfold do_kv_snapshot_to_file.
  apply (snapshot_count_step fd ∅); [done|by rewrite map_size_empty|]. intros d Hd.
  rewrite map_size_empty. rewrite decide_False by lia.
  rewrite decide_True by done. apply dwp_call. simpl. by exists d.
Qed.

Definition snapshot_saved (m : gmap Z bytes) (w w' : W) : Prop :=
  ∃ d data, dev_rep m d ∧ file_image m data ∧
    w' = snapshot_world d (Some (take (host_disk data) data)) (text_saved (Z.of_nat (size m))) w.

(** The disk takes all of an image; the daemon does not look whether it did. *)
Definition disk_ok : Prop := ∀ data, (length data <= host_disk data)%nat.

(** The ways a snapshot can fail without touching the file. *)
Definition snapshot_failed (m : gmap Z bytes) (w w' : W) : Prop :=
  (dev_may_fail (dev := dev) ∨ host_file_writable = false ∨ (∃ n, host_calloc_ok n = false)) ∧
  ∃ d t, dev_rep m d ∧ w' = add_out t (set_dev d w).

Lemma snapshot_to_file_spec fd m (w : W) :
  rep m w → 0 < Z.of_nat (size m) < 2147483648 →
  dwp (do_kv_snapshot_to_file fd) w (λ _ w', snapshot_saved m w w' ∨ snapshot_failed m w w').
Proof.
  intros Hrep Hs. unfold do_kv_snapshot_to_file.
  assert (is_u32 (Z.of_nat (size m))) as Hu by (unfold is_u32, u32_max; lia).
  apply (snapshot_count_step fd m); [done|lia|]. intros d1 Hd1.
  rewrite le_value_u32, decide_False, decide_False by (done || lia).
  apply dwp_act. cbn [dexec]. rewrite length_snapshot_buffer by done.
  destruct (host_calloc_ok _) eqn:Hc.
  2: { apply dwp_call. simpl. right. split; [by right; right; eexists|]. eauto. }
  destruct (dev_snapshot m d1 Hd1 Hs) as (r & mem & d2 & Hio & Hd2 & Hr).
  eapply dwp_ioctl; [exact Hio|].
  destruct Hr as [[-> (l & Hl & Hlen & Himg)]|[Hf ->]].
  2: { rewrite decide_True by lia. apply dwp_print, dwp_call. simpl. right. split; [by left|]. eauto. }
  rewrite decide_False by lia.
  assert (length l = size m) as Hlm by (rewrite Hl; apply length_map_to_list).
  assert (snap_count (decode_header mem) = Z.of_nat (length l)) as -> by apply (si_count _ _ _ Himg).
  rewrite length_snapshot_buffer by by rewrite Hlm.
  apply dwp_act. cbn [dexec]. destruct host_file_writable eqn:Hw; cbn [negb].
  2: { apply dwp_print, dwp_call. simpl. right. split; [by right; left|]. eauto. }
  rewrite decide_False by lia. apply dwp_act. cbn [dexec]. apply dwp_print, dwp_call. cbn [dexec]. left.
  exists d2, mem. split_and!; [done| |].
  - exists l. by rewrite Hlm.
  - unfold snapshot_world. rewrite Hlm, (take_ge mem) by lia. done.
Qed.

(** ** Restoring one *)

Definition insert_absent (kv : Z * bytes) (m : gmap Z bytes) : gmap Z bytes :=
  match m !! kv.1 with Some _ => m | None => <[kv.1 := kv.2]> m end.

(** The entries of [snapshot] from number [first] on are those of [l]. *)
Definition entries_are (snapshot : bytes) (first : nat) (l : kvs) : Prop :=
  (off_snap_entries + (first + length l) * sizeof_kv_message <= length snapshot)%nat ∧
  ∀ i kv, l !! i = Some kv →
    key (entry_at snapshot (first + i)) = kv.1 ∧
    c_str (value (entry_at snapshot (first + i))) = Some kv.2.

Lemma entries_are_cons snapshot first kv l :
  entries_are snapshot first (kv :: l) →
  entries_are snapshot (S first) l ∧
  let e := read_at (off_snap_entries + first * sizeof_kv_message) sizeof_kv_message snapshot in
  length e = sizeof_kv_message ∧ key (decode_msg e) = kv.1 ∧ c_str (value (decode_msg e)) = Some kv.2.
Proof.
  intros [Hlen Hent]. cbn [length] in Hlen. cbn zeta. split_and!.
  - split; [unfold sizeof_kv_message, off_snap_entries in *; lia|].
    intros i kv' Hi. rewrite Nat.add_succ_comm. by apply Hent.
  - apply length_read_at. unfold sizeof_kv_message, off_snap_entries in *. lia.
  - destruct (Hent 0%nat kv eq_refl) as [H1 _]. by rewrite Nat.add_0_r in H1.
  - destruct (Hent 0%nat kv eq_refl) as [_ H2]. by rewrite Nat.add_0_r in H2.
Qed.

(** What restoring [l] into [m] can lead to: some of the new keys are missing
    when the device ran out of memory. *)
Definition restore_map (l : kvs) (m m' : gmap Z bytes) : Prop :=
  (m ⊆ m' ∧ m' ⊆ m ∪ list_to_map l) ∧
  (¬ dev_may_fail (dev := dev) → m' = m ∪ list_to_map l).

Lemma insert_absent_union (kv : Z * bytes) (l : kvs) (m : gmap Z bytes) :
  m ∪ list_to_map (kv :: l) = insert_absent kv m ∪ list_to_map l.
Proof.
  destruct kv as [k v]. unfold insert_absent. simpl. destruct (m !! k) as [v0|] eqn:Hk.
  - apply map_eq. intros k'. rewrite !lookup_union, lookup_insert.
    destruct (decide (k = k')) as [<-|]; [|done]. rewrite Hk.
    by destruct (list_to_map l !! k).
  - by rewrite <- insert_union_r, insert_union_l by done.
Qed.

Lemma restore_map_step kv l m ok m' :
  kv.1 ∉ l.*1 → (ok = false → dev_may_fail (dev := dev)) →
  restore_map l (if ok : bool then insert_absent kv m else m) m' → restore_map (kv :: l) m m'.
Proof.
  intros Hkv Hok [[H1 H2] H3]. unfold restore_map. rewrite insert_absent_union.
  assert (m ⊆ insert_absent kv m) as Hsub.
  { unfold insert_absent. destruct (m !! kv.1) eqn:Hk; [done|]. by apply insert_subseteq. }
  destruct ok.
  - split; [|done]. split; [by etrans|done].
  - split; [|by intros []; apply Hok]. split; [done|]. etrans; [exact H2|].
    apply map_subseteq_spec. intros k v. rewrite !lookup_union_Some_raw.
    intros [Hm|[Hm Hl]]; [left; by eapply lookup_weaken|right]. split; [|done].
    unfold insert_absent. destruct (m !! kv.1); [done|]. rewrite lookup_insert_ne; [done|].
    intros <-. apply Hkv. apply elem_of_list_to_map_2 in Hl.
    apply list_elem_of_fmap. by exists (kv.1, v).
Qed.

Lemma op_map_insert k v m ok :
  op_map OpInsert k v m ok = if ok then insert_absent (k, v) m else m.
Proof. unfold op_map, insert_absent. simpl. by destruct (m !! k), ok. Qed.

Lemma restore_entries_spec fd snapshot l : ∀ first m (w : W) restored skipped,
  rep m w → NoDup l.*1 → entries_are snapshot first l →
  dwp (restore_entries fd 0 snapshot first (length l) restored skipped) w (λ r w',
    ∃ d m', w' = set_dev d w ∧ dev_rep m' d ∧ restore_map l m m' ∧
      r = (if decide (l = []) then restored else wrap_u32 (restored + Z.of_nat (length l)), skipped)).
Proof.
  induction l as [|kv l IH]; intros first m w restored skipped Hrep Hnd Hent;
    cbn [length restore_entries].
  - apply dwp_ret. exists (w_dev w), m. split_and!; [by destruct w|done| |done].
    unfold restore_map. by rewrite list_to_map_nil, (right_id_L ∅ (∪)).
  - apply entries_are_cons in Hent as (Hent & He & Hkey & Hval). cbn zeta in *.
    set (e := read_at _ _ snapshot) in *. rewrite fmap_cons in Hnd. apply NoDup_cons in Hnd as [Hkv Hnd].
    destruct (dev_message OpInsert (decode_msg e) m (w_dev w) Hrep) as (ok & d & Hok & Hio & Hd).
    { by apply decode_msg_ok. } { by rewrite Hval. }
    rewrite encode_decode_msg in Hio by done.
    eapply dwp_ioctl; [exact Hio|]. rewrite bool_decide_eq_false_2 by lia. cbn [orb negb].
    rewrite bool_decide_eq_true_2 by done. cbn [negb].
    rewrite message_spec_map, Hkey, (c_str_upto_nul _ _ Hval), op_map_insert in Hd.
    eapply dwp_mono; [|apply (IH (S first) (if ok then insert_absent (kv.1, kv.2) m else m) (set_dev d w)); done].
    intros r w' (d' & m' & -> & Hd' & Hrm & ->). exists d', m'. split_and!; [by destruct w|done| |].
    + eapply restore_map_step; [done|done|]. by destruct kv, ok.
    + f_equal. case_decide as Hl; [by subst|]. unfold wrap_u32.
      rewrite Zplus_mod_idemp_l. f_equal. lia.
Qed.

(** The file starts with its header. *)
Lemma header_prefix data :
  (sizeof_kv_snapshot_message <= length data)%nat →
  decode_header (take sizeof_kv_snapshot_message data) = decode_header data.
Proof.
  intros Hl. unfold decode_header, off_snap_status, off_snap_capacity, off_snap_count.
  change (take sizeof_kv_snapshot_message data) with (read_at 0 sizeof_kv_snapshot_message data).
  by rewrite !read_at_read_at by (unfold sizeof_kv_snapshot_message; lia).
Qed.

(** The two reads fill the buffer with the file. *)
Lemma restore_buffer data buf n :
  length data = (sizeof_kv_snapshot_message + n * sizeof_kv_message)%nat →
  length buf = length data →
  write_at off_snap_entries (take (n * sizeof_kv_message) (drop sizeof_kv_snapshot_message data))
    (write_at 0 (take sizeof_kv_snapshot_message data) buf) = data.
Proof.
  intros Hd Hb.
  assert (length (take sizeof_kv_snapshot_message data) = sizeof_kv_snapshot_message) as H1
    by (rewrite length_take; lia).
  assert (take (n * sizeof_kv_message) (drop sizeof_kv_snapshot_message data) =
    drop sizeof_kv_snapshot_message data) as -> by (apply take_ge; rewrite length_drop; lia).
  unfold write_at at 2. rewrite take_0. cbn [app Nat.add]. rewrite H1.
  unfold write_at. change off_snap_entries with sizeof_kv_snapshot_message.
  rewrite take_app_length' by lia.
  rewrite (drop_ge (_ ++ _)) by (rewrite length_app, !length_drop, H1; lia).
  by rewrite app_nil_r, take_drop.
Qed.

(** A header announces a number of entries in 32 bits; the first read of the
    file gets it. *)
Lemma header_count_u32 bs : is_u32 (snap_count (decode_header bs)).
Proof.
  unfold decode_header. cbn [snap_count].
  pose proof (le_value_read_range 4 bs off_snap_count) as Hr.
  change (256 ^ Z.of_nat 4) with 4294967296 in Hr. unfold is_u32, u32_max. lia.
Qed.

Lemma snapshot_image_count cap l data : snapshot_image cap l data → is_u32 (Z.of_nat (length l)).
Proof. intros Himg. rewrite <- (si_count _ _ _ Himg). apply header_count_u32. Qed.

Lemma restore_header cap l data :
  snapshot_image cap l data →
  write_at 0 (take sizeof_kv_snapshot_message data) (zeros sizeof_kv_snapshot_message) =
    take sizeof_kv_snapshot_message data ∧
  decode_header (take sizeof_kv_snapshot_message data) = decode_header data.
Proof.
  intros [Hlen _ _ _ _]. split; [|apply header_prefix; lia].
  apply write_at_0_all. rewrite length_take, length_zeros. lia.
Qed.

Definition restore_done (l : kvs) (m : gmap Z bytes) (w w' : W) : Prop :=
  ∃ d m', w' = add_out (text_restored (Z.of_nat (length l)) 0) (set_dev d w) ∧
    dev_rep m' d ∧ restore_map l m m'.

Lemma restore_from_file_spec {hlaws : HostLaws host} fd cap l data m (w : W) :
  rep m w → host_file_readable = true → w_file w = Some data →
  snapshot_image cap l data → NoDup l.*1 →
  is_Some (host_malloc (snapshot_size (Z.of_nat (length l)))) →
  dwp (do_kv_restore_from_file fd) w (λ _ w', restore_done l m w w').
Proof.
  intros Hrep Hread Hfile Himg Hnd [buf Hbuf]. pose proof Himg as [Hlen Hst _ Hcount Hent].
  pose proof (snapshot_image_count _ _ _ Himg) as Hu. destruct (restore_header _ _ _ Himg) as [Hw Hh].
  unfold do_kv_restore_from_file. apply dwp_act. cbn [dexec]. rewrite Hread, Hfile.
  rewrite Hw, Hh, Hcount, Hst, Nat2Z.id.
  apply dwp_act. cbn [dexec]. rewrite Hbuf.
  apply length_host_malloc in Hbuf. rewrite length_snapshot_buffer in Hbuf by done.
  rewrite decide_False by lia. rewrite restore_buffer by congruence.
  apply dwp_bind. eapply dwp_mono; [|apply (restore_entries_spec fd data l 0 m (set_live (S (w_live w)) w) 0 0 Hrep Hnd)].
  - intros [r sk] w' (d & m' & -> & Hd & Hrm & [= -> ->]). apply dwp_act. cbn [dexec].
    apply dwp_call. cbn [dexec].
    exists d, m'. split_and!; [|done|done]. do 2 f_equal. case_decide; [by subst|].
    rewrite wrap_u32_id; [done|]. by rewrite Z.add_0_l.
  - split; [rewrite Hlen; unfold off_snap_entries, sizeof_kv_snapshot_message; lia|].
    intros i kv Hi. destruct (Hent i kv Hi) as (_ & H1 & H2). done.
Qed.

(** Without a file, or one that cannot be opened, nothing happens. *)
Lemma restore_no_file fd (w : W) :
  w_file w = None ∨ host_file_readable = false →
  dwp (do_kv_restore_from_file fd) w (λ _ w',
    w' = add_out (lit "No startup snapshot found at /var/lib/kvstore/snapshot.bin" ++ [LF]) w).
Proof.
  intros Hf. unfold do_kv_restore_from_file. apply dwp_act. cbn [dexec].
  assert ((if host_file_readable then w_file w else None) = None) as ->.
  { destruct Hf as [->| ->]; by destruct host_file_readable. }
  by apply dwp_call.
Qed.

End Spec.
