(* ===== verification/Connection.v ===== *)
(** * A client's connection: commands, authentication, termination

    How the text of a command is taken apart, what a connection may do before
    it is authenticated, and that serving a connection ends. *)

From S2P Require Import Prelude Prog CStr KvIoctl KMem KvHash KLogic KvHashSpec Kvlkm KvlkmSpec.
From S2P Require Import KvDevice KvInterface Auth Daemon DaemonSem DaemonSpec.

(** The command in the buffer that [read] has filled. *)
Lemma buffer_text msg :
  (length msg <= BUFFER_SIZE - 1)%nat → upto_nul (write_at 0 msg (zeros BUFFER_SIZE)) = upto_nul msg.
Proof.
  intros Hl. unfold write_at. rewrite take_0, drop_zeros, zeros_cons by (unfold BUFFER_SIZE in *; simpl in *; lia).
  apply upto_nul_end.
Qed.

(** The words of the commands. *)
Definition op_word (op : kv_op) : bytes :=
  match op with
  | OpInsert => lit "KV_INSERT" | OpUpdate => lit "KV_UPDATE"
  | OpGet => lit "KV_GET" | OpDelete => lit "KV_DELETE"
  end.

Lemma op_word_word op : is_word (op_word op).
Proof. destruct op; split; [done|repeat constructor|done|repeat constructor|done|repeat constructor|done|repeat constructor]. Qed.

Section Parse.
Context {ioc_api : IocApi}.

(** The command that [op] is asked with: the key, and maybe a value. *)
Definition command_text (op : kv_op) (key value : bytes) : bytes :=
  op_word op ++ SP :: key ++ (if decide (value = []) then [] else SP :: value).

Definition run_op (op : kv_op) (fd : Z) (key value : bytes) : dprog (bytes * bool) :=
  response ← do_kv_operation fd (op_code op) key value;
  mret (response, true).

(** A well-formed command of an authenticated client is executed with exactly
    the key and the value that were sent. *)
Lemma parse_command op fd key value :
  is_word key → LF ∉ value → (op_needs_value op = true → value ≠ []) →
  parse_and_handle_command (command_text op key value) fd true = run_op op fd key value.
Proof.
  intros Hk Hlf Hv. unfold parse_and_handle_command, command_text.
  rewrite extract_word_app; [|apply op_word_word|done].
  assert (∀ rest, space_start rest → extract_word (SP :: key ++ rest) = Some (key, rest)) as Hkey
    by (intros; by apply extract_word_sp).
  destruct (decide (value = [])) as [->|Hne].
  - rewrite Hkey by done. destruct op; try (by destruct (Hv eq_refl)); done.
  - rewrite Hkey by done.
    assert (getline (SP :: value) = SP :: value) as Hgl.
    { apply getline_id. rewrite not_elem_of_cons. split; [done|done]. }
    destruct op; cbn [op_word]; rewrite Hgl;
      repeat first [rewrite decide_False by done | rewrite decide_True by done]; done.
Qed.

(** The same text before the client has authenticated. *)
Lemma parse_command_unauthenticated op fd key value :
  parse_and_handle_command (command_text op key value) fd false = mret (text_not_auth, false).
Proof.
  unfold parse_and_handle_command, command_text.
  rewrite extract_word_app; [|apply op_word_word|done].
  by destruct op.
Qed.

End Parse.

Section Client.
Context {ioc_api : IocApi} {ioc_laws : IocLaws ioc_api}.
Context {dev : KvDevice} {dlaws : KvDeviceLaws dev} {pam : PamApi} {host : HostApi}.

Abbreviation W := (world dev).
Abbreviation rep m w := (dev_rep m (w_dev (dev := dev) w)).

(** What the commands of one client leave alone: the connections, and the
    number of buffers on the heap. *)
Record same_network (w w' : W) : Prop := {
  sn_recv : w_recv w' = w_recv w;
  sn_sent : w_sent w' = w_sent w;
  sn_accepts : w_accepts w' = w_accepts w;
  sn_spawned : w_spawned w' = w_spawned w;
  sn_closed : w_closed w' = w_closed w;
  sn_shutdown : w_shutdown w' = w_shutdown w;
  sn_server_fd : w_server_fd w' = w_server_fd w;
  sn_live : w_live w' = w_live w;
}.

#[export] Instance same_network_preorder : PreOrder same_network.
Proof. split; [by split|]. intros w1 w2 w3 [] []. split; congruence. Qed.

(** The device and the file as they were. *)
Definition same_data (w w' : W) : Prop := w_dev w' = w_dev w ∧ w_file w' = w_file w.

(** ** Any command *)

(** A command leaves a device that represents a map with at most one new key,
    and answers. *)
Definition command_done (m : gmap Z bytes) (w : W) (w' : W) : Prop :=
  ∃ m', rep m' w' ∧ (size m' <= S (size m))%nat ∧ same_network w w'.

Lemma op_map_size op k v m ok : (size (op_map op k v m ok) <= S (size m))%nat.
Proof.
  assert (size (<[k := v]> m) <= S (size m))%nat as Hi.
  { destruct (m !! k) as [v0|] eqn:Hk.
    - rewrite map_size_insert_Some by eauto. lia.
    - rewrite map_size_insert_None by done. lia. }
  assert (size (delete k m) <= size m)%nat as Hd.
  { apply map_subseteq_size, delete_subseteq. }
  unfold op_map. destruct op, (m !! k), ok; lia.
Qed.

Lemma do_kv_operation_done fd op key v m (w : W) :
  rep m w → dwp (do_kv_operation fd (op_code op) key v) w (λ _ w', command_done m w w').
Proof.
  intros Hrep. destruct (parse_key key) as [k|] eqn:Hk.
  - eapply dwp_mono; [|by apply (do_kv_operation_spec fd op key v k m w)].
    intros r w' (ok & d & _ & _ & -> & Hd). eexists. split_and!; [exact Hd| |by split].
    apply op_map_size.
  - unfold dwp. rewrite do_kv_operation_bad_key by done. exists m. split_and!; [done|lia|done].
Qed.

Lemma snapshot_same fd m (w : W) :
  rep m w → Z.of_nat (size m) < 2147483648 →
  dwp (do_kv_snapshot_to_file fd) w (λ _ w', rep m w' ∧ same_network w w').
Proof.
  intros Hrep Hs. destruct (decide (m = ∅)) as [->|Hne].
  - eapply dwp_mono; [|by apply snapshot_to_file_empty]. by intros _ w' (d & Hd & ->).
  - assert (0 < Z.of_nat (size m)).
    { apply map_size_non_empty_iff in Hne. lia. }
    eapply dwp_mono; [|by apply (snapshot_to_file_spec fd m w)].
    by intros _ w' [(d & data & Hd & _ & ->)|(_ & d & t & Hd & ->)].
Qed.

Lemma command_done_refl m (w w' : W) :
  rep m w' → same_network w w' → command_done m w w'.
Proof. intros. exists m. split_and!; [done|lia|done]. Qed.

Lemma parse_and_handle_command_done command fd auth m (w : W) :
  rep m w → Z.of_nat (size m) < 2147483648 →
  dwp (parse_and_handle_command command fd auth) w (λ _ w', command_done m w w').
Proof.
  intros Hrep Hs. unfold parse_and_handle_command.
  destruct (extract_word command) as [[operation iss]|].
  2: { apply dwp_print, dwp_ret. by apply command_done_refl. }
  case_decide.
  { destruct (extract_word iss) as [[user iss']|]; [|by apply dwp_ret, command_done_refl].
    destruct (extract_word iss') as [[pw ?]|]; [|by apply dwp_ret, command_done_refl].
    apply dwp_act. cbn [dexec]. destruct (authenticate user pw (w_pam w)) as [ok p].
    destruct ok; by apply dwp_ret, command_done_refl. }
  destruct auth; cbn [negb]; [|by apply dwp_ret, command_done_refl].
  case_decide.
  { apply dwp_bind. eapply dwp_mono; [|by apply (snapshot_same fd m)].
    intros u w' [Hu Hn]. by apply dwp_ret, command_done_refl. }
  destruct (extract_word iss) as [[key iss']|].
  2: { apply dwp_print, dwp_ret. by apply command_done_refl. }
  set (value := match getline iss' with [] => _ | _ => _ end).
  assert (∀ op, dwp (response ← do_kv_operation fd (op_code op) key value; mret (response, true)) w
    (λ _ w', command_done m w w')) as Hop.
  { intros op. apply dwp_bind. eapply dwp_mono; [|by apply (do_kv_operation_done fd op key value m)].
    intros r w' ?. by apply dwp_ret. }
  pose proof (Hop OpInsert). pose proof (Hop OpDelete). pose proof (Hop OpGet). pose proof (Hop OpUpdate).
  repeat case_decide; try done; apply dwp_print, dwp_ret; by apply command_done_refl.
Qed.

(** ** Before authentication *)

(** A connection that is not authenticated reaches neither the device nor the
    snapshot file, and only PAM's consent changes that. *)
Lemma parse_unauthenticated command fd (w : W) :
  dwp (parse_and_handle_command command fd false) w (λ r w',
    same_data w w' ∧ same_network w w' ∧
    (r.2 = true → ∃ user password s, (authenticate user password s).1 = true)).
Proof.
  unfold parse_and_handle_command.
  destruct (extract_word command) as [[operation iss]|].
  2: { by apply dwp_print, dwp_ret. }
  case_decide.
  { destruct (extract_word iss) as [[user iss']|]; [|by apply dwp_ret].
    destruct (extract_word iss') as [[pw ?]|]; [|by apply dwp_ret].
    apply dwp_act. cbn [dexec]. destruct (authenticate user pw (w_pam w)) as [ok p] eqn:Ha.
    destruct ok; apply dwp_ret; split_and!; try done.
    intros _. exists user, pw, (w_pam w). by rewrite Ha. }
  by apply dwp_ret.
Qed.

(** ** The connection loop *)

(** A bound for the iterations: bytes and answers the network has for us. *)
Fixpoint recv_measure (l : list recv_answer) : nat :=
  match l with
  | [] => 1
  | RecvData data :: l' => S (length data) + recv_measure l'
  | _ :: l' => S (recv_measure l')
  end.

(** One read: the loop gets data, a retry or the end, and the measure falls. *)
Lemma recv_cases fd (w : W) :
  ∃ answer l, dexec _ (Recv fd (BUFFER_SIZE - 1)) w = Done answer (set_recv l w) ∧
    match answer with
    | RecvData _ | RecvErr true => (recv_measure l < recv_measure (w_recv w))%nat
    | _ => True
    end.
Proof.
  cbn [dexec]. destruct (w_recv w) as [|[data| |eintr] l] eqn:Hr.
  - exists RecvEof, []. split; [|done]. f_equal. destruct w. simpl in *. by subst.
  - case_decide as Hd; [by eexists _, _|].
    eexists _, _. split; [done|]. case_decide as Hdrop; simpl; [lia|].
    rewrite length_drop. destruct data; [done|]. simpl. lia.
  - by eexists _, _.
  - eexists _, _. split; [done|]. destruct eintr; simpl; lia.
Qed.

(** An invariant [I] of the loop: kept by the console, the stream and every
    command; [b] is the connection's flag. *)
Lemma handle_client_loop_inv (I : nat → bool → W → Prop) fd kv_fd :
  (∀ n b w t, I n b w → I n b (add_out t w)) →
  (∀ n b w t, I n b w → I n b (add_sent t w)) →
  (∀ n b w l, I n b w → I n b (set_recv l w)) →
  (∀ n b w command, I (S n) b w →
     dwp (parse_and_handle_command command kv_fd b) w (λ r w', I n r.2 w' ∧ same_network w w')) →
  (∀ n b w, I (S n) b w → I n b w) →
  ∀ fuel n b (w : W), (recv_measure (w_recv w) <= fuel)%nat → (recv_measure (w_recv w) <= n)%nat →
    I n b w → dwp (handle_client_loop fuel fd kv_fd b) w (λ _ w', ∃ n' b', I n' b' w').
Proof.
  intros Hout Hsent Hrecv Hcmd Hdec. induction fuel as [|fuel IH]; intros n b w Hf Hn HI.
  { destruct (w_recv w) as [|[]]; simpl in Hf; lia. }
  destruct n as [|n]; [destruct (w_recv w) as [|[]]; simpl in Hn; lia|].
  cbn [handle_client_loop]. apply dwp_act.
  destruct (recv_cases fd w) as (answer & l & -> & Hl).
  assert (I (S n) b (set_recv l w)) as HI' by auto.
  destruct answer as [data| |[]].
  - apply dwp_print, dwp_bind. eapply dwp_mono; [|apply Hcmd, Hout, HI'].
    intros [response b'] w' [HI2 Hsn]. apply dwp_act. cbn [dexec].
    assert (∀ w1, w_recv w1 = w_recv w' → I n b' w1 →
      dwp (if decide (host_send response < 0) then call (Print (lit "Failed to write to client" ++ [LF]))
           else handle_client_loop fuel fd kv_fd b') w1 (λ _ w', ∃ n' b', I n' b' w')) as Hnext.
    { intros w1 Hr1 HI1. case_decide.
      - apply dwp_call. cbn [dexec]. eauto.
      - apply (IH n); [| |done]; rewrite Hr1, (sn_recv _ _ Hsn); simpl; lia. }
    case_decide; apply Hnext; auto.
  - apply dwp_call. cbn [dexec]. eauto.
  - apply (IH n); [simpl; lia|simpl; lia|auto].
  - apply dwp_call. cbn [dexec]. eauto.
Qed.

(** Serving a client ends, whatever the client sends, with the device in order
    and the socket closed once. *)
Lemma handle_client_done fuel fd kv_fd m (w : W) :
  rep m w → (recv_measure (w_recv w) <= fuel)%nat →
  Z.of_nat (size m + recv_measure (w_recv w)) < 2147483648 →
  dwp (handle_client fuel fd kv_fd) w (λ _ w',
    (∃ m', rep m' w') ∧ w_closed w' = w_closed w ++ [fd] ∧ w_spawned w' = w_spawned w ∧
    w_live w' = w_live w).
Proof.
  intros Hrep Hf Hs. unfold handle_client. apply dwp_bind.
  set (I := λ (n : nat) (b : bool) (w' : W), ∃ m', rep m' w' ∧
    Z.of_nat (size m' + n) < 2147483648 ∧ w_closed w' = w_closed w ∧
    w_spawned w' = w_spawned w ∧ w_live w' = w_live w).
  eapply dwp_mono; [|apply (handle_client_loop_inv I) with (n := recv_measure (w_recv w))].
  - intros u w' (n & b & m' & Hm' & _ & Hc & Hsp). apply dwp_call. cbn [dexec].
    split; [by exists m'|]. split; [|done].
    simpl. by rewrite Hc.
  - done.
  - done.
  - done.
  - intros n b w1 command (m1 & Hm1 & Hs1 & Hc1 & Hsp1 & Hl1).
    eapply dwp_mono; [|apply (parse_and_handle_command_done command kv_fd b m1 w1 Hm1); lia].
    intros r w' (m' & Hm' & Hs' & Hsn). split; [|done]. exists m'.
    rewrite (sn_closed _ _ Hsn), (sn_spawned _ _ Hsn), (sn_live _ _ Hsn). split; [done|]. by split; [lia|].
  - intros n b w1 (m1 & Hm1 & Hs1 & ?). exists m1. split; [done|]. by split; [lia|].
  - done.
  - done.
  - by exists m.
Qed.

(** No consent of PAM, no access: whatever an unauthenticated client sends, the
    device and the snapshot file stay as they are. *)
Lemma handle_client_denied fuel fd kv_fd (w : W) :
  (∀ user password s, (authenticate user password s).1 = false) →
  (recv_measure (w_recv w) <= fuel)%nat →
  dwp (handle_client fuel fd kv_fd) w (λ _ w', same_data w w' ∧ w_closed w' = w_closed w ++ [fd]).
Proof.
  intros Hpam Hf. unfold handle_client. apply dwp_bind.
  set (I := λ (n : nat) (b : bool) (w' : W), b = false ∧ same_data w w' ∧ w_closed w' = w_closed w).
  eapply dwp_mono; [|apply (handle_client_loop_inv I) with (n := recv_measure (w_recv w))]; try done.
  - intros u w' (n & b & _ & Hd & Hc). apply dwp_call. cbn [dexec]. split; [done|]. simpl. by rewrite Hc.
  - intros n b w1 command (-> & [Hd1 Hd2] & Hc).
    eapply dwp_mono; [|apply (parse_unauthenticated command kv_fd w1)].
    intros r w' ([Hd1' Hd2'] & Hsn & Hauth). split; [|done]. split_and!.
    + destruct r.2; [|done]. destruct (Hauth eq_refl) as (u & p & s & Hok). by rewrite Hpam in Hok.
    + split; congruence.
    + by rewrite (sn_closed _ _ Hsn).
Qed.

End Client.
