(* ===== verification/Server.v ===== *)
(** * The daemon as a whole: sockets, start and stop

    The server socket, the accept loop, and [main] from the restore of the
    snapshot file to its saving, for one thread and a device of its own. *)

From S2P Require Import Prelude Prog CStr KvIoctl KMem KvHash KLogic KvHashSpec Kvlkm KvlkmSpec.
From S2P Require Import KvDevice KvInterface Auth Daemon DaemonSem DaemonSpec Connection.

Section Server.
Context {ioc_api : IocApi} {ioc_laws : IocLaws ioc_api}.
Context {dev : KvDevice} {dlaws : KvDeviceLaws dev} {pam : PamApi} {host : HostApi}.

Abbreviation W := (world dev).
Abbreviation rep m w := (dev_rep m (w_dev (dev := dev) w)).

(** ** [init_network] *)

Definition network_ok : Prop :=
  host_socket ≠ -1 ∧ 0 <= host_setsockopt ∧ 0 <= host_bind ∧ 0 <= host_listen.

(** The socket, or [-1] and no socket left open. *)
Definition init_network_done (w : W) (r : Z) (w' : W) : Prop :=
  w_dev w' = w_dev w ∧ w_file w' = w_file w ∧ w_spawned w' = w_spawned w ∧
  w_accepts w' = w_accepts w ∧ w_shutdown w' = w_shutdown w ∧
  ((network_ok ∧ r = host_socket ∧ w_closed w' = w_closed w) ∨
   (¬ network_ok ∧ r = -1 ∧
    w_closed w' = w_closed w ++ (if decide (host_socket = -1) then [] else [host_socket]))).

Lemma init_network_spec (w : W) : dwp init_network w (init_network_done w).
Proof.
  unfold init_network, init_network_done, network_ok. apply dwp_act. cbn [dexec].
  case_decide as H1.
  { apply dwp_print, dwp_ret. split_and!; try done. right. simpl. rewrite app_nil_r.
    split_and!; [tauto|done|done]. }
  apply dwp_act. cbn [dexec]. case_decide as H2.
  { apply dwp_print, dwp_act. cbn [dexec]. apply dwp_ret. split_and!; try done. right.
    split_and!; [lia|done|done]. }
  apply dwp_act. cbn [dexec]. case_decide as H3.
  { apply dwp_print, dwp_act. cbn [dexec]. apply dwp_ret. split_and!; try done. right.
    split_and!; [lia|done|done]. }
  apply dwp_act. cbn [dexec]. case_decide as H4.
  { apply dwp_print, dwp_act. cbn [dexec]. apply dwp_ret. split_and!; try done. right.
    split_and!; [lia|done|done]. }
  apply dwp_print, dwp_ret. split_and!; try done. left. split_and!; (done || lia).
Qed.

(** ** [listen_network] *)

Definition accepted (l : list accept_answer) : list Z :=
  omap (λ a, match a with AcceptFd fd => Some fd | AcceptErr _ => None end) l.

(** The accepted clients each get a thread, in order, until shutdown is seen. *)
Definition listen_done (w w' : W) : Prop :=
  same_data w w' ∧ w_closed w' = w_closed w ∧ w_server_fd w' = w_server_fd w ∧
  ∃ j, w_spawned w' = w_spawned w ++ accepted (take j (w_accepts w)).

Lemma listen_done_refl (w : W) : listen_done w w.
Proof. split_and!; try done. exists 0%nat. simpl. by rewrite app_nil_r. Qed.

(** One round of the loop that got the answer [a] and went on from [w1]. *)
Lemma listen_done_step a l (w w1 w' : W) :
  same_data w w1 → w_closed w1 = w_closed w → w_server_fd w1 = w_server_fd w →
  w_accepts w = a :: l → w_accepts w1 = l → w_spawned w1 = w_spawned w ++ accepted [a] →
  listen_done w1 w' → listen_done w w'.
Proof.
  intros [Hd Hf] Hc Hs Ha Hl Hsp ([Hd' Hf'] & Hc' & Hs' & j & Hj). split_and!; [|congruence..|].
  - split; congruence.
  - exists (S j). rewrite Hj, Hsp, Ha, Hl, <- app_assoc. simpl. by destruct a.
Qed.

Lemma listen_network_spec server_fd kv_fd fuel (w : W) :
  (length (w_shutdown w) < fuel)%nat →
  dwp (listen_network fuel server_fd kv_fd) w (λ _ w', listen_done w w').
Proof.
  revert w. induction fuel as [|fuel IH]; intros w Hf; [lia|].
  cbn [listen_network]. apply dwp_act. cbn [dexec].
  destruct (w_shutdown w) as [|[] shut] eqn:Hsh.
  { apply dwp_ret, listen_done_refl. }
  { apply dwp_ret. split_and!; try done. exists 0%nat. simpl. by rewrite app_nil_r. }
  cbn [length] in Hf. apply dwp_act. cbn [dexec w_accepts set_shutdown].
  destruct (w_accepts w) as [|a l] eqn:Ha.
  - apply dwp_act. cbn [dexec w_shutdown set_shutdown].
    assert (∀ w1 : W, same_data w w1 → w_closed w1 = w_closed w → w_server_fd w1 = w_server_fd w →
      w_accepts w1 = [] → w_spawned w1 = w_spawned w → (length (w_shutdown w1) < fuel)%nat →
      dwp (listen_network fuel server_fd kv_fd) w1 (λ _ w', listen_done w w')) as Hgo.
    { intros w1 [Hd Hfi] Hc Hs Ha1 Hsp Hlen. eapply dwp_mono; [|by apply IH].
      intros u w' ([Hd' Hf'] & Hc' & Hs' & j & Hj). split_and!; [|congruence..|].
      - split; congruence.
      - exists 0%nat. by rewrite Hj, Hsp, Ha1, take_nil. }
    destruct shut as [|[] shut]; cbn [orb]; try apply dwp_print;
      apply Hgo; try done; simpl in *; lia.
  - destruct a as [fd|eintr].
    + apply dwp_act. cbn [dexec]. eapply dwp_mono; [|apply IH; simpl; lia].
      intros u w' Hw'. by refine (listen_done_step (AcceptFd fd) l w _ w' _ _ _ Ha _ _ Hw').
    + apply dwp_act. cbn [dexec w_shutdown set_accepts set_shutdown].
      assert (∀ w1 : W, same_data w w1 → w_closed w1 = w_closed w → w_server_fd w1 = w_server_fd w →
        w_accepts w1 = l → w_spawned w1 = w_spawned w → (length (w_shutdown w1) < fuel)%nat →
        dwp (listen_network fuel server_fd kv_fd) w1 (λ _ w', listen_done w w')) as Hgo.
      { intros w1 ? ? ? ? Hsp ?. eapply dwp_mono; [|by apply IH].
        intros u w' Hw'. refine (listen_done_step (AcceptErr eintr) l w w1 w' _ _ _ Ha _ _ Hw'); try done.
        by rewrite Hsp, app_nil_r. }
      destruct shut as [|[] shut], eintr; cbn [orb];
        try apply dwp_print; apply Hgo; try done; simpl in *; lia.
Qed.

(** ** Restart

    [image_at m w]: the device represents [m] and the snapshot file is an image
    of it. *)

Definition has_image (m : gmap Z bytes) (w : W) : Prop :=
  ∃ data, w_file w = Some data ∧ file_image m data.

Lemma file_image_keys (m : gmap Z bytes) (l : kvs) : l ≡ₚ map_to_list m → NoDup l.*1 ∧ list_to_map l = m.
Proof.
  intros Hl. assert (NoDup l.*1) as Hnd by (rewrite Hl; apply NoDup_fst_map_to_list).
  split; [done|]. rewrite (list_to_map_proper l (map_to_list m) Hnd Hl). apply list_to_map_to_list.
Qed.

Lemma restore_image {hlaws : HostLaws host} fd m (w : W) :
  rep ∅ w → has_image m w → host_file_readable = true →
  is_Some (host_malloc (snapshot_size (Z.of_nat (size m)))) → ¬ dev_may_fail (dev := dev) →
  dwp (do_kv_restore_from_file fd) w (λ _ w',
    rep m w' ∧ w_file w' = w_file w ∧ same_network w w').
Proof.
  intros Hrep (data & Hfile & l & Hl & Himg) Hread Hmalloc Hfail.
  destruct (file_image_keys m l Hl) as [Hnd Hmap].
  assert (length l = size m) as Hlen by (rewrite Hl; apply length_map_to_list).
  eapply dwp_mono; [|by eapply (restore_from_file_spec fd _ l data ∅); rewrite ?Hlen].
  intros u w' (d & m' & -> & Hd & [_ Hm']). rewrite Hm', Hmap, (left_id_L ∅ (∪)) in Hd by done.
  split_and!; [done|done|by split].
Qed.

(** The file after the snapshot at the end: a new image, or the old one. *)
Lemma snapshot_image_kept fd m (w : W) :
  rep m w → has_image m w → Z.of_nat (size m) < 2147483648 → disk_ok →
  dwp (do_kv_snapshot_to_file fd) w (λ _ w', rep m w' ∧ has_image m w' ∧ same_network w w').
Proof.
  intros Hrep Hf Hs Hdisk. destruct (decide (m = ∅)) as [->|Hne].
  - eapply dwp_mono; [|by apply snapshot_to_file_empty].
    intros u w' (d & Hd & ->). split_and!; [done|done|by split].
  - apply map_size_non_empty_iff in Hne.
    eapply dwp_mono; [|apply (snapshot_to_file_spec fd m w Hrep); lia].
    intros u w' [(d & data & Hd & Hi & ->)|(_ & d & t & Hd & ->)];
      (split_and!; [done| |by split]); [|done].
    exists data. split; [|done]. simpl. by rewrite take_ge by apply Hdisk.
Qed.

Lemma main_restart_spec {hlaws : HostLaws host} fuel m (w : W) :
  rep ∅ w → has_image m w → host_file_readable = true →
  is_Some (host_malloc (snapshot_size (Z.of_nat (size m)))) → ¬ dev_may_fail (dev := dev) →
  Z.of_nat (size m) < 2147483648 → 0 < host_open → 0 <= host_socket → network_ok → disk_ok →
  (length (w_shutdown w) < fuel)%nat →
  dwp (main fuel) w (λ r w', r = EXIT_SUCCESS ∧ rep m w' ∧ has_image m w' ∧
    w_closed w' = w_closed w ++ [host_socket; host_open]).
Proof.
  intros Hrep Himg Hread Hmalloc Hfail Hsize Hopen Hsock Hnet Hdisk Hfuel. unfold main.
  do 2 (apply dwp_act; cbn [dexec]).
  apply dwp_bind. unfold init_kv. apply dwp_act. cbn [dexec]. rewrite decide_False by lia.
  apply dwp_ret. rewrite decide_False by lia. apply dwp_bind.
  eapply dwp_mono; [|by apply (restore_image host_open m w)].
  intros u1 w1 (Hrep1 & Hf1 & Hn1). apply dwp_bind.
  eapply dwp_mono; [|apply init_network_spec].
  intros fd w2 (Hd2 & Hf2 & Hsp2 & Ha2 & Hsh2 & [(_ & -> & Hc2)|(? & _)]); [|done].
  rewrite decide_False by lia. apply dwp_act. cbn [dexec]. apply dwp_bind.
  eapply dwp_mono; [|apply (listen_network_spec host_socket host_open fuel)].
  2: { simpl. by rewrite Hsh2, (sn_shutdown _ _ Hn1). }
  intros u3 w3 ([Hd3 Hf3] & Hc3 & _). simpl in Hd3, Hf3, Hc3. apply dwp_bind.
  eapply dwp_mono; [|apply (snapshot_image_kept host_open m w3)].
  - intros u4 w4 (Hrep4 & Himg4 & Hn4). apply dwp_act. cbn [dexec]. apply dwp_act. cbn [dexec].
    apply dwp_ret. split_and!; [done|done|done|]. simpl.
    by rewrite (sn_closed _ _ Hn4), Hc3, Hc2, (sn_closed _ _ Hn1), <- app_assoc.
  - by rewrite Hd3, Hd2.
  - destruct Himg as (data & Hdata & ?). exists data. split; [|done]. congruence.
  - done.
  - done.
Qed.

End Server.
