(* ===== verification/Session.v ===== *)
(** * A session, from the text a client sends to the text it gets

    A reference interpreter of the daemon's commands: a table of the operations,
    a map, and no device, messages or buffers.  The daemon on a device that does
    not run out of memory is equivalent to it. *)

From S2P Require Import Prelude Prog CStr KvIoctl KMem KvHash KLogic KvHashSpec Kvlkm KvlkmSpec.
From S2P Require Import KvDevice KvInterface Auth Daemon DaemonSem DaemonSpec Connection.

(** ** The interpreter *)

Definition all_ops : list kv_op := [OpInsert; OpUpdate; OpGet; OpDelete].

Definition op_named (word : bytes) : option kv_op :=
  snd <$> list_find (λ op, op_word op = word) all_ops.

(** What follows the key, without the blank that separates them. *)
Definition argument (rest : bytes) : bytes :=
  let value := getline rest in
  match value with
  | b :: v => if decide (b = SP) then v else value
  | [] => value
  end.

Definition text_needs_value (op : kv_op) : bytes := op_word op ++ lit " requires a value" ++ [LF].

(** The answer to [op], and the map afterwards. *)
Definition op_answer (op : kv_op) (key value : bytes) (m : gmap Z bytes) : bytes * gmap Z bytes :=
  match parse_key key with
  | Some k => (op_text op k m true, op_map op k (stored_text value) m true)
  | None => (text_bad_key, m)
  end.

(** What a command asks for, if anything. *)
Inductive request : Type :=
  | Refused (text : bytes)
  | Login (user password : bytes)
  | Save
  | Operate (op : kv_op) (key value : bytes).

Definition request_of (command : bytes) (auth : bool) : request :=
  match extract_word command with
  | None => Refused text_bad_command
  | Some (word, rest) =>
      if decide (word = lit "AUTH") then
        match extract_word rest with
        | None => Refused text_no_user
        | Some (user, rest) =>
            match extract_word rest with
            | None => Refused text_no_password
            | Some (password, _) => Login user password
            end
        end
      else if negb auth then Refused text_not_auth
      else if decide (word = lit "KV_SNAPSHOT") then Save
      else
        match extract_word rest, op_named word with
        | None, _ => Refused text_no_key
        | Some _, None => Refused (text_unknown word)
        | Some (key, rest), Some op =>
            if decide (op_needs_value op = true ∧ argument rest = []) then Refused (text_needs_value op)
            else Operate op key (argument rest)
        end
  end.

Definition command_answer (knows : bytes → bytes → bool) (command : bytes) (auth : bool)
    (m : gmap Z bytes) : bytes * bool * gmap Z bytes :=
  match request_of command auth with
  | Refused text => (text, auth, m)
  | Login user password => if knows user password then (text_ok, true, m) else (text_fail, auth, m)
  | Save => (text_snap, auth, m)
  | Operate op key value => let '(text, m) := op_answer op key value m in (text, auth, m)
  end.

(** The answers to the messages, one each, and the map they lead to. *)
Fixpoint session (knows : bytes → bytes → bool) (msgs : list bytes) (auth : bool)
    (m : gmap Z bytes) : list bytes * gmap Z bytes :=
  match msgs with
  | [] => ([], m)
  | msg :: msgs' =>
      let '(text, auth, m) := command_answer knows (upto_nul msg) auth m in
      let '(texts, m) := session knows msgs' auth m in
      (text :: texts, m)
  end.

(** A message that one [read] of the daemon takes in. *)
Definition message_ok (msg : bytes) : Prop := msg ≠ [] ∧ (length msg <= BUFFER_SIZE - 1)%nat.

(** ** The daemon *)

Lemma op_named_word op : op_named (op_word op) = Some op.
Proof. by destruct op. Qed.

Lemma op_named_None word : (∀ op, word ≠ op_word op) → op_named word = None.
Proof.
  intros Hne. unfold op_named, all_ops. cbn [list_find].
  by do 4 (rewrite decide_False by (intros Heq; by eapply Hne)).
Qed.

Lemma op_answer_size op key value m : (size (op_answer op key value m).2 <= S (size m))%nat.
Proof. unfold op_answer. destruct (parse_key key); simpl; [apply op_map_size|lia]. Qed.

Lemma command_answer_size knows command auth m :
  (size (command_answer knows command auth m).2 <= S (size m))%nat.
Proof.
  unfold command_answer. repeat case_match; simplify_eq; simpl; try lia.
  match goal with H : op_answer ?o ?k ?v ?m0 = _ |- _ =>
    pose proof (op_answer_size o k v m0) as Hs; rewrite H in Hs end.
  done.
Qed.

(** The daemon reads a command the same way, and then serves the request; some of
    the refusals it also prints. *)
Section Parse.
Context {ioc_api : IocApi}.

Definition serve (r : request) (fd : Z) (auth : bool) : dprog (bytes * bool) :=
  match r with
  | Refused text => mret (text, auth)
  | Login user password =>
      ok ← call (Authenticate user password);
      if ok : bool then mret (text_ok, true) else mret (text_fail, auth)
  | Save => _ ← do_kv_snapshot_to_file fd; mret (text_snap, auth)
  | Operate op key value => response ← do_kv_operation fd (op_code op) key value; mret (response, auth)
  end.

Lemma parse_request command fd auth :
  parse_and_handle_command command fd auth = serve (request_of command auth) fd auth ∨
  ∃ text, parse_and_handle_command command fd auth =
    (_ ← call (Print text); serve (request_of command auth) fd auth).
Proof.
  unfold parse_and_handle_command, request_of.
  destruct (extract_word command) as [[word rest]|]; [|right; by eexists].
  case_decide.
  { destruct (extract_word rest) as [[user rest']|]; [|by left].
    by destruct (extract_word rest') as [[pw ?]|]; left. }
  destruct auth; cbn [negb]; [|by left].
  case_decide; [by left|].
  destruct (extract_word rest) as [[key rest']|]; [|right; by eexists].
  cbv zeta. fold (argument rest'). generalize (argument rest'). intros value.
  destruct (decide (word = lit "KV_INSERT")) as [->|H1].
  { replace (op_named _) with (Some OpInsert) by done.
    destruct (decide (value = [])) as [->|Hv]; [right; by eexists|].
    rewrite decide_False by (by intros [_ ?]). by left. }
  destruct (decide (word = lit "KV_DELETE")) as [->|H2]; [by left|].
  destruct (decide (word = lit "KV_GET")) as [->|H3]; [by left|].
  destruct (decide (word = lit "KV_UPDATE")) as [->|H4].
  { replace (op_named _) with (Some OpUpdate) by done.
    destruct (decide (value = [])) as [->|Hv]; [right; by eexists|].
    rewrite decide_False by (by intros [_ ?]). by left. }
  rewrite op_named_None by by intros []. right. by eexists.
Qed.

End Parse.

Section Session.
Context {ioc_api : IocApi} {ioc_laws : IocLaws ioc_api}.
Context {dev : KvDevice} {dlaws : KvDeviceLaws dev} {pam : PamApi} {host : HostApi}.

Abbreviation W := (world dev).
Abbreviation rep m w := (dev_rep m (w_dev (dev := dev) w)).

(** Whom PAM knows; its state has no part in that. *)
Definition knows (user password : bytes) : bool := (authenticate user password (mk_pam 0 [])).1.

Lemma authenticate_knows user password s : (authenticate user password s).1 = knows user password.
Proof. unfold knows, authenticate. by case_decide. Qed.

Definition answers (p : dprog (bytes * bool)) (w : W) (a : bytes * bool * gmap Z bytes) : Prop :=
  dwp p w (λ r w', r = a.1 ∧ rep a.2 w' ∧ same_network w w').

Lemma answers_ret (text : bytes) (auth : bool) m (w w' : W) :
  rep m w' → same_network w w' →
  dwp (mret (text, auth)) w' (λ r w', r = (text, auth) ∧ rep m w' ∧ same_network w w').
Proof. by intros. Qed.

Lemma answers_op op fd key value (auth : bool) m (w : W) :
  ¬ dev_may_fail (dev := dev) → rep m w →
  answers (response ← do_kv_operation fd (op_code op) key value; mret (response, auth)) w
    (let '(text, m) := op_answer op key value m in (text, auth, m)).
Proof.
  intros Hfail Hrep. unfold answers, op_answer. apply dwp_bind.
  destruct (parse_key key) as [k|] eqn:Hk.
  - eapply dwp_mono; [|by apply (do_kv_operation_spec fd op key value k m w)].
    intros r w' (ok & d & Hok & -> & -> & Hd). destruct ok; [|by destruct Hfail; apply Hok].
    by apply dwp_ret.
  - unfold dwp. by rewrite do_kv_operation_bad_key.
Qed.

Lemma answers_command fd command auth m (w : W) :
  ¬ dev_may_fail (dev := dev) → rep m w → Z.of_nat (size m) < 2147483648 →
  answers (parse_and_handle_command command fd auth) w (command_answer knows command auth m).
Proof.
  intros Hfail Hrep Hs. unfold command_answer.
  assert (∀ w0 : W, same_network w w0 → rep m w0 →
    dwp (serve (request_of command auth) fd auth) w0 (λ r w',
      r = (command_answer knows command auth m).1 ∧ rep (command_answer knows command auth m).2 w' ∧
      same_network w w')) as Hserve.
  { intros w0 Hn Hrep0. unfold command_answer.
    destruct (request_of command auth) as [text|user password| |op key value]; cbn [serve].
    - by apply answers_ret.
    - apply dwp_act. cbn [dexec]. rewrite <- (authenticate_knows user password (w_pam w0)).
      destruct (authenticate user password (w_pam w0)) as [[] p]; (apply answers_ret; [done|]);
        by destruct Hn; split.
    - apply dwp_bind. eapply dwp_mono; [|by apply (snapshot_same fd m)].
      intros u w' [Hd Hn']. apply dwp_ret. split_and!; [done..|]. by etrans.
    - eapply dwp_mono; [|by apply (answers_op op fd key value auth m w0)].
      intros r w' (? & ? & ?). split_and!; [done..|]. by etrans. }
  destruct (parse_request command fd auth) as [->|(text & ->)]; [by apply Hserve|].
  apply dwp_print. apply Hserve; [by split|done].
Qed.

(** One message of a connection. *)
Lemma answers_session fd kv_fd msgs : ∀ fuel auth m (w : W),
  ¬ dev_may_fail (dev := dev) → (∀ text, 0 <= host_send text) →
  Forall message_ok msgs → (length msgs < fuel)%nat →
  Z.of_nat (size m + length msgs) < 2147483648 → rep m w → w_recv w = RecvData <$> msgs →
  dwp (handle_client_loop fuel fd kv_fd auth) w (λ _ w',
    rep (session knows msgs auth m).2 w' ∧
    w_sent w' = w_sent w ++ (session knows msgs auth m).1 ∧ w_closed w' = w_closed w).
Proof.
  induction msgs as [|msg msgs IH]; intros [|fuel] auth m w Hfail Hsend Hok Hfuel Hs Hrep Hrecv;
    try (simpl in Hfuel; lia).
  { cbn [handle_client_loop]. apply dwp_act. cbn [dexec]. rewrite Hrecv. apply dwp_call. cbn [dexec].
    cbn [session]. by rewrite app_nil_r. }
  inversion_clear Hok as [|? ? [Hne Hl] Hok']. simpl in Hfuel, Hs.
  cbn [handle_client_loop]. apply dwp_act. cbn [dexec]. rewrite Hrecv, fmap_cons.
  rewrite decide_False, take_ge, drop_ge, decide_True by (done || lia).
  apply dwp_print, dwp_bind. cbn [session].
  set (w1 := add_out _ _).
  rewrite (buffer_text msg Hl).
  eapply dwp_mono; [|apply (answers_command kv_fd (upto_nul msg) auth m w1 Hfail Hrep); lia].
  pose proof (command_answer_size knows (upto_nul msg) auth m) as Hsz.
  destruct (command_answer knows (upto_nul msg) auth m) as [[text auth'] m'].
  intros r w2 (-> & Hrep2 & Hsn). cbn [fst snd] in *. apply dwp_act. cbn [dexec].
  pose proof (Hsend text). rewrite !decide_False by lia.
  eapply dwp_mono; [|apply (IH fuel auth' m' (add_sent text w2))]; try done; [|lia|lia|].
  - intros _ w' (H1 & H2 & H3). destruct (session knows msgs auth' m') as [texts m2].
    cbn [fst snd] in *. split_and!; [done| |].
    + rewrite H2. cbn [w_sent add_sent]. rewrite (sn_sent _ _ Hsn), <- app_assoc. done.
    + rewrite H3. apply (sn_closed _ _ Hsn).
  - cbn [w_recv add_sent]. by rewrite (sn_recv _ _ Hsn).
Qed.

End Session.
