(* ===== verification/Access.v ===== *)
(** * What a client reaches before it has authenticated

    An execution of a daemon's program is the list of its actions with the
    answers it got, from the world outside, from PAM and from a device that
    other threads may be using too.  Nothing is assumed of the answers. *)

From S2P Require Import Prelude Prog CStr KvIoctl Daemon.

Inductive answered : Type :=
  | Answered {X : Type} (e : dact X) (x : X).

(** [asks p tr q]: the program [p], given the answers of [tr], goes on as [q]. *)
Inductive asks {A : Type} : dprog A → list answered → dprog A → Prop :=
  | asks_nil p : asks p [] p
  | asks_cons X (e : dact X) k x tr q :
      asks (k x) tr q → asks (Vis e k) (Answered e x :: tr) q.

(** PAM has accepted somebody. *)
Definition accepted_by_pam (tr : list answered) : Prop :=
  ∃ user password, Answered (Authenticate user password) true ∈ tr.

(** The next action touches the store or its snapshot file. *)
Definition touches_store {A : Type} (p : dprog A) : Prop :=
  match p with
  | Vis e _ =>
      match e with
      | Ioctl _ _ _ | FileOpenRead | FileOpenWrite | FileWrite _ => True
      | _ => False
      end
  | Ret _ => False
  end.

(** Up to PAM's consent the program touches nothing, and then returns in [Q]. *)
Fixpoint guarded {A : Type} (p : dprog A) (Q : A → Prop) : Prop :=
  match p with
  | Ret a => Q a
  | Vis e k =>
      match e in dact X return (X → Prop) → Prop with
      | Ioctl _ _ _ | FileOpenRead | FileOpenWrite | FileWrite _ => λ _, False
      | Authenticate _ _ => λ w, w false
      | _ => λ w, ∀ x, w x
      end (λ x, guarded (k x) Q)
  end.

Lemma guarded_mono {A : Type} (p : dprog A) (Q R : A → Prop) :
  (∀ a, Q a → R a) → guarded p Q → guarded p R.
Proof.
  intros H. induction p as [a|X e k IH]; simpl; [auto|]. destruct e; simpl; auto.
Qed.

Lemma guarded_bind {A B : Type} (p : dprog A) (f : A → dprog B) Q :
  guarded p (λ a, guarded (f a) Q) → guarded (p ≫= f) Q.
Proof.
  induction p as [a|X e k IH]; simpl; [done|].
  destruct e; simpl; try (intros H x; by apply IH, H); try done. apply IH.
Qed.

Lemma guarded_asks {A : Type} (p q : dprog A) tr Q :
  asks p tr q → guarded p Q → guarded q Q ∨ accepted_by_pam tr.
Proof.
  induction 1 as [p|X e k x tr q _ IH]; [by left|]. intros Hp.
  assert (guarded (k x) Q ∨ ∃ user password, Answered e x = Answered (Authenticate user password) true)
    as [Hk|(user & password & ->)].
  { destruct e; simpl in Hp; try (left; by apply Hp); try done.
    destruct x; [right; by exists user, password|by left]. }
  - destruct (IH Hk) as [?|(user & password & Hin)]; [by left|]. right. exists user, password.
    apply elem_of_cons. by right.
  - right. exists user, password. apply elem_of_cons. by left.
Qed.

Lemma guarded_touches {A : Type} (p : dprog A) Q : guarded p Q → ¬ touches_store p.
Proof. destruct p as [a|X e k]; simpl; [tauto|]. destruct e; simpl; tauto. Qed.

Section Functions.
Context {ioc_api : IocApi}.

(** Only PAM sets the flag of the connection. *)
Lemma guarded_parse_and_handle_command command fd :
  guarded (parse_and_handle_command command fd false) (λ r, r.2 = false).
Proof.
  unfold parse_and_handle_command. cbn [negb].
  destruct (extract_word command) as [[operation iss]|]; [|by intros []].
  case_decide; [|done]. destruct (extract_word iss) as [[user iss']|]; [|done].
  by destruct (extract_word iss') as [[pw ?]|].
Qed.

Lemma guarded_handle_client fuel client_fd kv_fd :
  guarded (handle_client fuel client_fd kv_fd) (λ _, True).
Proof.
  unfold handle_client. apply guarded_bind. apply guarded_mono with (λ _, True).
  { by intros [] _ []. }
  induction fuel as [|fuel IH]; cbn [handle_client_loop]; [by intros []|].
  intros [data| |[]]; [|by intros []|exact IH|by intros []].
  intros []. apply guarded_bind. eapply guarded_mono; [|apply guarded_parse_and_handle_command].
  intros [response auth] Hauth. simpl in Hauth. subst auth. intros w. simpl. case_decide; [by intros []|exact IH].
Qed.

End Functions.
