(* ===== verification/System.v ===== *)
(** * The daemon on the kernel: threads that share the module

    The threads of the daemon run at the same time, and each of their [ioctl]
    calls is a run of the module's code.  Here a program of the daemon is unfolded
    into the memory accesses of the kernel and the daemon's other actions; [Threads]
    lets such programs take their steps in any order.  The world outside, that
    is clients, PAM, files and the allocator of the daemon, answers as it likes;
    the state keeps a log of what it was asked and what it answered. *)

From S2P Require Import Prelude Prog CStr KvIoctl KMem KvHash KLogic KSound KvTable KvStore.
From S2P Require Import KvTrace Kvlkm.
From S2P Require Import KvlkmSpec KvDevice KvInterface Daemon Access.

(** One step of a thread: a memory access of the kernel, or an action outside. *)
Inductive sact : Type → Type :=
  | SKern {X : Type} (e : kact X) : sact X
  | SHost {X : Type} (e : dact X) : sact X.

Abbreviation sprog := (prog sact).

Inductive sfault : Type :=
  | KFault (f : fault)
  | HFault (f : dfault).

Fixpoint in_kernel {A : Type} (p : kprog A) : sprog A :=
  match p with
  | Ret a => Ret a
  | Vis e k => Vis (SKern e) (λ x, in_kernel (k x))
  end.

(** The answers of the world outside: any function of all it was asked and has
    answered before; [None] when the answer never comes. *)
Class Outside : Type := outside : list answered → ∀ X : Type, dact X → option X.

(** The kernel's state and the log of the world outside. *)
Definition sst : Type := kst * list answered.

(** What a step adds to the log. *)
Definition logged {X : Type} (e : sact X) (x : X) : list answered :=
  match e in sact X return X → list answered with
  | SKern _ => λ _, []
  | SHost e => λ x, [Answered e x]
  end x.

Section System.
Context {ioc_api : IocApi} {api : KernelApi}.
Variable store : hash_table.

(** The [ioctl] system call: the module's code on the memory of the process;
    a negative result becomes [-1]. *)
Definition sys_ioctl (cmd : Z) (arg : bytes) : sprog (Z * bytes) :=
  '(r, u) ← in_kernel (kv_ioctl store cmd (process_memory arg));
  mret (if decide (r < 0) then -1 else r, u_bytes u).

Fixpoint unfold_calls {A : Type} (p : dprog A) : sprog A :=
  match p with
  | Ret a => Ret a
  | Vis e k =>
      match e in dact X return (X → sprog A) → sprog A with
      | Ioctl _ cmd arg => λ k', sys_ioctl cmd arg ≫= k'
      | e' => λ k', Vis (SHost e') k'
      end (λ x, unfold_calls (k x))
  end.

Context {env : Outside}.

(** Waiting for the world outside, with no lock held. *)
Definition waits_outside {A : Type} (p : sprog A) : Prop :=
  match p with Vis (SHost _) _ => True | _ => False end.

(** A thread outside the kernel. *)
Definition quiet {A : Type} (p : sprog A) : Prop := is_ret p = true ∨ waits_outside p.

(** A loop of the model that has used up its fuel stops; it is no fault. *)
Definition sexec (X : Type) (e : sact X) (s : sst) : outcome sfault sst X :=
  match e with
  | SKern e =>
      match kexec _ e s.1 with
      | Done x k => Done x (k, s.2)
      | Blocked => Blocked
      | Faulted f => Faulted (KFault f)
      end
  | SHost e =>
      match e with
      | DTrap DOutOfFuel => Blocked
      | DTrap f => Faulted (HFault f)
      | _ =>
          match outside s.2 _ e with
          | Some x => Done x (s.1, s.2 ++ [Answered e x])
          | None => Blocked
          end
      end
  end.

End System.

(** What happens to a thread: an event on the map, or an answer from outside. *)
Abbreviation happening := (event + answered)%type.

(** The same as the kernel sees it: a critical section, or an answer. *)
Abbreviation deed := (commit + answered)%type.

(** ** A logic for one thread of the daemon

    [answer_ok e x]: what the standard library and the kernel's other system
    calls promise about the answer [x]: a read fits the buffer, an allocation has
    its size.  The snapshot file is a parameter: [file_ok]. *)

Section Logic.
Context {ioc_api : IocApi} {api : KernelApi}.
Variable nbits : Z.
Variable file_ok : bytes → Prop.

Definition answer_ok {X : Type} (e : dact X) : X → Prop :=
  match e in dact X return X → Prop with
  | Recv _ n => λ a, match a with RecvData data => (length data <= n)%nat | _ => True end
  | Calloc n => λ b, ∀ buf, b = Some buf → buf = zeros (Z.to_nat n)
  | Malloc n => λ b, ∃ buf, b = Some buf ∧ length buf = Z.to_nat n
  | FileOpenRead => λ b, ∀ data, b = Some data → file_ok data
  | _ => λ _, True
  end.

(** What one action needs, and what may be assumed after it.  An [ioctl] needs
    a request the module's handlers can rely on, and its reply is that of some
    trace of events. *)
Definition act_safe {X : Type} (e : dact X) : (X → Prop) → Prop :=
  match e in dact X return (X → Prop) → Prop with
  | Ioctl _ cmd arg => λ Φ,
      request_ok cmd (process_memory arg) ∧
      ∀ es r u, ioctl_trace nbits cmd (process_memory arg) es (r, u) →
        Φ (if decide (r < 0) then -1 else r, u_bytes u)
  | DTrap f => λ _, f = DOutOfFuel
  | e => λ Φ, ∀ x, answer_ok e x → Φ x
  end.

(** Whatever it is answered, the program never faults and returns in [Q]. *)
Fixpoint dsafe {A : Type} (p : dprog A) (Q : A → Prop) : Prop :=
  match p with
  | Ret a => Q a
  | Vis e k => act_safe e (λ x, dsafe (k x) Q)
  end.

(** ** The abstract thread

    [partial p hs q]: an execution of [p] so far, in which each [ioctl] is a
    sequence of atomic events on a map, as [ioctl_trace] has it, and the rest is
    answered from outside; [hs] are its events and the answers, in order, and [q] is
    what is left of the program. *)

Definition asks_outside {X : Type} (e : dact X) : bool :=
  match e with Ioctl _ _ _ => false | _ => true end.

(** The program has returned, or its next action is for the world outside. *)
Definition at_rest {A : Type} (p : dprog A) : bool :=
  match p with Ret _ => true | Vis e _ => asks_outside e end.

Inductive partial {A : Type} : dprog A → list happening → dprog A → Prop :=
  | partial_nil p : partial p [] p
  | partial_ioctl fd cmd arg k es r u hs q :
      ioctl_trace nbits cmd (process_memory arg) es (r, u) →
      partial (k (if decide (r < 0) then -1 else r, u_bytes u)) hs q →
      partial (Vis (Ioctl fd cmd arg) k) ((inl <$> es) ++ hs) q
  | partial_ask X (e : dact X) k x hs q :
      asks_outside e = true → answer_ok e x → partial (k x) hs q →
      partial (Vis e k) (inr (Answered e x) :: hs) q.

Lemma partial_app {A : Type} (p q r : dprog A) hs hs' :
  partial p hs q → partial q hs' r → partial p (hs ++ hs') r.
Proof.
  intros Hp Hq. induction Hp as [p|fd cmd arg k es r0 u hs q Htr _ IH|X e k x hs q He Hx _ IH]; [done| |].
  - rewrite <- app_assoc. eapply partial_ioctl; [done|]. by apply IH.
  - apply partial_ask; [done..|]. by apply IH.
Qed.

Lemma act_safe_mono {X : Type} (e : dact X) (Φ Ψ : X → Prop) :
  (∀ x, Φ x → Ψ x) → act_safe e Φ → act_safe e Ψ.
Proof. intros H. destruct e; simpl; try (by eauto). intros [? ?]. split; eauto. Qed.

Lemma dsafe_mono {A : Type} (p : dprog A) (Q R : A → Prop) :
  (∀ a, Q a → R a) → dsafe p Q → dsafe p R.
Proof.
  intros H. induction p as [a|X e k IH]; simpl; [auto|]. apply act_safe_mono. intros x. apply IH.
Qed.

Lemma dsafe_bind {A B : Type} (p : dprog A) (f : A → dprog B) Q :
  dsafe p (λ a, dsafe (f a) Q) → dsafe (p ≫= f) Q.
Proof.
  induction p as [a|X e k IH]; simpl; [done|]. apply act_safe_mono. intros x. apply IH.
Qed.

Lemma dsafe_act {A X : Type} (e : dact X) (f : X → dprog A) Q :
  act_safe e (λ x, dsafe (f x) Q) → dsafe (call e ≫= f) Q.
Proof. done. Qed.

Lemma dsafe_print {A : Type} text (f : unit → dprog A) Q :
  dsafe (f tt) Q → dsafe (call (Print text) ≫= f) Q.
Proof. intros Hf. by intros [] _. Qed.

End Logic.

(** ** Soundness *)

Section Sound.
Context {ioc_api : IocApi} {ioc_laws : IocLaws ioc_api}.
Context {api : KernelApi} {laws : KernelLaws api} {env : Outside}.
Variables (pb pl : addr) (nbits : Z) (F : heap) (file_ok : bytes → Prop).
Hypothesis nbits_range : 1 <= nbits <= 31.

(** The world outside keeps its promises. *)
Definition outside_ok : Prop :=
  ∀ n X (e : dact X) x, outside n X e = Some x → answer_ok file_ok e x.

Abbreviation store := (mk_ht (Some pb) (Some pl) nbits).
Abbreviation dsafe := (dsafe nbits file_ok).

(** [R] relates what is left of the program at every point where the thread waits
    for an answer from outside, or has returned, to what it has done and been
    answered; it is idle then. *)
Fixpoint swp {A : Type} (R : sprog A → list deed → Prop) (p : sprog A) (t : tst)
    (tr : list deed) : Prop :=
  match p with
  | Ret _ => idle t ∧ R p tr
  | Vis e k =>
      match e in sact X return (X → tst → list deed → Prop) → Prop with
      | SKern e => λ w, act_wp pb pl nbits e t (λ x t',
          ∀ cs, t_hist t' = t_hist t ++ cs → w x t' (tr ++ (inl <$> cs)))
      | SHost e => λ w, (idle t ∧ R p tr) ∧
          match e in dact X return (X → tst → list deed → Prop) → Prop with
          | DTrap f => λ _, f = DOutOfFuel
          | e' => λ w, ∀ x, answer_ok file_ok e' x → w x t (tr ++ [inr (Answered e' x)])
          end w
      end (λ x t' tr', swp R (k x) t' tr')
  end.

(** The critical sections of a run of kernel code are one part of the thread's. *)
Lemma swp_kernel {A B C : Type} R (p : kprog A) (f : A → sprog B) (g : B → sprog C) t tr :
  kwp pb pl nbits p (λ a t',
    ∀ cs, t_hist t' = t_hist t ++ cs → swp R (f a ≫= g) t' (tr ++ (inl <$> cs))) t →
  swp R ((in_kernel p ≫= f) ≫= g) t tr.
Proof.
  revert t tr. induction p as [a|X e k IH]; intros t tr; simpl.
  { intros H. rewrite <- (app_nil_r tr). apply (H []). by rewrite app_nil_r. }
  apply act_wp_mono. intros x t' Hk cs Hcs. apply IH. eapply kwp_mono; [|exact Hk].
  intros a t2 H cs2 Hcs2. rewrite <- app_assoc, <- fmap_app. apply H. by rewrite Hcs2, Hcs, app_assoc.
Qed.

Lemma swp_quiet {A : Type} R (p : sprog A) t tr : swp R p t tr → quiet p → idle t ∧ R p tr.
Proof. destruct p as [a|X [Y e|Y e] k]; simpl; [tauto| |tauto]. by intros _ [|]. Qed.

(** The event is what the critical section did; the answer is the answer. *)
Definition explains (h : happening) (x : deed) : Prop :=
  match h, x with
  | inl e, inl c => commit_event nbits e c
  | inr a, inr a' => a = a'
  | _, _ => False
  end.

(** The thread has come as far in [d] as its critical sections and answers say. *)
Definition follows {A : Type} (d : dprog A) (p : sprog A) (tr : list deed) : Prop :=
  ∃ hs q, Forall2 explains hs tr ∧ partial nbits file_ok d hs q ∧ at_rest q = true ∧
    p = unfold_calls store q.

(** A thread of the daemon owns and holds nothing of the kernel's between its
    calls. *)
Lemma dsafe_swp {A : Type} (d p : dprog A) (Q : A → Prop) hs t tr :
  dsafe p Q → idle t → Forall2 explains hs tr → partial nbits file_ok d hs p →
  swp (follows d) (unfold_calls store p) t tr.
Proof.
  revert hs t tr. induction p as [a|X e k IH]; intros hs t tr Hs Hidle Hhs Hd.
  { split; [done|]. by exists hs, (Ret a). }
  assert (asks_outside e = true → follows d (unfold_calls store (Vis e k)) tr) as Hf
    by by exists hs, (Vis e k).
  assert (∀ x, asks_outside e = true → answer_ok file_ok e x → dsafe (k x) Q →
    swp (follows d) (unfold_calls store (k x)) t (tr ++ [inr (Answered e x)])) as Hask.
  { intros x He Hx Hk. eapply (IH x (hs ++ [inr (Answered e x)])); [done..| |].
    - apply Forall2_app; [done|]. by repeat constructor.
    - eapply partial_app; [done|]. apply partial_ask; [done..|]. apply partial_nil. }
  pose proof Hidle as [Hh Ht].
  destruct e; simpl in Hs |- *; try (split; [by auto|]; intros x Hx; apply Hask; auto; fail).
  - destruct Hs as [Hreq Hreply]. unfold sys_ioctl. apply swp_kernel.
    eapply kwp_mono; [|apply (trace_ioctl pb pl nbits nbits_range cmd (process_memory arg) Hreq); exact Ht].
    intros [r u] t' (es' & H & -> & Hes' & Htr) cs Hcs. apply app_inv_head in Hcs as <-.
    eapply (IH _ (hs ++ (inl <$> es'))); [by eapply Hreply|by rewrite Hh| |].
    + apply Forall2_app; [done|]. by apply Forall2_fmap.
    + eapply partial_app; [done|]. rewrite <- (app_nil_r (inl <$> es')).
      eapply partial_ioctl; [done|]. apply partial_nil.
  - split; [by auto|done].
Qed.

(** One action of a thread whose precondition holds. *)
Definition sact_post {X : Type} (L0 : list (list node)) (ts : list tst) G j t tr (e : sact X)
    (w : X → tst → list deed → Prop) (s : sst) (r : outcome sfault sst X) : Prop :=
  match r with
  | Done x s' => s'.2 = s.2 ++ logged e x ∧
      ∃ t' L' cs, w x t' (tr ++ (inl <$> cs) ++ (inr <$> logged e x)) ∧
        pool_table pb pl nbits F L0 (<[j := t']> ts) L' (G ++ (pair j <$> cs)) s'.1
  | Blocked =>
      match e with
      | SKern _ => t_held t = None ∧ ∃ j' t', ts !! j' = Some t' ∧ t_held t' ≠ None
      | SHost _ => idle t
      end
  | Faulted _ => False
  end.

Lemma sact_sound {A X : Type} L0 ts L G s j t tr (e : sact X) (k : X → sprog A) R :
  outside_ok → pool_table pb pl nbits F L0 ts L G s.1 → ts !! j = Some t → swp R (Vis e k) t tr →
  sact_post L0 ts G j t tr e (λ x t' tr', swp R (k x) t' tr') s (sexec X e s).
Proof.
  intros Henv Htab Ht Hwp. destruct e as [X e|X e]; simpl in Hwp.
  - pose proof (act_sound pb pl nbits F ts L s.1 j t e _ (pt_ginv _ _ _ _ _ _ _ _ _ Htab) Ht Hwp) as Hact.
    cbn [sexec]. destruct (kexec X e s.1) as [x s1| |]; [|done..].
    destruct (pool_table_step _ _ _ _ _ _ _ _ _ _ _ _ _ _ Htab Ht Hact) as (t1 & L1 & cs & HQ & Hcs & Htab').
    cbn [sact_post logged fst snd]. rewrite !app_nil_r. split; [done|]. exists t1, L1, cs.
    cbn [fmap list_fmap]. rewrite app_nil_r. split; [by apply HQ|done].
  - destruct Hwp as [[Hheld _] Hw].
    assert (∀ x : X, (∀ x, answer_ok file_ok e x → swp R (k x) t (tr ++ [inr (Answered e x)])) →
      outside s.2 X e = Some x →
      sact_post L0 ts G j t tr (SHost e) (λ x t' tr', swp R (k x) t' tr') s
        (Done x (s.1, s.2 ++ [Answered e x]))) as Hgo.
    { intros x Hk Hx. split; [done|]. exists t, L, []. rewrite list_insert_id by done.
      cbn [fmap list_fmap app fst]. rewrite app_nil_r. split; [|done]. apply Hk. by eapply Henv. }
    destruct e; cbn [sexec]; try (destruct (outside _ _ _) eqn:Hx; [by apply Hgo|done]; fail).
    by subst f.
Qed.

End Sound.
