(* ===== verification/Threads.v ===== *)
(** * The threads of the daemon

    The daemon starts as one thread, [main].  Its accept loop starts a thread for
    every client ([SpawnClient]), which joins the others at once; all of them take
    their steps in any order. *)

From S2P Require Import Prelude Prog Timeline CStr KvIoctl KMem KvHash KLogic KSound KvTable.
From S2P Require Import KvStore.
From S2P Require Import KvTrace Kvlkm KvlkmSpec KvDevice KvInterface Daemon Access System.

(** The sockets of the clients for whom a thread was started, and the device
    they were given. *)
Definition spawned (a : answered) : list (Z * Z) :=
  match a with
  | @Answered X e x => match e with SpawnClient client_fd kv_fd => [(client_fd, kv_fd)] | _ => [] end
  end.

Definition spawns (log : list answered) : list (Z * Z) := log ≫= spawned.

Lemma spawns_app log log' : spawns (log ++ log') = spawns log ++ spawns log'.
Proof. apply bind_app. Qed.

(** ** Steps *)

Section Steps.
Context {ioc_api : IocApi} {api : KernelApi} {env : Outside}.
Variables (store : hash_table) (client_fuel : nat).

(** What the new thread runs. *)
Definition client_thread (x : Z * Z) : dprog unit := handle_client client_fuel x.1 x.2.

Inductive sys_step : list (sprog unit) * sst → list (sprog unit) * sst → Prop :=
  | sys_step_thread ps s j X (e : sact X) k x s' :
      ps !! j = Some (Vis e k) → sexec X e s = Done x s' →
      sys_step (ps, s)
        (<[j := k x]> ps ++ (unfold_calls store <$> (client_thread <$> spawns (logged e x))), s').

(** An executable scheduler: the threads in turn, from number [j] on, those that
    wait or have returned left out. *)
Fixpoint run_system (fuel j : nat) (ps : list (sprog unit)) (s : sst) : list (sprog unit) * sst :=
  match fuel with
  | O => (ps, s)
  | S fuel' =>
      match ps !! j with
      | Some (@Vis _ _ X e k) =>
          match sexec X e s with
          | Done x s' =>
              run_system fuel' (S j)
                (<[j := k x]> ps ++ (unfold_calls store <$> (client_thread <$> spawns (logged e x)))) s'
          | _ => run_system fuel' (S j) ps s
          end
      | Some (Ret _) => run_system fuel' (S j) ps s
      | None => run_system fuel' 0 ps s
      end
  end.

Lemma run_system_steps fuel j ps s : rtc sys_step (ps, s) (run_system fuel j ps s).
Proof.
  revert j ps s. induction fuel as [|fuel IH]; intros j ps s; [constructor|]. cbn [run_system].
  destruct (ps !! j) as [[a|X e k]|] eqn:Hj; try apply IH.
  destruct (sexec X e s) as [x s'| |] eqn:He; try apply IH.
  eapply rtc_l; [by econstructor|]. apply IH.
Qed.

(** An execution, with the answers from outside and the threads that got them. *)
Inductive sys_run (c0 : list (sprog unit) * sst)
    : list (nat * answered) → list (sprog unit) * sst → Prop :=
  | run_start : sys_run c0 [] c0
  | run_thread GA ps s j X e k x s' :
      sys_run c0 GA (ps, s) → ps !! j = Some (Vis e k) → sexec X e s = Done x s' →
      sys_run c0 (GA ++ (pair j <$> logged e x))
        (<[j := k x]> ps ++ (unfold_calls store <$> (client_thread <$> spawns (logged e x))), s').

Lemma steps_run c0 c : rtc sys_step c0 c → ∃ GA, sys_run c0 GA c.
Proof.
  revert c. apply rtc_ind_r; [exists []; constructor|].
  intros c c' _ Hstep [GA Hrun]. destruct Hstep as [ps s j X e k x s' Hj He]. eexists. by econstructor.
Qed.

Lemma run_steps c0 GA c : sys_run c0 GA c → rtc sys_step c0 c.
Proof. induction 1; [constructor|]. eapply rtc_r; [done|]. by econstructor. Qed.

(** *** Every execution ends

    A client's thread starts no other, so the number of threads that are still to
    come is bounded by what is left of [main]. *)

Definition no_spawn (X : Type) (e : dact X) : Prop :=
  match e with SpawnClient _ _ => False | _ => True end.

Definition starts_none (X : Type) (e : sact X) : Prop :=
  match e with SKern _ => True | SHost e => no_spawn _ e end.

Lemma all_acts_kernel {A B C : Type} (p : kprog A) (f : A → sprog B) (g : B → sprog C) :
  (∀ a, all_acts starts_none (f a ≫= g)) → all_acts starts_none ((in_kernel p ≫= f) ≫= g).
Proof. intros Hf. induction p as [a|X e k IH]; [by apply Hf|]. by split. Qed.

Lemma all_acts_unfold {A : Type} (d : dprog A) :
  all_acts no_spawn d → all_acts starts_none (unfold_calls store d).
Proof.
  induction d as [a|X e k IH]; [done|]. intros [He Hk].
  destruct e; try (split; [done|]; intros x; by apply IH).
  apply all_acts_kernel. intros [r u]. by apply IH.
Qed.

Lemma starts_none_logged {X : Type} (e : sact X) x : starts_none X e → spawns (logged e x) = [].
Proof. destruct e as [X e|X e]; [done|]. by destruct e. Qed.

Lemma sys_step_acc_main (p0 : sprog unit) :
  (∀ x, all_acts no_spawn (client_thread x)) →
  ∀ ps, Forall (all_acts starts_none) ps → ∀ s, Acc (flip sys_step) (p0 :: ps, s).
Proof.
  intros Hnew. induction p0 as [a|Y e0 k0 IH0]; intros ps Hps;
    induction (pool_sub_acc ps) as [ps _ IH]; intros s; constructor; intros [qs s'] Hstep;
    inversion Hstep as [? ? j X e k x ? Hj He]; subst.
  - destruct j as [|j]; [done|]. cbn [lookup list_lookup] in Hj.
    pose proof (Forall_lookup_1 _ _ _ _ Hps Hj) as [Hn Hk].
    rewrite (starts_none_logged e x Hn). cbn [fmap list_fmap]. rewrite app_nil_r. apply IH.
    + exists j, (Vis e k), (k x). split_and!; [done|by exists x|done].
    + by apply Forall_insert.
  - destruct j as [|j]; cbn [lookup list_lookup] in Hj.
    + cbn [insert list_insert app].
      assert (from_option (prog_sub (k x)) True (Some (Vis e k))) as Hsub by by exists x.
      rewrite <- Hj in Hsub. destruct Hsub as [x' ->].
      apply IH0, Forall_app. split; [done|]. apply Forall_fmap, Forall_fmap, Forall_forall.
      intros y _. by apply all_acts_unfold.
    + pose proof (Forall_lookup_1 _ _ _ _ Hps Hj) as [Hn Hk].
      rewrite (starts_none_logged e x Hn). cbn [fmap list_fmap]. rewrite app_nil_r. apply IH.
      * exists j, (Vis e k), (k x). split_and!; [done|by exists x|done].
      * by apply Forall_insert.
Qed.

End Steps.

(** ** Invariants of the pool *)

Section Pool.
Context {ioc_api : IocApi} {ioc_laws : IocLaws ioc_api}.
Context {api : KernelApi} {laws : KernelLaws api} {env : Outside}.
Variables (pb pl : addr) (nbits : Z) (F : heap) (file_ok : bytes → Prop).
Hypothesis nbits_range : 1 <= nbits <= 31.
Variables (client_fuel : nat) (d0 : dprog unit).

Abbreviation store := (mk_ht (Some pb) (Some pl) nbits).
Abbreviation step := (sys_step store client_fuel).
Abbreviation client := (client_thread client_fuel).

(** The programs of the threads there are after [log]. *)
Definition programs (log : list answered) : list (dprog unit) := d0 :: (client <$> spawns log).

Definition start (k : kst) : list (sprog unit) * sst := ([unfold_calls store d0], (k, [])).

Hypothesis main_safe : dsafe nbits file_ok d0 (λ _, True).
Hypothesis client_safe : ∀ x, dsafe nbits file_ok (client x) (λ _, True).
Hypothesis client_starts_none : ∀ x, all_acts no_spawn (client x).
Hypothesis env_ok : outside_ok file_ok.

Abbreviation follows := (follows pb pl nbits file_ok).
Abbreviation swp := (swp pb pl nbits file_ok).

Lemma programs_app log log' : programs (log ++ log') = programs log ++ (client <$> spawns log').
Proof. unfold programs. by rewrite spawns_app, fmap_app. Qed.

(** [H] has the critical sections of the threads and the answers they got, in the
    order in which they happened. *)
Record sys_inv_at (L0 : list (list node)) (c : list (sprog unit) * sst) (ts : list tst)
    (L : list (list node)) (H : list (nat * deed)) : Prop := {
  si_table : pool_table pb pl nbits F L0 ts L (left_part H) c.2.1;
  si_threads : length ts = length c.1;
  si_programs : length (programs c.2.2) = length c.1;
  si_log : snd <$> right_part H = c.2.2;
  si_tags x : x ∈ H → (x.1 < length c.1)%nat;
  si_wp j p t d : c.1 !! j = Some p → ts !! j = Some t → programs c.2.2 !! j = Some d →
    swp (follows d) p t (thread_events j H);
}.

(** [GA] is the log with the thread that asked. *)
Definition sys_inv_log L0 GA c : Prop := ∃ ts L H, sys_inv_at L0 c ts L H ∧ right_part H = GA.

Definition sys_inv L0 c : Prop := ∃ GA, sys_inv_log L0 GA c.

(** A thread at its start. *)
Lemma swp_start (d : dprog unit) :
  dsafe nbits file_ok d (λ _, True) → swp (follows d) (unfold_calls store d) idle_thread [].
Proof.
  intros Hd. apply (dsafe_swp pb pl nbits file_ok nbits_range d d (λ _, True) []);
    [done|done|by constructor|apply partial_nil].
Qed.

Lemma sys_inv_start L k : ginv pb pl nbits F [] L k → sys_inv_log L [] (start k).
Proof.
  intros Hg. exists [idle_thread], L, []. split; [|done]. split; cbn [fst snd start]; [|done..| |].
  - by apply (pool_table_init pb pl nbits F L k 1).
  - by intros x ?%not_elem_of_nil.
  - intros [|j] p t d; [|done]. intros [= <-] [= <-] [= <-]. by apply swp_start.
Qed.

Lemma sys_thread L0 c ts L H j p :
  sys_inv_at L0 c ts L H → c.1 !! j = Some p →
  ∃ t d, ts !! j = Some t ∧ programs c.2.2 !! j = Some d ∧ swp (follows d) p t (thread_events j H).
Proof.
  intros Hp Hj. pose proof (lookup_lt_Some _ _ _ Hj) as Hlt.
  destruct (lookup_lt_is_Some_2 ts j) as [t Ht]; [by rewrite (si_threads _ _ _ _ _ Hp)|].
  destruct (lookup_lt_is_Some_2 (programs c.2.2) j) as [d Hd]; [by rewrite (si_programs _ _ _ _ _ Hp)|].
  exists t, d. split_and!; [done..|]. by eapply (si_wp _ _ _ _ _ Hp).
Qed.

Lemma lookup_grown {A : Type} (l l' : list A) j x :
  (l ++ l') !! j = Some x → (j < length l)%nat ∧ l !! j = Some x ∨ (length l <= j)%nat ∧ l' !! (j - length l)%nat = Some x.
Proof.
  intros [Hj|[? Hj]]%lookup_app_Some; [left|by right]. split; [by eapply lookup_lt_Some|done].
Qed.

Lemma sys_thread_inv L0 GA ps s j X e k x s1 :
  sys_inv_log L0 GA (ps, s) → ps !! j = Some (Vis e k) → sexec X e s = Done x s1 →
  sys_inv_log L0 (GA ++ (pair j <$> logged e x))
    (<[j := k x]> ps ++ (unfold_calls store <$> (client <$> spawns (logged e x))), s1).
Proof.
  intros (ts & L & H & Hp & <-) Hj Hs.
  destruct (sys_thread _ _ _ _ _ _ _ Hp Hj) as (t & d & Ht & Hd & Hwp).
  destruct Hp as [Htab Hlen Hprog Hlog Htags Hall]. cbn [fst snd] in *.
  pose proof (sact_sound pb pl nbits F file_ok L0 ts L _ s j t _ e k _ env_ok Htab Ht Hwp) as Hact.
  rewrite Hs in Hact. destruct Hact as (Hs1 & t1 & L1 & cs & HQ & Htab').
  set (new := spawns (logged e x)). pose proof (lookup_lt_Some _ _ _ Hj) as Hjlt.
  exists (<[j := t1]> ts ++ replicate (length new) idle_thread), L1,
    (H ++ (pair j <$> (inl <$> cs) ++ (inr <$> logged e x))).
  assert (right_part (H ++ (pair j <$> (inl <$> cs) ++ (inr <$> logged e x))) =
    right_part H ++ (pair j <$> logged e x)) as Hright.
  { rewrite right_part_app, right_part_pair. by autorewrite with kv. }
  split; [|done]. split; cbn [fst snd].
  - rewrite left_part_app, left_part_pair. autorewrite with kv. rewrite app_nil_r. by apply pool_table_born.
  - by rewrite !length_app, !length_insert, !length_fmap, length_replicate, Hlen.
  - by rewrite Hs1, programs_app, !length_app, length_insert, !length_fmap, Hprog.
  - rewrite Hright, fmap_app, Hlog, Hs1, <- list_fmap_compose. f_equal. apply list_fmap_id.
  - intros y [Hy%Htags|Hy]%elem_of_app; rewrite length_app, length_insert; [lia|].
    apply list_elem_of_fmap in Hy as (a & -> & _). simpl. lia.
  - intros j1 p1 t2 d1. rewrite Hs1, programs_app, thread_events_app, thread_events_pair.
    intros H1%lookup_grown H2%lookup_grown H3%lookup_grown. rewrite !length_insert in *.
    destruct H1 as [[Hlt H1]|[Hge H1]], H2 as [[Hlt2 H2]|[Hge2 H2]], H3 as [[Hlt3 H3]|[Hge3 H3]]; try lia.
    + destruct (decide (j1 = j)) as [->|Hne].
      * rewrite list_lookup_insert_eq in H1 by lia. rewrite list_lookup_insert_eq in H2 by lia. by simplify_eq.
      * rewrite list_lookup_insert_ne in H1 by done. rewrite list_lookup_insert_ne in H2 by done.
        rewrite app_nil_r. eauto.
    + rewrite decide_False, app_nil_r by lia.
      rewrite thread_events_nil by (intros y Hy%Htags; lia).
      apply lookup_replicate in H2 as [-> _]. rewrite list_lookup_fmap in H1.
      rewrite Hprog in H3. fold new in H3. rewrite H3 in H1. injection H1 as <-.
      apply list_lookup_fmap_Some in H3 as (y & -> & _). by apply swp_start.
Qed.

Lemma sys_run_inv L0 k GA c :
  ginv pb pl nbits F [] L0 k → sys_run store client_fuel (start k) GA c → sys_inv_log L0 GA c.
Proof.
  intros Hg. remember (start k) as c0 eqn:Hc0.
  induction 1; subst; [by apply sys_inv_start|eapply sys_thread_inv; eauto].
Qed.

Lemma sys_step_inv L0 c c' : sys_inv L0 c → step c c' → sys_inv L0 c'.
Proof. intros [GA Hp] Hstep. destruct Hstep. eexists. by eapply sys_thread_inv. Qed.

Lemma sys_steps_inv L0 c c' : sys_inv L0 c → rtc step c c' → sys_inv L0 c'.
Proof. intros Hp. induction 1; eauto using sys_step_inv. Qed.

Lemma sys_no_fault L0 c : sys_inv L0 c → ¬ pool_faults sexec c.
Proof.
  intros (GA & ts & L & H & Hp & _) (j & p & f & Hj & Hs).
  destruct (sys_thread _ _ _ _ _ _ _ Hp Hj) as (t & d & Ht & Hd & Hwp).
  destruct p as [a|X e k]; [done|]. simpl in Hs.
  pose proof (sact_sound pb pl nbits F file_ok L0 ts L _ c.2 j t _ e k _ env_ok (si_table _ _ _ _ _ Hp) Ht Hwp)
    as Hact.
  by destruct (sexec X e c.2).
Qed.

Definition can_step (s : sst) (p : sprog unit) : bool :=
  match p with
  | Vis e _ => match sexec _ e s with Done _ _ => true | _ => false end
  | Ret _ => false
  end.

(** The thread that holds a lock can go on. *)
Lemma sys_holder_steps L0 c ts L H j p t :
  sys_inv_at L0 c ts L H → c.1 !! j = Some p → ts !! j = Some t → t_held t ≠ None → can_step c.2 p = true.
Proof.
  intros Hp Hj Ht Hheld. destruct (sys_thread _ _ _ _ _ _ _ Hp Hj) as (t' & d & Ht' & Hd & Hwp). simplify_eq.
  destruct p as [a|X e k]; [by destruct Hheld; apply Hwp|].
  pose proof (sact_sound pb pl nbits F file_ok L0 ts L _ c.2 j t _ e k _ env_ok (si_table _ _ _ _ _ Hp) Ht Hwp)
    as Hact.
  unfold can_step. destruct (sexec X e c.2); [done| |done]. by destruct e; destruct Hact.
Qed.

(** Nobody waits for a lock for ever: when no thread can step, every thread has
    returned or waits for an answer from outside. *)
Lemma sys_progress L0 c : sys_inv L0 c → (∃ c', step c c') ∨ Forall quiet c.1.
Proof.
  intros (GA & ts & L & H & Hp & _).
  destruct (decide (Exists (λ p, can_step c.2 p = true) c.1)) as [Hex|Hnone].
  - left. apply Exists_exists in Hex as (p & [j Hj]%list_elem_of_lookup & Hs).
    destruct p as [a|X e k]; [done|]. unfold can_step in Hs.
    destruct (sexec X e c.2) as [x s'| |] eqn:He; try done.
    destruct c as [ps s]. eexists. by econstructor.
  - right. apply Forall_lookup. intros j p Hj.
    assert (∀ j' p', c.1 !! j' = Some p' → can_step c.2 p' ≠ true) as Hno.
    { intros j' p' Hj' Hs. apply Hnone, Exists_exists. exists p'. split; [|done].
      by eapply list_elem_of_lookup_2. }
    destruct (sys_thread _ _ _ _ _ _ _ Hp Hj) as (t & d & Ht & Hd & Hwp).
    destruct p as [a|X [Y e|Y e] k]; [by left| |by right].
    pose proof (sact_sound pb pl nbits F file_ok L0 ts L _ c.2 j t _ _ k _ env_ok (si_table _ _ _ _ _ Hp) Ht Hwp)
      as Hact.
    destruct (Hno _ _ Hj). unfold can_step. destruct (sexec Y (SKern e) c.2); [done| |done].
    destruct Hact as (_ & j' & t' & Ht' & Hheld).
    destruct (lookup_lt_is_Some_2 c.1 j') as [p' Hj'].
    { rewrite <- (si_threads _ _ _ _ _ Hp). by eapply lookup_lt_Some. }
    destruct (Hno _ _ Hj'). by eapply sys_holder_steps.
Qed.

Lemma sys_inevitable k c :
  (∃ L, ginv pb pl nbits F [] L k) → rtc step (start k) c → inevitably step (λ c, Forall quiet c.1) c.
Proof.
  intros [L Hg] Hsteps. apply (inevitably_intro _ _ (sys_inv L)).
  - assert (Acc (flip step) (start k)) as Hacc by by apply sys_step_acc_main.
    induction Hsteps as [|c1 c2 c3 H12 _ IH]; [done|]. apply IH. by apply (Acc_inv Hacc).
  - eapply sys_steps_inv; [eexists; by apply sys_inv_start|done].
  - intros c1 c2. apply sys_step_inv.
  - apply sys_progress.
Qed.

Lemma explains_parts hs tr :
  Forall2 (explains nbits) hs tr → Forall2 (commit_event nbits) (lefts hs) (lefts tr) ∧ rights hs = rights tr.
Proof.
  induction 1 as [|h x hs tr Hx _ [IHl IHr]]; [by split; constructor|]. destruct h as [e|a], x as [c|a']; simpl in Hx; try done.
  - split; [by constructor|done].
  - subst a'. split; [done|]. cbn. by f_equal.
Qed.

Lemma tagged_right_part H H' : tagged (explains nbits) H H' → right_part H = right_part H'.
Proof.
  induction 1 as [|[j h] [j' x] H H' [Hj Hx] _ IH]; [done|]. simpl in Hj. subst j'.
  destruct h as [e|a], x as [c|a']; simpl in Hx; try done. subst a'. cbn. by f_equal.
Qed.

(** With every thread outside the kernel, what all the threads have done to the map
    and were answered is one sequence: its events lead from the map at the start to
    the map of the table, which is all there is, and the part of each thread is an
    execution of its program up to where it is now. *)
Lemma sys_quiet L0 GA c :
  table_ok nbits L0 → sys_inv_log L0 GA c → Forall quiet c.1 →
  ∃ H m', events_run nbits (lefts (snd <$> H)) (table_map L0) m' ∧ store_rep pb pl nbits F m' c.2.1 ∧
    right_part H = GA ∧ snd <$> GA = c.2.2 ∧ (∀ x, x ∈ H → (x.1 < length c.1)%nat) ∧
    length c.1 = length (programs c.2.2) ∧
    ∀ j d, programs c.2.2 !! j = Some d →
      ∃ q, partial nbits file_ok d (thread_events j H) q ∧ at_rest q = true ∧
        c.1 !! j = Some (unfold_calls store q).
Proof.
  intros HL0 (ts & L & H & Hp & HGA) Hq. pose proof Hp as [[Hg Hrep _ _] Hlt Hlen Hlog Htags _].
  assert (∀ j p t, c.1 !! j = Some p → ts !! j = Some t → idle t ∧
    ∃ hs, Forall2 (explains nbits) hs (thread_events j H) ∧ ∀ d, programs c.2.2 !! j = Some d →
      ∃ q, partial nbits file_ok d hs q ∧ at_rest q = true ∧ c.1 !! j = Some (unfold_calls store q)) as Hall.
  { intros j p t Hj Ht. destruct (sys_thread _ _ _ _ _ _ _ Hp Hj) as (t' & d & Ht' & Hd & Hwp). simplify_eq.
    pose proof (Forall_lookup_1 _ _ _ _ Hq Hj) as Hquiet.
    eapply swp_quiet in Hwp as [Hidle (hs & q & Hhs & Hpart & Hrest & ->)]; [|done..].
    split; [done|]. exists hs. split; [done|]. intros d' Hd'. simplify_eq. by exists q. }
  destruct (merge_threads (explains nbits) (λ j hs, ∀ d, programs c.2.2 !! j = Some d →
    ∃ q, partial nbits file_ok d hs q ∧ at_rest q = true ∧ c.1 !! j = Some (unfold_calls store q))
    H (length c.1) Htags) as (HE & HHE & Hj).
  { intros j Hjl. destruct (lookup_lt_is_Some_2 c.1 j Hjl) as [p Hj].
    destruct (lookup_lt_is_Some_2 ts j) as [t Ht]; [by rewrite Hlt|]. by destruct (Hall j p t Hj Ht). }
  rewrite snd_left_part in Hrep. destruct (explains_parts _ _ (tagged_snd _ _ _ HHE)) as [Hev _].
  destruct (replay_events nbits nbits_range _ _ _ _ HL0 Hrep Hev) as [_ Hrun].
  exists HE, (table_map L). split_and!; [done| | |by rewrite <- HGA| |done|].
  - exists L. split; [|done]. eapply ginv_idle; [|constructor|done]. apply Forall_lookup. intros j t Ht.
    destruct (lookup_lt_is_Some_2 c.1 j) as [p Hjp]; [rewrite <- Hlt; by eapply lookup_lt_Some|].
    by destruct (Hall j p t Hjp Ht).
  - rewrite <- HGA. by apply tagged_right_part.
  - by eapply tagged_tags.
  - intros j d Hd. apply Hj; [|done]. rewrite <- Hlen. by eapply lookup_lt_Some.
Qed.

End Pool.
