(* ===== verification/SystemSpec.v ===== *)
(** * The daemon's functions in the company of others

    What another thread may do between two calls is everything the module
    allows, so a function of the daemon can rely on nothing but the shape of each
    reply.  That is enough: no request of the daemon makes the kernel read past a
    message, and no reply makes the daemon read past a buffer. *)

From S2P Require Import Prelude Prog CStr KvIoctl KMem KvHash KLogic KvHashSpec KvTrace Kvlkm.
From S2P Require Import KvlkmSpec KvDevice KvInterface Auth Daemon DaemonSpec Connection System.

(** ** The shape of a reply *)

Section Replies.
Context {ioc_api : IocApi} {ioc_laws : IocLaws ioc_api} {api : KernelApi}.
Variable nbits : Z.

(** A message that comes back is well formed, and its value is terminated if
    it was on the way in. *)
Lemma message_trace_ok m op es m' :
  message_trace m op es m' → msg_ok m → is_Some (c_str (value m)) →
  msg_ok m' ∧ is_Some (c_str (value m')).
Proof.
  intros Htr Hm Hv.
  assert (is_s32 0 ∧ is_s32 1 ∧ is_s32 (- ENOMEM)) as (H0 & H1 & H12) by (unfold is_s32, ENOMEM; lia).
  pose proof (length_zeros MAX_VALUE_LEN) as Hz.
  destruct Htr as [v|v|es _ _| |v0 v|v0 es _ _|v Hval| |v|];
    (split; [auto 6 using say_ok, set_status_ok, set_value_ok, length_stored|]);
    try apply say_terminated; try done.
  simpl. rewrite c_str_stored by done. eauto.
Qed.

(** The daemon's request comes back as a message. *)
Lemma request_reply op k v es r u :
  is_u64 k →
  ioctl_trace nbits (op_code op) (process_memory (encode_msg (request_message k v))) es (r, u) →
  r = 0 ∧ ∃ m', message_trace (request_message k v) op es m' ∧ u_bytes u = encode_msg m' ∧
    msg_ok m' ∧ is_Some (c_str (value m')).
Proof.
  intros Hk Htr. pose proof (request_message_ok k v Hk) as Hm.
  pose proof Hm as (_ & Hp & _ & Hl). pose proof (length_encode_msg _ Hp Hl) as Hlen.
  pose proof (op_code_snapshot op) as [Hns Hnc].
  inversion Htr as [es' r' Hc _|es' r' Hc _|Hc Hnone|Hc|op' bs es' m' r' Hc Hbs Hmt Hrp]; subst; try done.
  - by rewrite copy_from_process in Hnone.
  - by destruct (Hc (op_code_command op)).
  - apply op_code_inj in Hc as <-. rewrite copy_from_process in Hbs by done. injection Hbs as <-.
    rewrite decode_encode_msg in Hmt by done.
    destruct (message_trace_ok _ _ _ _ Hmt Hm) as [Hm' Hv'].
    { rewrite request_message_value. eauto. }
    pose proof Hm' as (_ & Hp' & _ & Hl').
    apply reply_process in Hrp; [|by rewrite Hlen, length_encode_msg].
    injection Hrp as -> ->. split; [done|]. by exists m'.
Qed.

Lemma request_message_request op k v :
  is_u64 k → request_ok (op_code op) (process_memory (encode_msg (request_message k v))).
Proof.
  intros Hk. split; [apply op_code_u32|]. intros op' bs _ _ Hbs.
  pose proof (request_message_ok k v Hk) as Hm. pose proof Hm as (_ & Hp & _ & Hl).
  rewrite copy_from_process in Hbs by by apply length_encode_msg. injection Hbs as <-.
  rewrite decode_encode_msg by done. rewrite request_message_value. eauto.
Qed.

(** The count is a 32-bit number, or an error. *)
Lemma count_reply mem es r u :
  length mem = 4%nat → ioctl_trace nbits KV_COUNT (process_memory mem) es (r, u) →
  r < 0 ∨ (r = 0 ∧ ∃ n, is_u32 n ∧ u_bytes u = le_bytes 4 n).
Proof.
  intros Hmem Htr%count_ioctl_trace. inversion Htr as [ls r' Hls count Hr]; subst.
  case_decide as Hneg; [left; by simplify_eq|].
  right. apply reply_process in Hr; [|by rewrite length_le_bytes]. injection Hr as -> ->.
  split; [done|]. exists (wrap_u32 count). split; [|done].
  unfold is_u32, u32_max, wrap_u32. pose proof (Z.mod_pos_bound count 4294967296). lia.
Qed.

Lemma le_value_zeros n : le_value (zeros n) = 0.
Proof. induction n as [|n IH]; [done|]. cbn [zeros replicate le_value]. by fold (zeros n); rewrite IH. Qed.

Lemma read_write_prefix off n d bs :
  (off + n <= length d)%nat → (length d <= length bs)%nat →
  read_at off n (write_at 0 d bs) = read_at off n d.
Proof.
  intros Hd Hb. rewrite <- (read_at_read_at off n 0 (length d)) by lia. by rewrite read_write_at.
Qed.

(** Whatever a snapshot does, the header in the caller's buffer announces no
    more entries than the buffer holds. *)
Lemma snapshot_reply n es r u :
  ioctl_trace nbits KV_SNAPSHOT (process_memory (snapshot_request (Z.of_nat n) n)) es (r, u) →
  is_u32 (Z.of_nat n) →
  length (u_bytes u) = (sizeof_kv_snapshot_message + n * sizeof_kv_message)%nat ∧
  ∃ count, (count <= n)%nat ∧ snap_count (decode_header (u_bytes u)) = Z.of_nat count.
Proof.
  intros Htr Hn. destruct (snapshot_request_header (Z.of_nat n) n Hn) as (hd & Hhd & Hcap).
  apply snapshot_ioctl_trace in Htr.
  pose proof (snapshot_trace_written _ _ _ _ _ _ Htr Hhd) as Hw.
  pose proof (length_snapshot_request (Z.of_nat n) n) as Hql.
  rewrite Hcap, Nat2Z.id in Hw.
  destruct Hw as [->|(l & data & Hl & Himg & Hcopied)].
  - cbn [u_bytes process_memory]. split; [done|]. exists 0%nat. split; [lia|].
    unfold decode_header. cbn [snap_count]. unfold snapshot_request.
    rewrite read_write_ne; [|rewrite length_zeros, length_le_bytes|right; rewrite length_le_bytes];
      try (unfold off_snap_count, off_snap_capacity, sizeof_kv_snapshot_message; lia).
    unfold read_at. by rewrite drop_zeros, take_zeros, le_value_zeros.
  - pose proof (si_length _ _ _ Himg). unfold copied_out in Hcopied. rewrite room_process in Hcopied.
    destruct Hcopied as [(Hdl & _ & ->)|(? & [_ Hdl] & _)].
    2: { rewrite Hql in Hdl. unfold sizeof_kv_message in *. lia. }
    cbn [u_write u_bytes process_memory] in *. rewrite length_write_at by lia. split; [done|].
    exists (length l). split; [done|]. rewrite <- (si_count _ _ _ Himg). unfold decode_header.
    cbn [snap_count]. f_equal.
    apply read_write_prefix; unfold off_snap_count, sizeof_kv_snapshot_message in *; lia.
Qed.

End Replies.

(** ** The functions *)

Section Functions.
Context {ioc_api : IocApi} {ioc_laws : IocLaws ioc_api} {api : KernelApi}.
Variables (nbits : Z) (file_ok : bytes → Prop).

Abbreviation dsafe p := (dsafe nbits file_ok p (λ _, True)).

Lemma safe_print text : dsafe (call (Print text)).
Proof. done. Qed.

Lemma safe_then {A B : Type} (p : dprog A) (f : A → dprog B) :
  dsafe p → (∀ a, dsafe (f a)) → dsafe (p ≫= f).
Proof. intros Hp Hf. apply dsafe_bind. eapply dsafe_mono; [|exact Hp]. eauto. Qed.

Lemma safe_do_kv_operation fd op key v : dsafe (do_kv_operation fd (op_code op) key v).
Proof.
  unfold do_kv_operation. destruct (parse_key key) as [k|] eqn:Hk; [|done].
  pose proof (parse_key_u64 _ _ Hk) as Hu. apply dsafe_act.
  split; [by apply request_message_request|]. intros es r u Htr.
  destruct (request_reply nbits op k v es r u Hu Htr) as (-> & m' & _ & -> & Hm & [s Hs]).
  rewrite (decide_False (P := 0 < 0)) by lia. cbv beta iota. by rewrite decode_encode_msg, Hs by done.
Qed.

(** What the daemon asks the kernel for is a snapshot request of the size that
    the count said, which the table need not have any more. *)
Lemma snapshot_request_safe n :
  is_u32 (Z.of_nat n) →
  request_ok KV_SNAPSHOT (process_memory (snapshot_request (Z.of_nat n) n)).
Proof.
  intros Hn. split; [apply command_u32, snapshot_command|].
  intros op bs Hop. by destruct (op_code_snapshot op) as [[] _].
Qed.

Lemma count_request_safe mem : request_ok KV_COUNT (process_memory mem).
Proof.
  split; [apply command_u32, count_command|].
  intros op bs Hop. by destruct (op_code_snapshot op) as [_ []].
Qed.

Lemma safe_do_kv_snapshot_to_file fd : dsafe (do_kv_snapshot_to_file fd).
Proof.
  unfold do_kv_snapshot_to_file. apply dsafe_act. split; [apply count_request_safe|].
  intros es r u Htr. destruct (count_reply nbits (le_bytes 4 0) es r u eq_refl Htr) as [Hr|(-> & z & Hz & ->)].
  { rewrite (decide_True (P := r < 0)) by done. by rewrite decide_True by lia. }
  rewrite (decide_False (P := 0 < 0)) by lia. cbv beta iota zeta.
  rewrite le_value_u32 by done. case_decide as Hz0; [done|].
  assert (∃ n, z = Z.of_nat n) as [n ->] by (exists (Z.to_nat z); destruct Hz; lia).
  apply dsafe_act. intros [buf|] Hbuf; [|apply safe_print]. rewrite (Hbuf _ eq_refl).
  rewrite length_snapshot_buffer by done.
  apply dsafe_act. split; [by apply snapshot_request_safe|]. clear es Htr Hbuf. intros es r u' Htr.
  destruct (snapshot_reply nbits n es r u' Htr Hz) as (Hlen & count & Hc & Hcount).
  case_decide; [by apply dsafe_print|].
  rewrite Hcount. apply dsafe_act. intros [] _; cbn [negb]; [|by apply dsafe_print].
  assert (is_u32 (Z.of_nat count)) as Hcu by (destruct Hz; unfold is_u32 in *; lia).
  rewrite length_snapshot_buffer, decide_False by (done || rewrite Hlen; nia). done.
Qed.

Lemma safe_parse_and_handle_command command fd auth : dsafe (parse_and_handle_command command fd auth).
Proof.
  unfold parse_and_handle_command.
  destruct (extract_word command) as [[operation iss]|]; [|done].
  case_decide.
  { destruct (extract_word iss) as [[user iss']|]; [|done].
    destruct (extract_word iss') as [[pw ?]|]; [|done].
    apply dsafe_act. by intros []. }
  destruct auth; cbn [negb]; [|done].
  case_decide; [apply safe_then; [apply safe_do_kv_snapshot_to_file|done]|].
  destruct (extract_word iss) as [[key iss']|]; [|done].
  set (value := match getline iss' with [] => _ | _ => _ end).
  assert (∀ op, dsafe (response ← do_kv_operation fd (op_code op) key value; mret (response, true))) as Hop.
  { intros op. apply safe_then; [apply safe_do_kv_operation|done]. }
  pose proof (Hop OpInsert). pose proof (Hop OpDelete). pose proof (Hop OpGet). pose proof (Hop OpUpdate).
  by repeat case_decide.
Qed.

Lemma safe_handle_client fuel client_fd kv_fd : dsafe (handle_client fuel client_fd kv_fd).
Proof.
  unfold handle_client. apply safe_then; [|done]. generalize false.
  induction fuel as [|fuel IH]; intros auth; cbn [handle_client_loop]; [done|].
  apply dsafe_act. intros [data| |[]] _; [|done|apply IH|done].
  apply dsafe_print. apply safe_then; [apply safe_parse_and_handle_command|]. intros [response auth'].
  apply dsafe_act. intros w _. case_decide; [done|]. apply IH.
Qed.

Lemma safe_init_network : dsafe init_network.
Proof.
  unfold init_network. repeat first
    [ done | case_decide | apply dsafe_act; intros ? _ | apply dsafe_print ].
Qed.

Lemma safe_listen_network fuel server_fd kv_fd : dsafe (listen_network fuel server_fd kv_fd).
Proof.
  induction fuel as [|fuel IH]; cbn [listen_network]; [done|].
  apply dsafe_act. intros [] _; [done|]. apply dsafe_act. intros [client_fd|eintr] _.
  - apply dsafe_act. intros _ _. apply IH.
  - apply dsafe_act. intros b _. destruct (b || eintr); [apply IH|]. apply dsafe_print, IH.
Qed.

(** Every entry of the buffer is a message that the kernel may be given. *)
Lemma safe_restore_entries fd st snapshot n : ∀ first restored skipped,
  (∀ i, (first <= i < first + n)%nat → is_Some (c_str (value (entry_at snapshot i)))) →
  dsafe (restore_entries fd st snapshot first n restored skipped).
Proof.
  induction n as [|n IH]; intros first restored skipped Hent; [done|]. cbn [restore_entries].
  apply dsafe_act. split.
  - split; [apply (op_code_u32 OpInsert)|]. intros op bs _ _ Hbs.
    assert (is_Some (c_str (value (entry_at snapshot first)))) as Hf by (apply Hent; lia).
    unfold copy_from_user, process_memory in Hbs. cbn in Hbs.
    case_match; [|done]. injection Hbs as <-. unfold entry_at in Hf.
    unfold read_at in *. by rewrite take_take, Nat.min_id.
  - intros es r u _. destruct (_ || _); apply IH; intros i Hi; apply Hent; lia.
Qed.

(** The daemon's way through a snapshot file that is an image. *)
Lemma safe_do_kv_restore_from_file fd :
  (∀ data, file_ok data → ∃ cap l, snapshot_image cap l data) →
  dsafe (do_kv_restore_from_file fd).
Proof.
  intros Hfile. unfold do_kv_restore_from_file. apply dsafe_act.
  intros [data|] Hdata; [|apply safe_print].
  destruct (Hfile data (Hdata _ eq_refl)) as (cap & l & Himg).
  pose proof (snapshot_image_count _ _ _ Himg) as Hu. destruct (restore_header _ _ _ Himg) as [Hw Hh].
  pose proof Himg as [Hlen Hst _ Hcount Hent]. rewrite Hw, Hh, Hcount, Hst, Nat2Z.id.
  apply dsafe_act. intros x (buf & -> & Hbuf). rewrite length_snapshot_buffer in Hbuf by done.
  rewrite decide_False by lia. rewrite restore_buffer by congruence.
  apply safe_then; [|by intros [restored skipped]; apply dsafe_act].
  apply safe_restore_entries. intros i Hi. destruct (lookup_lt_is_Some_2 l i) as [kv Hkv]; [lia|].
  destruct (Hent i kv Hkv) as (_ & _ & Hv). eauto.
Qed.

Lemma safe_main fuel :
  (∀ data, file_ok data → ∃ cap l, snapshot_image cap l data) → dsafe (main fuel).
Proof.
  intros Hfile. unfold main. do 2 (apply dsafe_act; intros _ _).
  apply safe_then.
  { apply dsafe_act. intros fd _. case_decide; [by apply dsafe_print|done]. }
  intros kv_fd. case_decide; [done|]. apply safe_then; [by apply safe_do_kv_restore_from_file|]. intros _.
  apply safe_then; [apply safe_init_network|]. intros server_fd. case_decide; [done|].
  apply dsafe_act. intros _ _. apply safe_then; [apply safe_listen_network|]. intros _.
  by apply safe_then; [apply safe_do_kv_snapshot_to_file|].
Qed.

End Functions.
