(* ===== verification/Dialogue.v ===== *)
(** * What the clients of a busy daemon are told

    The conversation of a client's thread: the commands it received, what PAM was
    asked and the replies it sent, read off its trace, and between them the events on
    the shared map that the thread performed.  The conversation is a sequence of
    rounds, and the reply of each round is the one that the events of that round
    explain, whatever other threads do to the map in between. *)

From S2P Require Import Prelude Prog Timeline CStr KvIoctl KMem KvHash KLogic KvHashSpec KvTrace.
From S2P Require Import Kvlkm.
From S2P Require Import KvlkmSpec KvDevice KvInterface Auth Daemon DaemonSem DaemonSpec.
From S2P Require Import Connection.
From S2P Require Import Session Access System SystemSpec.

(** ** What is said *)

Inductive talk : Type :=
  | Said (fd : Z) (msg : bytes)
  | Asked (user password : bytes) (ok : bool)
  | Told (fd : Z) (reply : bytes).

#[export] Instance talk_eq_dec : EqDecision talk.
Proof. solve_decision. Defined.

Definition talk_of (a : answered) : list talk :=
  match a with
  | @Answered X e x =>
      match e in dact X return X → list talk with
      | Recv fd _ => λ x, match x with RecvData msg => [Said fd msg] | _ => [] end
      | Authenticate user password => λ ok, [Asked user password ok]
      | Send fd reply => λ _, [Told fd reply]
      | _ => λ _, []
      end x
  end.

Lemma talk_of_one a : talk_of a = [] ∨ ∃ t, talk_of a = [t].
Proof.
  destruct a as [X e x]. destruct e; cbn [talk_of]; try (by left); try (right; by eexists).
  destruct x; [right; by eexists|by left..].
Qed.

Definition talks (tr : list answered) : list talk := tr ≫= talk_of.

(** ** Rounds *)

Section Rounds.
Context {api : KernelApi}.

(** An operation of the daemon on key [k]: the events, and the text of the reply. *)
Inductive op_run (k : Z) (v : bytes) : kv_op → list event → bytes → Prop :=
  | run_insert_exists v0 :
      op_run k v OpInsert [ELookup k (Some v0)] (op_reply OpInsert k (Some v0) true)
  | run_insert : op_run k v OpInsert [ELookup k None; EAdd k v] (op_reply OpInsert k None true)
  | run_insert_nomem es :
      may_fail → es = [] ∨ es = [ENoMem k] →
      op_run k v OpInsert (ELookup k None :: es) (op_reply OpInsert k None false)
  | run_update_missing : op_run k v OpUpdate [ELookup k None] (op_reply OpUpdate k None true)
  | run_update v0 :
      op_run k v OpUpdate [ELookup k (Some v0); EAdd k v] (op_reply OpUpdate k (Some v0) true)
  | run_update_nomem v0 es :
      may_fail → es = [] ∨ es = [ENoMem k] →
      op_run k v OpUpdate (ELookup k (Some v0) :: es) (op_reply OpUpdate k (Some v0) false)
  | run_get r : op_run k v OpGet [ELookup k r] (op_reply OpGet k r true)
  | run_delete r : op_run k v OpDelete [ERemove k r] (op_reply OpDelete k r true).

(** A command served: its events, what PAM was asked, the reply, and whether the
    connection is authenticated afterwards. *)
Inductive answering (command : bytes) (auth : bool) : list event → list talk → bytes → bool → Prop :=
  | answer_refused text :
      request_of command auth = Refused text → answering command auth [] [] text auth
  | answer_login user password ok :
      request_of command auth = Login user password →
      answering command auth [] [Asked user password ok] (if ok : bool then text_ok else text_fail) (ok || auth)
  | answer_save es :
      request_of command auth = Save → Forall is_read es → answering command auth es [] text_snap auth
  | answer_bad_key op key value :
      request_of command auth = Operate op key value → parse_key key = None →
      answering command auth [] [] text_bad_key auth
  | answer_op op key value k es reply :
      request_of command auth = Operate op key value → parse_key key = Some k →
      op_run k (stored_text value) op es reply → answering command auth es [] reply auth.

(** Complete rounds over the socket [fd]. *)
Inductive rounds (fd : Z) : bool → list event → list talk → Prop :=
  | rounds_nil : rounds fd false [] []
  | rounds_snoc auth es tk msg es' tk' reply auth' :
      rounds fd auth es tk → answering (upto_nul msg) auth es' tk' reply auth' →
      rounds fd auth' (es ++ es') (tk ++ Said fd msg :: tk' ++ [Told fd reply]).

(** A command received whose reply is not sent yet: nothing has happened, or a
    snapshot is being taken, or the reply is ready. *)
Definition pending (command : bytes) (auth : bool) (es : list event) (tk : list talk) : Prop :=
  (es = [] ∧ tk = []) ∨ (request_of command auth = Save ∧ Forall is_read es ∧ tk = []) ∨
  ∃ reply auth', answering command auth es tk reply auth'.

Definition dialogue (fd : Z) (es : list event) (tk : list talk) : Prop :=
  ∃ auth es0 tk0, rounds fd auth es0 tk0 ∧
    ((es = es0 ∧ tk = tk0) ∨
     ∃ msg es' tk', es = es0 ++ es' ∧ tk = tk0 ++ Said fd msg :: tk' ∧ pending (upto_nul msg) auth es' tk').

(** The same with the events in their places: those of a round lie between the
    command and the reply. *)
Definition meanwhile (es : list event) (tk : list talk) : list (event + talk) := (inl <$> es) ++ (inr <$> tk).

Definition exchange (fd : Z) (msg : bytes) (es : list event) (tk : list talk) (reply : bytes) : list (event + talk) :=
  inr (Said fd msg) :: meanwhile es tk ++ [inr (Told fd reply)].

Inductive exchanges (fd : Z) : bool → list (event + talk) → Prop :=
  | exchanges_nil : exchanges fd false []
  | exchanges_snoc auth hs msg es tk reply auth' :
      exchanges fd auth hs → answering (upto_nul msg) auth es tk reply auth' →
      exchanges fd auth' (hs ++ exchange fd msg es tk reply).

Definition ordered_dialogue (fd : Z) (hs : list (event + talk)) : Prop :=
  ∃ auth hs0, exchanges fd auth hs0 ∧
    (hs = hs0 ∨ ∃ msg es tk, hs = hs0 ++ inr (Said fd msg) :: meanwhile es tk ∧ pending (upto_nul msg) auth es tk).

Lemma lefts_meanwhile es tk : lefts (meanwhile es tk) = es.
Proof. unfold meanwhile. autorewrite with kv. apply app_nil_r. Qed.

Lemma rights_meanwhile es tk : rights (meanwhile es tk) = tk.
Proof. unfold meanwhile. by autorewrite with kv. Qed.

Lemma lefts_exchange fd msg es tk reply : lefts (exchange fd msg es tk reply) = es.
Proof.
  change (lefts (meanwhile es tk ++ [inr (Told fd reply)]) = es).
  rewrite lefts_app, lefts_meanwhile. apply app_nil_r.
Qed.

Lemma rights_exchange fd msg es tk reply :
  rights (exchange fd msg es tk reply) = Said fd msg :: tk ++ [Told fd reply].
Proof.
  change (Said fd msg :: rights (meanwhile es tk ++ [inr (Told fd reply)]) = Said fd msg :: tk ++ [Told fd reply]).
  by rewrite rights_app, rights_meanwhile.
Qed.

Lemma exchanges_rounds fd auth hs : exchanges fd auth hs → rounds fd auth (lefts hs) (rights hs).
Proof.
  induction 1 as [|auth hs msg es tk reply auth' _ IH Ha]; [constructor|].
  rewrite lefts_app, rights_app, lefts_exchange, rights_exchange. by eapply rounds_snoc.
Qed.

(** Without the order between events and words. *)
Lemma ordered_dialogue_unordered fd hs : ordered_dialogue fd hs → dialogue fd (lefts hs) (rights hs).
Proof.
  intros (auth & hs0 & Hr%exchanges_rounds & Hcase). exists auth, (lefts hs0), (rights hs0). split; [done|].
  destruct Hcase as [->|(msg & es & tk & -> & Hp)]; [by left|right]. exists msg, es, tk. autorewrite with kv. cbn.
  fold (lefts (meanwhile es tk)) (rights (meanwhile es tk)). by rewrite lefts_meanwhile, rights_meanwhile.
Qed.

(** Without PAM's consent there are no events. *)
Lemma request_unauthenticated command :
  (∃ text, request_of command false = Refused text) ∨
  ∃ user password, request_of command false = Login user password.
Proof.
  unfold request_of. cbn [negb]. repeat case_match; eauto.
Qed.

Lemma answering_unauthenticated command es tk reply auth' :
  answering command false es tk reply auth' → es = [] ∧ (auth' = true → ∃ u p, Asked u p true ∈ tk).
Proof.
  intros Ha. destruct (request_unauthenticated command) as [[text Hr]|(user & password & Hr)];
    destruct Ha as [text' Ht|user' password' ok Ht|es Ht|op key value Ht|op key value k es reply Ht];
    rewrite Hr in Ht; try done.
  split; [done|]. destruct ok; [|done]. exists user', password'. by apply elem_of_cons; left.
Qed.

Lemma rounds_unauthenticated fd auth es tk :
  rounds fd auth es tk → (∀ u p, Asked u p true ∉ tk) → auth = false ∧ es = [].
Proof.
  induction 1 as [|auth es tk msg es' tk' reply auth' _ IH Ha]; intros Hno; [done|].
  destruct IH as [-> ->].
  { intros u p Hin. apply (Hno u p), elem_of_app. by left. }
  destruct (answering_unauthenticated _ _ _ _ _ Ha) as [-> Hauth]. split; [|done].
  destruct auth'; [|done]. destruct (Hauth eq_refl) as (u & p & Hin). destruct (Hno u p).
  rewrite elem_of_app, elem_of_cons, elem_of_app. auto.
Qed.

Lemma dialogue_unauthenticated fd es tk :
  dialogue fd es tk → (∀ u p, Asked u p true ∉ tk) → es = [].
Proof.
  intros (auth & es0 & tk0 & Hr & Hcase) Hno.
  destruct (rounds_unauthenticated _ _ _ _ Hr) as [-> ->].
  { intros u p Hin. apply (Hno u p). destruct Hcase as [[_ ->]|(msg & es' & tk' & _ & -> & _)]; [done|].
    apply elem_of_app. by left. }
  destruct Hcase as [[-> _]|(msg & es' & tk' & -> & -> & Hp)]; [done|]. simpl.
  destruct Hp as [[-> _]|[(Hs & _)|(reply & auth' & Ha)]]; [done| |by eapply answering_unauthenticated].
  destruct (request_unauthenticated (upto_nul msg)) as [[? Hr']|(? & ? & Hr')]; by rewrite Hr' in Hs.
Qed.

(** The event belongs to an operation that a client that PAM has let in asked for. *)
Definition requested (fd : Z) (e : event) (tk : list talk) : Prop :=
  (∃ user password, Asked user password true ∈ tk) ∧
  ∃ msg op key value k, Said fd msg ∈ tk ∧ request_of (upto_nul msg) true = Operate op key value ∧
    parse_key key = Some k ∧ event_of_op op k (Some (stored_text value)) e.

(** A client that PAM has let in asked for this pair to be stored. *)
Definition stored_by (fd : Z) (k : Z) (v : bytes) (tk : list talk) : Prop :=
  (∃ user password, Asked user password true ∈ tk) ∧
  ∃ msg op key value, Said fd msg ∈ tk ∧ op_needs_value op = true ∧
    request_of (upto_nul msg) true = Operate op key value ∧
    parse_key key = Some k ∧ stored_text value = v.

Lemma op_run_event k v op es reply e : op_run k v op es reply → e ∈ es → event_of_op op k (Some v) e.
Proof.
  assert (∀ es, es = [] ∨ es = [ENoMem k] → e ∈ es → event_of_op op k (Some v) e) as Hnomem.
  { intros es' [->| ->]; [by intros ?%not_elem_of_nil|]. by intros ->%list_elem_of_singleton. }
  destruct 1 as [v0| |es Hf Hes| |v0|v0 es Hf Hes|r|r]; intros [->|Hin]%elem_of_cons; try done;
    try (by apply not_elem_of_nil in Hin); try (by eapply Hnomem);
    by apply list_elem_of_singleton in Hin as ->.
Qed.

Lemma answering_event command auth es tk reply auth' e :
  answering command auth es tk reply auth' → e ∈ es →
  is_read e ∨ auth = true ∧ ∃ op key value k, request_of command true = Operate op key value ∧
    parse_key key = Some k ∧ event_of_op op k (Some (stored_text value)) e.
Proof.
  intros Ha Hin. destruct auth.
  2: { destruct (answering_unauthenticated _ _ _ _ _ Ha) as [-> _]. by apply not_elem_of_nil in Hin. }
  destruct Ha as [text _|user password ok _|es _ Hes|op key value _ _|op key value k' es reply Hreq Hk Hop];
    try (by apply not_elem_of_nil in Hin).
  - left. by rewrite Forall_forall in Hes; apply Hes in Hin.
  - right. split; [done|]. exists op, key, value, k'. split_and!; [done..|]. by eapply op_run_event.
Qed.

Lemma rounds_authenticated fd es tk :
  rounds fd true es tk → ∃ user password, Asked user password true ∈ tk.
Proof.
  intros Hr. remember true as auth eqn:Hauth.
  induction Hr as [|auth es tk msg es' tk' reply auth' Hr IH Ha]; [done|]. subst auth'.
  destruct auth.
  - destruct (IH eq_refl) as (u & p & Hin). exists u, p. apply elem_of_app. by left.
  - destruct (answering_unauthenticated _ _ _ _ _ Ha) as [_ Hin].
    destruct (Hin eq_refl) as (u & p & Hup). exists u, p. rewrite elem_of_app, elem_of_cons, elem_of_app. auto.
Qed.

Lemma requested_mono fd e tk tk' : requested fd e tk → tk ⊆ tk' → requested fd e tk'.
Proof.
  intros [(u & p & Hup) (msg & op & key & value & k & Hmsg & H)] Hsub. split; [by eauto|].
  exists msg, op, key, value, k. auto.
Qed.

(** One more command, in a conversation that has come to the flag [auth]. *)
Lemma answering_requested fd auth es0 tk0 msg es tk reply auth' e :
  rounds fd auth es0 tk0 → answering (upto_nul msg) auth es tk reply auth' → e ∈ es →
  is_read e ∨ requested fd e (tk0 ++ [Said fd msg]).
Proof.
  intros Hr Ha Hin.
  destruct (answering_event _ _ _ _ _ _ _ Ha Hin) as [?|[-> (op & key & value & k & H)]]; [by left|right].
  split.
  - destruct (rounds_authenticated _ _ _ Hr) as (u & p & Hup). exists u, p. apply elem_of_app. by left.
  - exists msg, op, key, value, k. split; [|tauto]. rewrite elem_of_app, elem_of_cons. auto.
Qed.

Lemma said_so_far fd msg tk0 tk : tk0 ++ [Said fd msg] ⊆ tk0 ++ Said fd msg :: tk.
Proof. intros x. rewrite !elem_of_app, !elem_of_cons, elem_of_nil. tauto. Qed.

Lemma rounds_event fd auth es tk e :
  rounds fd auth es tk → e ∈ es → is_read e ∨ requested fd e tk.
Proof.
  induction 1 as [|auth es tk msg es' tk' reply auth' Hr IH Ha]; [by intros ?%not_elem_of_nil|].
  intros [Hin|Hin]%elem_of_app.
  - destruct (IH Hin) as [?|Hq]; [by left|right]. eapply requested_mono; [exact Hq|].
    intros x Hx. apply elem_of_app. by left.
  - destruct (answering_requested _ _ _ _ _ _ _ _ _ _ Hr Ha Hin) as [?|Hq]; [by left|right].
    eapply requested_mono; [exact Hq|apply said_so_far].
Qed.

(** All that a client's thread does to the store is what its client asked for. *)
Lemma dialogue_event fd es tk e : dialogue fd es tk → e ∈ es → is_read e ∨ requested fd e tk.
Proof.
  intros (auth & es0 & tk0 & Hr & [[-> ->]|(msg & es' & tk' & -> & -> & Hp)]) Hin; [by eapply rounds_event|].
  apply elem_of_app in Hin as [Hin|Hin].
  - destruct (rounds_event _ _ _ _ _ Hr Hin) as [?|Hq]; [by left|right].
    eapply requested_mono; [exact Hq|]. intros x Hx. apply elem_of_app. by left.
  - destruct Hp as [[-> _]|[(_ & Hes & _)|(reply & auth' & Ha)]].
    + by apply not_elem_of_nil in Hin.
    + left. by rewrite Forall_forall in Hes; apply Hes in Hin.
    + destruct (answering_requested _ _ _ _ _ _ _ _ _ _ Hr Ha Hin) as [?|Hq]; [by left|right].
      eapply requested_mono; [exact Hq|apply said_so_far].
Qed.

(** At the time of the event the request had been received, and PAM asked. *)
Lemma said_before fd msg l (hs1 hs2 : list (event + talk)) e :
  inr (Said fd msg) :: l = hs1 ++ inl e :: hs2 → inl e ∈ l ∧ ∃ r, hs1 = inr (Said fd msg) :: r.
Proof.
  destruct hs1 as [|x r]; [done|]. intros [= <- ->]. split; [|by exists r].
  apply elem_of_app. right. apply elem_of_cons. by left.
Qed.

Lemma exchanges_requested fd auth hs1 e hs2 :
  exchanges fd auth (hs1 ++ inl e :: hs2) → is_read e ∨ requested fd e (rights hs1).
Proof.
  intros Hx. remember (hs1 ++ inl e :: hs2) as hs eqn:Hhs. revert hs2 Hhs.
  induction Hx as [|auth hs msg es tk reply auth' Hx IH Ha]; intros hs2 Hhs; [by destruct hs1|].
  destruct (app_split_cons _ _ _ _ _ Hhs) as [(r & ->)|(r & -> & Hr)]; [by eapply IH|].
  destruct (said_before _ _ _ _ _ _ Hr) as [Hin (r' & ->)].
  rewrite <- elem_lefts, lefts_app, lefts_meanwhile in Hin. apply elem_of_app in Hin as [Hin|Hin];
    [|by apply not_elem_of_nil in Hin].
  destruct (answering_requested _ _ _ _ _ _ _ _ _ _ (exchanges_rounds _ _ _ Hx) Ha Hin) as [?|Hq]; [by left|right].
  rewrite rights_app. eapply requested_mono; [exact Hq|apply said_so_far].
Qed.

Lemma ordered_dialogue_requested fd hs1 e hs2 :
  ordered_dialogue fd (hs1 ++ inl e :: hs2) → is_read e ∨ requested fd e (rights hs1).
Proof.
  intros (auth & hs0 & Hx & [<-|(msg & es & tk & Hhs & Hp)]); [by eapply exchanges_requested|].
  destruct (app_split_cons _ _ _ _ _ (eq_sym Hhs)) as [(r & ->)|(r & -> & Hr)]; [by eapply exchanges_requested|].
  destruct (said_before _ _ _ _ _ _ Hr) as [Hin (r' & ->)]. rewrite <- elem_lefts, lefts_meanwhile in Hin.
  destruct Hp as [[-> _]|[(_ & Hes & _)|(reply & auth' & Ha)]].
  - by apply not_elem_of_nil in Hin.
  - left. by rewrite Forall_forall in Hes; apply Hes in Hin.
  - destruct (answering_requested _ _ _ _ _ _ _ _ _ _ (exchanges_rounds _ _ _ Hx) Ha Hin) as [?|Hq]; [by left|right].
    rewrite rights_app. eapply requested_mono; [exact Hq|apply said_so_far].
Qed.

Lemma requested_add fd tk k v : requested fd (EAdd k v) tk → stored_by fd k v tk.
Proof.
  intros [Hup (msg & op & key & value & k' & H)]. split; [done|].
  destruct H as (Hmsg & Hreq & Hk & -> & [= <-] & Hneeds). by exists msg, op, key, value.
Qed.

Lemma dialogue_add fd es tk k v :
  dialogue fd es tk → EAdd k v ∈ es → stored_by fd k v tk.
Proof.
  intros Hd Hin. destruct (dialogue_event _ _ _ _ Hd Hin) as [[]|Hq]. by apply requested_add.
Qed.

End Rounds.

(** ** A logic for the history of one thread

    The events and of the answers what [view] shows, in order. *)

Section Tells.
Context {ioc_api : IocApi} {api : KernelApi} {T : Type}.
Variables (nbits : Z) (file_ok : bytes → Prop) (view : answered → list T).

Abbreviation story := (list (event + T)).

(** After the story [hs], whatever it is answered, the program keeps [P] whenever it
    waits for an answer, and returns in [Q]. *)
Fixpoint tells {A : Type} (P : story → Prop) (p : dprog A) (Q : A → story → Prop) (hs : story) : Prop :=
  match p with
  | Ret a => Q a hs
  | Vis e k =>
      match e in dact X return (X → story → Prop) → Prop with
      | Ioctl _ cmd arg => λ w,
          ∀ es r u, ioctl_trace nbits cmd (process_memory arg) es (r, u) →
            w (if decide (r < 0) then -1 else r, u_bytes u) (hs ++ (inl <$> es))
      | e' => λ w, P hs ∧ ∀ x, answer_ok file_ok e' x → w x (hs ++ (inr <$> view (Answered e' x)))
      end (λ x hs', tells P (k x) Q hs')
  end.

Lemma tells_mono {A : Type} P (p : dprog A) (Q R : A → story → Prop) hs :
  (∀ a hs, Q a hs → R a hs) → tells P p Q hs → tells P p R hs.
Proof.
  intros H. revert hs. induction p as [a|X e k IH]; intros hs; simpl; [auto|].
  destruct e; try (intros [? Hw]; split; [done|]; intros x Hx; apply IH; auto; fail).
  intros Hw es r u Htr. by apply IH, Hw.
Qed.

Lemma tells_bind {A B : Type} P (p : dprog A) (f : A → dprog B) Q hs :
  tells P p (λ a hs, tells P (f a) Q hs) hs → tells P (p ≫= f) Q hs.
Proof.
  revert hs. induction p as [a|X e k IH]; intros hs; simpl; [done|].
  destruct e; try (intros [? Hw]; split; [done|]; intros x Hx; apply IH; auto; fail).
  intros Hw es r u Htr. by apply IH, Hw.
Qed.

Lemma tells_ret {A : Type} P (a : A) (Q : A → story → Prop) hs : Q a hs → tells P (mret a) Q hs.
Proof. done. Qed.

Lemma tells_vis {A X : Type} P (e : dact X) (k : X → dprog A) Q hs :
  asks_outside e = true → P hs →
  (∀ x, answer_ok file_ok e x → tells P (k x) Q (hs ++ (inr <$> view (Answered e x)))) →
  tells P (Vis e k) Q hs.
Proof. intros He HP Hf. destruct e; done. Qed.

Lemma tells_ask {A X : Type} P (e : dact X) (f : X → dprog A) Q hs :
  asks_outside e = true → P hs →
  (∀ x, answer_ok file_ok e x → tells P (f x) Q (hs ++ (inr <$> view (Answered e x)))) →
  tells P (call e ≫= f) Q hs.
Proof. apply tells_vis. Qed.

Lemma tells_ioctl {A : Type} P fd cmd arg (f : Z * bytes → dprog A) Q hs :
  (∀ es r u, ioctl_trace nbits cmd (process_memory arg) es (r, u) →
    tells P (f (if decide (r < 0) then -1 else r, u_bytes u)) Q (hs ++ (inl <$> es))) →
  tells P (call (Ioctl fd cmd arg) ≫= f) Q hs.
Proof. done. Qed.

(** What is seen of an execution. *)
Definition shown (hs : list happening) : story :=
  hs ≫= (λ h, match h with inl e => [inl e] | inr a => inr <$> view a end).

Lemma shown_app hs hs' : shown (hs ++ hs') = shown hs ++ shown hs'.
Proof. apply bind_app. Qed.

Lemma shown_inl es : shown (inl <$> es) = inl <$> es.
Proof. induction es as [|e es IH]; [done|]. by rewrite fmap_cons; cbn; f_equal. Qed.

Lemma lefts_shown hs : lefts (shown hs) = lefts hs.
Proof.
  induction hs as [|[e|a] hs IH]; [done|by cbn; f_equal|].
  change (shown (inr a :: hs)) with ((inr <$> view a) ++ shown hs). by autorewrite with kv.
Qed.

Lemma rights_shown hs : rights (shown hs) = rights hs ≫= view.
Proof.
  induction hs as [|[e|a] hs IH]; [done|done|].
  change (shown (inr a :: hs)) with ((inr <$> view a) ++ shown hs).
  change (rights (inr a :: hs)) with (a :: rights hs). rewrite bind_cons, <- IH. by autorewrite with kv.
Qed.

(** An execution so far of a program that [tells]. *)
Lemma tells_partial {A : Type} P (p q : dprog A) Q hs hs' :
  partial nbits file_ok p hs' q → tells P p Q hs → tells P q Q (hs ++ shown hs').
Proof.
  intros Hp. revert hs.
  induction Hp as [p|fd cmd arg k es r u hs' q Htr _ IH|X e k x hs' q He Hx _ IH]; intros hs Ht.
  - by rewrite app_nil_r.
  - rewrite shown_app, shown_inl, app_assoc. apply IH. by apply Ht.
  - assert (tells P (k x) Q (hs ++ (inr <$> view (Answered e x)))) as Hk
      by (destruct e; try done; by apply Ht).
    apply IH in Hk. change (shown (inr (Answered e x) :: hs')) with ((inr <$> view (Answered e x)) ++ shown hs').
    by rewrite app_assoc.
Qed.

Lemma tells_at_rest {A : Type} P (p q : dprog A) Q hs :
  partial nbits file_ok p hs q → at_rest q = true → tells P p Q [] →
  P (shown hs) ∨ ∃ a, Q a (shown hs).
Proof.
  intros Hp Hr Ht. apply (tells_partial _ _ _ _ _ _ Hp) in Ht. simpl in Ht.
  destruct q as [a|X e k]; [right; by exists a|]. left. by destruct e; try done; destruct Ht.
Qed.

End Tells.

(** *** Without the order

    For what only depends on which events there were and on the answers. *)
Section Reports.
Context {ioc_api : IocApi} {api : KernelApi}.
Variables (nbits : Z) (file_ok : bytes → Prop).

Abbreviation all_of := (λ a : answered, [a]).

Definition reports {A : Type} (P : list event → list answered → Prop) (p : dprog A)
    (Q : A → list event → list answered → Prop) (es : list event) (tr : list answered) : Prop :=
  ∀ hs, lefts hs = es → rights hs = tr →
    tells nbits file_ok all_of (λ hs, P (lefts hs) (rights hs)) p (λ a hs, Q a (lefts hs) (rights hs)) hs.

Lemma reports_mono {A : Type} P (p : dprog A) (Q R : A → list event → list answered → Prop) es tr :
  (∀ a es tr, Q a es tr → R a es tr) → reports P p Q es tr → reports P p R es tr.
Proof. intros H Hp hs He Ht. eapply tells_mono; [|by apply Hp]. simpl. eauto. Qed.

Lemma reports_bind {A B : Type} P (p : dprog A) (f : A → dprog B) Q es tr :
  reports P p (λ a es tr, reports P (f a) Q es tr) es tr → reports P (p ≫= f) Q es tr.
Proof.
  intros Hp hs He Ht. apply tells_bind. eapply tells_mono; [|by apply Hp]. intros a hs' Ha. by apply Ha.
Qed.

Lemma reports_ret {A : Type} P (a : A) (Q : A → list event → list answered → Prop) es tr :
  Q a es tr → reports P (mret a) Q es tr.
Proof. by intros HQ hs <- <-. Qed.

Lemma reports_vis {A X : Type} P (e : dact X) (k : X → dprog A) Q es tr :
  asks_outside e = true → P es tr →
  (∀ x, answer_ok file_ok e x → reports P (k x) Q es (tr ++ [Answered e x])) → reports P (Vis e k) Q es tr.
Proof.
  intros He HP Hf hs <- <-. apply tells_vis; [done..|]. intros x Hx. apply (Hf x Hx).
  - rewrite lefts_app. apply app_nil_r.
  - by rewrite rights_app.
Qed.

Lemma reports_ask {A X : Type} P (e : dact X) (f : X → dprog A) Q es tr :
  asks_outside e = true → P es tr →
  (∀ x, answer_ok file_ok e x → reports P (f x) Q es (tr ++ [Answered e x])) →
  reports P (call e ≫= f) Q es tr.
Proof. apply reports_vis. Qed.

Lemma reports_ioctl {A : Type} P fd cmd arg (f : Z * bytes → dprog A) Q es tr :
  (∀ es' r u, ioctl_trace nbits cmd (process_memory arg) es' (r, u) →
    reports P (f (if decide (r < 0) then -1 else r, u_bytes u)) Q (es ++ es') tr) →
  reports P (call (Ioctl fd cmd arg) ≫= f) Q es tr.
Proof.
  intros Hf hs <- <-. apply tells_ioctl. intros es' r u Htr. apply (Hf es' r u Htr).
  - rewrite lefts_app. by autorewrite with kv.
  - rewrite rights_app. autorewrite with kv. apply app_nil_r.
Qed.

(** A program all of whose actions satisfy [K], where such actions keep [I]. *)
Lemma reports_all_acts {A : Type} (K : ∀ X, dact X → Prop) (I P : list event → list answered → Prop)
    (p : dprog A) (Q : A → list event → list answered → Prop) es tr :
  (∀ es tr, I es tr → P es tr) →
  (∀ X (e : dact X) x es tr, K X e → asks_outside e = true → I es tr → I es (tr ++ [Answered e x])) →
  (∀ fd cmd arg es' r es tr, K _ (Ioctl fd cmd arg) → ioctl_trace nbits cmd (process_memory arg) es' r →
    I es tr → I (es ++ es') tr) →
  all_acts K p → I es tr → (∀ a es tr, I es tr → Q a es tr) → reports P p Q es tr.
Proof.
  intros HI Hask Hioctl Hp Hi HQ. revert es tr Hi. induction p as [a|X e k IH]; intros es tr Hi.
  { by apply reports_ret, HQ. }
  destruct Hp as [He Hk].
  destruct e; try (apply reports_vis; [done|by apply HI|]; intros x _; apply IH; [done|]; by apply Hask).
  apply reports_ioctl. intros es' r u Htr. apply IH; [done|]. by eapply Hioctl.
Qed.

Lemma shown_all (hs : list happening) : shown all_of hs = hs.
Proof. induction hs as [|[e|a] hs IH]; [done|..]; by cbn; f_equal. Qed.

Lemma reports_at_rest {A : Type} P (p q : dprog A) Q hs :
  partial nbits file_ok p hs q → at_rest q = true → reports P p Q [] [] →
  P (lefts hs) (rights hs) ∨ ∃ a, Q a (lefts hs) (rights hs).
Proof.
  intros Hp Hr Ht. destruct (tells_at_rest _ _ _ _ _ _ _ _ Hp Hr (Ht [] eq_refl eq_refl)) as [H|[a H]];
    rewrite shown_all in H; [by left|right; by exists a].
Qed.

End Reports.

(** ** The functions of a connection *)

Section Functions.
Context {ioc_api : IocApi} {ioc_laws : IocLaws ioc_api} {api : KernelApi}.
Variables (nbits : Z) (file_ok : bytes → Prop).

Abbreviation tells := (tells nbits file_ok talk_of).

(** An action that is no part of the conversation. *)
Definition silent {X : Type} (e : dact X) : bool :=
  match e with Ioctl _ _ _ | Recv _ _ | Send _ _ | Authenticate _ _ => false | _ => true end.

Lemma tells_silent {A X : Type} P (e : dact X) (f : X → dprog A) Q hs :
  silent e = true → P hs → (∀ x, answer_ok file_ok e x → tells P (f x) Q hs) → tells P (call e ≫= f) Q hs.
Proof.
  intros He HP Hf. apply tells_ask; [by destruct e|done|]. intros x Hx.
  replace (talk_of (Answered e x)) with (@nil talk) by by destruct e.
  rewrite app_nil_r. by apply Hf.
Qed.

Lemma tells_last {X : Type} P (e : dact X) (Q : X → list (event + talk) → Prop) hs :
  silent e = true → P hs → (∀ x, Q x hs) → tells P (call e) Q hs.
Proof.
  intros He HP Hf. destruct e; try done; simpl; (split; [done|]; intros x Hx; rewrite app_nil_r; by apply Hf).
Qed.

Lemma message_trace_run k v op es m' s :
  message_trace (request_message k v) op es m' → c_str (value m') = Some s →
  op_run k (stored_text v) op es (op_response (op_code op) m' s).
Proof.
  intros Htr Hs. destruct (request_message_fields k v) as (_ & Hk & _).
  pose proof (request_message_value k v) as Hv.
  assert (∀ r ok, key m' = k → status m' = (match op, r with
    | OpInsert, Some _ => 1 | OpUpdate, None => 1 | OpGet, None => 1 | OpDelete, None => 1
    | OpInsert, None | OpUpdate, Some _ => if ok : bool then 0 else - ENOMEM
    | OpGet, Some _ | OpDelete, Some _ => 0 end) → (op = OpGet → ∀ v, r = Some v → s = v) →
    op_response (op_code op) m' s = op_reply op k r ok) as Hop.
  { intros r ok <-. apply op_response_reply. }
  assert (∀ w, c_str (value (request_message k v)) = Some w → w = stored_text v) as Hst by (rewrite Hv; by intros w [= <-]).
  inversion Htr; subst; rewrite ?Hk in *;
    match goal with
    | H : c_str (value (request_message _ _)) = Some _ |- _ => apply Hst in H; subst
    | _ => idtac
    end.
  - rewrite (Hop (Some v0) true) by done. constructor.
  - rewrite (Hop None true) by done. constructor.
  - rewrite (Hop None false) by done. by constructor.
  - rewrite (Hop None true) by done. constructor.
  - rewrite (Hop (Some v0) true) by done. constructor.
  - rewrite (Hop (Some v0) false) by done. by constructor.
  - rewrite (Hop (Some v0) true); [constructor|done|done|]. intros _ v1 [= <-].
    cbn [value set_status set_value] in Hs. rewrite c_str_stored in Hs by done. by injection Hs.
  - rewrite (Hop None true) by done. constructor.
  - rewrite (Hop (Some v0) true) by done. constructor.
  - rewrite (Hop None true) by done. constructor.
Qed.

Lemma tells_do_kv_operation P fd op key v (Q : bytes → list (event + talk) → Prop) hs :
  (parse_key key = None → Q text_bad_key hs) →
  (∀ k es reply, parse_key key = Some k → op_run k (stored_text v) op es reply → Q reply (hs ++ (inl <$> es))) →
  tells P (do_kv_operation fd (op_code op) key v) Q hs.
Proof.
  intros Hbad Hop. unfold do_kv_operation. destruct (parse_key key) as [k|] eqn:Hk; [|by apply tells_ret, Hbad].
  apply tells_ioctl. intros es r u Htr.
  destruct (request_reply nbits op k v es r u (parse_key_u64 _ _ Hk) Htr) as (-> & m' & Hm & -> & Hok & [s Hs]).
  rewrite (decide_False (P := 0 < 0)) by lia. cbv beta iota. rewrite decode_encode_msg, Hs by done.
  apply tells_ret, (Hop k); [done|]. by apply message_trace_run.
Qed.

Lemma ioctl_reads cmd arg es r :
  cmd ∈ [KV_SNAPSHOT; KV_COUNT] → ioctl_trace nbits cmd arg es r → Forall is_read es.
Proof.
  intros Hc Htr. apply elem_of_cons in Hc as [->| ->%list_elem_of_singleton].
  - apply snapshot_ioctl_trace in Htr. destruct Htr; auto using walk_reads. apply Forall_app. auto using walk_reads.
  - apply count_ioctl_trace in Htr. destruct Htr. apply walk_reads.
Qed.

Lemma tells_do_kv_snapshot_to_file P fd (Q : unit → list (event + talk) → Prop) hs :
  (∀ es, Forall is_read es → P (hs ++ (inl <$> es))) →
  (∀ u es, Forall is_read es → Q u (hs ++ (inl <$> es))) →
  tells P (do_kv_snapshot_to_file fd) Q hs.
Proof.
  intros HP HQ. unfold do_kv_snapshot_to_file. apply tells_ioctl. intros es1 r u Htr.
  apply ioctl_reads in Htr; [|by apply elem_of_cons; right; apply list_elem_of_singleton].
  generalize (if decide (r < 0) then -1 else r). intros ret.
  cbv beta iota zeta. case_decide; [apply tells_last; auto|]. case_decide; [apply tells_last; auto|].
  apply tells_silent; [done|auto|]. intros [buf|] _; [|apply tells_last; auto].
  apply tells_ioctl. intros es2 r2 u2 Htr2.
  apply ioctl_reads in Htr2; [|by apply elem_of_cons; left].
  assert (Forall is_read (es1 ++ es2)) as Hes by by apply Forall_app.
  specialize (HP _ Hes). pose proof (λ u, HQ u _ Hes) as HQ'. rewrite fmap_app, app_assoc in HP, HQ'.
  generalize (if decide (r2 < 0) then -1 else r2). intros ret2. cbv beta iota zeta.
  repeat first [ case_decide | apply tells_last; [done|auto|auto]
               | match goal with |- tells _ (if negb ?b then _ else _) _ _ => destruct b; cbn [negb] end
               | apply tells_silent; [done|auto|]; intros ? _
               | match goal with x : Empty_set |- _ => destruct x end ].
Qed.

(** The daemon's answer to a command. *)
Lemma tells_parse_and_handle_command P command fd auth Q hs :
  (∀ es tk, pending command auth es tk → P (hs ++ meanwhile es tk)) →
  (∀ reply auth' es tk, answering command auth es tk reply auth' → Q (reply, auth') (hs ++ meanwhile es tk)) →
  tells P (parse_and_handle_command command fd auth) Q hs.
Proof.
  unfold meanwhile. intros HP HQ.
  assert (P hs) as HP0.
  { rewrite <- (app_nil_r hs). apply (HP [] []). by left. }
  assert (∀ es reply auth', answering command auth es [] reply auth' → Q (reply, auth') (hs ++ (inl <$> es))) as HQ0.
  { intros es reply auth' Ha. rewrite <- (app_nil_r (inl <$> es)). by apply (HQ reply auth' es []). }
  assert (∀ reply auth', answering command auth [] [] reply auth' → Q (reply, auth') hs) as HQ1.
  { intros reply auth' Ha. rewrite <- (app_nil_r hs). by apply (HQ0 []). }
  assert (tells P (serve (request_of command auth) fd auth) Q hs) as Hserve.
  { destruct (request_of command auth) as [text|user password| |op key value] eqn:Hr; cbn [serve].
    - by apply tells_ret, HQ1, answer_refused.
    - split; [done|]. intros ok _.
      assert (Q (if ok then text_ok else text_fail, ok || auth) (hs ++ [inr (Asked user password ok)])).
      { apply (HQ _ _ [] [Asked user password ok]). by apply answer_login. }
      by destruct ok.
    - apply tells_bind, tells_do_kv_snapshot_to_file.
      + intros es Hes. rewrite <- (app_nil_r (inl <$> es)). apply (HP es []). by right; left.
      + intros _ es Hes. by apply tells_ret, HQ0, answer_save.
    - apply tells_bind, tells_do_kv_operation.
      + intros Hk. apply tells_ret, HQ1. by eapply answer_bad_key.
      + intros k es reply Hk Hop. apply tells_ret, HQ0. by eapply answer_op. }
  destruct (parse_request command fd auth) as [->|(text & ->)]; [done|].
  by apply tells_silent.
Qed.

(** Serving a client: the conversation is made of rounds. *)
Lemma tells_handle_client_loop fuel fd kv_fd auth hs :
  exchanges fd auth hs →
  tells (ordered_dialogue fd) (handle_client_loop fuel fd kv_fd auth) (λ _, ordered_dialogue fd) hs.
Proof.
  revert auth hs. induction fuel as [|fuel IH]; intros auth hs Hr; cbn [handle_client_loop].
  { split; [|by intros []]. exists auth, hs. auto. }
  assert (ordered_dialogue fd hs) as Hc by (exists auth, hs; auto).
  apply tells_ask; [done..|]. intros [data| |[]] Hx; cbn [talk_of fmap list_fmap]; rewrite ?app_nil_r;
    [|by apply tells_last|by apply IH|by apply tells_last].
  change (length data <= BUFFER_SIZE - 1)%nat in Hx. cbv beta iota zeta. rewrite (buffer_text data Hx).
  assert (∀ es tk, pending (upto_nul data) auth es tk →
    ordered_dialogue fd ((hs ++ [inr (Said fd data)]) ++ meanwhile es tk)) as Hpend.
  { intros es tk Hp. exists auth, hs. split; [done|]. right. exists data, es, tk.
    by rewrite <- app_assoc. }
  apply tells_silent; [done| |].
  { rewrite <- (app_nil_r (hs ++ _)). apply (Hpend [] []). by left. }
  intros [] _. apply tells_bind, tells_parse_and_handle_command; [done|].
  intros reply auth' es tk Ha. apply tells_ask; [done| |].
  { apply Hpend. right; right. by exists reply, auth'. }
  intros w _. cbn [talk_of fmap list_fmap].
  assert (exchanges fd auth' (((hs ++ [inr (Said fd data)]) ++ meanwhile es tk) ++ [inr (Told fd reply)])) as Hr'.
  { rewrite <- !app_assoc. by apply (exchanges_snoc _ auth _ data). }
  case_decide; [|by apply IH].
  by apply tells_last; [done|eexists _, _; split; [exact Hr'|by left]..].
Qed.

(** What a client's thread has heard, done and said. *)
Lemma handle_client_ordered fuel fd kv_fd hs q :
  partial nbits file_ok (handle_client fuel fd kv_fd) hs q → at_rest q = true →
  ordered_dialogue fd (shown talk_of hs).
Proof.
  intros Hp Hr.
  assert (tells (ordered_dialogue fd) (handle_client fuel fd kv_fd) (λ _, ordered_dialogue fd) []) as Ht.
  { unfold handle_client. apply tells_bind. eapply tells_mono; [|apply tells_handle_client_loop, exchanges_nil].
    intros u hs' Hc. by apply tells_last. }
  by destruct (tells_at_rest _ _ _ _ _ _ _ _ Hp Hr Ht) as [?|[_ ?]].
Qed.

End Functions.

(** ** The main thread

    What the main thread stores, it has read in the snapshot file. *)

Section Main.
Context {ioc_api : IocApi} {ioc_laws : IocLaws ioc_api} {api : KernelApi}.
Variables (nbits : Z) (file_ok : bytes → Prop).
Hypothesis file_image_ok : ∀ data, file_ok data → ∃ cap l, snapshot_image cap l data.

Abbreviation reports := (reports nbits file_ok).

(** The pair is in the file as it was read. *)
Definition restored (k : Z) (v : bytes) (tr : list answered) : Prop :=
  ∃ data cap l, Answered FileOpenRead (Some data) ∈ tr ∧ snapshot_image cap l data ∧ (k, v) ∈ l.

(** A change of the map that the file accounts for. *)
Definition restoring (tr : list answered) (e : event) : Prop :=
  match e with EAdd k v => restored k v tr | ERemove _ _ => False | _ => True end.

Definition all_restored (es : list event) (tr : list answered) : Prop := ∀ e, e ∈ es → restoring tr e.

Lemma reads_restoring es tr : Forall is_read es → ∀ e, e ∈ es → restoring tr e.
Proof. intros Hes e Hin. rewrite Forall_forall in Hes. specialize (Hes _ Hin). by destruct e. Qed.

Lemma all_restored_app es tr tr' : all_restored es tr → all_restored es (tr ++ tr').
Proof.
  intros H e Hin. specialize (H e Hin). destruct e as [|k v| | |]; try done.
  destruct H as (data & cap & l & Hd & Hl). exists data, cap, l.
  split; [|done]. apply elem_of_app. by left.
Qed.

Lemma all_restored_events es es' tr :
  all_restored es tr → (∀ e, e ∈ es' → restoring tr e) → all_restored (es ++ es') tr.
Proof. intros H H' e [?|?]%elem_of_app; eauto. Qed.

(** A program that only reads the store. *)
Definition only_reads (X : Type) (e : dact X) : Prop :=
  match e with Ioctl _ cmd _ => cmd ∈ [KV_SNAPSHOT; KV_COUNT] | _ => True end.

Abbreviation adds_nothing := (all_acts only_reads).

Lemma reports_adds_nothing {A : Type} (p : dprog A) (Q : A → list event → list answered → Prop) es tr :
  adds_nothing p → all_restored es tr → (∀ a es tr, all_restored es tr → Q a es tr) →
  reports all_restored p Q es tr.
Proof.
  intros Hp Hr HQ. apply (reports_all_acts _ _ only_reads all_restored); [done| | |done..].
  - intros X e x es' tr' _ _. apply all_restored_app.
  - intros fd cmd arg es' r es1 tr1 He Htr Hr1. apply all_restored_events; [done|].
    apply ioctl_reads in Htr; [|done]. by apply reads_restoring.
Qed.

Ltac adds_nothing :=
  all_acts_walk ltac:(cbn [only_reads]; rewrite ?elem_of_cons, ?list_elem_of_singleton; auto).

Lemma adds_nothing_snapshot fd : adds_nothing (do_kv_snapshot_to_file fd).
Proof. unfold do_kv_snapshot_to_file. adds_nothing. Qed.

Lemma adds_nothing_init_network : adds_nothing init_network.
Proof. unfold init_network. adds_nothing. Qed.

Lemma adds_nothing_listen_network fuel server_fd kv_fd : adds_nothing (listen_network fuel server_fd kv_fd).
Proof. induction fuel as [|fuel IH]; cbn [listen_network]; adds_nothing. Qed.

(** Every pair that the loop stores is an entry of the file. *)
Lemma reports_restore_entries fd st data cap l n : ∀ first restored skipped es tr,
  Answered FileOpenRead (Some data) ∈ tr → snapshot_image cap l data → (first + n <= length l)%nat →
  all_restored es tr →
  reports all_restored (restore_entries fd st data first n restored skipped) (λ _, all_restored) es tr.
Proof.
  induction n as [|n IH]; intros first restored skipped es tr Hin Himg Hn Hr; [by apply reports_ret|]. cbn [restore_entries].
  apply reports_ioctl. intros es' r u Htr.
  assert (all_restored (es ++ es') tr) as Hr'.
  { apply all_restored_events; [done|]. intros e He.
    destruct (event_source nbits _ _ _ _ _ Htr He) as [Hread|(op & bs & Hop & Hbs & Hev)]; [by destruct e|].
    destruct e as [|k v| |k v|]; try done.
    2: { destruct Hev as [_ ->]. by apply (op_code_inj OpInsert) in Hop. }
    destruct Hev as (Hk & Hv & _). symmetry in Hk.
    destruct (lookup_lt_is_Some_2 l first) as [kv Hl]; [lia|].
    destruct (si_entries _ _ _ Himg first kv Hl) as (_ & Hkey & Hval).
    rewrite copy_from_process in Hbs.
    2: { apply length_read_at. rewrite (si_length _ _ _ Himg).
         unfold off_snap_entries, sizeof_kv_snapshot_message, sizeof_kv_message. lia. }
    injection Hbs as <-. fold (entry_at data first) in Hk, Hv.
    exists data, cap, l. split_and!; [done..|].
    replace (k, v) with kv by (destruct kv; simpl in *; congruence). by eapply list_elem_of_lookup_2. }
  destruct (_ || _); (apply IH; [done|done|lia|done]).
Qed.

Lemma reports_do_kv_restore_from_file fd es tr :
  all_restored es tr → reports all_restored (do_kv_restore_from_file fd) (λ _, all_restored) es tr.
Proof.
  intros Hr0. unfold do_kv_restore_from_file. apply reports_ask; [done..|]. intros [data|] Hdata.
  2: { apply reports_adds_nothing; [by split|by apply all_restored_app|done]. }
  destruct (file_image_ok data (Hdata _ eq_refl)) as (cap & l & Himg).
  pose proof (snapshot_image_count _ _ _ Himg) as Hu. destruct (restore_header _ _ _ Himg) as [Hw Hh].
  pose proof Himg as [Hlen Hst _ Hcount _]. rewrite Hw, Hh, Hcount, Hst, Nat2Z.id.
  apply reports_ask; [done|by apply all_restored_app|]. intros x (buf & -> & Hbuf).
  rewrite length_snapshot_buffer in Hbuf by done.
  rewrite decide_False by lia. rewrite restore_buffer by congruence.
  apply reports_bind. eapply reports_mono.
  2: { apply (reports_restore_entries _ _ data cap l (length l)); [|done|lia|].
       - rewrite !elem_of_app. left. right. by apply list_elem_of_singleton.
       - by do 2 apply all_restored_app. }
  intros [n skipped] es1 tr1 Hr. apply reports_adds_nothing; [|done|done].
  apply all_acts_bind; [by split|]. by split.
Qed.

Lemma main_restored fuel hs q :
  partial nbits file_ok (_ ← main fuel; mret tt) hs q → at_rest q = true →
  all_restored (lefts hs) (rights hs).
Proof.
  intros Hp Hr.
  assert (reports all_restored (_ ← main fuel; mret tt) (λ _, all_restored) [] []) as Ht.
  { apply reports_bind. eapply reports_mono; [intros a es' tr'; exact (λ H, H)|]. unfold main.
    assert (all_restored [] []) as H0 by by intros e ?%not_elem_of_nil.
    do 2 (apply reports_ask; [done|by repeat apply all_restored_app|]; intros [] _).
    apply reports_bind, reports_adds_nothing; [|by repeat apply all_restored_app|].
    { unfold init_kv. adds_nothing. }
    intros kv_fd es1 tr1 Hr1. case_decide; [by do 2 apply reports_ret|].
    apply reports_bind. eapply reports_mono; [|by apply reports_do_kv_restore_from_file].
    intros u es2 tr2 Hr2. apply reports_adds_nothing; [|done|intros; by apply reports_ret].
    apply all_acts_bind; [apply adds_nothing_init_network|]. intros server_fd.
    case_decide; [adds_nothing|]. apply all_acts_bind; [by split|]. intros _.
    apply all_acts_bind; [apply adds_nothing_listen_network|]. intros _.
    apply all_acts_bind; [apply adds_nothing_snapshot|]. intros _. adds_nothing. }
  by destruct (reports_at_rest _ _ _ _ _ _ _ Hp Hr Ht) as [?|[_ ?]].
Qed.

End Main.
