(* ===== verification/Isolation.v ===== *)
(** * Clients with keys of their own

    A client that alone changes the keys it works on gets from the busy daemon the
    replies that the reference interpreter of [Session] gives, as if it were the
    only one. *)

From S2P Require Import Prelude Prog Timeline CStr KvIoctl KMem KvHash KLogic KvTrace Kvlkm.
From S2P Require Import KvlkmSpec.
From S2P Require Import KvDevice.
From S2P Require Import KvInterface Daemon DaemonSpec Session Access Dialogue.

(** ** The map as one thread sees it *)

Definition agree (K : Z → Prop) (m m' : gmap Z bytes) : Prop := ∀ k, K k → m !! k = m' !! k.

#[export] Instance agree_equiv K : Equivalence (agree K).
Proof.
  split.
  - by intros m k.
  - intros m m' H k Hk. symmetry. by apply H.
  - intros m1 m2 m3 H1 H2 k Hk. etrans; [by apply H1|by apply H2].
Qed.

Lemma agree_insert K k v m m' : agree K m m' → agree K (<[k := v]> m) (<[k := v]> m').
Proof.
  intros H k' Hk'. destruct (decide (k = k')) as [->|]; [by rewrite !lookup_insert_eq|].
  rewrite !lookup_insert_ne by done. by apply H.
Qed.

Lemma agree_delete K k m m' : agree K m m' → agree K (delete k m) (delete k m').
Proof.
  intros H k' Hk'. destruct (decide (k = k')) as [->|]; [by rewrite !lookup_delete_eq|].
  rewrite !lookup_delete_ne by done. by apply H.
Qed.

Lemma agree_insert_other K k v m : ¬ K k → agree K (<[k := v]> m) m.
Proof. intros Hk k' Hk'. apply lookup_insert_ne. by intros ->. Qed.

Lemma agree_delete_other K k m : ¬ K k → agree K (delete k m) m.
Proof. intros Hk k' Hk'. apply lookup_delete_ne. by intros ->. Qed.

(** The event may change a key of [K]. *)
Definition changes (K : Z → Prop) (e : event) : Prop :=
  match e with EAdd k _ | ERemove k _ => K k | _ => False end.

(** The event is about a key of [K], or is part of the walk of a snapshot. *)
Definition within (K : Z → Prop) (e : event) : Prop :=
  match e with ELookup k _ | EAdd k _ | ENoMem k | ERemove k _ => K k | ERead _ _ => True end.

(** As [event_step], but what a snapshot reads is not looked at. *)
Definition own_step (e : event) (m m' : gmap Z bytes) : Prop :=
  match e with
  | ELookup k r => m' = m ∧ r = m !! k
  | EAdd k v => m' = <[k := v]> m
  | ENoMem k => m' = m ∧ m !! k = None
  | ERemove k r => m' = delete k m ∧ r = m !! k
  | ERead _ _ => m' = m
  end.

Inductive own_run : list event → gmap Z bytes → gmap Z bytes → Prop :=
  | own_nil m : own_run [] m m
  | own_cons e es m m1 m2 : own_step e m m1 → own_run es m1 m2 → own_run (e :: es) m m2.

Lemma own_run_app es es' m m' :
  own_run (es ++ es') m m' → ∃ m1, own_run es m m1 ∧ own_run es' m1 m'.
Proof.
  revert m. induction es as [|e es IH]; intros m Hr; [exists m; split; [constructor|done]|].
  inversion Hr as [|? ? ? m1 ? He Hr']; subst. destruct (IH _ Hr') as (m2 & H1 & H2).
  exists m2. split; [by econstructor|done].
Qed.

Lemma own_run_reads es m m' : Forall is_read es → own_run es m m' → m' = m.
Proof.
  intros Hes Hr. induction Hr as [m|e es m m1 m2 He _ IH]; [done|]. inversion Hes as [|? ? Hread Hes']; subst.
  destruct e; try done. simpl in He. subst m1. by apply IH.
Qed.

Section Events.
Context {api : KernelApi}.

Lemma step_other nbits K e m m1 : event_step nbits e m m1 → ¬ changes K e → agree K m1 m.
Proof.
  destruct e; simpl; try (intros [-> _] _; done); intros He Hk.
  - subst m1. by apply agree_insert_other.
  - destruct He as [-> _]. by apply agree_delete_other.
Qed.

Lemma step_own nbits K e m m1 mi :
  event_step nbits e m m1 → within K e → agree K m mi → ∃ mi1, own_step e mi mi1 ∧ agree K m1 mi1.
Proof.
  intros He Hk Hm. destruct e as [k r|k v|k|k r|i l]; simpl in *.
  - destruct He as [-> ->]. exists mi. by split; [split; [|apply Hm]|].
  - subst m1. exists (<[k := v]> mi). by split; [|apply agree_insert].
  - destruct He as [-> Hn]. exists mi. by split; [split; [|rewrite <- Hm]|].
  - destruct He as [-> ->]. exists (delete k mi). by split; [split; [|apply Hm]|apply agree_delete].
  - destruct He as [-> _]. by exists mi.
Qed.

(** Where the other threads leave the keys of [K] alone, the events of thread [j],
    which are about them only, are those of a run on its own. *)
Lemma own_events nbits K j (GE : list (nat * event)) m m' mi :
  events_run nbits (snd <$> GE) m m' → agree K m mi →
  (∀ j' e, (j', e) ∈ GE → j' ≠ j → ¬ changes K e) → (∀ e, (j, e) ∈ GE → within K e) →
  ∃ mi', own_run (thread_events j GE) mi mi' ∧ agree K m' mi'.
Proof.
  revert m mi. induction GE as [|[j' e] GE IH]; intros m mi Hr Hm Hother Hown.
  { inversion Hr; subst. exists mi. split; [constructor|done]. }
  inversion Hr as [|? ? ? m1 ? He Hr']; subst. rewrite thread_events_cons.
  assert (∀ x, x ∈ GE → x ∈ (j', e) :: GE) as Hsub by (intros x Hx; by apply elem_of_cons; right).
  case_decide as Hj.
  - subst j'. destruct (step_own _ K _ _ _ mi He) as (mi1 & Hstep & Hm1); [|done|].
    { apply Hown, elem_of_cons. by left. }
    destruct (IH _ mi1 Hr' Hm1) as (mi' & Hrun & Hm'); [eauto..|].
    exists mi'. split; [by econstructor|done].
  - apply (IH _ mi Hr'); [|eauto..]. etrans; [|exact Hm].
    apply (step_other _ _ _ _ _ He), (Hother j'); [apply elem_of_cons; by left|done].
Qed.

End Events.

(** ** The interpreter, one message at a time *)

Definition said (tk : list talk) : list bytes := tk ≫= λ t, match t with Said _ msg => [msg] | _ => [] end.
Definition told (tk : list talk) : list bytes := tk ≫= λ t, match t with Told _ reply => [reply] | _ => [] end.

Lemma talk_in_log j t (GA : list (nat * answered)) : t ∈ talks (thread_events j GA) → t ∈ talks (snd <$> GA).
Proof.
  intros (a & Ht & Ha)%list_elem_of_bind. apply list_elem_of_bind. exists a. split; [done|].
  apply thread_events_elem in Ha. apply list_elem_of_fmap. by exists (j, a).
Qed.

(** PAM's answers in a conversation are [knows]. *)
Definition pam_is (knows : bytes → bytes → bool) (tk : list talk) : Prop :=
  ∀ user password ok, Asked user password ok ∈ tk → ok = knows user password.

Lemma said_app tk tk' : said (tk ++ tk') = said tk ++ said tk'.
Proof. apply bind_app. Qed.

Lemma told_app tk tk' : told (tk ++ tk') = told tk ++ told tk'.
Proof. apply bind_app. Qed.

Lemma pam_is_app knows tk tk' : pam_is knows (tk ++ tk') → pam_is knows tk ∧ pam_is knows tk'.
Proof. intros H. split; intros u p ok Hin; apply H, elem_of_app; auto. Qed.

(** Between a command and its reply only PAM is asked. *)
Lemma answering_silent {api : KernelApi} command auth es tk reply auth' :
  answering command auth es tk reply auth' → said tk = [] ∧ told tk = [].
Proof. by destruct 1. Qed.

Lemma round_said fd msg tk reply (said_none : said tk = [] ∧ told tk = []) tk0 :
  said (tk0 ++ Said fd msg :: tk ++ [Told fd reply]) = said tk0 ++ [msg] ∧
  told (tk0 ++ Said fd msg :: tk ++ [Told fd reply]) = told tk0 ++ [reply].
Proof.
  change (Said fd msg :: tk ++ [Told fd reply]) with ([Said fd msg] ++ tk ++ [Told fd reply]).
  destruct said_none as [Hs Ht]. by rewrite !said_app, !told_app, Hs, Ht.
Qed.

Lemma pending_silent {api : KernelApi} command auth es tk :
  pending command auth es tk → said tk = [] ∧ told tk = [].
Proof. intros [[_ ->]|[(_ & _ & ->)|(reply & auth' & Ha)]]; [done..|]. by eapply answering_silent. Qed.

Lemma rounds_length {api : KernelApi} fd auth es tk : rounds fd auth es tk → length (said tk) = length (told tk).
Proof.
  induction 1 as [|auth es tk msg es' tk' reply auth' _ IH Ha]; [done|].
  destruct (round_said fd msg tk' reply (answering_silent _ _ _ _ _ _ Ha) tk) as [-> ->].
  by rewrite !length_app, IH.
Qed.

(** Whether the connection is authenticated after the messages, and the map. *)
Fixpoint session_end (knows : bytes → bytes → bool) (msgs : list bytes) (auth : bool) (m : gmap Z bytes)
    : bool * gmap Z bytes :=
  match msgs with
  | [] => (auth, m)
  | msg :: msgs' =>
      let '(_, auth, m) := command_answer knows (upto_nul msg) auth m in session_end knows msgs' auth m
  end.

Lemma session_app knows msgs msgs' auth m :
  session knows (msgs ++ msgs') auth m =
  (let '(auth1, m1) := session_end knows msgs auth m in
   ((session knows msgs auth m).1 ++ (session knows msgs' auth1 m1).1, (session knows msgs' auth1 m1).2)).
Proof.
  revert auth m. induction msgs as [|msg msgs IH]; intros auth m; cbn [app session session_end].
  { by destruct (session knows msgs' auth m). }
  destruct (command_answer _ _ _ _) as [[text auth1] m1]. rewrite IH.
  destruct (session_end _ _ _ _) as [auth2 m2], (session knows msgs auth1 m1) as [texts m3]. done.
Qed.

Lemma session_end_app knows msgs msgs' auth m :
  session_end knows (msgs ++ msgs') auth m =
  (let '(auth1, m1) := session_end knows msgs auth m in session_end knows msgs' auth1 m1).
Proof.
  revert auth m. induction msgs as [|msg msgs IH]; intros auth m; cbn [app session_end]; [done|].
  by destruct (command_answer _ _ _ _) as [[text auth1] m1].
Qed.

Lemma session_end_map knows msgs auth m : (session_end knows msgs auth m).2 = (session knows msgs auth m).2.
Proof.
  revert auth m. induction msgs as [|msg msgs IH]; intros auth m; cbn [session session_end]; [done|].
  destruct (command_answer _ _ _ _) as [[text auth1] m1]. rewrite IH. by destruct (session knows msgs auth1 m1).
Qed.

Section Session.
Context {api : KernelApi}.
Hypothesis memory : ¬ may_fail.
Variable knows : bytes → bytes → bool.

Lemma op_run_answer op k v es reply m m' :
  op_run k v op es reply → own_run es m m' → reply = op_text op k m true ∧ m' = op_map op k v m true.
Proof.
  intros Hop Hr. unfold op_text, op_map.
  destruct Hop as [v0| |es Hf Hes| |v0|v0 es Hf Hes|r|r]; try done;
    repeat match goal with
    | H : own_run (_ :: _) _ _ |- _ => inversion H; subst; clear H
    | H : own_run [] _ _ |- _ => inversion H; subst; clear H
    | H : own_step _ _ _ |- _ => cbn [own_step] in H
    | H : _ ∧ _ |- _ => destruct H
    end; subst;
    repeat match goal with H : _ = ?m !! ?k |- _ => rewrite <- H; clear H end; (done || by destruct r).
Qed.

Lemma answering_answer command auth es tk reply auth' m m' :
  answering command auth es tk reply auth' → own_run es m m' → pam_is knows tk →
  command_answer knows command auth m = (reply, auth', m').
Proof.
  intros Ha Hr Hp. unfold command_answer.
  destruct Ha as [text ->|user password ok ->|es -> Hes|op key value -> Hk|op key value k es reply -> Hk Hop].
  - by inversion Hr; subst.
  - inversion Hr; subst. rewrite <- (Hp user password ok) by by apply list_elem_of_singleton. by destruct ok.
  - by apply own_run_reads in Hr as ->.
  - inversion Hr; subst. unfold op_answer. by rewrite Hk.
  - destruct (op_run_answer _ _ _ _ _ _ _ Hop Hr) as [-> ->]. unfold op_answer. by rewrite Hk.
Qed.

Lemma rounds_session fd auth es tk m m' :
  rounds fd auth es tk → own_run es m m' → pam_is knows tk →
  told tk = (session knows (said tk) false m).1 ∧ session_end knows (said tk) false m = (auth, m').
Proof.
  intros Hrounds. revert m'.
  induction Hrounds as [|auth es tk msg es' tk' reply auth' _ IH Ha]; intros m' Hr Hp.
  { by inversion Hr; subst. }
  apply own_run_app in Hr as (m1 & Hr1 & Hr2). apply pam_is_app in Hp as [Hp1 Hp2].
  apply (pam_is_app _ [Said fd msg]) in Hp2 as [_ [Hp2 _]%pam_is_app].
  destruct (IH _ Hr1 Hp1) as (Ht & Hend).
  destruct (round_said fd msg tk' reply (answering_silent _ _ _ _ _ _ Ha) tk) as [-> ->].
  rewrite session_app, session_end_app, Hend. cbn [session session_end].
  rewrite (answering_answer _ _ _ _ _ _ _ _ Ha Hr2 Hp2). by rewrite Ht.
Qed.

(** What a client is told is what the interpreter answers. *)
Lemma dialogue_session fd es tk m m' :
  dialogue fd es tk → own_run es m m' → pam_is knows tk →
  told tk `prefix_of` (session knows (said tk) false m).1 ∧ (length (said tk) <= S (length (told tk)))%nat ∧
  (length (said tk) = length (told tk) → m' = (session knows (said tk) false m).2).
Proof.
  intros (auth & es0 & tk0 & Hrounds & [[-> ->]|(msg & es' & tk' & -> & -> & Hpend)]) Hr Hp.
  - destruct (rounds_session _ _ _ _ _ _ Hrounds Hr Hp) as (Ht & Hend).
    pose proof (rounds_length _ _ _ _ Hrounds) as Hlen.
    rewrite Ht, <- session_end_map, Hend. rewrite Ht in Hlen. split_and!; [done|lia|done].
  - apply own_run_app in Hr as (m1 & Hr1 & Hr2). apply pam_is_app in Hp as [Hp1 _].
    destruct (rounds_session _ _ _ _ _ _ Hrounds Hr1 Hp1) as (Ht & Hend).
    pose proof (rounds_length _ _ _ _ Hrounds) as Hlen.
    destruct (pending_silent _ _ _ _ Hpend) as [Hs' Ht'].
    change (Said fd msg :: tk') with ([Said fd msg] ++ tk').
    rewrite !said_app, !told_app, Hs', Ht', session_app, Hend, !app_nil_r.
    cbn [said told mbind list_bind app fst]. rewrite ?app_nil_r, Ht, length_app.
    rewrite Ht in Hlen. cbn [length]. split_and!; [by apply prefix_app_r|lia|lia].
Qed.

End Session.

(** ** What clients ask for *)

(** The commands received are about keys of [K]. *)
Definition works_on (K : Z → Prop) (fd : Z) (tk : list talk) : Prop :=
  ∀ msg op key value k, Said fd msg ∈ tk → request_of (upto_nul msg) true = Operate op key value →
    parse_key key = Some k → K k.

(** The commands received at most look at the keys of [K]. *)
Definition leaves_alone (K : Z → Prop) (fd : Z) (tk : list talk) : Prop :=
  ∀ msg op key value k, Said fd msg ∈ tk → request_of (upto_nul msg) true = Operate op key value →
    op ≠ OpGet → parse_key key = Some k → ¬ K k.

Lemma requested_within K fd e tk : requested fd e tk → works_on K fd tk → within K e.
Proof.
  intros [_ (msg & op & key & value & k & Hmsg & Hreq & Hk & He)] HK.
  specialize (HK _ _ _ _ _ Hmsg Hreq Hk). destruct e; simpl in *; intuition congruence.
Qed.

Lemma requested_changes K fd e tk : requested fd e tk → leaves_alone K fd tk → ¬ changes K e.
Proof.
  intros [_ (msg & op & key & value & k & Hmsg & Hreq & Hk & He)] HK Hc.
  destruct e as [|k' v'| |k' r|]; try done; simpl in He, Hc.
  - destruct He as (-> & _ & Hv). assert (op ≠ OpGet) as Hop by by intros ->. by eapply HK.
  - destruct He as [-> ->]. by eapply HK.
Qed.

Lemma read_within K e : is_read e → within K e.
Proof. by destruct e. Qed.

Lemma read_changes K e : is_read e → ¬ changes K e.
Proof. destruct e; simpl; tauto. Qed.
