(* ===== verification/SavedFile.v ===== *)
(** * What a busy daemon writes to its snapshot file

    While other threads change the store, a thread saves it: whatever it writes is
    the image of some list of pairs, and it has read every one of them in the
    store.  (The list may be empty although the store is not: when the number of
    pairs has changed since it was asked for, the module leaves the buffer as it
    was.) *)

From S2P Require Import Prelude Prog Timeline CStr KvIoctl KMem KvHash KLogic KvHashSpec KvTrace.
From S2P Require Import Kvlkm.
From S2P Require Import KvlkmSpec KvDevice.
From S2P Require Import KvInterface Auth Daemon DaemonSem DaemonSpec Connection Session Access.
From S2P Require Import System SystemSpec Dialogue.

(** The snapshot file at the start is an image, or there is none. *)
Definition image_file (data : bytes) : Prop := ∃ cap l, snapshot_image cap l data.

Section Image.
Context {ioc_api : IocApi} {ioc_laws : IocLaws ioc_api} {api : KernelApi}.
Variable nbits : Z.

(** The header alone, as the daemon has prepared it. *)
Lemma request_image cap n :
  is_u32 cap → snapshot_image cap [] (take sizeof_kv_snapshot_message (snapshot_request cap n)).
Proof.
  intros Hc. change (take sizeof_kv_snapshot_message ?bs) with (read_at 0 sizeof_kv_snapshot_message bs).
  assert (∀ off, (off + 4 <= sizeof_kv_snapshot_message)%nat → off ≠ off_snap_capacity →
    (off + 4 <= off_snap_capacity ∨ off_snap_capacity + 4 <= off)%nat →
    read_at off 4 (snapshot_request cap n) = zeros 4) as Hzero.
  { intros off Hoff _ Hne. unfold snapshot_request.
    rewrite read_write_ne; [|rewrite length_zeros, length_le_bytes|by rewrite length_le_bytes];
      [|unfold off_snap_capacity, sizeof_kv_snapshot_message; lia].
    unfold read_at. rewrite drop_zeros, take_zeros. f_equal. lia. }
  split; [|unfold decode_header; cbn [snap_status snap_capacity snap_count];
    rewrite read_at_read_at by (unfold off_snap_status, off_snap_capacity, off_snap_count, sizeof_kv_snapshot_message; lia);
    cbn [Nat.add]..|done].
  - rewrite length_read_at; [done|]. rewrite length_snapshot_request. lia.
  - by rewrite Hzero by (unfold off_snap_status, off_snap_capacity, sizeof_kv_snapshot_message; lia).
  - unfold snapshot_request. rewrite read_write_eq; [by apply le_value_u32|done|].
    rewrite length_zeros. unfold off_snap_capacity, sizeof_kv_snapshot_message. lia.
  - by rewrite Hzero by (unfold off_snap_count, off_snap_capacity, sizeof_kv_snapshot_message; lia).
Qed.

Lemma walk_read_pair ls es k v : (k, v) ∈ concat ls → read_pair (es ++ walk_events ls) k v.
Proof.
  intros (l & [i Hi]%list_elem_of_In%list_elem_of_lookup & Hkv%list_elem_of_In)%list_elem_of_In%in_concat.
  exists i, l. split; [|done].
  apply elem_of_app. right. apply list_elem_of_lookup. exists i. unfold walk_events.
  by rewrite list_lookup_imap, Hi.
Qed.

(** The file after a snapshot, whatever became of it. *)
Lemma snapshot_reply_file n es r u :
  ioctl_trace nbits KV_SNAPSHOT (process_memory (snapshot_request (Z.of_nat n) n)) es (r, u) →
  is_u32 (Z.of_nat n) →
  ∃ l, snapshot_image (Z.of_nat n) l
      (take (Z.to_nat (snapshot_size (snap_count (decode_header (u_bytes u))))) (u_bytes u)) ∧
    ∀ k v, (k, v) ∈ l → read_pair es k v.
Proof.
  intros Htr Hn. pose proof (request_image (Z.of_nat n) n Hn) as Hempty.
  destruct (snapshot_request_header (Z.of_nat n) n Hn) as (hd & Hhd & Hcap).
  assert (u_bytes u = snapshot_request (Z.of_nat n) n →
    snap_count (decode_header (u_bytes u)) = 0) as Hcount.
  { intros ->. etrans; [|exact (si_count _ _ _ Hempty)]. unfold decode_header. cbn [snap_count].
    f_equal. }
  assert (u_bytes u = snapshot_request (Z.of_nat n) n → ∃ l, snapshot_image (Z.of_nat n) l
      (take (Z.to_nat (snapshot_size (snap_count (decode_header (u_bytes u))))) (u_bytes u)) ∧
    ∀ k v, (k, v) ∈ l → read_pair es k v) as Hsame.
  { intros Hu. exists []. rewrite Hcount, Hu by done. split; [exact Hempty|]. by intros k v ?%not_elem_of_nil. }
  apply snapshot_ioctl_trace in Htr.
  inversion Htr as [Hnone|bs1 ls Hbs1 Hls count Hm|bs1 ls Hf Hbs1 Hls Heq|bs1 ls Hbs1 Hls Hc0 Heq
    |bs1 ls ls' data r' Hbs1 Hls Hls' cap Heq Hpos Hend Himg _ Hrp]; subst; try by apply Hsame.
  rewrite Hhd in Hbs1. injection Hbs1 as <-. unfold cap in *. rewrite Hcap in *.
  exists (take (Z.to_nat (Z.of_nat n)) (concat ls')). split.
  - pose proof (si_length _ _ _ Himg) as Hlen. pose proof (length_take (concat ls') (Z.to_nat (Z.of_nat n))) as Hl.
    set (l := take (Z.to_nat (Z.of_nat n)) (concat ls')) in *.
    assert (0 + length data <= length (snapshot_request (Z.of_nat n) n))%nat as Hfits.
    { rewrite length_snapshot_request, Hlen. unfold sizeof_kv_message. lia. }
    unfold reply in Hrp. rewrite copy_to_user_all in Hrp by (rewrite room_process; exact Hfits).
    injection Hrp as -> ->. cbn [u_write process_memory u_bytes].
    assert (snap_count (decode_header (write_at 0 data (snapshot_request (Z.of_nat n) n))) = Z.of_nat (length l)) as ->.
    { rewrite <- (si_count _ _ _ Himg). unfold decode_header. cbn [snap_count]. f_equal.
      apply read_write_prefix; [unfold off_snap_count, sizeof_kv_snapshot_message in *; lia|exact Hfits]. }
    rewrite length_snapshot_buffer by (unfold is_u32 in *; lia). rewrite <- Hlen.
    change (take ?n ?bs) with (read_at 0 n bs). by rewrite read_write_at.
  - intros k v Hkv. apply walk_read_pair.
    rewrite <- (take_drop (Z.to_nat (Z.of_nat n)) (concat ls')). apply elem_of_app. by left.
Qed.

End Image.

(** ** The functions *)

Section Saves.
Context {ioc_api : IocApi} {ioc_laws : IocLaws ioc_api} {api : KernelApi}.
Variables (nbits : Z) (file_ok : bytes → Prop).

(** What was written is an image, of pairs that were read. *)
Definition saved (es : list event) (log : list answered) : Prop :=
  ∀ data, Answered (FileWrite data) tt ∈ log →
    ∃ cap l, snapshot_image cap l data ∧ ∀ k v, (k, v) ∈ l → read_pair es k v.

Definition saves {A : Type} (p : dprog A) : Prop :=
  ∀ es log, saved es log → reports nbits file_ok saved p (λ _, saved) es log.

Definition no_write (X : Type) (e : dact X) : Prop := match e with FileWrite _ => False | _ => True end.

Lemma read_pair_app es es' k v : read_pair es k v → read_pair (es ++ es') k v.
Proof. intros (i & l & Hi & Hl). exists i, l. split; [|done]. apply elem_of_app. by left. Qed.

Lemma saved_events es es' log : saved es log → saved (es ++ es') log.
Proof.
  intros H data Hd. destruct (H data Hd) as (cap & l & Hl & Hr). exists cap, l.
  split; [done|]. intros k v Hkv. by apply read_pair_app, Hr.
Qed.

Lemma saved_answer es log {X : Type} (e : dact X) x :
  no_write X e → saved es log → saved es (log ++ [Answered e x]).
Proof.
  intros He H data [Hd|Hd%list_elem_of_singleton]%elem_of_app; [by apply H|].
  apply (f_equal (λ a, match a with @Answered Y e' _ => no_write Y e' end)) in Hd. simpl in Hd.
  rewrite <- Hd in He. done.
Qed.

Lemma saves_bind {A B : Type} (p : dprog A) (f : A → dprog B) : saves p → (∀ a, saves (f a)) → saves (p ≫= f).
Proof.
  intros Hp Hf es log H. apply reports_bind. eapply reports_mono; [|by apply Hp]. intros a es' log' H'. by apply Hf.
Qed.

Lemma saves_no_write {A : Type} (p : dprog A) : all_acts no_write p → saves p.
Proof.
  intros Hp es log H. apply (reports_all_acts _ _ no_write saved); [done| | |done..].
  - intros X e x es' log' He _. by apply saved_answer.
  - intros fd cmd arg es' r es1 log1 _ _. apply saved_events.
Qed.

Lemma saves_ask {A X : Type} (e : dact X) (f : X → dprog A) (Q : A → list event → list answered → Prop) es log :
  asks_outside e = true → no_write X e → saved es log →
  (∀ x log, answer_ok file_ok e x → saved es log → reports nbits file_ok saved (f x) Q es log) →
  reports nbits file_ok saved (call e ≫= f) Q es log.
Proof. intros He Hw H Hf. apply reports_ask; [done..|]. intros x Hx. apply Hf; [done|]. by apply saved_answer. Qed.

Lemma saves_snapshot fd : saves (do_kv_snapshot_to_file fd).
Proof.
  intros es log H. unfold do_kv_snapshot_to_file. apply reports_ioctl. intros es1 r u Htr.
  apply (saved_events _ es1) in H. revert H. generalize (es ++ es1) as es0. intros es0 H.
  destruct (count_reply nbits (le_bytes 4 0) es1 r u eq_refl Htr) as [Hr|(-> & z & Hz & ->)].
  { rewrite (decide_True (P := r < 0)), decide_True by (done || lia). by apply saves_no_write; [split|]. }
  rewrite (decide_False (P := 0 < 0)) by lia. cbv beta iota zeta.
  rewrite le_value_u32 by done. case_decide as Hz0; [by apply saves_no_write; [split|]|].
  assert (∃ n, z = Z.of_nat n) as [n ->] by (exists (Z.to_nat z); destruct Hz; lia).
  apply saves_ask; [done..|]. clear log H. intros [buf|] log Hbuf H; [|by apply saves_no_write; [split|]]. rewrite (Hbuf _ eq_refl).
  rewrite length_snapshot_buffer by done. fold (snapshot_request (Z.of_nat n) n).
  apply reports_ioctl. intros es2 r2 u2 Htr2.
  destruct (snapshot_reply_file nbits n es2 r2 u2 Htr2 Hz) as (l & Himg & Hl).
  apply (saved_events _ es2) in H.
  generalize (if decide (r2 < 0) then -1 else r2). intros ret. cbv beta iota zeta.
  case_decide; [apply saves_no_write; [|done]; all_acts_walk ltac:(done)|].
  apply saves_ask; [done..|]. clear log H. intros opened log _ H. destruct opened; cbn [negb]; [|apply saves_no_write; [all_acts_walk ltac:(done)|done]].
  case_decide; [by apply saves_no_write; [split; [|intros []]|]|].
  apply reports_ask; [done..|]. intros [] _.
  assert (saved (es0 ++ es2) (log ++ [Answered (FileWrite (take (Z.to_nat (snapshot_size
    (snap_count (decode_header (u_bytes u2))))) (u_bytes u2))) tt])) as Hsaved.
  { intros data [Hd|Hd%list_elem_of_singleton]%elem_of_app; [by apply H|].
    apply (f_equal (λ a, match a with @Answered Y e' _ => match e' with FileWrite d => d | _ => [] end end)) in Hd.
    simpl in Hd. subst data. exists (Z.of_nat n), l. split; [exact Himg|]. intros k v Hkv.
    destruct (Hl k v Hkv) as (i & lb & Hi & Hlb). exists i, lb. split; [|done]. apply elem_of_app. by right. }
  apply saves_no_write; [all_acts_walk ltac:(done)|exact Hsaved].
Qed.

Ltac no_write := apply saves_no_write; all_acts_walk ltac:(done).

Lemma saves_command command fd auth : saves (parse_and_handle_command command fd auth).
Proof.
  assert (saves (serve (request_of command auth) fd auth)) as Hserve.
  { destruct (request_of command auth) as [text|user pw| |op key value]; cbn [serve].
    - by apply saves_no_write.
    - no_write.
    - apply saves_bind; [apply saves_snapshot|]. intros []. by apply saves_no_write.
    - apply saves_bind; [unfold do_kv_operation; no_write|]. intros a. by apply saves_no_write. }
  destruct (parse_request command fd auth) as [->|(text & ->)]; [done|].
  apply saves_bind; [by apply saves_no_write; split|]. by intros [].
Qed.

Lemma saves_handle_client fuel client_fd kv_fd : saves (handle_client fuel client_fd kv_fd).
Proof.
  apply saves_bind; [|intros []; by apply saves_no_write; split]. generalize false.
  induction fuel as [|fuel IH]; intros auth; cbn [handle_client_loop]; [by apply saves_no_write; split|].
  apply saves_bind; [by apply saves_no_write; split|]. intros [data| |[]]; [|no_write|done|no_write].
  apply saves_bind; [no_write|]. intros []. apply saves_bind; [apply saves_command|].
  intros [response auth']. apply saves_bind; [no_write|]. intros w. case_decide; [no_write|done].
Qed.

Lemma saves_main fuel : saves (_ ← main fuel; mret tt).
Proof.
  assert (∀ st data n first restored skipped fd,
    all_acts no_write (restore_entries fd st data first n restored skipped)) as Hrestore.
  { intros st data. induction n as [|n IH]; intros first restored skipped fd; [done|].
    cbn [restore_entries]. all_acts_walk ltac:(done). }
  assert (∀ n server_fd kv_fd, all_acts no_write (listen_network n server_fd kv_fd)) as Hlisten.
  { induction n as [|n IH]; intros server_fd kv_fd; cbn [listen_network]; all_acts_walk ltac:(done). }
  apply saves_bind; [|intros a; by apply saves_no_write].
  unfold main. do 2 (apply saves_bind; [no_write|intros []]). apply saves_bind; [unfold init_kv; no_write|].
  intros kv_fd. case_decide; [no_write|].
  apply saves_bind.
  { apply saves_no_write. unfold do_kv_restore_from_file. cbv zeta. all_acts_walk ltac:(done).
    apply all_acts_bind; [apply Hrestore|]. intros []. all_acts_walk ltac:(done). }
  intros []. apply saves_bind; [unfold init_network; no_write|]. intros server_fd. case_decide; [no_write|].
  apply saves_bind; [no_write|]. intros []. apply saves_bind; [apply saves_no_write, Hlisten|]. intros [].
  apply saves_bind; [apply saves_snapshot|]. intros []. no_write.
Qed.

(** Wherever a thread is. *)
Lemma saves_partial {A : Type} (p q : dprog A) hs :
  saves p → partial nbits file_ok p hs q → at_rest q = true → saved (lefts hs) (rights hs).
Proof.
  intros Hs Hp Hr. assert (saved [] []) as H0 by by intros data ?%not_elem_of_nil.
  by destruct (reports_at_rest _ _ _ _ _ _ _ Hp Hr (Hs [] [] H0)) as [?|[_ ?]].
Qed.

End Saves.
