(* ===== verification/Spawning.v ===== *)
(** * Where the threads of the daemon come from

    Only [main] accepts connections and starts threads, and it starts them on the
    connections it has accepted, in that order, with the device it has opened. *)

From S2P Require Import Prelude Prog Timeline CStr KvIoctl KMem KvHash KLogic KvTrace Kvlkm.
From S2P Require Import KvlkmSpec.
From S2P Require Import KvDevice.
From S2P Require Import KvInterface Daemon Access System Threads SystemSpec Dialogue.

(** The connections accepted so far. *)
Definition accepted_now (a : answered) : list Z :=
  match a with
  | @Answered X e x =>
      match e in dact X return X → list Z with
      | Accept _ => λ x, match x with AcceptFd client_fd => [client_fd] | AcceptErr _ => [] end
      | _ => λ _, []
      end x
  end.

Definition accepts (log : list answered) : list Z := log ≫= accepted_now.

Lemma accepts_app log log' : accepts (log ++ log') = accepts log ++ accepts log'.
Proof. apply bind_app. Qed.

(** ** What the functions of a connection leave alone *)

Definition serving (X : Type) (e : dact X) : Prop :=
  match e with SpawnClient _ _ | Accept _ | DevOpen => False | _ => True end.

Ltac serving := all_acts_walk ltac:(done).

Section Serving.
Context {ioc_api : IocApi}.

Lemma serving_snapshot fd : all_acts serving (do_kv_snapshot_to_file fd).
Proof. unfold do_kv_snapshot_to_file. serving. Qed.

Lemma serving_operation fd cmd key v : all_acts serving (do_kv_operation fd cmd key v).
Proof. unfold do_kv_operation. serving. Qed.

Lemma serving_command command fd auth : all_acts serving (parse_and_handle_command command fd auth).
Proof.
  unfold parse_and_handle_command. cbv zeta.
  repeat first [ progress serving | apply all_acts_bind; [apply serving_snapshot|intros ?]
               | apply all_acts_bind; [apply serving_operation|intros ?] ].
Qed.

Lemma serving_handle_client fuel client_fd kv_fd : all_acts serving (handle_client fuel client_fd kv_fd).
Proof.
  apply all_acts_bind; [|by intros []]. generalize false.
  induction fuel as [|fuel IH]; intros auth; cbn [handle_client_loop]; [by split|].
  apply all_acts_act; [done|]. intros [data| |[]]; [|by split|done|by split].
  apply all_acts_act; [done|]. intros []. apply all_acts_bind; [apply serving_command|].
  intros [response auth']. serving.
Qed.

Lemma serving_restore fd : all_acts serving (do_kv_restore_from_file fd).
Proof.
  assert (∀ st data n first restored skipped,
    all_acts serving (restore_entries fd st data first n restored skipped)) as Hloop.
  { intros st data. induction n as [|n IH]; intros first restored skipped; [done|]. cbn [restore_entries]. serving. }
  unfold do_kv_restore_from_file. cbv zeta. serving. apply all_acts_bind; [apply Hloop|]. intros [r s]. serving.
Qed.

Lemma serving_init_network : all_acts serving init_network.
Proof. unfold init_network. serving. Qed.

Lemma client_starts_none fuel x : all_acts no_spawn (client_thread fuel x).
Proof. eapply all_acts_mono; [|apply serving_handle_client]. intros X e. by destruct e. Qed.

End Serving.

(** What a program that only serves was answered. *)
Definition served (a : answered) : Prop := match a with @Answered X e _ => serving X e end.

Lemma served_silent a : served a → spawned a = [] ∧ accepted_now a = [].
Proof. destruct a as [X e x]. by destruct e. Qed.

Lemma partial_all_acts {ioc_api : IocApi} {api : KernelApi} {A : Type} nbits file_ok (p q : dprog A) hs :
  partial nbits file_ok p hs q → all_acts serving p → Forall served (rights hs).
Proof.
  induction 1 as [p|fd cmd arg k es r u hs q _ _ IH|X e k x hs q _ _ _ IH]; intros Hp; [constructor| |].
  - rewrite rights_app. autorewrite with kv. apply IH, Hp.
  - constructor; [apply Hp|apply IH, Hp].
Qed.

(** What only one thread does can be read off the whole log. *)
Lemma bind_thread {E T : Type} (f : E → list T) j (G : list (nat * E)) :
  (∀ x, x ∈ G → x.1 ≠ j → f x.2 = []) → (snd <$> G) ≫= f = thread_events j G ≫= f.
Proof.
  induction G as [|[j' e] G IH]; intros Hf; [done|].
  rewrite fmap_cons, thread_events_cons, bind_cons, IH by (intros x Hx; apply Hf; by apply elem_of_cons; right).
  case_decide; [by rewrite bind_cons|]. by rewrite (Hf (j', e)) by (done || by apply elem_of_cons; left).
Qed.

(** ** The main thread *)

Section Main.
Context {ioc_api : IocApi} {ioc_laws : IocLaws ioc_api} {api : KernelApi}.
Variables (nbits : Z) (file_ok : bytes → Prop).

Abbreviation reports := (reports nbits file_ok).

Definition connections (kv_fd : Z) (fds : list Z) : list (Z * Z) := (λ fd, (fd, kv_fd)) <$> fds.

(** The threads are started for the first connections accepted, in that order; the
    device is open. *)
Definition started (log : list answered) : Prop :=
  spawns log = [] ∧ accepts log = [] ∨
  ∃ kv_fd rest, 0 < kv_fd ∧ Answered DevOpen kv_fd ∈ log ∧
    connections kv_fd (accepts log) = spawns log ++ rest ∧ (length rest <= 1)%nat.

Definition nothing_started (log : list answered) : Prop := spawns log = [] ∧ accepts log = [].

Definition all_started (kv_fd : Z) (log : list answered) : Prop :=
  0 < kv_fd ∧ Answered DevOpen kv_fd ∈ log ∧ connections kv_fd (accepts log) = spawns log.

Lemma nothing_started_started log : nothing_started log → started log.
Proof. by left. Qed.

Lemma all_started_started kv_fd log : all_started kv_fd log → started log.
Proof. intros (Hkv & Hdev & Heq). right. exists kv_fd, []. rewrite app_nil_r. by split_and!; [..|simpl; lia]. Qed.

(** An answer that neither starts a thread nor accepts a connection. *)
Definition starts_nothing (a : answered) : Prop := spawned a = [] ∧ accepted_now a = [].

Lemma nothing_started_keeps log a : starts_nothing a → nothing_started log → nothing_started (log ++ [a]).
Proof.
  intros [Hs Ha] [H1 H2]. split; [rewrite spawns_app, H1|rewrite accepts_app, H2].
  - unfold spawns. by rewrite bind_cons, Hs.
  - unfold accepts. by rewrite bind_cons, Ha.
Qed.

Lemma all_started_keeps kv_fd log a : starts_nothing a → all_started kv_fd log → all_started kv_fd (log ++ [a]).
Proof.
  intros [Hs Ha] (Hkv & Hdev & Heq). split_and!; [done|apply elem_of_app; by left|].
  rewrite spawns_app, accepts_app. unfold spawns at 2, accepts at 2. rewrite !bind_cons, Hs, Ha. simpl.
  by rewrite !app_nil_r.
Qed.

(** A program that only serves keeps what is started. *)
Lemma reports_serving {A : Type} (I : list answered → Prop) (p : dprog A) (Q : A → list event → list answered → Prop)
    es log :
  (∀ log, I log → started log) → (∀ log a, starts_nothing a → I log → I (log ++ [a])) →
  all_acts serving p → I log → (∀ a es log, I log → Q a es log) → reports (λ _, started) p Q es log.
Proof.
  intros HI Hkeep Hp Hlog HQ. apply (reports_all_acts _ _ serving (λ _, I)); [done| |done|done|done|done].
  intros X e x es' log' He _. by apply Hkeep, (served_silent (Answered e x)).
Qed.

Lemma reports_act {A X : Type} kv_fd (e : dact X) (f : X → dprog A) (Q : A → list event → list answered → Prop)
    es log :
  asks_outside e = true → serving X e → all_started kv_fd log →
  (∀ x log, all_started kv_fd log → reports (λ _, started) (f x) Q es log) →
  reports (λ _, started) (call e ≫= f) Q es log.
Proof.
  intros He Hs Hlog Hf. apply reports_ask; [done|by eapply all_started_started|]. intros x _.
  apply Hf, all_started_keeps; [by apply (served_silent (Answered e x))|done].
Qed.

Lemma reports_listen_network fuel server_fd kv_fd (Q : unit → list event → list answered → Prop) es log :
  all_started kv_fd log → (∀ es log, all_started kv_fd log → Q tt es log) →
  reports (λ _, started) (listen_network fuel server_fd kv_fd) Q es log.
Proof.
  intros Hlog HQ. revert es log Hlog. induction fuel as [|fuel IH]; intros es log Hlog; cbn [listen_network].
  { apply reports_vis; [done|by eapply all_started_started|by intros []]. }
  apply (reports_act kv_fd); [done..|]. clear log Hlog. intros [] log Hlog; [by apply reports_ret, HQ|].
  apply reports_ask; [done|by eapply all_started_started|]. intros [client_fd|eintr] _.
  - pose proof Hlog as (Hkv & Hdev & Heq). apply reports_ask; [done| |].
    + right. exists kv_fd, [(client_fd, kv_fd)].
      split_and!; [done|apply elem_of_app; by left| |simpl; lia].
      rewrite accepts_app, spawns_app, app_nil_r. unfold connections. rewrite fmap_app. by rewrite <- Heq.
    + intros [] _. apply IH. split_and!; [done|rewrite !elem_of_app; by do 2 left|].
      rewrite !accepts_app, !spawns_app, !app_nil_r. unfold connections. rewrite fmap_app. by rewrite <- Heq.
  - apply (all_started_keeps _ _ (Answered (Accept server_fd) (AcceptErr eintr))) in Hlog; [|done].
    apply (reports_act kv_fd); [done..|]. clear log Hlog. intros b log Hlog.
    destruct (b || eintr); [by apply IH|]. apply (reports_act kv_fd); [done..|]. intros []. apply IH.
Qed.

Lemma reports_main fuel :
  reports (λ _, started) (_ ← main fuel; mret tt) (λ _ _, started) [] [].
Proof.
  apply reports_bind. eapply reports_mono; [intros a es' log; exact (λ H, H)|]. unfold main.
  assert (∀ A (p : dprog A) Q es log, all_acts serving p → nothing_started log →
    (∀ a es log, nothing_started log → Q a es log) → reports (λ _, started) p Q es log) as Hnone.
  { intros A p Q es log. apply reports_serving; eauto using nothing_started_started, nothing_started_keeps. }
  assert (∀ kv_fd A (p : dprog A) Q es log, all_acts serving p → all_started kv_fd log →
    (∀ a es log, all_started kv_fd log → Q a es log) → reports (λ _, started) p Q es log) as Hall.
  { intros kv_fd A p Q es log. apply reports_serving; eauto using all_started_started, all_started_keeps. }
  assert (∀ kv_fd A (p : dprog A) es log, all_acts serving p → all_started kv_fd log →
    reports (λ _, started) p (λ _ es log, reports (λ _, started) (mret tt) (λ _ _, started) es log) es log) as Hend.
  { intros kv_fd A p es log Hp Hlog. eapply Hall; [done..|]. intros. by eapply reports_ret, all_started_started. }
  assert (∀ signum (f : unit → dprog Z) Q es log, nothing_started log →
    (∀ log, nothing_started log → reports (λ _, started) (f tt) Q es log) →
    reports (λ _, started) (call (InstallHandler signum) ≫= f) Q es log) as Hsig.
  { intros signum f Q es log H Hf. apply reports_ask; [done|by left|]. intros [] _.
    by apply Hf, nothing_started_keeps. }
  apply Hsig; [done|]. intros log1 H1. apply Hsig; [done|]. clear log1 H1. intros log1 H1.
  apply reports_bind. unfold init_kv. apply reports_ask; [done|by left|]. intros kv_fd _.
  apply (nothing_started_keeps _ (Answered DevOpen kv_fd)) in H1 as Hn; [|done].
  case_decide as Hneg.
  { apply reports_ask; [done|by left|]. intros [] _. apply reports_ret. rewrite decide_True by lia.
    do 2 apply reports_ret. left. by apply nothing_started_keeps. }
  apply reports_ret. case_decide; [do 2 apply reports_ret; by left|].
  assert (all_started kv_fd (log1 ++ [Answered DevOpen kv_fd])) as H2.
  { split_and!; [lia|apply elem_of_app; right; by apply list_elem_of_singleton|].
    destruct Hn as [-> ->]. done. }
  clear H1 Hn. revert H2. generalize (log1 ++ [Answered DevOpen kv_fd]) as log. intros log H1.
  apply reports_bind, (Hall kv_fd); [apply serving_restore|done|]. clear log H1. intros [] es log H1.
  apply reports_bind, (Hall kv_fd); [apply serving_init_network|done|]. clear log H1. intros server_fd es1 log H1.
  case_decide; [apply (Hend kv_fd); [serving|done]|].
  apply (reports_act kv_fd); [done..|]. clear log H1. intros [] log H1.
  apply reports_bind, (reports_listen_network _ _ kv_fd); [done|]. clear log H1. intros es2 log H1.
  apply (Hend kv_fd); [|done]. apply all_acts_bind; [apply serving_snapshot|]. intros []. serving.
Qed.

Lemma main_started fuel hs q :
  partial nbits file_ok (_ ← main fuel; mret tt) hs q → at_rest q = true → started (rights hs).
Proof.
  intros Hp Hr. by destruct (reports_at_rest _ _ _ _ _ _ _ Hp Hr (reports_main fuel)) as [?|[_ ?]].
Qed.

(** What [main] has started is all that is started. *)
Lemma started_all log (GA : list (nat * answered)) :
  snd <$> GA = log → started (thread_events 0 GA) →
  (∀ j a, (j, a) ∈ GA → j ≠ 0%nat → served a) → started log.
Proof.
  intros <- Hs Hserved.
  assert (spawns (snd <$> GA) = spawns (thread_events 0 GA)) as Hsp.
  { apply bind_thread. intros [j a] Hin Hj. by apply served_silent, (Hserved j). }
  assert (accepts (snd <$> GA) = accepts (thread_events 0 GA)) as Hac.
  { apply bind_thread. intros [j a] Hin Hj. by apply served_silent, (Hserved j). }
  unfold started. rewrite Hsp, Hac. destruct Hs as [Hs|(kv_fd & rest & Hkv & Hdev & H)]; [by left|right].
  exists kv_fd, rest. split_and!; [done| |apply H..].
  apply thread_events_elem in Hdev. apply list_elem_of_fmap. by exists (0%nat, Answered DevOpen kv_fd).
Qed.

End Main.
