(* ===== verification/DaemonSystem.v ===== *)
(** * The whole daemon on the kernel

    [main], from its start, with the threads that it starts: the invariant of all
    that can be reached, and at every moment when no thread is inside a call, the
    timeline of what all the threads have done and been answered. *)

From S2P Require Import Prelude Prog Timeline CStr KvIoctl KMem KvHash KLogic KSound KTyping.
From S2P Require Import KvHashSpec.
From S2P Require Import KvTable.
From S2P Require Import KvStore KvTrace Kvlkm KvlkmSpec KvDevice KvInterface Daemon DaemonSpec.
From S2P Require Import Access System Threads.
From S2P Require Import SystemSpec Dialogue Isolation SavedFile Spawning Session.

Section Whole.
Context {ioc_api : IocApi} {ioc_laws : IocLaws ioc_api}.
Context {api : KernelApi} {laws : KernelLaws api} {env : Outside}.
Variables (pb pl : addr) (nbits : Z) (F : heap).
Hypothesis nbits_range : 1 <= nbits <= 31.

Variables (fuel client_fuel : nat).

Definition daemon_main : dprog unit := _ ← main fuel; mret tt.

(** The daemon when the kernel has started it. *)
Definition daemon_start (s : kst) : list (sprog unit) * sst := start pb pl nbits daemon_main s.

Abbreviation store := (mk_ht (Some pb) (Some pl) nbits).
Abbreviation step := (sys_step store client_fuel).

Lemma daemon_inv L s c :
  ginv pb pl nbits F [] L s → outside_ok image_file → rtc step (daemon_start s) c →
  sys_inv pb pl nbits F image_file client_fuel daemon_main L c.
Proof.
  intros Hg Henv. apply sys_steps_inv; [done| |done|].
  - intros x. apply safe_handle_client.
  - eexists. apply sys_inv_start; [done| |done]. apply safe_then; [by apply safe_main|done].
Qed.

Lemma daemon_run_inv L s GA c :
  ginv pb pl nbits F [] L s → outside_ok image_file → sys_run store client_fuel (daemon_start s) GA c →
  sys_inv_log pb pl nbits F image_file client_fuel daemon_main L GA c.
Proof.
  intros Hg Henv. apply sys_run_inv; [done| | |done|done].
  - apply safe_then; [by apply safe_main|done].
  - intros x. apply safe_handle_client.
Qed.

(** The threads' events on the store and answers from outside, tagged with the
    thread, in the order in which they happened: [GE] leads from [m] to [m'], and
    [GA] is the log. *)
Record history (n : nat) (m m' : gmap Z bytes) (log : list answered) (GE : list (nat * event))
    (GA : list (nat * answered)) : Prop := {
  hi_runs : events_run nbits (snd <$> GE) m m';
  hi_log : snd <$> GA = log;
  hi_event_tags x : x ∈ GE → (x.1 < n)%nat;
  hi_log_tags x : x ∈ GA → (x.1 < n)%nat;
}.

(** Events and answers in one sequence. *)
Definition timeline (n : nat) (m m' : gmap Z bytes) (log : list answered) (H : list (nat * happening)) : Prop :=
  history n m m' log (left_part H) (right_part H).

(** The system is where the stories of its threads have led them. *)
Lemma daemon_run_history m s GA c :
  store_rep pb pl nbits F m s → outside_ok image_file →
  sys_run store client_fuel (daemon_start s) GA c → Forall quiet c.1 →
  ∃ H m', timeline (length c.1) m m' c.2.2 H ∧ right_part H = GA ∧ store_rep pb pl nbits F m' c.2.1 ∧
    length c.1 = length (programs client_fuel daemon_main c.2.2) ∧
    ∀ j d, programs client_fuel daemon_main c.2.2 !! j = Some d →
      ∃ q, partial nbits image_file d (thread_events j H) q ∧ at_rest q = true ∧
        c.1 !! j = Some (unfold_calls store q).
Proof.
  intros (L & Hg & ->) Henv Hrun Hq.
  destruct (sys_quiet pb pl nbits F image_file nbits_range client_fuel daemon_main L GA c)
    as (H & m' & Hes & Hrep & HGA & Hlog & Htags & Hlen & Hd).
  - by eapply ginv_table_ok.
  - by eapply daemon_run_inv.
  - done.
  - exists H, m'. split_and!; [|done..]. split.
    + by rewrite snd_left_part.
    + by rewrite HGA.
    + intros [j e] Hin%elem_left_part. by apply (Htags (j, inl e)).
    + intros [j a] Hin%elem_right_part. by apply (Htags (j, inr a)).
Qed.

Lemma daemon_history m s c :
  store_rep pb pl nbits F m s → outside_ok image_file →
  rtc step (daemon_start s) c → Forall quiet c.1 →
  ∃ H m', timeline (length c.1) m m' c.2.2 H ∧ store_rep pb pl nbits F m' c.2.1 ∧
    length c.1 = length (programs client_fuel daemon_main c.2.2) ∧
    ∀ j d, programs client_fuel daemon_main c.2.2 !! j = Some d →
      ∃ q, partial nbits image_file d (thread_events j H) q ∧ at_rest q = true ∧
        c.1 !! j = Some (unfold_calls store q).
Proof.
  intros Hrep Henv [GA Hrun]%steps_run Hq.
  destruct (daemon_run_history m s GA c Hrep Henv Hrun Hq) as (H & m' & Hh & _ & Hc). by exists H, m'.
Qed.

(** The conversation of a thread. *)
Definition words (j : nat) (H : list (nat * happening)) : list (event + talk) :=
  shown talk_of (thread_events j H).

Lemma words_app j H H' : words j (H ++ H') = words j H ++ words j H'.
Proof. unfold words. by rewrite thread_events_app, shown_app. Qed.

Lemma words_event j e H : words j ((j, inl e) :: H) = inl e :: words j H.
Proof. unfold words. by rewrite thread_events_cons, decide_True. Qed.

Lemma lefts_words j H : lefts (words j H) = thread_events j (left_part H).
Proof. unfold words. by rewrite lefts_shown, thread_left_part. Qed.

Lemma rights_words j H : rights (words j H) = talks (thread_events j (right_part H)).
Proof. unfold words. by rewrite rights_shown, thread_right_part. Qed.

Lemma words_in j e H : inl e ∈ words j H ↔ (j, e) ∈ left_part H.
Proof. by rewrite <- elem_lefts, lefts_words, thread_events_elem. Qed.

(** Where the thread has received a message. *)
Lemma words_said fd msg j H hs1 hs2 :
  words j H = hs1 ++ inr (Said fd msg) :: hs2 →
  ∃ H1 a H2, H = H1 ++ (j, inr a) :: H2 ∧ talk_of a = [Said fd msg] ∧ words j H1 = hs1 ∧ words j H2 = hs2.
Proof.
  revert hs1. induction H as [|[j' h] H IH]; intros hs1 Hw; [by destruct hs1|].
  change ((j', h) :: H) with ([(j', h)] ++ H) in Hw. rewrite words_app in Hw.
  assert (∀ hs1', words j [(j', h)] ++ hs1' = hs1 → words j H = hs1' ++ inr (Said fd msg) :: hs2 →
    ∃ H1 a H2, (j', h) :: H = H1 ++ (j, inr a) :: H2 ∧ talk_of a = [Said fd msg] ∧ words j H1 = hs1 ∧ words j H2 = hs2)
    as Hlater.
  { intros hs1' <- Hw'. destruct (IH _ Hw') as (H1 & a & H2 & -> & Ha & <- & H2w).
    exists ((j', h) :: H1), a, H2. split_and!; [done..| |done]. by rewrite <- words_app. }
  unfold words in Hw at 1. rewrite thread_events_cons in Hw.
  unfold words in Hlater at 1. rewrite thread_events_cons in Hlater. case_decide as Hj; [|by apply (Hlater hs1)].
  subst j'. destruct h as [e|a]; cbn in Hw, Hlater.
  { destruct hs1 as [|x hs1]; [done|]. injection Hw as <- Hw. by apply (Hlater hs1). }
  destruct (talk_of_one a) as [Ha|[tk Ha]]; rewrite Ha in Hw, Hlater; cbn in Hw, Hlater; [by apply (Hlater hs1)|].
  destruct hs1 as [|x hs1]; injection Hw as Hx Hw; [|subst x; by apply (Hlater hs1)].
  subst tk. by exists [], a, H.
Qed.

Lemma words_dialogue fd j H :
  ordered_dialogue fd (words j H) →
  dialogue fd (thread_events j (left_part H)) (talks (thread_events j (right_part H))).
Proof.
  intros Hc%ordered_dialogue_unordered. by rewrite lefts_words, rights_words in Hc.
Qed.

(** The conversations of the clients. *)
Lemma daemon_run_conversations m s GA c :
  store_rep pb pl nbits F m s → outside_ok image_file →
  sys_run store client_fuel (daemon_start s) GA c → Forall quiet c.1 →
  ∃ H m', timeline (S (length (spawns c.2.2))) m m' c.2.2 H ∧ right_part H = GA ∧
    store_rep pb pl nbits F m' c.2.1 ∧
    all_restored (thread_events 0 (left_part H)) (thread_events 0 GA) ∧ started c.2.2 ∧
    (∀ i fd kv_fd, spawns c.2.2 !! i = Some (fd, kv_fd) → ordered_dialogue fd (words (S i) H)) ∧
    ∀ j, (j < S (length (spawns c.2.2)))%nat → saved (thread_events j (left_part H)) (thread_events j GA).
Proof.
  intros Hrep Henv Hrun Hq.
  destruct (daemon_run_history m s GA c Hrep Henv Hrun Hq) as (H & m' & Hh & <- & Hrep' & Hlen & Hd).
  assert (length c.1 = S (length (spawns c.2.2))) as Hlen'.
  { rewrite Hlen. unfold programs. cbn [length]. by rewrite length_fmap. }
  assert (∀ i x, spawns c.2.2 !! i = Some x →
    ∃ q, partial nbits image_file (handle_client client_fuel x.1 x.2) (thread_events (S i) H) q ∧
      at_rest q = true) as Hclient.
  { intros i x Hi. destruct (Hd (S i) (client_thread client_fuel x)) as (q & Hp & Hr & _); [|by exists q].
    change ((client_thread client_fuel <$> spawns c.2.2) !! i = Some (client_thread client_fuel x)).
    by rewrite list_lookup_fmap, Hi. }
  destruct (Hd 0%nat daemon_main eq_refl) as (q & Hp & Hr & _).
  exists H, m'. split_and!; [by rewrite <- Hlen'|done..| | | |].
  - rewrite thread_left_part, thread_right_part. exact (main_restored nbits image_file (λ data H, H) fuel _ _ Hp Hr).
  - apply (main_started nbits image_file fuel _ _ Hp) in Hr. rewrite <- thread_right_part in Hr.
    eapply started_all; [exact (hi_log _ _ _ _ _ _ Hh)|exact Hr|]. intros [|i] a Hin Hi; [done|].
    pose proof (hi_log_tags _ _ _ _ _ _ Hh _ Hin) as Hlt. rewrite Hlen' in Hlt.
    destruct (lookup_lt_is_Some_2 (spawns c.2.2) i) as [x Hx]; [simpl in Hlt; lia|].
    destruct (Hclient i x Hx) as (q' & Hq' & _).
    eapply Forall_forall; [eapply partial_all_acts; [exact Hq'|apply serving_handle_client]|].
    by rewrite <- thread_right_part; apply thread_events_elem.
  - intros i fd kv_fd Hi. destruct (Hclient i _ Hi) as (q' & Hq' & Hr').
    by eapply handle_client_ordered.
  - intros j Hi. rewrite thread_left_part, thread_right_part. destruct j as [|i].
    { exact (saves_partial nbits image_file _ _ _ (saves_main nbits image_file fuel) Hp Hr). }
    destruct (lookup_lt_is_Some_2 (spawns c.2.2) i) as [x Hx]; [lia|].
    destruct (Hclient i x Hx) as (q' & Hq' & Hr').
    exact (saves_partial nbits image_file _ _ _ (saves_handle_client nbits image_file _ _ _) Hq' Hr').
Qed.

Lemma daemon_conversations m s c :
  store_rep pb pl nbits F m s → outside_ok image_file →
  rtc step (daemon_start s) c → Forall quiet c.1 →
  ∃ GE GA m', history (S (length (spawns c.2.2))) m m' c.2.2 GE GA ∧ store_rep pb pl nbits F m' c.2.1 ∧
    all_restored (thread_events 0 GE) (thread_events 0 GA) ∧ started c.2.2 ∧
    (∀ i fd kv_fd, spawns c.2.2 !! i = Some (fd, kv_fd) →
      dialogue fd (thread_events (S i) GE) (talks (thread_events (S i) GA))) ∧
    ∀ j, (j < S (length (spawns c.2.2)))%nat → saved (thread_events j GE) (thread_events j GA).
Proof.
  intros Hrep Henv [GA Hrun]%steps_run Hq.
  destruct (daemon_run_conversations m s GA c Hrep Henv Hrun Hq)
    as (H & m' & Hh & <- & Hrep' & Hr & Hs & Hc & Hsaved).
  exists (left_part H), (right_part H), m'. split_and!; [done..| |done].
  intros i fd kv_fd Hi. by eapply words_dialogue, Hc.
Qed.

(** Who has stored a pair. *)
Lemma add_author n m m' log GE GA j k v :
  history (S n) m m' log GE GA → length (spawns log) = n →
  all_restored (thread_events 0 GE) (thread_events 0 GA) →
  (∀ i fd kv_fd, spawns log !! i = Some (fd, kv_fd) →
    dialogue fd (thread_events (S i) GE) (talks (thread_events (S i) GA))) →
  (j, EAdd k v) ∈ GE →
  (j = 0%nat ∧ restored k v (thread_events 0 GA)) ∨
  ∃ i fd kv_fd, j = S i ∧ spawns log !! i = Some (fd, kv_fd) ∧ stored_by fd k v (talks (thread_events (S i) GA)).
Proof.
  intros Hh Hn Hmain Hc Hin. pose proof (hi_event_tags _ _ _ _ _ _ Hh _ Hin) as Hj.
  apply thread_events_elem in Hin. destruct j as [|i]; [left|right].
  - split; [done|]. by apply (Hmain (EAdd k v)).
  - destruct (lookup_lt_is_Some_2 (spawns log) i) as [[fd kv_fd] Hi]; [simpl in Hj; lia|].
    exists i, fd, kv_fd. split_and!; [done..|]. by eapply dialogue_add; [eapply Hc|].
Qed.

End Whole.
