(* ===== verification/Moments.v ===== *)
(** * The busy daemon at any moment

    The histories of [DaemonSystem] are those of moments when no thread is inside a
    call.  What they say about the log of the world outside holds at every other
    moment too: left without answers from then on, the threads finish their calls,
    and the log stays as it is. *)

From S2P Require Import Prelude Prog Timeline CStr KvIoctl KMem KvHash KLogic KSound KvTable.
From S2P Require Import KvStore.
From S2P Require Import KvTrace Kvlkm KvlkmSpec KvDevice KvInterface Daemon DaemonSpec Access.
From S2P Require Import System.
From S2P Require Import Threads SystemSpec Dialogue Isolation SavedFile Spawning DaemonSystem.

(** A world that answers only the first [n] times. *)
Definition until (env : Outside) (n : nat) : Outside := λ log X e,
  if decide (length log < n)%nat then @outside env log X e else None.

Lemma until_ok env n file_ok : outside_ok (env := env) file_ok → outside_ok (env := until env n) file_ok.
Proof. intros H log X e x. unfold outside, until. case_decide; [apply H|done]. Qed.

Lemma sexec_log {api : KernelApi} {env : Outside} X (e : sact X) s x s' : sexec X e s = Done x s' → s'.2 = s.2 ++ logged e x.
Proof.
  destruct e as [X e|X e]; cbn [sexec logged].
  - destruct (kexec X e s.1); [|done..]. intros [= <- <-]. by rewrite app_nil_r.
  - destruct e; try (destruct (outside _ _ _); [by intros [= <- <-]|done]; fail). by destruct f.
Qed.

(** Outside the kernel every step is an answer from outside. *)
Lemma sexec_host {api : KernelApi} {env : Outside} X (e : dact X) s x s' :
  sexec X (SHost e) s = Done x s' → outside s.2 X e = Some x ∧ s' = (s.1, s.2 ++ [Answered e x]).
Proof.
  cbn [sexec]. destruct e; try (destruct (outside _ _ _); [by intros [= <- <-]|done]; fail). by destruct f.
Qed.

Lemma sexec_until {api : KernelApi} env n X (e : sact X) s x s' :
  sexec (env := env) X e s = Done x s' → (length s'.2 <= n)%nat →
  sexec (env := until env n) X e s = Done x s'.
Proof.
  intros Hs Hn. destruct e as [X e|X e]; [exact Hs|].
  destruct (sexec_host (env := env) _ _ _ _ _ Hs) as [Hx ->].
  cbn [snd] in Hn. rewrite length_app in Hn. cbn [length] in Hn.
  assert (@outside (until env n) s.2 X e = Some x) as Hx'.
  { unfold outside at 1, until. rewrite decide_True by lia. exact Hx. }
  cbn [sexec] in Hs |- *. destruct e; try (rewrite Hx'; done). exact Hs.
Qed.

Section Until.
Context {ioc_api : IocApi} {api : KernelApi} {env : Outside}.
Variables (store : hash_table) (client_fuel : nat) (c0 : list (sprog unit) * sst).

Abbreviation run e := (sys_run (env := e) store client_fuel c0).

(** The world's answers are those that the log has. *)
Lemma run_answers GA c a :
  run env GA c → c0.2.2 = [] → a ∈ c.2.2 →
  match a with @Answered X e x => ∃ log, outside log X e = Some x end.
Proof.
  intros Hrun H0. induction Hrun as [|GA ps s j X e k x s' _ IH Hj He]; cbn [fst snd] in *.
  { rewrite H0. by intros ?%not_elem_of_nil. }
  rewrite (sexec_log _ _ _ _ _ He). intros [Hin|Hin]%elem_of_app; [by apply IH|].
  destruct e as [X e|X e]; [by apply not_elem_of_nil in Hin|]. apply list_elem_of_singleton in Hin as ->.
  apply sexec_host in He as [Hx _]. by eexists.
Qed.

Lemma run_until GA c n : run env GA c → (length c.2.2 <= n)%nat → run (until env n) GA c.
Proof.
  induction 1 as [|GA ps s j X e k x s' Hrun IH Hj He]; [constructor|]. cbn [fst snd] in *. intros Hn.
  pose proof (sexec_log _ _ _ _ _ He) as Hlog.
  eapply run_thread; [|done|by apply sexec_until]. apply IH. rewrite Hlog, length_app in Hn. lia.
Qed.

(** When the answers have come to an end. *)
Lemma until_steps GA c c' n :
  run (until env n) GA c → (n <= length c.2.2)%nat →
  rtc (sys_step (env := until env n) store client_fuel) c c' → run (until env n) GA c' ∧ c'.2.2 = c.2.2.
Proof.
  intros Hrun Hn Hsteps. induction Hsteps as [c|c c1 c' Hstep _ IH]; [done|].
  assert (run (until env n) GA c1 ∧ c1.2.2 = c.2.2) as [Hrun1 Hlog].
  { destruct Hstep as [ps s j X e k x s' Hj He]. cbn [fst snd] in *. destruct e as [X e|X e].
    - pose proof (sexec_log _ _ _ _ _ He) as Hlog. cbn [logged] in Hlog. rewrite app_nil_r in Hlog.
      split; [|done]. rewrite <- (app_nil_r GA). by apply (run_thread _ _ _ GA ps s j X (SKern e) k x s').
    - apply sexec_host in He as [Hx _]. unfold outside, until in Hx. rewrite decide_False in Hx by lia. done. }
  rewrite <- Hlog. apply IH; [done|by rewrite Hlog].
Qed.

End Until.

Section Moment.
Context {ioc_api : IocApi} {ioc_laws : IocLaws ioc_api}.
Context {api : KernelApi} {laws : KernelLaws api} {env : Outside}.
Variables (pb pl : addr) (nbits : Z) (F : heap).
Hypothesis nbits_range : 1 <= nbits <= 31.
Variables (fuel client_fuel : nat).

Abbreviation store := (mk_ht (Some pb) (Some pl) nbits).
Abbreviation daemon_start := (daemon_start pb pl nbits fuel).

(** The calls come to their ends. *)
Lemma daemon_settles m s GA c :
  store_rep pb pl nbits F m s → outside_ok (env := env) image_file →
  sys_run (env := env) store client_fuel (daemon_start s) GA c →
  ∃ n c', sys_run (env := until env n) store client_fuel (daemon_start s) GA c' ∧ Forall quiet c'.1 ∧
    c'.2.2 = c.2.2.
Proof.
  intros (L & Hg & _) Henv Hrun. set (n := length c.2.2). exists n.
  apply (run_until _ _ _ _ _ n) in Hrun; [|done].
  destruct (inevitably_reached (sys_step (env := until env n) store client_fuel) (λ c, Forall quiet c.1) c)
    as (c' & Hsteps & Hq).
  { eapply (sys_inevitable (env := until env n) pb pl nbits F image_file); [done| | | | |by exists L|by eapply run_steps].
    - apply safe_then; [by apply safe_main|done].
    - intros x. apply safe_handle_client.
    - intros x. apply client_starts_none.
    - by apply until_ok. }
  exists c'. destruct (until_steps store client_fuel _ GA c c' n Hrun (le_n _) Hsteps) as [Hrun' Hlog]. done.
Qed.

(** The conversations so far, with events that explain them. *)
Lemma daemon_moment m s GA c :
  store_rep pb pl nbits F m s → outside_ok (env := env) image_file →
  sys_run (env := env) store client_fuel (daemon_start s) GA c →
  ∃ H m', timeline nbits (S (length (spawns c.2.2))) m m' c.2.2 H ∧ right_part H = GA ∧
    all_restored (thread_events 0 (left_part H)) (thread_events 0 GA) ∧ started c.2.2 ∧
    ∀ i fd kv_fd, spawns c.2.2 !! i = Some (fd, kv_fd) → ordered_dialogue fd (words (S i) H).
Proof.
  intros Hrep Henv Hrun. destruct (daemon_settles m s GA c Hrep Henv Hrun) as (n & c' & Hrun' & Hq & Hlog).
  destruct (daemon_run_conversations (env := until env n) pb pl nbits F nbits_range fuel client_fuel m s GA c'
    Hrep (until_ok _ _ _ Henv) Hrun' Hq) as (H & m' & Hh & HGA & _ & Hmain & Hst & Hc & _).
  rewrite Hlog in *. by exists H, m'.
Qed.

End Moment.
