(* ===== verification/Descriptors.v ===== *)
(** * Which descriptors the threads of the daemon use

    A thread for a client reads, writes and at last closes the descriptor it was
    given, and no other; it closes it only when the client has hung up or the
    connection has failed.  The main thread closes what it has opened itself, and
    hands every connection it accepts to a thread. *)

From S2P Require Import Prelude Prog CStr KvIoctl KMem KvHash KLogic KSound KvTable KvStore.
From S2P Require Import KvTrace Kvlkm KvlkmSpec KvDevice KvInterface Daemon Access System Threads.
From S2P Require Import Spawning.

(** ** Programs under watch

    A monitor follows the actions of a program and their answers. *)

Inductive verdict (M : Type) : Type :=
  | Next (st : M)
  (** The program may not do this. *)
  | Forbidden
  (** This is never the answer. *)
  | Impossible.

Arguments Next {M} st.
Arguments Forbidden {M}.
Arguments Impossible {M}.

Section Watched.
Context {ioc_api : IocApi} {api : KernelApi}.
Context {M : Type} (mon : ∀ X, dact X → X → M → verdict M).

Definition allows {X : Type} (e : dact X) (x : X) (st : M) (w : M → Prop) : Prop :=
  match mon X e x st with Next st' => w st' | Forbidden => False | Impossible => True end.

Fixpoint watched {A : Type} (p : dprog A) (Q : A → M → Prop) (st : M) : Prop :=
  match p with
  | Ret a => Q a st
  | Vis e k => ∀ x, allows e x st (watched (k x) Q)
  end.

Lemma allows_mono {X : Type} (e : dact X) x st (v w : M → Prop) :
  (∀ st, v st → w st) → allows e x st v → allows e x st w.
Proof. unfold allows. destruct (mon X e x st); eauto. Qed.

Lemma watched_mono {A : Type} (p : dprog A) (Q R : A → M → Prop) st :
  (∀ a st, Q a st → R a st) → watched p Q st → watched p R st.
Proof.
  intros H. revert st. induction p as [a|X e k IH]; intros st; simpl; [auto|].
  intros Hk x. eapply allows_mono; [|apply Hk]. intros st'. apply IH.
Qed.

Lemma watched_bind {A B : Type} (p : dprog A) (f : A → dprog B) Q st :
  watched p (λ a, watched (f a) Q) st → watched (p ≫= f) Q st.
Proof.
  revert st. induction p as [a|X e k IH]; intros st; simpl; [done|].
  intros Hk x. eapply allows_mono; [|apply Hk]. intros st'. apply IH.
Qed.

Lemma watched_ret {A : Type} (a : A) (Q : A → M → Prop) st : Q a st → watched (mret a) Q st.
Proof. done. Qed.

Lemma watched_act {A X : Type} (e : dact X) (f : X → dprog A) Q st :
  (∀ x, allows e x st (watched (f x) Q)) → watched (call e ≫= f) Q st.
Proof. done. Qed.

(** What the monitor is not interested in. *)
Definition unwatched (X : Type) (e : dact X) : Prop := ∀ x st, mon X e x st = Next st.

Lemma watched_skip {A X : Type} (e : dact X) (f : X → dprog A) Q st :
  unwatched X e → (∀ x, watched (f x) Q st) → watched (call e ≫= f) Q st.
Proof. intros He Hf x. unfold allows. rewrite He. apply Hf. Qed.

Lemma watched_call {X : Type} (e : dact X) (Q : X → M → Prop) st :
  unwatched X e → (∀ x, Q x st) → watched (call e) Q st.
Proof. intros He HQ x. unfold allows. rewrite He. apply HQ. Qed.

Lemma watched_none {A : Type} (p : dprog A) (Q : A → M → Prop) st :
  all_acts unwatched p → (∀ a, Q a st) → watched p Q st.
Proof.
  intros Hp HQ. induction p as [a|X e k IH]; [apply HQ|]. destruct Hp as [He Hk].
  intros x. unfold allows. rewrite He. by apply IH.
Qed.

(** The same of a thread, inside its calls too. *)
Fixpoint thread_watched {A : Type} (p : sprog A) (st : M) : Prop :=
  match p with
  | Ret _ => True
  | Vis e k =>
      match e in sact X return (X → M → Prop) → Prop with
      | SKern _ => λ w, ∀ x, w x st
      | SHost e => λ w, ∀ x, allows e x st (w x)
      end (λ x, thread_watched (k x))
  end.

Hypothesis ioctl_unwatched : ∀ fd cmd arg, unwatched _ (Ioctl fd cmd arg).

Lemma watched_kernel {A B C : Type} (p : kprog A) (f : A → sprog B) (g : B → sprog C) st :
  (∀ a, thread_watched (f a ≫= g) st) → thread_watched ((in_kernel p ≫= f) ≫= g) st.
Proof. intros Hf. induction p as [a|X e k IH]; [by apply Hf|]. simpl. intros x. apply IH. Qed.

Lemma watched_unfold {A : Type} store (d : dprog A) Q st :
  watched d Q st → thread_watched (unfold_calls store d) st.
Proof.
  revert st. induction d as [a|X e k IH]; intros st; [done|]. intros Hk.
  destruct e; try (intros x; eapply allows_mono; [|apply Hk]; intros st'; apply IH).
  apply watched_kernel. intros [r u]. apply IH.
  specialize (Hk (if decide (r < 0) then -1 else r, u_bytes u)). unfold allows in Hk.
  by rewrite ioctl_unwatched in Hk.
Qed.

End Watched.

(** ** A thread for a client *)

(** It serves; it is about to close, for the client has hung up or the connection
    has failed; it has closed. *)
Inductive stage : Type := Serving | HungUp | Closed.

#[export] Instance stage_eq_dec : EqDecision stage.
Proof. solve_decision. Defined.

Definition client_mon (client_fd : Z) (X : Type) (e : dact X) : X → stage → verdict stage :=
  match e in dact X return X → stage → verdict stage with
  | Recv fd n => λ answer st,
      if decide (fd = client_fd ∧ n = (BUFFER_SIZE - 1)%nat ∧ st = Serving)
      then Next match answer with RecvEof | RecvErr false => HungUp | _ => Serving end
      else Forbidden
  | Send fd _ => λ r st,
      if decide (fd = client_fd ∧ st = Serving) then Next (if decide (r < 0) then HungUp else Serving)
      else Forbidden
  | Close fd => λ _ st, if decide (fd = client_fd ∧ st = HungUp) then Next Closed else Forbidden
  | Accept _ | SpawnClient _ _ | DevOpen | Socket => λ _ _, Forbidden
  | _ => λ _ st, Next st
  end.

(** ** The main thread *)

(** The descriptors it has opened, the last one first, and a connection for which
    it has not started a thread yet. *)
Record main_state : Type := mk_main {
  ms_own : list Z;
  ms_accepted : option Z;
}.

Definition main_mon (X : Type) (e : dact X) : X → main_state → verdict main_state :=
  match e in dact X return X → main_state → verdict main_state with
  | DevOpen | Socket => λ fd st,
      if decide (fd = -1) then Next st
      else if decide (fd < 0) then Impossible
      else Next (mk_main (fd :: ms_own st) (ms_accepted st))
  | Close fd => λ _ st,
      match ms_own st with
      | fd' :: own => if decide (fd' = fd) then Next (mk_main own (ms_accepted st)) else Forbidden
      | [] => Forbidden
      end
  | Accept _ => λ answer st,
      match answer with
      | AcceptErr _ => Next st
      | AcceptFd fd => if decide (ms_accepted st = None) then Next (mk_main (ms_own st) (Some fd)) else Forbidden
      end
  | SpawnClient fd _ => λ _ st,
      if decide (ms_accepted st = Some fd) then Next (mk_main (ms_own st) None) else Forbidden
  | Recv _ _ | Send _ _ => λ _ _, Forbidden
  | _ => λ _ st, Next st
  end.

(** No connection, no descriptor. *)
Definition no_descriptor (X : Type) (e : dact X) : Prop :=
  match e with
  | Recv _ _ | Send _ _ | Close _ | Accept _ | SpawnClient _ _ | DevOpen | Socket => False
  | _ => True
  end.

Ltac no_descriptor := all_acts_walk ltac:(done).

Section Functions.
Context {ioc_api : IocApi} {ioc_laws : IocLaws ioc_api} {api : KernelApi}.

Lemma client_unwatched client_fd X (e : dact X) : no_descriptor X e → unwatched (client_mon client_fd) X e.
Proof. by destruct e. Qed.

Lemma main_unwatched X (e : dact X) : no_descriptor X e → unwatched main_mon X e.
Proof. by destruct e. Qed.

Lemma no_descriptor_snapshot fd : all_acts no_descriptor (do_kv_snapshot_to_file fd).
Proof. unfold do_kv_snapshot_to_file. no_descriptor. Qed.

Lemma no_descriptor_operation fd cmd key v : all_acts no_descriptor (do_kv_operation fd cmd key v).
Proof. unfold do_kv_operation. no_descriptor. Qed.

Lemma no_descriptor_command command fd auth : all_acts no_descriptor (parse_and_handle_command command fd auth).
Proof.
  unfold parse_and_handle_command. cbv zeta.
  repeat first [ progress no_descriptor | apply all_acts_bind; [apply no_descriptor_snapshot|intros ?]
               | apply all_acts_bind; [apply no_descriptor_operation|intros ?] ].
Qed.

Lemma no_descriptor_restore fd : all_acts no_descriptor (do_kv_restore_from_file fd).
Proof.
  assert (∀ st data n first restored skipped,
    all_acts no_descriptor (restore_entries fd st data first n restored skipped)) as Hloop.
  { intros st data. induction n as [|n IH]; intros first restored skipped; [done|]. cbn [restore_entries]. no_descriptor. }
  unfold do_kv_restore_from_file. cbv zeta. no_descriptor. apply all_acts_bind; [apply Hloop|]. intros [r s]. no_descriptor.
Qed.

(** *** [handle_client] *)

Lemma watched_handle_client fuel client_fd kv_fd :
  watched (client_mon client_fd) (handle_client fuel client_fd kv_fd) (λ _ st, st = Closed) Serving.
Proof.
  pose proof (client_unwatched client_fd) as Hskip.
  unfold handle_client. apply watched_bind. apply watched_mono with (λ _ st, st = HungUp).
  { intros [] st -> []. unfold allows. cbn [client_mon]. by rewrite decide_True. }
  generalize false. induction fuel as [|fuel IH]; intros auth; cbn [handle_client_loop].
  { intros []. }
  apply watched_act. intros answer. unfold allows. cbn [client_mon]. rewrite decide_True by done.
  destruct answer as [data| |[]]; [|by apply watched_call; [by apply Hskip|]|apply IH|by apply watched_call; [by apply Hskip|]].
  apply watched_skip; [by apply Hskip|]. intros []. apply watched_bind, watched_none.
  { eapply all_acts_mono; [apply Hskip|apply no_descriptor_command]. }
  intros [response auth']. apply watched_act. intros r. unfold allows. cbn [client_mon].
  rewrite decide_True by done. case_decide; [by apply watched_call; [by apply Hskip|]|apply IH].
Qed.

Lemma client_thread_watched store fuel client_fd kv_fd :
  thread_watched (client_mon client_fd) (unfold_calls store (client_thread fuel (client_fd, kv_fd))) Serving.
Proof. eapply watched_unfold; [by intros|apply watched_handle_client]. Qed.

(** *** [main] *)

Lemma watched_close fd own acc (Q : unit → main_state → Prop) :
  Q tt (mk_main own acc) → watched main_mon (call (Close fd)) Q (mk_main (fd :: own) acc).
Proof. intros HQ []. unfold allows. cbn [main_mon ms_own]. by rewrite decide_True. Qed.

(** The server's socket is open when it is returned. *)
Lemma watched_init_network own :
  watched main_mon init_network
    (λ fd st, st = mk_main (if decide (fd < 0) then own else fd :: own) None) (mk_main own None).
Proof.
  pose proof main_unwatched as Hskip. unfold init_network. apply watched_act. intros fd. unfold allows.
  cbn [main_mon ms_own ms_accepted]. destruct (decide (fd = -1)) as [->|Hne].
  { apply watched_skip; [by apply Hskip|]. intros []. by apply watched_ret. }
  destruct (decide (fd < 0)); [done|].
  do 3 (apply watched_skip; [by apply Hskip|]; intros ?; case_decide;
    [apply watched_skip; [by apply Hskip|]; intros []; by apply watched_bind, watched_close|]).
  apply watched_skip; [by apply Hskip|]. intros []. apply watched_ret. by rewrite decide_False.
Qed.

Lemma watched_listen_network fuel server_fd kv_fd own :
  watched main_mon (listen_network fuel server_fd kv_fd) (λ _ st, st = mk_main own None) (mk_main own None).
Proof.
  pose proof main_unwatched as Hskip. induction fuel as [|fuel IH]; cbn [listen_network]; [intros []|].
  apply watched_skip; [by apply Hskip|]. intros []; [by apply watched_ret|].
  apply watched_act. intros [fd|eintr]; unfold allows; cbn [main_mon ms_accepted ms_own].
  - rewrite decide_True by done. apply watched_act. intros []. unfold allows. cbn [main_mon ms_accepted ms_own].
    by rewrite decide_True by done.
  - apply watched_skip; [by apply Hskip|]. intros b. destruct (b || eintr); [done|].
    apply watched_skip; [by apply Hskip|]. by intros [].
Qed.

Lemma watched_main fuel : watched main_mon (main fuel) (λ _ _, True) (mk_main [] None).
Proof.
  pose proof main_unwatched as Hskip. unfold main.
  do 2 (apply watched_skip; [by apply Hskip|]; intros []).
  apply watched_bind. unfold init_kv. apply watched_act. intros kv_fd. unfold allows. cbn [main_mon].
  cbn [ms_own ms_accepted]. destruct (decide (kv_fd = -1)) as [->|Hne].
  { apply watched_skip; [by apply Hskip|]. intros []. by apply watched_ret. }
  destruct (decide (kv_fd < 0)); [done|]. apply watched_ret. case_decide; [by apply watched_ret|].
  apply watched_bind, watched_none.
  { eapply all_acts_mono; [exact Hskip|apply no_descriptor_restore]. }
  intros []. apply watched_bind. eapply watched_mono; [|apply watched_init_network].
  intros server_fd st ->. case_decide; [by apply watched_bind, watched_close|].
  apply watched_skip; [by apply Hskip|]. intros []. apply watched_bind.
  eapply watched_mono; [|apply watched_listen_network]. intros [] st ->. apply watched_bind, watched_none.
  { eapply all_acts_mono; [exact Hskip|apply no_descriptor_snapshot]. }
  intros []. by apply watched_bind, watched_close, watched_bind, watched_close.
Qed.

Lemma main_thread_watched store fuel :
  thread_watched main_mon (unfold_calls store (_ ← main fuel; mret tt)) (mk_main [] None).
Proof.
  apply (watched_unfold main_mon) with (λ _ _, True); [by intros|]. apply watched_bind.
  eapply watched_mono; [|apply watched_main]. intros a st _. exact I.
Qed.

End Functions.
