(* ===== verification/Instances.v ===== *)
(** * A concrete environment

    Instances of the parameters of the development, with their laws: the
    [_IOC] packing of Linux, a hash function, a kernel allocator that never
    fails, a host, a PAM that knows one password.  They show that the laws can
    hold together, and the examples and witnesses run on them. *)

From S2P Require Import Prelude Prog CStr KvIoctl KMem KvHash KLogic KSound KvHashSpec KvTable.
From S2P Require Import KvStore KvLifecycle KvInterface Auth Daemon DaemonSem.

(** [asm-generic/ioctl.h]. *)
#[export] Instance linux_ioc : IocApi := {|
  ioc d ty nr size :=
    (match d with IOC_WRITE => 1 | IOC_READ => 2 | IOC_READ_WRITE => 3 end) * 1073741824 +
    size * 65536 + ty * 256 + nr
|}.

#[export] Instance linux_ioc_laws : IocLaws linux_ioc.
Proof.
  split; unfold ioc_args_ok; simpl.
  - intros d ty nr size ?. unfold is_u32, u32_max. destruct d; lia.
  - intros d ty nr size d' ty' nr' size' ? ? H. destruct d, d'; split_and!; (done || lia).
Qed.

(** An allocator that takes the first address no object has. *)
Definition next_addr (h : heap) : addr := fresh (dom h : gset addr).

Definition fill (src : bytes) (n : nat) (dst : bytes) : bytes :=
  write_at 0 (take (n - 1) src ++ [NUL]) dst.

#[export] Instance test_kernel : KernelApi := {|
  hash_min k bits := k mod 2 ^ bits;
  kmalloc_addr n h := Some (next_addr h);
  kmalloc_garbage n len := replicate len (ascii_of_nat 170);
  strscpy dst src n := fill src n dst;
  copied_before_fault n room := room;
|}.

#[export] Instance test_kernel_laws : KernelLaws test_kernel.
Proof.
  split; simpl.
  - intros k bits _ ?. apply Z.mod_pos_bound. apply Z.pow_pos_nonneg; lia.
  - intros n h a [= <-]. apply (not_elem_of_dom (D := gset addr)).
    exact (is_fresh (dom h : gset addr)).
  - intros n len. apply length_replicate.
  - intros dst src n ?. unfold fill. apply length_write_at.
    rewrite length_app, length_take. simpl. lia.
  - intros dst src n Hn ?. unfold fill, write_at. simpl. rewrite <- app_assoc.
    apply c_str_app. by apply no_nul_take.
Qed.

(** ** Small tables: two buckets at addresses 1 and 2 *)

Definition test_bits : Z := 1.
Definition test_ht : hash_table := mk_ht (Some 1%positive) (Some 2%positive) test_bits.

Definition store0 : kst := mk_kst (init_heap test_bits 1%positive 2%positive ∅ (nbuckets test_bits)) 2.

Abbreviation test_rep := (store_rep 1%positive 2%positive test_bits ∅).

Lemma test_bits_range : 1 <= test_bits <= 31.
Proof. unfold test_bits. lia. Qed.

Lemma store0_rep : test_rep ∅ store0.
Proof.
  exists (replicate (nbuckets test_bits) []). split; [|done].
  by apply (init_ginv test_bits).
Qed.

(** The state a program leaves. *)
Definition state_after {A : Type} (p : kprog A) (s : kst) : kst :=
  match krun p s with Done _ s' => s' | _ => s end.

Definition value_a : bytes := lit "alpha".
Definition value_b : bytes := lit "beta".
Definition test_map : gmap Z bytes := {[5 := value_a]}.

Definition store1 : kst := state_after (kv_hash_add (Some test_ht) 5 (Some (value_a ++ [NUL]))) store0.

Lemma test_never_fails : ¬ may_fail.
Proof. intros (n & h & H). done. Qed.

Lemma store1_rep : test_rep test_map store1.
Proof.
  assert (value_ok value_a) as Hv.
  { split; [by apply (bool_decide_unpack (no_nul value_a)); vm_compute|].
    by apply Nat.ltb_lt; vm_compute. }
  destruct (store_add 1%positive 2%positive test_bits ∅ test_bits_range ∅ store0 5 (value_a ++ [NUL])
    value_a store0_rep) as (r & s' & Hr & Hres); [by unfold is_u64, u64_max|done|done|].
  assert (store1 = s') as ->. { unfold store1, state_after, test_ht. by rewrite Hr. }
  by destruct Hres as [[_ ?]|[Hf _]]; [|destruct (test_never_fails Hf)].
Qed.

(** ** A host and a PAM *)

#[export] Instance test_host : HostApi := {|
  host_open := 3;
  host_socket := 4;
  host_setsockopt := 0;
  host_bind := 0;
  host_listen := 0;
  host_calloc_ok _ := true;
  host_malloc n := Some (replicate (Z.to_nat n) (ascii_of_nat 204));
  host_file_readable := true;
  host_file_writable := true;
  host_disk data := length data;
  host_send data := Z.of_nat (length data);
|}.

#[export] Instance test_host_laws : HostLaws test_host.
Proof. split. intros n buf [= <-]. apply length_replicate. Qed.

(** PAM asks for the password once and accepts [secret] from [alice]. *)
#[export] Instance test_pam : PamApi := {|
  pam_start service user := PAM_SUCCESS;
  pam_authenticate user conv :=
    match conv [PAM_PROMPT_ECHO_OFF] with
    | (_, Some [Some pw]) =>
        if decide (user = lit "alice" ∧ pw = lit "secret") then PAM_SUCCESS else 7
    | _ => 7
    end;
  pam_acct_mgmt user := PAM_SUCCESS;
  pam_alloc n := true;
|}.

(** A PAM that knows nobody. *)
Definition deny_pam : PamApi := {|
  pam_start service user := PAM_SUCCESS;
  pam_authenticate user conv := 7;
  pam_acct_mgmt user := PAM_SUCCESS;
  pam_alloc n := true;
|}.

Abbreviation test_device := (kernel_device 1%positive 2%positive test_bits).

(** The kernel module as the device of the daemon's theorems. *)
#[export] Instance test_device_laws : KvDeviceLaws test_device :=
  kernel_device_laws 1%positive 2%positive test_bits ∅ test_bits_range.

(** A daemon whose device is in state [s], and whose snapshot file is [f]. *)
Definition test_world (s : kst) (f : option bytes) : world test_device :=
  mk_world test_device s (mk_pam 0 []) f [] [] [] [] [] [] [] (-1) 0.
