(* ===== verification/Userland.v ===== *)
(** * The programs that talk to the daemon: their actions and environment

    The command-line client and the benchmark are programs over one family of
    actions: a TCP socket, the terminal, a clock, result files and, for the
    benchmark, threads and shared counters.  What is at the other end of a socket
    is the parameter [Peer]. *)

From S2P Require Import Prelude Prog CStr.

Inductive ufault : Type :=
  (** An exception nobody catches. *)
  | UUncaught
  (** Overflow of a signed integer. *)
  | UOverflow
  | UOutOfFuel.

(** What is printed or written to a file: a text, or a [double] computed from a
    duration in nanoseconds.  Of [perror] it is the program's own text. *)
Inductive item : Type :=
  | Text (t : bytes)
  | Micros (ns : Z)
  | Seconds (ns : Z)
  | PerSecond (count ns : Z).

#[global] Instance item_eq_dec : EqDecision item.
Proof. solve_decision. Defined.

(** The atomic counters of the benchmark with concurrent readers. *)
Inductive counter : Type := Writes | Reads | EmptyReads | BadReads.

#[global] Instance counter_eq_dec : EqDecision counter.
Proof. solve_decision. Defined.

(** The threads the benchmark starts. *)
Inductive job : Type := LatencyWorker (tid : Z) | HotWriter | HotReader (tid : Z).

Inductive uact : Type → Type :=
  | USocket : uact Z
  | InetPton (ip : bytes) : uact Z
  | Connect (fd : Z) : uact Z
  | USend (fd : Z) (data : bytes) : uact Z
  (** [None] is an error, the empty text the end of the stream. *)
  | URead (fd : Z) (n : nat) : uact (option bytes)
  | UClose (fd : Z) : uact unit
  (** [std::getline (std::cin, s)]: the string [s] afterwards. *)
  | GetLine (s : bytes) : uact bytes
  | UPrint (t : item) : uact unit
  (** The local flags of the terminal. *)
  | TcGetAttr : uact Z
  | TcSetAttr (lflag : Z) : uact unit
  | Clock : uact Z
  | CsvOpen (name : bytes) : uact bool
  | CsvWrite (t : item) : uact unit
  | Sleep (seconds : Z) : uact unit
  (** [stop] and the counters are initialised. *)
  | InitShared : uact unit
  | StopLoad : uact bool
  | StopStore : uact unit
  | CounterAdd (c : counter) : uact unit
  | CounterLoad (c : counter) : uact Z
  | Spawn (j : job) : uact unit
  (** [join] of every thread that was spawned. *)
  | JoinAll : uact unit
  | UTrap (f : ufault) : uact Empty_set.

Abbreviation uprog := (prog uact).

Definition utrap {A : Type} (f : ufault) : uprog A :=
  e ← call (UTrap f); match (e : Empty_set) with end.

Definition say_text (t : bytes) : uprog unit := call (UPrint (Text t)).

(** [for (int i = start; i < start + n; ++i)] with a state. *)
Fixpoint u_for {B : Type} (start n : nat) (acc : B) (body : nat → B → uprog B) : uprog B :=
  match n with
  | O => mret acc
  | S n' => acc' ← body start acc; u_for (S start) n' acc' body
  end.

(** The flag [ECHO] of the terminal. *)
Definition ECHO : Z := 8.

(** Escape sequences: [ESC] followed by the given text. *)
Definition esc (s : string) : bytes := ascii_of_nat 27 :: lit s.

Lemma all_acts_for {B : Type} P start n (acc : B) body :
  (∀ i b, (start <= i < start + n)%nat → all_acts P (body i b)) →
  all_acts P (u_for start n acc body).
Proof.
  revert start acc. induction n as [|n IH]; intros start acc Hb; cbn [u_for]; [done|].
  apply all_acts_bind; [apply Hb; lia|]. intros b. apply IH. intros i b' Hi. apply Hb. lia.
Qed.

(** ** The environment *)

(** The other end of a connection: a connection begins, and a message arrives
    whole and is answered, or the other end hangs up. *)
Class Peer : Type := {
  peer : Type;
  peer_connect : peer → peer;
  peer_answer : bytes → peer → option (bytes * peer);
}.

Class UserApi : Type := {
  user_socket : Z;
  user_pton : bytes → Z;
  user_connect : Z;
  user_send : bytes → Z;
  user_read_ok : bool;
  user_csv_open : bytes → bool;
  user_clock : nat → Z;
  (** What an uninitialised [termios] holds. *)
  user_garbage : Z;
}.

Record uworld {P : Peer} : Type := mk_uworld {
  u_peer : peer;
  u_alive : bool;
  (** Bytes received and not read yet. *)
  u_stream : bytes;
  (** Standard input: its complete lines, the text after the last line feed, and
      whether its end has been seen. *)
  u_lines : list bytes;
  u_tail : bytes;
  u_eof : bool;
  (** The flags of the terminal, [None] when standard input is not one. *)
  u_tty : option Z;
  (** What was printed, and the flags of the terminal at every line read. *)
  u_out : list item;
  u_reads : list (option Z);
  (** The open result file, [None] when it could not be opened. *)
  u_csv : option (list item);
  u_ticks : nat;
  (** The values the program will see in [stop], which another thread sets at any
      time: true after the end of the list. *)
  u_stop : list bool;
  u_counters : counter → Z;
  u_jobs : list job;
  u_shut : list Z;
}.
Arguments uworld : clear implicits.

Section Sem.
Context {P : Peer} {user : UserApi}.

Abbreviation U := (uworld P).

(** The connection, the input and terminal, the output, and the rest. *)
Definition set_conn (p : peer) (alive : bool) (stream : bytes) (w : U) : U :=
  mk_uworld P p alive stream (u_lines w) (u_tail w) (u_eof w) (u_tty w) (u_out w) (u_reads w)
    (u_csv w) (u_ticks w) (u_stop w) (u_counters w) (u_jobs w) (u_shut w).
Definition set_input (lines : list bytes) (tail : bytes) (eof : bool) (reads : list (option Z))
    (w : U) : U :=
  mk_uworld P (u_peer w) (u_alive w) (u_stream w) lines tail eof (u_tty w) (u_out w) reads
    (u_csv w) (u_ticks w) (u_stop w) (u_counters w) (u_jobs w) (u_shut w).
Definition set_tty (t : option Z) (w : U) : U :=
  mk_uworld P (u_peer w) (u_alive w) (u_stream w) (u_lines w) (u_tail w) (u_eof w) t (u_out w)
    (u_reads w) (u_csv w) (u_ticks w) (u_stop w) (u_counters w) (u_jobs w) (u_shut w).
Definition add_item (t : item) (w : U) : U :=
  mk_uworld P (u_peer w) (u_alive w) (u_stream w) (u_lines w) (u_tail w) (u_eof w) (u_tty w)
    (u_out w ++ [t]) (u_reads w) (u_csv w) (u_ticks w) (u_stop w) (u_counters w) (u_jobs w) (u_shut w).
Definition set_csv (t : option (list item)) (w : U) : U :=
  mk_uworld P (u_peer w) (u_alive w) (u_stream w) (u_lines w) (u_tail w) (u_eof w) (u_tty w)
    (u_out w) (u_reads w) t (u_ticks w) (u_stop w) (u_counters w) (u_jobs w) (u_shut w).
Definition tick (w : U) : U :=
  mk_uworld P (u_peer w) (u_alive w) (u_stream w) (u_lines w) (u_tail w) (u_eof w) (u_tty w)
    (u_out w) (u_reads w) (u_csv w) (S (u_ticks w)) (u_stop w) (u_counters w) (u_jobs w) (u_shut w).
Definition set_stop (b : list bool) (w : U) : U :=
  mk_uworld P (u_peer w) (u_alive w) (u_stream w) (u_lines w) (u_tail w) (u_eof w) (u_tty w)
    (u_out w) (u_reads w) (u_csv w) (u_ticks w) b (u_counters w) (u_jobs w) (u_shut w).
Definition set_counters (f : counter → Z) (w : U) : U :=
  mk_uworld P (u_peer w) (u_alive w) (u_stream w) (u_lines w) (u_tail w) (u_eof w) (u_tty w)
    (u_out w) (u_reads w) (u_csv w) (u_ticks w) (u_stop w) f (u_jobs w) (u_shut w).
Definition set_jobs (l : list job) (w : U) : U :=
  mk_uworld P (u_peer w) (u_alive w) (u_stream w) (u_lines w) (u_tail w) (u_eof w) (u_tty w)
    (u_out w) (u_reads w) (u_csv w) (u_ticks w) (u_stop w) (u_counters w) l (u_shut w).
Definition add_shut (fd : Z) (w : U) : U :=
  mk_uworld P (u_peer w) (u_alive w) (u_stream w) (u_lines w) (u_tail w) (u_eof w) (u_tty w)
    (u_out w) (u_reads w) (u_csv w) (u_ticks w) (u_stop w) (u_counters w) (u_jobs w)
    (u_shut w ++ [fd]).

Definition bump (c : counter) (f : counter → Z) : counter → Z :=
  λ d, if decide (c = d) then wrap_u64 (f d + 1) else f d.

(** One thread on its own: a thread it spawns is only recorded. *)
Definition uexec (X : Type) (e : uact X) (w : U) : outcome ufault U X :=
  match e in uact X return outcome ufault U X with
  | USocket => Done user_socket w
  | InetPton ip => Done (user_pton ip) w
  | Connect _ =>
      Done user_connect
        (if decide (user_connect < 0) then w else set_conn (peer_connect (u_peer w)) true [] w)
  | USend _ data =>
      if bool_decide (user_send data < 0) || negb (u_alive w) then Done (user_send data) w
      else
        match peer_answer data (u_peer w) with
        | Some (reply, p) => Done (user_send data) (set_conn p true (u_stream w ++ reply) w)
        | None => Done (user_send data) (set_conn (u_peer w) false (u_stream w) w)
        end
  | URead _ n =>
      if user_read_ok then
        if decide (u_stream w = []) then
          (* nothing to read: the end of the stream, or a wait for ever *)
          if u_alive w then Blocked else Done (Some []) w
        else Done (Some (take n (u_stream w)))
               (set_conn (u_peer w) (u_alive w) (drop n (u_stream w)) w)
      else Done None w
  | UClose fd => Done tt (add_shut fd w)
  | GetLine s =>
      let reads := u_reads w ++ [u_tty w] in
      match u_lines w with
      | l :: ls => Done l (set_input ls (u_tail w) (u_eof w) reads w)
      | [] =>
          (* a stream that is at its end already leaves the string alone *)
          if u_eof w then Done s (set_input [] (u_tail w) true reads w)
          else Done (u_tail w) (set_input [] [] true reads w)
      end
  | UPrint t => Done tt (add_item t w)
  | TcGetAttr => Done (default user_garbage (u_tty w)) w
  | TcSetAttr f => Done tt (match u_tty w with Some _ => set_tty (Some f) w | None => w end)
  | Clock => Done (user_clock (u_ticks w)) (tick w)
  | CsvOpen name =>
      Done (user_csv_open name) (set_csv (if user_csv_open name then Some [] else None) w)
  | CsvWrite t => Done tt (set_csv ((λ l, l ++ [t]) <$> u_csv w) w)
  | Sleep _ => Done tt w
  | InitShared => Done tt (set_counters (λ _, 0) w)
  | StopLoad =>
      match u_stop w with
      | b :: l => Done b (set_stop l w)
      | [] => Done true w
      end
  | StopStore => Done tt (set_stop [] w)
  | CounterAdd c => Done tt (set_counters (bump c (u_counters w)) w)
  | CounterLoad c => Done (u_counters w c) w
  | Spawn j => Done tt (set_jobs (u_jobs w ++ [j]) w)
  | JoinAll => Done tt w
  | UTrap f => Faulted f
  end.

Definition uwp {A : Type} (p : uprog A) (w : U) (Q : A → U → Prop) : Prop :=
  match run uexec p w with Done a w' => Q a w' | _ => False end.

Lemma uwp_ret {A : Type} (a : A) w (Q : A → U → Prop) : Q a w → uwp (mret a) w Q.
Proof. done. Qed.

Lemma uwp_bind {A B : Type} (p : uprog A) (f : A → uprog B) w Q :
  uwp p w (λ a w', uwp (f a) w' Q) → uwp (p ≫= f) w Q.
Proof. unfold uwp. rewrite run_bind. by destruct (run uexec p w). Qed.

Lemma uwp_call {X : Type} (e : uact X) w (Q : X → U → Prop) :
  match uexec X e w with Done x w' => Q x w' | _ => False end → uwp (call e) w Q.
Proof. unfold uwp. by rewrite run_call. Qed.

Lemma uwp_act {A X : Type} (e : uact X) (f : X → uprog A) w Q :
  match uexec X e w with Done x w' => uwp (f x) w' Q | _ => False end →
  uwp (call e ≫= f) w Q.
Proof. intros H. by apply uwp_bind, uwp_call. Qed.

Lemma uwp_mono {A : Type} (p : uprog A) w (Q R : A → U → Prop) :
  (∀ a w', Q a w' → R a w') → uwp p w Q → uwp p w R.
Proof. unfold uwp. destruct (run uexec p w); eauto. Qed.

Lemma uwp_print {A : Type} t (f : unit → uprog A) w Q :
  uwp (f tt) (add_item (Text t) w) Q → uwp (say_text t ≫= f) w Q.
Proof. intros H. by apply uwp_act. Qed.

Lemma uwp_run {A : Type} (p : uprog A) w Q :
  uwp p w Q → ∃ a w', run uexec p w = Done a w' ∧ Q a w'.
Proof. unfold uwp. destruct (run uexec p w); [eauto|done..]. Qed.

(** A loop by an invariant. *)
Lemma uwp_for {B : Type} (I : nat → B → U → Prop) start n (acc : B) body w :
  I start acc w →
  (∀ i b w, (start <= i < start + n)%nat → I i b w → uwp (body i b) w (I (S i))) →
  uwp (u_for start n acc body) w (I (start + n)%nat).
Proof.
  revert start acc w. induction n as [|n IH]; intros start acc w HI Hb; cbn [u_for].
  - apply uwp_ret. by rewrite Nat.add_0_r.
  - apply uwp_bind. eapply uwp_mono; [|apply Hb; [lia|done]].
    intros b w' HI'. rewrite <- Nat.add_succ_comm. apply IH; [done|].
    intros i b' w1 Hi. apply Hb. lia.
Qed.

End Sem.
