(* ===== verification/Client.v ===== *)
(** * [user/client/client.cpp]: the command-line client

    One definition per function of the file.  The loops that wait for the
    user's input have fuel for their iterations. *)

From S2P Require Import Prelude Prog CStr Userland.

Definition DAEMON_IP_LOCAL : bytes := lit "127.0.0.1".

(** The colours of the terminal the program prints. *)
Definition white : bytes := esc "[1;37m".
Definition blue : bytes := esc "[1;34m".
Definition yellow : bytes := LF :: esc "[1;33m".
Definition reset : bytes := esc "[0m".

Definition get_password : uprog bytes :=
  oldt ← call TcGetAttr;
  let newt := Z.ldiff oldt ECHO in
  _ ← call (TcSetAttr newt);
  password ← call (GetLine []);
  _ ← call (TcSetAttr oldt);
  _ ← say_text [LF];
  mret password.

(** [while (true)] of [auth_user]: until the daemon answers OK, or an error. *)
Fixpoint auth_user (fuel : nat) (sock : Z) : uprog Z :=
  match fuel with
  | O => utrap UOutOfFuel
  | S fuel' =>
      _ ← say_text white;
      _ ← say_text (lit "Username: ");
      username ← call (GetLine []);
      _ ← say_text (lit "Password: ");
      _ ← say_text reset;
      password ← get_password;
      let msg := lit "AUTH " ++ username ++ lit " " ++ password in
      r ← call (USend sock msg);
      if decide (r < 0) then
        _ ← say_text (lit "failed to send auth");
        mret (-1)
      else
        n ← call (URead sock (128 - 1));
        match n with
        | None | Some [] =>
            _ ← say_text (lit "auth response failed" ++ [LF]);
            mret (-1)
        | Some data =>
            let resp := upto_nul (write_at 0 data (zeros 128)) in
            match find_sub (lit "OK") resp with
            | Some _ =>
                _ ← say_text [LF];
                _ ← say_text (lit "Authentication success" ++ [LF]);
                mret 0
            | None =>
                _ ← say_text (lit "Authentication failed" ++ [LF]);
                auth_user fuel' sock
            end
        end
  end.

Definition send_command (sock : Z) (command : bytes) : uprog unit :=
  _ ← call (USend sock command);
  n ← call (URead sock (1024 - 1));
  match n with
  | Some [] => say_text (lit "Server closed connection" ++ [LF])
  | Some data =>
      let buffer := write_at (length data) [NUL] (write_at 0 data (zeros 1024)) in
      _ ← say_text [LF];
      _ ← say_text white;
      _ ← say_text (upto_nul buffer);
      say_text reset
  | None => say_text (lit "read failed")
  end.

Definition print_menu : uprog unit :=
  _ ← say_text blue;
  _ ← say_text (LF :: lit "==== KV STORE MENU ====" ++ [LF]);
  _ ← say_text reset;
  _ ← say_text white;
  _ ← say_text (lit "1) Insert" ++ [LF]);
  _ ← say_text (lit "2) Update" ++ [LF]);
  _ ← say_text (lit "3) Get" ++ [LF]);
  _ ← say_text (lit "4) Delete" ++ [LF]);
  _ ← say_text (lit "5) Snapshot" ++ [LF]);
  _ ← say_text (lit "6) Exit" ++ [LF]);
  _ ← say_text reset;
  _ ← say_text yellow;
  _ ← say_text (lit "Choose: ");
  say_text reset.

Definition ask (prompt : bytes) : uprog bytes :=
  _ ← say_text prompt;
  call (GetLine []).

(** One round of the menu; the result is [running]. *)
Definition menu_round (sock : Z) : uprog bool :=
  _ ← print_menu;
  choice ← call (GetLine []);
  if bool_decide (choice = lit "6") || bool_decide (choice = lit "exit") then mret false
  else if decide (choice = lit "1") then
    key ← ask (lit "Key: ");
    value ← ask (lit "Value: ");
    _ ← send_command sock (lit "KV_INSERT " ++ key ++ lit " " ++ value);
    mret true
  else if decide (choice = lit "2") then
    key ← ask (lit "Key: ");
    value ← ask (lit "Value: ");
    _ ← send_command sock (lit "KV_UPDATE " ++ key ++ lit " " ++ value);
    mret true
  else if decide (choice = lit "3") then
    key ← ask (lit "Key: ");
    _ ← send_command sock (lit "KV_GET " ++ key);
    mret true
  else if decide (choice = lit "4") then
    key ← ask (lit "Key: ");
    _ ← send_command sock (lit "KV_DELETE " ++ key);
    mret true
  else if decide (choice = lit "5") then
    _ ← send_command sock (lit "KV_SNAPSHOT");
    mret true
  else
    _ ← say_text [LF];
    _ ← say_text white;
    _ ← say_text (lit "Invalid choice" ++ [LF]);
    _ ← say_text reset;
    mret true.

Fixpoint cli_menu (fuel : nat) (sock : Z) : uprog unit :=
  match fuel with
  | O => utrap UOutOfFuel
  | S fuel' =>
      running ← menu_round sock;
      if running : bool then cli_menu fuel' sock else mret tt
  end.

(** [argv] holds the arguments after the program's name. *)
Definition main (fuel : nat) (name : bytes) (argv : list bytes) : uprog Z :=
  match argv with
  | _ :: _ :: _ =>
      _ ← say_text (lit "Usage: " ++ name ++ lit " [ip]" ++ [LF]);
      _ ← say_text (lit "If no IP is provided, localhost (127.0.0.1) is used." ++ [LF]);
      mret 1
  | _ =>
      let daemon_ip := match argv with ip :: _ => ip | [] => DAEMON_IP_LOCAL end in
      sock ← call USocket;
      if decide (sock < 0) then
        _ ← say_text (lit "failed to create socket" ++ [LF]);
        mret 1
      else
      r ← call (InetPton daemon_ip);
      if decide (r ≠ 1) then
        _ ← say_text (lit "Invalid IPv4 address: " ++ daemon_ip ++ [LF]);
        mret 1
      else
      r ← call (Connect sock);
      if decide (r < 0) then
        _ ← say_text (lit "could not connect to server" ++ [LF]);
        mret 1
      else
        r ← auth_user fuel sock;
        _ ← (if decide (r = 0) then cli_menu fuel sock else mret tt);
        mret 0
  end.
