(* ===== verification/Benchmark.v ===== *)
(** * [benchmark/benchmark.cpp]: the benchmarks

    One definition per function of the file, and one per thread body (the
    lambdas [worker], [writer] and [reader]).  The loops that end on somebody
    else's account, the prompt and the threads of the second benchmark, have fuel
    for their iterations. *)

From S2P Require Import Prelude Prog CStr Userland.

Definition DAEMON_IP_LOCAL : bytes := lit "127.0.0.1".
Definition USERNAME_DEFAULT : bytes := lit "vboxuser".
Definition PASSWORD_DEFAULT : bytes := lit "vboxuser".

Record connection_data : Type := mk_conn_data {
  username : bytes;
  password : bytes;
  daemon_ip : bytes;
}.

Definition newline (t : bytes) : bytes := t ++ [LF].

(** ** The connection *)

Definition get_password : uprog bytes :=
  oldt ← call TcGetAttr;
  let newt := Z.ldiff oldt ECHO in
  _ ← call (TcSetAttr newt);
  password ← call (GetLine []);
  _ ← call (TcSetAttr oldt);
  _ ← say_text [LF];
  mret password.

Definition auth_user (sock : Z) (username password : bytes) : uprog Z :=
  let msg := lit "AUTH " ++ username ++ lit " " ++ password in
  r ← call (USend sock msg);
  if decide (r < 0) then
    _ ← say_text (lit "failed to send auth");
    mret (-1)
  else
    n ← call (URead sock (128 - 1));
    match n with
    | None | Some [] =>
        _ ← say_text (newline (lit "auth response failed"));
        mret (-1)
    | Some data =>
        let resp := upto_nul (write_at 0 data (zeros 128)) in
        match find_sub (lit "OK") resp with
        | Some _ =>
            _ ← say_text [LF];
            _ ← say_text (newline (lit "Authentication success"));
            mret 0
        | None =>
            _ ← say_text (newline (lit "Authentication failed, shutting down..."));
            mret (-1)
        end
    end.

Definition setup_connection (daemon_ip username password : bytes) : uprog Z :=
  sock ← call USocket;
  if decide (sock < 0) then
    _ ← say_text (newline (lit "failed to create socket"));
    mret (-1)
  else
  r ← call (InetPton daemon_ip);
  if decide (r ≠ 1) then
    _ ← say_text (newline (lit "Invalid IPv4 address: " ++ daemon_ip));
    mret (-1)
  else
  r ← call (Connect sock);
  if decide (r < 0) then
    _ ← say_text (newline (lit "could not connect to server"));
    mret (-1)
  else
    (* the result is not looked at *)
    _ ← auth_user sock username password;
    mret sock.

Definition setup (conn_data : connection_data) : uprog Z :=
  setup_connection (daemon_ip conn_data) (username conn_data) (password conn_data).

(** ** Operations *)

Definition kv_insert (sock : Z) (key value : bytes) : uprog Z :=
  let command := lit "KV_INSERT " ++ key ++ lit " " ++ value in
  _ ← call (USend sock command);
  n ← call (URead sock (1024 - 1));
  match n with
  | None => _ ← say_text (lit "read failed"); mret (-1)
  | Some [] => _ ← say_text (newline (lit "Server closed connection")); mret (-1)
  | Some _ => mret 0
  end.

Definition kv_get (sock : Z) (key : bytes) : uprog bytes :=
  let command := lit "KV_GET " ++ key in
  _ ← call (USend sock command);
  n ← call (URead sock (1024 - 1));
  match n with
  | None => _ ← say_text (lit "read failed"); mret []
  | Some [] => _ ← say_text (newline (lit "Server closed connection")); mret []
  | Some data =>
      mret (upto_nul (write_at (length data) [NUL] (write_at 0 data (zeros 1024))))
  end.

Definition kv_delete (sock : Z) (key : bytes) : uprog Z :=
  let command := lit "KV_DELETE " ++ key in
  _ ← call (USend sock command);
  n ← call (URead sock (1024 - 1));
  match n with
  | None => _ ← say_text (lit "read failed"); mret (-1)
  | Some [] => _ ← say_text (newline (lit "Server closed connection")); mret (-1)
  | Some _ => mret 0
  end.

Definition kv_update (sock : Z) (key value : bytes) : uprog Z :=
  let command := lit "KV_UPDATE " ++ key ++ lit " " ++ value in
  _ ← call (USend sock command);
  n ← call (URead sock (1024 - 1));
  match n with
  | None => _ ← say_text (lit "read failed"); mret (-1)
  | Some [] => _ ← say_text (newline (lit "Server closed connection")); mret (-1)
  | Some _ => mret 0
  end.

(** The measured operations return a duration in nanoseconds. *)

Definition measure_insert (sock : Z) (key value : bytes) : uprog Z :=
  start ← call Clock;
  _ ← kv_insert sock key value;
  end_ ← call Clock;
  mret (end_ - start).

Definition measure_update (sock : Z) (key value : bytes) : uprog Z :=
  start ← call Clock;
  _ ← kv_update sock key value;
  end_ ← call Clock;
  mret (end_ - start).

Definition measure_lookup (sock : Z) (key : bytes) : uprog (Z * bytes) :=
  start ← call Clock;
  out ← kv_get sock key;
  end_ ← call Clock;
  mret (end_ - start, out).

Definition measure_delete (sock : Z) (key : bytes) : uprog Z :=
  start ← call Clock;
  _ ← kv_delete sock key;
  end_ ← call Clock;
  mret (end_ - start).

(** [check_value]: [None] for an overflow, otherwise the number found. *)

Definition llong_max : Z := 9223372036854775807.

Fixpoint check_digits (v : Z) (resp : bytes) : option Z :=
  match resp with
  | b :: resp' =>
      if is_digit b then
        let v' := v * 10 + digit_value b in
        if decide (llong_max < v') then None else check_digits v' resp'
      else Some v
  | [] => Some v
  end.

Fixpoint skip_quotes (resp : bytes) : bytes :=
  match resp with
  | b :: resp' =>
      if bool_decide (b = DQ) || is_space b then skip_quotes resp' else resp
  | [] => []
  end.

Definition check_value (resp : bytes) : option (option Z) :=
  match find_sub (lit "count:") resp with
  | None => Some None
  | Some from =>
      let rest := skip_quotes (drop 6 from) in
      match rest with
      | b :: _ => if is_digit b then Some <$> check_digits 0 rest else Some None
      | [] => Some None
      end
  end.

(** ** Latency, one connection *)

Definition csv_row (label : bytes) (latency : Z) : uprog unit :=
  _ ← call (CsvWrite (Text label));
  _ ← call (CsvWrite (Micros latency));
  call (CsvWrite (Text [LF])).

Definition each (n : nat) (body : nat → uprog unit) : uprog unit :=
  u_for 0 n tt (λ i _, body i).

Definition show (i : nat) : bytes := to_string (Z.of_nat i).

(** [keys.push_back (std::to_string (base_key + i))]. *)
Definition make_keys (base_key : Z) (key_count : nat) : list bytes :=
  (λ i, to_string (base_key + Z.of_nat i)) <$> seq 0 key_count.

Definition run_latency_bench_single_core (conn_data : connection_data) : uprog unit :=
  _ ← say_text (newline (lit "Running latency_bench_single_core benchmark..."));
  sock ← setup conn_data;
  if decide (sock < 0) then
    say_text (newline (lit "Failed to setup connection for latency_bench_single_core benchmark"))
  else
    let key_count := Z.to_nat 20000 in
    let warmup_count := Z.to_nat 2000 in
    let keys := make_keys 0 key_count in
    _ ← call (CsvOpen (lit "latency_bench_single_core.csv"));
    _ ← call (CsvWrite (Text (newline (lit "operation, time_us"))));
    _ ← each warmup_count (λ i,
          _ ← kv_insert sock (to_string (Z.of_nat key_count * 10 + Z.of_nat i)) (lit "Warmup:" ++ show i);
          mret tt);
    _ ← each key_count (λ i,
          latency ← measure_insert sock (keys !!! i) (lit "value" ++ show i);
          csv_row (lit "insert, ") latency);
    _ ← each key_count (λ i,
          '(latency, _) ← measure_lookup sock (keys !!! i);
          csv_row (lit "lookup, ") latency);
    _ ← each key_count (λ i,
          latency ← measure_update sock (keys !!! i) (lit "updated_value" ++ show i);
          csv_row (lit "update, ") latency);
    _ ← each key_count (λ i,
          latency ← measure_delete sock (keys !!! i);
          csv_row (lit "delete, ") latency);
    _ ← call (UClose sock);
    say_text (newline (lit "Latency benchmark finished. Results saved to latency_bench_single_core.csv")).

(** ** Latency, eight threads *)

Definition latency_worker (conn_data : connection_data) (tid : Z) : uprog unit :=
  sock ← setup conn_data;
  if decide (sock < 0) then
    say_text (newline (lit "Thread " ++ to_string tid ++ lit " failed to setup connection"))
  else
    let key_count := Z.to_nat 20000 in
    let warmup_count := Z.to_nat 2000 in
    let base_key := tid * 1000000 in
    let keys := make_keys base_key key_count in
    let filename := lit "latency_bench_multi_thread_" ++ to_string tid ++ lit ".csv" in
    opened ← call (CsvOpen filename);
    if negb opened then
      _ ← say_text (newline (lit "Thread " ++ to_string tid ++ lit " failed to open file " ++ filename));
      call (UClose sock)
    else
      _ ← call (CsvWrite (Text (newline (lit "operation,time_us"))));
      _ ← each warmup_count (λ i,
            _ ← kv_insert sock (to_string (base_key + Z.of_nat key_count * 10 + Z.of_nat i))
                  (lit "Warmup:" ++ show i);
            mret tt);
      _ ← each key_count (λ i,
            latency ← measure_insert sock (keys !!! i) (lit "value" ++ show i);
            csv_row (lit "insert,") latency);
      _ ← each key_count (λ i,
            '(latency, _) ← measure_lookup sock (keys !!! i);
            csv_row (lit "lookup,") latency);
      _ ← each key_count (λ i,
            latency ← measure_update sock (keys !!! i) (lit "updated_value" ++ show i);
            csv_row (lit "update,") latency);
      _ ← each key_count (λ i,
            latency ← measure_delete sock (keys !!! i);
            csv_row (lit "delete,") latency);
      _ ← call (UClose sock);
      say_text (newline (lit "Thread " ++ to_string tid ++ lit " finished. Results saved to " ++ filename)).

Definition run_latency_bench_multi_thread (conn_data : connection_data) : uprog unit :=
  _ ← say_text (newline (lit "Running latency_bench_multi_thread benchmark..."));
  let thread_count := 8%nat in
  _ ← each thread_count (λ i, call (Spawn (LatencyWorker (Z.of_nat i))));
  _ ← call JoinAll;
  say_text (newline (lit "Multi-thread latency benchmark finished")).

(** ** Baseline *)

(** [failed_get_empty] and [failed_get_mismatch]. *)
Definition check_get (k value out : bytes) (failed : Z * Z) : uprog (Z * Z) :=
  let '(failed_get_empty, failed_get_mismatch) := failed in
  if decide (out = []) then mret (failed_get_empty + 1, failed_get_mismatch)
  else if decide (out ≠ value ∧ find_sub ([DQ] ++ value ++ [DQ]) out = None) then
    _ ← say_text (newline (lit "GET mismatch for key " ++ k ++ lit ": expected '" ++ value ++
                           lit "', got '" ++ out ++ lit "'"));
    mret (failed_get_empty, failed_get_mismatch + 1)
  else mret (failed_get_empty, failed_get_mismatch).

Definition run_baseline_single_thread (conn_data : connection_data) : uprog unit :=
  _ ← say_text (newline (lit "Running baseline_single_thread benchmark..."));
  sock ← setup conn_data;
  if decide (sock < 0) then
    say_text (newline (lit "Failed to setup connection for baseline_single_thread benchmark"))
  else
    let key_count := Z.to_nat 50000 in
    let keys := make_keys 0 key_count in
    start ← call Clock;
    failed_inserts ← u_for 0 key_count 0 (λ i failed_inserts,
      res ← kv_insert sock (keys !!! i) (lit "value" ++ show i);
      mret (if decide (res < 0) then failed_inserts + 1 else failed_inserts));
    '(failed_get_empty, failed_get_mismatch) ← u_for 0 key_count (0, 0) (λ i failed,
      out ← kv_get sock (keys !!! i);
      check_get (keys !!! i) (lit "value" ++ show i) out failed);
    failed_deletes ← u_for 0 key_count 0 (λ i failed_deletes,
      res ← kv_delete sock (keys !!! i);
      mret (if decide (res < 0) then failed_deletes + 1 else failed_deletes));
    end_ ← call Clock;
    _ ← call (UClose sock);
    let total_ops := Z.of_nat key_count * 3 in
    _ ← say_text (newline (lit "Baseline benchmark finished"));
    _ ← say_text (newline (lit "Operations: " ++ to_string total_ops));
    _ ← say_text (lit "Time: ");
    _ ← call (UPrint (Seconds (end_ - start)));
    _ ← say_text (newline (lit " s"));
    _ ← say_text (lit "Ops/sec: ");
    _ ← call (UPrint (PerSecond total_ops (end_ - start)));
    _ ← say_text [LF];
    _ ← say_text (newline (lit "Failed inserts: " ++ to_string failed_inserts));
    _ ← say_text (newline (lit "Failed gets (empty): " ++ to_string failed_get_empty));
    _ ← say_text (newline (lit "Failed gets (mismatch): " ++ to_string failed_get_mismatch));
    say_text (newline (lit "Failed deletes: " ++ to_string failed_deletes)).

(** ** One writer and nine readers of one key *)

Definition hot_key : bytes := lit "0".

(** [while (!stop.load ())] of the writer; [count] is unsigned. *)
Fixpoint hot_writer_loop (fuel : nat) (sock count : Z) : uprog unit :=
  match fuel with
  | O => utrap UOutOfFuel
  | S fuel' =>
      stop ← call StopLoad;
      if stop : bool then mret tt
      else
        _ ← kv_update sock hot_key (lit "count:" ++ to_string count);
        _ ← call (CounterAdd Writes);
        hot_writer_loop fuel' sock (wrap_u64 (count + 1))
  end.

Definition hot_writer (fuel : nat) (conn_data : connection_data) : uprog unit :=
  sock ← setup conn_data;
  if decide (sock <= 0) then say_text (newline (lit "Writer failed to connect"))
  else
    _ ← hot_writer_loop fuel sock 0;
    call (UClose sock).

Fixpoint hot_reader_loop (fuel : nat) (sock : Z) : uprog unit :=
  match fuel with
  | O => utrap UOutOfFuel
  | S fuel' =>
      stop ← call StopLoad;
      if stop : bool then mret tt
      else
        resp ← kv_get sock hot_key;
        _ ← call (CounterAdd Reads);
        if decide (resp = []) then
          _ ← call (CounterAdd EmptyReads);
          hot_reader_loop fuel' sock
        else
          match check_value resp with
          | None => utrap UOverflow
          | Some None =>
              _ ← call (CounterAdd BadReads);
              hot_reader_loop fuel' sock
          | Some (Some _) => hot_reader_loop fuel' sock
          end
  end.

Definition hot_reader (fuel : nat) (conn_data : connection_data) (tid : Z) : uprog unit :=
  sock ← setup conn_data;
  if decide (sock <= 0) then say_text (newline (lit "Reader failed to connect"))
  else
    _ ← hot_reader_loop fuel sock;
    call (UClose sock).

Definition run_concurrent_read_write (conn_data : connection_data) : uprog unit :=
  _ ← say_text (newline (lit "Running concurrent_read_write benchmark..."));
  let total_threads := 10 in
  let reader_threads := total_threads - 1 in
  let duration_sec := 60 in
  sock ← setup conn_data;
  if decide (sock <= 0) then say_text (newline (lit "Failed to connect for init"))
  else
    _ ← kv_insert sock hot_key (lit "count:0");
    _ ← call (UClose sock);
    _ ← call InitShared;
    start ← call Clock;
    _ ← call (Spawn HotWriter);
    _ ← each (Z.to_nat reader_threads) (λ i, call (Spawn (HotReader (Z.of_nat i))));
    _ ← call (Sleep duration_sec);
    _ ← call StopStore;
    _ ← call JoinAll;
    end_ ← call Clock;
    let ns := end_ - start in
    _ ← say_text (newline (lit "writer_readers_hotkey finished"));
    _ ← say_text (newline (lit "Key: " ++ hot_key));
    _ ← say_text (newline (lit "Threads: " ++ to_string total_threads ++ lit " (1 writer, " ++
                           to_string reader_threads ++ lit " readers)"));
    _ ← say_text (lit "Duration: ");
    _ ← call (UPrint (Seconds ns));
    _ ← say_text (newline (lit " s"));
    writes ← call (CounterLoad Writes);
    _ ← say_text (lit "Writes: " ++ to_string writes ++ lit " (");
    writes ← call (CounterLoad Writes);
    _ ← call (UPrint (PerSecond writes ns));
    _ ← say_text (newline (lit " ops/sec)"));
    reads ← call (CounterLoad Reads);
    _ ← say_text (lit "Reads: " ++ to_string reads ++ lit " (");
    reads ← call (CounterLoad Reads);
    _ ← call (UPrint (PerSecond reads ns));
    _ ← say_text (newline (lit " ops/sec)"));
    empty_reads ← call (CounterLoad EmptyReads);
    _ ← say_text (newline (lit "Empty reads: " ++ to_string empty_reads));
    bad_reads ← call (CounterLoad BadReads);
    _ ← say_text (newline (lit "Bad reads: " ++ to_string bad_reads));
    writes ← call (CounterLoad Writes);
    reads ← call (CounterLoad Reads);
    _ ← say_text (lit "Total ops/sec: ");
    _ ← call (UPrint (PerSecond (wrap_u64 (writes + reads)) ns));
    say_text [LF].

(** What a spawned thread runs. *)
Definition job_body (fuel : nat) (conn_data : connection_data) (j : job) : uprog unit :=
  match j with
  | LatencyWorker tid => latency_worker conn_data tid
  | HotWriter => hot_writer fuel conn_data
  | HotReader tid => hot_reader fuel conn_data tid
  end.

(** ** The prompt *)

Definition run_bench (id : Z) (conn_data : connection_data) : uprog unit :=
  if decide (id = 1) then run_baseline_single_thread conn_data
  else if decide (id = 2) then run_concurrent_read_write conn_data
  else if decide (id = 3) then run_latency_bench_single_core conn_data
  else if decide (id = 4) then run_latency_bench_multi_thread conn_data
  else say_text (newline (lit "Invalid benchmark ID")).

(** [std::stoi]: [None] for one of its two exceptions. *)
Definition stoi (s : bytes) : option Z :=
  let s1 := skip_spaces s in
  let '(neg, s2) :=
    match s1 with
    | b :: s' =>
        if decide (b = ascii_of_nat 45) then (true, s')
        else if decide (b = ascii_of_nat 43) then (false, s') else (false, s1)
    | [] => (false, s1)
    end in
  match span_digits s2 with
  | ([], _) => None
  | (ds, _) =>
      let v := dec_value_from 0 ds in
      let v := if neg : bool then - v else v in
      if decide (-2147483648 <= v < 2147483648) then Some v else None
  end.

Definition print_list : uprog unit :=
  _ ← say_text (newline (lit "List of bencmarks: "));
  _ ← say_text (newline (lit "1. Baseline (Single Thread)"));
  _ ← say_text (newline (lit "2. Concurrent Read/Write"));
  _ ← say_text (newline (lit "3. Latency Benchmark (Single Core)"));
  _ ← say_text (newline (lit "4. Latency Benchmark (Multi Thread)"));
  say_text (newline (lit "Type 'run <id>' to run a specific benchmark, or 'run all' to run all benchmarks")).

(** [while (true)] of [main]; [line] lives across the rounds. *)
Fixpoint prompt_loop (fuel : nat) (line : bytes) (conn_data : connection_data) : uprog unit :=
  match fuel with
  | O => utrap UOutOfFuel
  | S fuel' =>
      _ ← say_text (lit "bench> ");
      line ← call (GetLine line);
      if decide (line = lit "exit") then mret tt
      else if decide (line = lit "list") then
        _ ← print_list;
        prompt_loop fuel' line conn_data
      else if decide (line = lit "run all") then
        _ ← run_bench 1 conn_data;
        _ ← run_bench 2 conn_data;
        _ ← run_bench 3 conn_data;
        _ ← run_bench 4 conn_data;
        prompt_loop fuel' line conn_data
      else if is_prefix (lit "run ") line then
        match stoi (drop 4 line) with
        | None => utrap UUncaught
        | Some id =>
            _ ← run_bench id conn_data;
            prompt_loop fuel' line conn_data
        end
      else prompt_loop fuel' line conn_data
  end.

Definition or_default (s default : bytes) : bytes := if decide (s = []) then default else s.

Definition main (fuel : nat) : uprog Z :=
  _ ← say_text (lit "Enter ip-address for server (empty for localhost): ");
  ip ← call (GetLine []);
  let ip := or_default ip DAEMON_IP_LOCAL in
  _ ← say_text (lit "Enter username: (empty for default 'vboxuser') ");
  user ← call (GetLine []);
  let user := or_default user USERNAME_DEFAULT in
  _ ← say_text (lit "Enter password: (empty for default 'vboxuser') ");
  pw ← get_password;
  let pw := or_default pw PASSWORD_DEFAULT in
  _ ← prompt_loop fuel [] (mk_conn_data user pw ip);
  mret 0.
