(* ===== verification/UserSpec.v ===== *)
(** * The daemon at the other end of the socket

    The daemon as the [Peer] of the client and the benchmark, that this is what
    [handle_client] does with a message, and what the requests of the two
    programs come to when the daemon answers them. *)

From S2P Require Import Prelude Prog CStr KvIoctl KMem KvHash KLogic KvHashSpec Kvlkm KvlkmSpec.
From S2P Require Import KvDevice KvInterface Auth Daemon DaemonSem DaemonSpec Connection Userland.

Section DaemonPeer.
Context {ioc_api : IocApi} {dev : KvDevice} {pam : PamApi} {host : HostApi}.
Variables (client_fd kv_fd : Z).

Abbreviation W := (world dev).

(** What one [read] of the daemon leads to: the reply, the daemon's world and
    the connection's flag; [None] when the connection ends. *)
Definition serve_chunk (chunk : bytes) (p : W * bool) : option (bytes * (W * bool)) :=
  let '(w, authenticated) := p in
  let text := upto_nul (write_at 0 chunk (zeros BUFFER_SIZE)) in
  let w := add_out (lit "Received from client: " ++ text ++ [LF]) w in
  match run dexec (parse_and_handle_command text kv_fd authenticated) w with
  | Done (response, authenticated') w' =>
      if decide (host_send response < 0) then None
      else Some (response, (add_sent response w', authenticated'))
  | _ => None
  end.

(** A message is read in pieces that fit the daemon's buffer. *)
Fixpoint serve (fuel : nat) (data : bytes) (p : W * bool) : option (bytes * (W * bool)) :=
  match fuel, data with
  | _, [] => Some ([], p)
  | O, _ => None
  | S fuel', _ =>
      '(reply, p) ← serve_chunk (take (BUFFER_SIZE - 1) data) p;
      '(replies, p) ← serve fuel' (drop (BUFFER_SIZE - 1) data) p;
      Some (reply ++ replies, p)
  end.

Definition daemon_peer : Peer := {|
  peer := W * bool;
  peer_connect p := (p.1, false);
  peer_answer data p := serve (length data) data p;
|}.

(** One round of [handle_client] on a piece of a message is [serve_chunk]. *)
Lemma handle_client_round fuel b data l (w : W) reply w' b' :
  data ≠ [] → (length data <= BUFFER_SIZE - 1)%nat →
  serve_chunk data (set_recv l w, b) = Some (reply, (w', b')) →
  run dexec (handle_client_loop (S fuel) client_fd kv_fd b) (set_recv (RecvData data :: l) w) =
  run dexec (handle_client_loop fuel client_fd kv_fd b') w'.
Proof.
  intros Hne Hl. unfold serve_chunk. cbn [handle_client_loop].
  rewrite run_bind, run_call. cbn [dexec w_recv set_recv].
  rewrite (decide_False (P := data = [])) by done. rewrite take_ge, drop_ge, decide_True by (done || lia).
  rewrite run_bind, run_call. cbn [dexec]. rewrite run_bind.
  change (set_recv l (set_recv (RecvData data :: l) w)) with (set_recv l w).
  destruct (run dexec _ _) as [[response b1] w1| |]; [|done..].
  case_decide as Hs; [done|]. intros [= <- <- <-].
  rewrite run_bind, run_call. cbn [dexec]. by rewrite !decide_False by done.
Qed.

Lemma serve_small data p reply p' :
  data ≠ [] → (length data <= BUFFER_SIZE - 1)%nat → serve_chunk data p = Some (reply, p') →
  peer_answer (Peer := daemon_peer) data p = Some (reply, p').
Proof.
  intros Hne Hl Hs. cbn [peer_answer daemon_peer]. destruct (length data) eqn:Hd.
  { by destruct data. }
  cbn [serve]. destruct data as [|c data]; [done|].
  rewrite take_ge, drop_ge by lia. rewrite Hs. destruct n; simpl; by rewrite app_nil_r.
Qed.

End DaemonPeer.

(** ** Texts in buffers *)

Lemma buffer_text_nul (s : bytes) n :
  no_nul s → (length s < n)%nat →
  upto_nul (write_at (length s) [NUL] (write_at 0 s (zeros n))) = s.
Proof.
  intros Hs Hl. unfold write_at at 2. rewrite take_0. cbn [app Nat.add].
  unfold write_at. rewrite take_app_length. by apply upto_nul_app.
Qed.

Lemma no_nul_dec_true (s : bytes) : bool_decide (no_nul s) = true → no_nul s.
Proof. apply bool_decide_eq_true_1. Qed.

Lemma to_string_no_nul n : is_u64 n → no_nul (to_string n).
Proof. intros Hn. apply digits_no_nul. by apply to_string_spec. Qed.

(** A request or a reply of the protocol: short, and without a [NUL]; its
    pieces are shorter still. *)
Definition line_ok (s : bytes) : Prop := s ≠ [] ∧ no_nul s ∧ (length s <= BUFFER_SIZE - 1)%nat.

Definition piece (n : nat) (s : bytes) : Prop := no_nul s ∧ (length s <= n * 64)%nat.

Lemma piece_app n s t : piece 1 s → piece n t → piece (S n) (s ++ t).
Proof. intros [H1 H2] [H3 H4]. split; [by rewrite no_nul_app|]. rewrite length_app. lia. Qed.

Lemma piece_lit s : bool_decide (no_nul s) && (length s <=? 64)%nat = true → piece 1 s.
Proof. intros [H1%bool_decide_eq_true H2%Nat.leb_le]%andb_true_iff. by split; [|lia]. Qed.

Lemma piece_nil : piece 0 [].
Proof. by split; [apply no_nul_nil|]. Qed.

Lemma piece_key k : is_u64 k → piece 1 (to_string k).
Proof.
  intros Hk. split; [by apply to_string_no_nul|]. pose proof (length_to_string k Hk). lia.
Qed.

Lemma piece_value v : value_ok v → piece 1 v.
Proof. intros [Hn Hl]. split; [done|]. unfold MAX_VALUE_LEN in *. lia. Qed.

Lemma line_piece n s : s ≠ [] → piece n s → (n <= 15)%nat → line_ok s.
Proof. intros Hs [Hn Hl] ?. split_and!; [done|done|]. unfold BUFFER_SIZE. lia. Qed.

(** Take a text apart into the pieces it is written as. *)
Ltac solve_pieces :=
  rewrite <- ?app_assoc;
  repeat (apply piece_app;
    [first [assumption | by apply piece_key | by apply piece_value | by apply piece_lit; vm_compute]|]);
  first [by apply piece_nil | eassumption | by apply piece_key | by apply piece_value
        | by apply piece_lit; vm_compute].

Lemma command_text_ok op k v : is_u64 k → value_ok v → line_ok (command_text op (to_string k) v).
Proof.
  intros Hk Hv. unfold command_text.
  assert (piece 1 (op_word op)) as Hop by (apply piece_lit; by destruct op; vm_compute).
  assert (op_word op ≠ []) by by destruct op.
  case_decide as Hd.
  - apply (line_piece 3); [by destruct op| |lia]. rewrite app_nil_r.
    change (piece 3 (op_word op ++ [SP] ++ to_string k)). solve_pieces.
  - apply (line_piece 5); [by destruct op| |lia].
    change (piece 5 (op_word op ++ [SP] ++ to_string k ++ [SP] ++ v)). solve_pieces.
Qed.

Lemma op_reply_ok op k r ok :
  is_u64 k → (∀ v, r = Some v → value_ok v) → line_ok (op_reply op k r ok).
Proof.
  intros Hk Hr. unfold op_reply, op_key.
  destruct op, r as [v|], ok; try pose proof (Hr v eq_refl);
    (eapply line_piece; [done|solve_pieces|lia]).
Qed.

Lemma op_text_ok op k m :
  is_u64 k → (∀ v, m !! k = Some v → value_ok v) → line_ok (op_text op k m true).
Proof. intros Hk Hm. by apply op_reply_ok. Qed.

(** ** What the daemon answers *)

Section Replies.
Context {ioc_api : IocApi} {ioc_laws : IocLaws ioc_api}.
Context {dev : KvDevice} {dlaws : KvDeviceLaws dev} {pam : PamApi} {host : HostApi}.
Variable kv_fd : Z.

Abbreviation W := (world dev).

(** A line the daemon reads whole: it is answered, or the daemon cannot send. *)
Lemma reply_line text b (w : W) (Q : bytes → W * bool → Prop) :
  line_ok text →
  (∀ w1, w_dev w1 = w_dev w → dwp (parse_and_handle_command text kv_fd b) w1 (λ r w',
    ∀ w2, w_dev w2 = w_dev w' → Q r.1 (w2, r.2))) →
  (∃ reply p', peer_answer (Peer := daemon_peer kv_fd) text (w, b) = Some (reply, p') ∧ Q reply p') ∨
  (peer_answer (Peer := daemon_peer kv_fd) text (w, b) = None ∧ ∃ reply, host_send reply < 0).
Proof.
  intros (Hne & Hn & Hl) Hp.
  destruct (dwp_run _ _ _ (Hp (add_out (lit "Received from client: " ++ text ++ [LF]) w) eq_refl))
    as ([reply b'] & w' & Hr & HQ).
  assert (serve_chunk kv_fd text (w, b) = if decide (host_send reply < 0) then None
    else Some (reply, (add_sent reply w', b'))) as Hs.
  { unfold serve_chunk. rewrite buffer_text, upto_nul_id by (done || unfold BUFFER_SIZE in *; lia).
    by rewrite Hr. }
  case_decide as Hsend.
  - right. split; [|by eexists]. cbn [peer_answer daemon_peer]. destruct (length text) eqn:Hlen; [by destruct text|].
    cbn [serve]. destruct text as [|c text]; [done|]. rewrite take_ge by lia. by rewrite Hs.
  - left. exists reply, (add_sent reply w', b'). split; [|by apply HQ]. by apply serve_small.
Qed.

(** An unauthenticated connection: the flag is only set with an OK. *)
Lemma reply_unauthenticated text (w : W) :
  line_ok text →
  (∃ reply p', peer_answer (Peer := daemon_peer kv_fd) text (w, false) = Some (reply, p') ∧
    w_dev p'.1 = w_dev w ∧
    ((p'.2 = true ∧ reply = text_ok) ∨
     (p'.2 = false ∧ reply ∈ [text_bad_command; text_no_user; text_no_password; text_fail; text_not_auth]))) ∨
  (peer_answer (Peer := daemon_peer kv_fd) text (w, false) = None ∧ ∃ reply, host_send reply < 0).
Proof.
  intros Hl. apply (reply_line text false w (λ reply p', w_dev p'.1 = w_dev w ∧
    ((p'.2 = true ∧ reply = text_ok) ∨
     (p'.2 = false ∧ reply ∈ [text_bad_command; text_no_user; text_no_password; text_fail; text_not_auth]))));
    [done|].
  intros w1 Hw1. unfold parse_and_handle_command.
  destruct (extract_word text) as [[operation iss]|].
  2: { apply dwp_print, dwp_ret. intros w2 Hw2. split; [cbn [fst]; rewrite Hw2; exact Hw1|]. right. split; [done|]. set_solver. }
  case_decide.
  - destruct (extract_word iss) as [[user iss']|].
    2: { apply dwp_ret. intros w2 Hw2. split; [cbn [fst]; rewrite Hw2; exact Hw1|]. right. split; [done|]. set_solver. }
    destruct (extract_word iss') as [[pw ?]|].
    2: { apply dwp_ret. intros w2 Hw2. split; [cbn [fst]; rewrite Hw2; exact Hw1|]. right. split; [done|]. set_solver. }
    apply dwp_act. cbn [dexec]. destruct (authenticate user pw (w_pam w1)) as [[] s];
      apply dwp_ret; intros w2 Hw2; (split; [cbn [fst]; rewrite Hw2; exact Hw1|]); [by left|right].
    split; [done|]. set_solver.
  - apply dwp_ret. intros w2 Hw2. split; [cbn [fst]; rewrite Hw2; exact Hw1|]. right. split; [done|]. set_solver.
Qed.

End Replies.

Section Answers.
Context {ioc_api : IocApi} {ioc_laws : IocLaws ioc_api}.
Context {dev : KvDevice} {dlaws : KvDeviceLaws dev} {pam : PamApi} {host : HostApi}.
Variable kv_fd : Z.
Hypothesis send_ok : ∀ t, 0 <= host_send t.

Abbreviation W := (world dev).
Abbreviation rep m w := (dev_rep m (w_dev (dev := dev) w)).

(** Where the daemon's sends work, every line is answered. *)
Lemma answer_line text b (w : W) (Q : bytes → W * bool → Prop) :
  line_ok text →
  (∀ w1, w_dev w1 = w_dev w → dwp (parse_and_handle_command text kv_fd b) w1 (λ r w',
    ∀ w2, w_dev w2 = w_dev w' → Q r.1 (w2, r.2))) →
  ∃ reply p', peer_answer (Peer := daemon_peer kv_fd) text (w, b) = Some (reply, p') ∧ Q reply p'.
Proof.
  intros Hl Hp. destruct (reply_line kv_fd text b w Q Hl Hp) as [|[_ [reply Hr]]]; [done|].
  pose proof (send_ok reply). lia.
Qed.

(** A command of an authenticated connection. *)
Lemma answer_command op k v m (w : W) :
  rep m w → is_u64 k → value_ok v → LF ∉ v → (op_needs_value op = true → v ≠ []) →
  ¬ dev_may_fail (dev := dev) →
  ∃ w', peer_answer (Peer := daemon_peer kv_fd) (command_text op (to_string k) v) (w, true) =
      Some (op_text op k m true, (w', true)) ∧ rep (op_map op k v m true) w'.
Proof.
  intros Hrep Hk Hv Hlf Hne Hfail.
  destruct (answer_line (command_text op (to_string k) v) true w
    (λ reply p', reply = op_text op k m true ∧ p'.2 = true ∧ rep (op_map op k v m true) p'.1))
    as (reply & [w' b'] & Ha & -> & Hb & Hr).
  - by apply command_text_ok.
  - intros w1 Hw1. rewrite parse_command by (done || by apply to_string_word).
    unfold run_op. apply dwp_bind. eapply dwp_mono; [|apply do_kv_operation_spec; [by rewrite Hw1|]].
    2: by apply parse_key_to_string.
    intros r w' (ok & d & Hok & -> & -> & Hd). destruct ok; [|by destruct Hfail; apply Hok].
    apply dwp_ret. intros w2 Hw2. rewrite stored_text_id in Hd by done. split_and!; [done|done|].
    cbn [fst]. by rewrite Hw2.
  - simpl in *. subst b'. by exists w'.
Qed.

(** An [AUTH] message with words PAM accepts. *)
Definition auth_text (user pw : bytes) : bytes := lit "AUTH " ++ user ++ lit " " ++ pw.

Definition credentials_ok (user pw : bytes) : Prop :=
  is_word user ∧ is_word pw ∧ line_ok (auth_text user pw) ∧
  ∀ s, (authenticate user pw s).1 = true.

Lemma parse_auth user pw b :
  is_word user → is_word pw →
  parse_and_handle_command (auth_text user pw) kv_fd b =
  (ok ← call (Authenticate user pw); if ok : bool then mret (text_ok, true) else mret (text_fail, b)).
Proof.
  intros Hu Hp. unfold parse_and_handle_command, auth_text.
  change (lit "AUTH " ++ user ++ lit " " ++ pw) with (lit "AUTH" ++ SP :: user ++ SP :: pw).
  rewrite extract_word_app; [|by split; [|repeat constructor]|done].
  rewrite decide_True by done. rewrite extract_word_sp by done.
  rewrite <- (app_nil_r pw) at 1. by rewrite extract_word_sp.
Qed.

Lemma answer_auth user pw b m (w : W) :
  rep m w → credentials_ok user pw →
  ∃ w', peer_answer (Peer := daemon_peer kv_fd) (auth_text user pw) (w, b) =
      Some (text_ok, (w', true)) ∧ rep m w'.
Proof.
  intros Hrep (Hu & Hp & Hline & Hauth).
  destruct (answer_line (auth_text user pw) b w
    (λ reply p', reply = text_ok ∧ p'.2 = true ∧ rep m p'.1)) as (reply & [w' b'] & Ha & -> & Hb & Hr).
  - done.
  - intros w1 Hw1. rewrite parse_auth by done. apply dwp_act. cbn [dexec].
    pose proof (Hauth (w_pam w1)) as Hok. destruct (authenticate user pw (w_pam w1)) as [ok s].
    simpl in Hok. subst ok. apply dwp_ret. intros w2 Hw2. split_and!; [done|done|].
    cbn [fst]. rewrite Hw2. simpl. by rewrite Hw1.
  - simpl in *. subst b'. by exists w'.
Qed.

End Answers.
