(* ===== verification/BenchSpec.v ===== *)
(** * The client and the benchmark against the daemon

    What the requests, the login and the baseline benchmark come to over a
    connection to the daemon of [UserSpec]. *)

From S2P Require Import Prelude Prog CStr KvIoctl KMem KvHash KLogic KvHashSpec Kvlkm KvlkmSpec.
From S2P Require Import KvDevice KvInterface Auth Daemon DaemonSem DaemonSpec Connection Userland.
From S2P Require Import Client Benchmark UserSpec.

(** ** One request *)

Section Request.
Context {P : Peer} {user : UserApi}.

Lemma uwp_send {A : Type} sock cmd (f : Z → uprog A) (w : uworld P) reply p' Q :
  0 <= user_send cmd → u_alive w = true → u_stream w = [] →
  peer_answer cmd (u_peer w) = Some (reply, p') →
  uwp (f (user_send cmd)) (set_conn p' true reply w) Q →
  uwp (call (USend sock cmd) ≫= f) w Q.
Proof.
  intros Hs Ha Hst Hp Hf. apply uwp_act. cbn [uexec].
  by rewrite bool_decide_eq_false_2, Ha, Hp, Hst by lia.
Qed.

Lemma uwp_read {A : Type} sock n (f : option bytes → uprog A) (w : uworld P) Q :
  user_read_ok = true → u_stream w ≠ [] → (length (u_stream w) <= n)%nat →
  uwp (f (Some (u_stream w))) (set_conn (u_peer w) (u_alive w) [] w) Q →
  uwp (call (URead sock n) ≫= f) w Q.
Proof.
  intros Hr Hne Hl Hf. apply uwp_act. cbn [uexec].
  by rewrite Hr, decide_False, take_ge, drop_ge by done.
Qed.

(** A request and its whole reply. *)
Lemma uwp_request {A : Type} sock cmd n (f : option bytes → uprog A) (w : uworld P) reply p' Q :
  user_read_ok = true → 0 <= user_send cmd → u_alive w = true → u_stream w = [] →
  peer_answer cmd (u_peer w) = Some (reply, p') → reply ≠ [] → (length reply <= n)%nat →
  uwp (f (Some reply)) (set_conn p' true [] w) Q →
  uwp (_ ← call (USend sock cmd); r ← call (URead sock n); f r) w Q.
Proof.
  intros Hr Hs Ha Hst Hp Hne Hl Hf. eapply uwp_send; [done..|]. by apply uwp_read.
Qed.

End Request.

(** ** The values of the benchmarks *)

Definition bench_value (k : Z) : bytes := lit "value" ++ to_string k.

Lemma digits_no_lf s : all_digits s → LF ∉ s.
Proof.
  intros Hs Hin. unfold all_digits in Hs. rewrite Forall_forall in Hs. by specialize (Hs _ Hin).
Qed.

Lemma bench_value_ok k : is_u64 k → value_ok (bench_value k) ∧ (LF ∉ bench_value k) ∧ bench_value k ≠ [].
Proof.
  intros Hk. pose proof (length_to_string k Hk). split_and!; [split|..].
  - unfold bench_value. rewrite no_nul_app. split; [by apply no_nul_dec_true; vm_compute|].
    by apply to_string_no_nul.
  - unfold bench_value, MAX_VALUE_LEN. rewrite length_app. simpl. lia.
  - unfold bench_value. rewrite elem_of_app. intros [Hin|Hin].
    + by apply (bool_decide_unpack (¬ (LF ∈ lit "value"))) in Hin; vm_compute.
    + eapply digits_no_lf; [|exact Hin]. by apply to_string_spec.
  - done.
Qed.

Lemma make_keys_lookup base n i :
  (i < n)%nat → make_keys base n !!! i = to_string (base + Z.of_nat i).
Proof.
  intros Hi. apply list_lookup_total_correct. unfold make_keys.
  rewrite list_lookup_fmap, lookup_seq_lt by done. done.
Qed.

(** ** Against the daemon *)

Section Online.
Context {ioc_api : IocApi} {ioc_laws : IocLaws ioc_api}.
Context {dev : KvDevice} {dlaws : KvDeviceLaws dev} {pam : PamApi} {host : HostApi} {user : UserApi}.
Variable kv_fd : Z.

(** Nothing fails on the way: the daemon's writes, the device's allocations, and
    the network on the other side. *)
Record link_ok (ip : bytes) : Prop := {
  lo_host : ∀ t, 0 <= host_send t;
  lo_memory : ¬ dev_may_fail (dev := dev);
  lo_send : ∀ t, 0 <= user_send t;
  lo_read : user_read_ok = true;
  lo_socket : 0 < user_socket;
  lo_ip : user_pton ip = 1;
  lo_connect : 0 <= user_connect;
}.

Variable ip : bytes.
Hypothesis link : link_ok ip.

Abbreviation U := (uworld (daemon_peer kv_fd)).

(** A connection that has authenticated, with no reply outstanding. *)
Definition online (m : gmap Z bytes) (w : U) : Prop :=
  ∃ d, u_peer w = (d, true) ∧ u_alive w = true ∧ u_stream w = [] ∧ dev_rep m (w_dev (dev := dev) d).

(** A request leaves the flag and the counters the threads share alone. *)
Definition same_shared (w w' : U) : Prop := u_stop w' = u_stop w ∧ u_counters w' = u_counters w.

Lemma uwp_command {A : Type} sock op k v m (f : option bytes → uprog A) (w : U) Q :
  online m w → is_u64 k → value_ok v → LF ∉ v → (op_needs_value op = true → v ≠ []) →
  (∀ p, online (op_map op k v m true) (set_conn p true [] w) →
     uwp (f (Some (op_text op k m true))) (set_conn p true [] w) Q) →
  uwp (_ ← call (USend sock (command_text op (to_string k) v)); n ← call (URead sock (1024 - 1)); f n)
    w Q.
Proof.
  intros (d & Hp & Ha & Hs & Hrep) Hk Hv Hlf Hne Hf.
  destruct (answer_command kv_fd (lo_host _ link) op k v m d) as (d' & Hans & Hrep');
    [done..|exact (lo_memory _ link)|].
  assert (line_ok (op_text op k m true)) as (Hr1 & Hr2 & Hr3).
  { apply op_text_ok; [done|]. intros v' Hv'. by destruct (dev_rep_ok m (w_dev d) k v' Hrep Hv'). }
  eapply uwp_request with (reply := op_text op k m true) (p' := (d', true));
    [apply (lo_read _ link)|apply (lo_send _ link)|done|done|by rewrite Hp|done|exact Hr3|].
  apply Hf. by exists d'.
Qed.

Lemma kv_insert_online sock k v m (w : U) :
  online m w → is_u64 k → value_ok v → LF ∉ v → v ≠ [] →
  uwp (kv_insert sock (to_string k) v) w (λ r w', r = 0 ∧ online (op_map OpInsert k v m true) w' ∧ same_shared w w').
Proof.
  intros Hon Hk Hv Hlf Hne. pose proof (uwp_command (A := Z) sock OpInsert k v m) as H.
  unfold command_text in H. rewrite decide_False in H by done.
  apply (H _ w); [done..|]. intros p Hp.
  assert (op_text OpInsert k m true ≠ []) as Ht by (unfold op_text; by destruct (m !! k)).
  destruct (op_text OpInsert k m true); [done|]. by apply uwp_ret.
Qed.

Lemma kv_get_online sock k m (w : U) :
  online m w → is_u64 k →
  uwp (kv_get sock (to_string k)) w (λ r w',
    r = op_text OpGet k m true ∧ online m w' ∧ same_shared w w').
Proof.
  intros Hon Hk. pose proof (uwp_command (A := bytes) sock OpGet k [] m) as H.
  unfold command_text in H. rewrite decide_True, app_nil_r in H by done.
  apply (H _ w); [done|done|by split; [apply no_nul_nil|apply Nat.ltb_lt]|apply not_elem_of_nil|done|].
  intros p Hp. assert (line_ok (op_text OpGet k m true)) as (Ht1 & Ht2 & Ht3).
  { apply op_text_ok; [done|]. destruct Hon as (d & _ & _ & _ & Hrep). intros v' Hv'.
    by destruct (dev_rep_ok m (w_dev d) k v' Hrep Hv'). }
  assert (op_map OpGet k [] m true = m) as Hm by (unfold op_map; by destruct (m !! k)).
  rewrite Hm in Hp. destruct (op_text OpGet k m true) as [|c t] eqn:Hop; [done|].
  apply uwp_ret. split; [|by split; [|split]]. apply buffer_text_nul; [done|]. unfold BUFFER_SIZE in *. lia.
Qed.

Lemma kv_update_online sock k v m (w : U) :
  online m w → is_u64 k → value_ok v → LF ∉ v → v ≠ [] →
  uwp (kv_update sock (to_string k) v) w (λ r w',
    r = 0 ∧ online (op_map OpUpdate k v m true) w' ∧ same_shared w w').
Proof.
  intros Hon Hk Hv Hlf Hne. pose proof (uwp_command (A := Z) sock OpUpdate k v m) as H.
  unfold command_text in H. rewrite decide_False in H by done.
  apply (H _ w); [done..|]. intros p Hp.
  assert (op_text OpUpdate k m true ≠ []) as Ht by (unfold op_text; by destruct (m !! k)).
  destruct (op_text OpUpdate k m true); [done|]. by apply uwp_ret.
Qed.

Lemma kv_delete_online sock k m (w : U) :
  online m w → is_u64 k →
  uwp (kv_delete sock (to_string k)) w (λ r w',
    r = 0 ∧ online (delete k m) w' ∧ same_shared w w').
Proof.
  intros Hon Hk. pose proof (uwp_command (A := Z) sock OpDelete k [] m) as H.
  unfold command_text in H. rewrite decide_True, app_nil_r in H by done.
  apply (H _ w); [done|done|by split; [apply no_nul_nil|apply Nat.ltb_lt]|apply not_elem_of_nil|done|].
  intros p Hp. assert (op_text OpDelete k m true ≠ []) as Ht by (unfold op_text; by destruct (m !! k)).
  assert (op_map OpDelete k [] m true = delete k m) as Hm by (unfold op_map; by destruct (m !! k)).
  rewrite Hm in Hp. destruct (op_text OpDelete k m true); [done|]. by apply uwp_ret.
Qed.

(** ** The connection *)

Lemma setup_online conn_data m (w : U) :
  daemon_ip conn_data = ip → dev_rep m (w_dev (u_peer w).1) →
  credentials_ok (Benchmark.username conn_data) (Benchmark.password conn_data) →
  uwp (setup conn_data) w (λ r w', r = user_socket ∧ online m w' ∧ same_shared w w').
Proof.
  intros Hip Hrep Hcred. unfold setup, setup_connection. apply uwp_act. cbn [uexec].
  pose proof (lo_socket _ link). rewrite decide_False by lia.
  apply uwp_act. cbn [uexec]. rewrite Hip, (lo_ip _ link), decide_False by tauto.
  apply uwp_act. cbn [uexec]. pose proof (lo_connect _ link). rewrite !decide_False by lia.
  apply uwp_bind. unfold Benchmark.auth_user.
  destruct (answer_auth kv_fd (lo_host _ link) (Benchmark.username conn_data)
    (Benchmark.password conn_data) false m (u_peer w).1 Hrep Hcred) as (d' & Hans & Hrep').
  eapply uwp_send; [apply (lo_send _ link)|done|done|exact Hans|].
  pose proof (lo_send _ link (auth_text (Benchmark.username conn_data) (Benchmark.password conn_data))).
  rewrite decide_False by (unfold auth_text in *; lia).
  apply uwp_read; [apply (lo_read _ link)|done|by apply Nat.leb_le|].
  cbn [u_stream set_conn]. change (text_ok) with (lit "OK" ++ [LF]) at 1.
  apply uwp_print, uwp_print. apply uwp_ret. apply uwp_ret. split; [done|]. split; [by exists d'|by split].
Qed.

(** ** The baseline benchmark *)

(** The map [m] with the benchmark's values for the keys from [a] to [b]. *)
Definition filled (m : gmap Z bytes) (a b : nat) (m' : gmap Z bytes) : Prop :=
  ∀ k, m' !! k = if decide (Z.of_nat a <= k < Z.of_nat b) then Some (bench_value k) else m !! k.

Definition unused (m : gmap Z bytes) (n : nat) : Prop :=
  ∀ k, 0 <= k < Z.of_nat n → m !! k = None.

Lemma filled_none m a m' : filled m a a m' → m' = m.
Proof. intros H. apply map_eq. intros k. rewrite H. case_decide; [lia|done]. Qed.

Lemma filled_start m : filled m 0 0 m.
Proof. intros k. case_decide; [lia|done]. Qed.

Lemma filled_insert m m' i :
  filled m 0 i m' → filled m 0 (S i) (<[Z.of_nat i := bench_value (Z.of_nat i)]> m').
Proof.
  intros H k. destruct (decide (k = Z.of_nat i)) as [->|Hk].
  - rewrite lookup_insert_eq, decide_True by lia. done.
  - rewrite lookup_insert_ne, H by done. repeat case_decide; (done || lia).
Qed.

Lemma filled_delete m m' i n :
  unused m n → (i < n)%nat → filled m i n m' → filled m (S i) n (delete (Z.of_nat i) m').
Proof.
  intros Hm Hi H k. destruct (decide (k = Z.of_nat i)) as [->|Hk].
  - rewrite lookup_delete_eq, decide_False by lia. symmetry. apply Hm. lia.
  - rewrite lookup_delete_ne, H by done. repeat case_decide; (done || lia).
Qed.

Definition filled_online (m : gmap Z bytes) (a b : nat) (w : U) : Prop :=
  ∃ m', online m' w ∧ filled m a b m'.

Definition inserting (m : gmap Z bytes) (i : nat) (failed : Z) (w : U) : Prop :=
  failed = 0 ∧ filled_online m 0 i w.
Definition getting (m : gmap Z bytes) (n : nat) (i : nat) (failed : Z * Z) (w : U) : Prop :=
  failed = (0, 0) ∧ filled_online m 0 n w.
Definition deleting (m : gmap Z bytes) (n : nat) (i : nat) (failed : Z) (w : U) : Prop :=
  failed = 0 ∧ filled_online m i n w.

Section Baseline.
Variables (sock : Z) (m : gmap Z bytes) (n : nat).
Hypothesis n_small : Z.of_nat n <= 1000000.
Hypothesis keys_unused : unused m n.

Lemma bench_key_u64 i : (i < n)%nat → is_u64 (Z.of_nat i).
Proof. intros Hi. unfold is_u64, u64_max. lia. Qed.

Lemma baseline_insert i failed (w : U) :
  (i < n)%nat → inserting m i failed w →
  uwp (res ← kv_insert sock (make_keys 0 n !!! i) (lit "value" ++ show i);
       mret (if decide (res < 0) then failed + 1 else failed)) w (inserting m (S i)).
Proof.
  intros Hi (-> & m' & Hon & Hf). rewrite make_keys_lookup, Z.add_0_l by done.
  pose proof (bench_key_u64 i Hi) as Hk. destruct (bench_value_ok _ Hk) as (Hv & Hlf & Hne).
  apply uwp_bind. eapply uwp_mono; [|by apply (kv_insert_online sock (Z.of_nat i) (bench_value (Z.of_nat i)) m')].
  intros r w' (-> & Hon' & _). apply uwp_ret. split; [done|]. eexists. split; [exact Hon'|].
  assert (m' !! Z.of_nat i = None) as Hnew.
  { rewrite Hf, decide_False by lia. apply keys_unused. lia. }
  unfold op_map. rewrite Hnew. by apply filled_insert.
Qed.

(** A reply to a GET passes the benchmark's check. *)
Lemma check_get_reply k m' failed (w : U) :
  m' !! k = Some (bench_value k) →
  check_get (to_string k) (bench_value k) (op_text OpGet k m' true) failed = mret failed.
Proof.
  intros Hm. unfold check_get. destruct failed as [a b]. unfold op_text, op_reply. rewrite Hm.
  rewrite decide_False by done. rewrite decide_False; [done|]. intros [_ Hf].
  assert (is_Some (find_sub ([DQ] ++ bench_value k ++ [DQ])
    (op_key (lit "GET") (to_string k) ++ lit " " ++ arrow ++ lit " " ++ [DQ] ++ bench_value k ++ [DQ; LF])))
    as [t Ht]; [|congruence].
  apply find_sub_Some. eexists (op_key (lit "GET") (to_string k) ++ lit " " ++ arrow ++ lit " "), [LF].
  by rewrite <- !app_assoc.
Qed.

Lemma baseline_get i failed (w : U) :
  (i < n)%nat → getting m n i failed w →
  uwp (out ← kv_get sock (make_keys 0 n !!! i);
       check_get (make_keys 0 n !!! i) (lit "value" ++ show i) out failed) w (getting m n (S i)).
Proof.
  intros Hi (-> & m' & Hon & Hf). rewrite make_keys_lookup, Z.add_0_l by done.
  apply uwp_bind. eapply uwp_mono; [|apply (kv_get_online sock (Z.of_nat i) m' w Hon); by apply bench_key_u64].
  intros r w' (-> & Hon' & _). change (lit "value" ++ show i) with (bench_value (Z.of_nat i)).
  rewrite check_get_reply; [|done|].
  - apply uwp_ret. split; [done|]. by exists m'.
  - rewrite Hf, decide_True by lia. done.
Qed.

Lemma baseline_delete i failed (w : U) :
  (i < n)%nat → deleting m n i failed w →
  uwp (res ← kv_delete sock (make_keys 0 n !!! i);
       mret (if decide (res < 0) then failed + 1 else failed)) w (deleting m n (S i)).
Proof.
  intros Hi (-> & m' & Hon & Hf). rewrite make_keys_lookup, Z.add_0_l by done.
  apply uwp_bind. eapply uwp_mono; [|apply (kv_delete_online sock (Z.of_nat i) m' w Hon); by apply bench_key_u64].
  intros r w' (-> & Hon' & _). apply uwp_ret. split; [done|]. eexists. split; [exact Hon'|].
  by apply filled_delete.
Qed.

End Baseline.

Lemma snoc4 {A : Type} (l : list A) a b c d : (((l ++ [a]) ++ [b]) ++ [c]) ++ [d] = l ++ [a; b; c; d].
Proof. by rewrite <- !app_assoc. Qed.

(** The last lines of the report. *)
Definition report (inserts empty mismatch deletes : Z) : list item := [
  Text (newline (lit "Failed inserts: " ++ to_string inserts));
  Text (newline (lit "Failed gets (empty): " ++ to_string empty));
  Text (newline (lit "Failed gets (mismatch): " ++ to_string mismatch));
  Text (newline (lit "Failed deletes: " ++ to_string deletes))].

Lemma baseline_spec conn_data m (w : U) :
  daemon_ip conn_data = ip → dev_rep m (w_dev (u_peer w).1) →
  credentials_ok (Benchmark.username conn_data) (Benchmark.password conn_data) →
  unused m (Z.to_nat 50000) →
  uwp (run_baseline_single_thread conn_data) w (λ _ w',
    dev_rep m (w_dev (u_peer w').1) ∧ ∃ out, u_out w' = out ++ report 0 0 0 0).
Proof.
  intros Hip Hrep Hcred Hm. unfold run_baseline_single_thread.
  assert (Z.of_nat (Z.to_nat 50000) <= 1000000) as Hn by lia. revert Hn Hm.
  generalize (Z.to_nat 50000) as n. intros n Hn Hm.
  apply uwp_print, uwp_bind. eapply uwp_mono; [|by apply (setup_online conn_data m)].
  intros r w1 (-> & Hon & _). pose proof (lo_socket _ link). rewrite decide_False by lia.
  apply uwp_act. cbn [uexec]. apply uwp_bind. eapply uwp_mono.
  2: { apply (uwp_for (inserting m)).
       - split; [done|]. exists m. split; [exact Hon|apply filled_start].
       - intros i b w2 Hi. apply (baseline_insert _ m n Hn Hm). lia. }
  intros fi w2 [-> Hw2]. cbn [Nat.add] in *. apply uwp_bind. eapply uwp_mono.
  2: { apply (uwp_for (getting m n)); [by split|].
       intros i b w3 Hi. apply (baseline_get _ m n Hn). lia. }
  intros [fe fm] w3 [[= -> ->] Hw3]. apply uwp_bind. eapply uwp_mono.
  2: { apply (uwp_for (deleting m n)); [by split|].
       intros i b w4 Hi. apply (baseline_delete _ m n Hn Hm). lia. }
  intros fd w4 (-> & m' & Hon' & Hf). cbn [Nat.add] in Hf. apply filled_none in Hf as ->.
  destruct Hon' as (d & Hp & _ & _ & Hd).
  do 2 (apply uwp_act; cbn [uexec]). do 3 apply uwp_print. apply uwp_act. cbn [uexec].
  do 2 apply uwp_print. apply uwp_act. cbn [uexec]. do 4 apply uwp_print.
  apply uwp_call. cbn [uexec]. split.
  - cbn [u_peer add_item add_shut tick]. by rewrite Hp.
  - cbn [u_out add_item]. eexists. rewrite snoc4. reflexivity.
Qed.

End Online.
