(* ===== verification/ClientSpec.v ===== *)
(** * The client against the daemon: passwords, logging in, the menu

    The functions of [client.cpp] on a terminal, with the daemon of [UserSpec] at
    the other end of their socket; what the menu's commands come to is told by the
    interpreter of [Session]. *)

From S2P Require Import Prelude Prog CStr KvIoctl KMem KvHash KLogic KvHashSpec Kvlkm KvlkmSpec.
From S2P Require Import KvDevice KvInterface Auth Daemon DaemonSem DaemonSpec Connection Session.
From S2P Require Import Userland Client UserSpec BenchSpec.

(** ** The password prompt *)

(** The flags with [ECHO] off. *)
Definition no_echo (t : option Z) : option Z := (λ f, Z.ldiff f ECHO) <$> t.

Section Terminal.
Context {P : Peer} {user : UserApi}.

(** Reading a line: what it is, and the input afterwards. *)
Definition next_line (w : uworld P) : bytes * list bytes * bytes :=
  match u_lines w with
  | l :: ls => (l, ls, u_tail w)
  | [] => (if u_eof w then [] else u_tail w, [], if u_eof w then u_tail w else [])
  end.

Lemma get_password_spec (w : uworld P) :
  uwp get_password w (λ pw w',
    pw = (next_line w).1.1 ∧ u_tty w' = u_tty w ∧ u_reads w' = u_reads w ++ [no_echo (u_tty w)] ∧
    u_lines w' = (next_line w).1.2 ∧ u_tail w' = (next_line w).2 ∧ u_out w' = u_out w ++ [Text [LF]] ∧
    u_peer w' = u_peer w ∧ u_alive w' = u_alive w ∧ u_stream w' = u_stream w).
Proof.
  unfold get_password, next_line, no_echo. do 2 (apply uwp_act; cbn [uexec]).
  destruct (u_tty w) as [f|] eqn:Ht; apply uwp_act; cbn [uexec u_lines u_eof u_tail set_tty];
    destruct (u_lines w) as [|l ls], (u_eof w); apply uwp_act; cbn [uexec];
    cbn [u_tty set_input set_tty]; rewrite ?Ht; apply uwp_print, uwp_ret; simpl; by rewrite ?Ht.
Qed.

(** A read of a line that is there. *)
Lemma uwp_line {A : Type} s (f : bytes → uprog A) (w : uworld P) l ls Q :
  u_lines w = l :: ls →
  uwp (f l) (set_input ls (u_tail w) (u_eof w) (u_reads w ++ [u_tty w]) w) Q →
  uwp (call (GetLine s) ≫= f) w Q.
Proof. intros Hl Hf. apply uwp_act. cbn [uexec]. by rewrite Hl. Qed.

(** Nothing but the output differs. *)
Record printed (w w' : uworld P) : Prop := {
  pr_peer : u_peer w' = u_peer w;
  pr_alive : u_alive w' = u_alive w;
  pr_stream : u_stream w' = u_stream w;
  pr_lines : u_lines w' = u_lines w;
  pr_tail : u_tail w' = u_tail w;
}.

Lemma printed_refl w : printed w w.
Proof. done. Qed.

Lemma uwp_say {A : Type} t (f : unit → uprog A) (w w1 : uworld P) Q :
  printed w w1 → (∀ w2, printed w w2 → uwp (f tt) w2 Q) → uwp (say_text t ≫= f) w1 Q.
Proof. intros [] Hf. apply uwp_print, Hf. by split. Qed.

Lemma uwp_menu {A : Type} (f : unit → uprog A) (w : uworld P) Q :
  (∀ w', printed w w' → uwp (f tt) w' Q) → uwp (print_menu ≫= f) w Q.
Proof.
  intros Hf. apply uwp_bind. unfold print_menu. pose proof (printed_refl w) as Hw.
  do 13 (apply (uwp_say _ _ w _ _ Hw); clear Hw; intros ? Hw).
  apply uwp_call. cbn [uexec]. apply Hf. by destruct Hw.
Qed.

End Terminal.

(** ** Against the daemon *)

Section Daemon.
Context {ioc_api : IocApi} {ioc_laws : IocLaws ioc_api}.
Context {dev : KvDevice} {dlaws : KvDeviceLaws dev} {pam : PamApi} {host : HostApi} {user : UserApi}.
Variables (kv_fd : Z) (ip : bytes).
Hypothesis link : link_ok (dev := dev) ip.

Abbreviation U := (uworld (daemon_peer kv_fd)).
Abbreviation online := (online kv_fd).

(** ** The menu

    What the user chooses, and types for it: an operation with its key and, for an
    insert or an update, its value; a snapshot; the end, in either of its words; or
    something else. *)
Inductive menu_choice : Type :=
  | Choose (op : kv_op) (key value : bytes)
  | ChooseSnapshot
  | ChooseExit (spelled : bool)
  | ChooseOther (line : bytes).

Definition choice_lines (c : menu_choice) : list bytes :=
  match c with
  | Choose OpInsert key value => [lit "1"; key; value]
  | Choose OpUpdate key value => [lit "2"; key; value]
  | Choose OpGet key _ => [lit "3"; key]
  | Choose OpDelete key _ => [lit "4"; key]
  | ChooseSnapshot => [lit "5"]
  | ChooseExit spelled => [if spelled then lit "exit" else lit "6"]
  | ChooseOther line => [line]
  end.

Definition menu_words : list bytes := [lit "1"; lit "2"; lit "3"; lit "4"; lit "5"; lit "6"; lit "exit"].

(** The command a choice sends. *)
Definition choice_command (c : menu_choice) : option bytes :=
  match c with
  | Choose op key value =>
      Some (op_word op ++ lit " " ++ key ++ if op_needs_value op then lit " " ++ value else [])
  | ChooseSnapshot => Some (lit "KV_SNAPSHOT")
  | _ => None
  end.

Definition choice_ok (c : menu_choice) : Prop :=
  match c with ChooseOther line => line ∉ menu_words | _ => True end.

(** The answer to a menu command fits the client's buffer, and does not log out. *)
Lemma op_answered op rest m :
  (∀ k v, m !! k = Some v → value_ok v) →
  let a := command_answer knows (op_word op ++ SP :: rest) true m in line_ok a.1.1 ∧ a.1.2 = true.
Proof.
  intros Hm. unfold command_answer, request_of.
  rewrite extract_word_app; [|by destruct op; (split; [done|repeat constructor])|done].
  rewrite decide_False by (by destruct op). cbn [negb]. rewrite decide_False by (by destruct op).
  rewrite op_named_word.
  assert (∀ text, piece 1 text → text ≠ [] → line_ok text) as Hline by (intros; apply (line_piece 1); [done|done|lia]).
  destruct (extract_word (SP :: rest)) as [[key r]|]; cbn [fst snd].
  2: { split; [|done]. apply Hline; [by apply piece_lit; vm_compute|done]. }
  case_decide; cbn [fst snd].
  { split; [|done]. apply Hline; [by apply piece_lit; destruct op; vm_compute|by destruct op]. }
  unfold op_answer. destruct (parse_key key) as [k|] eqn:Hk; cbn [fst snd].
  - split; [|done]. apply op_text_ok; [by eapply parse_key_u64|eauto].
  - split; [|done]. apply Hline; [by apply piece_lit; vm_compute|done].
Qed.

Lemma command_answered c command m :
  (∀ k v, m !! k = Some v → value_ok v) → choice_command c = Some command →
  let a := command_answer knows command true m in line_ok a.1.1 ∧ a.1.2 = true.
Proof.
  intros Hm Hc. destruct c as [op key value| | |]; simplify_eq/=; [by apply op_answered|].
  split; [|done]. apply (line_piece 1); [done|by apply piece_lit; vm_compute|lia].
Qed.

Lemma command_line_ok c command :
  choice_command c = Some command → no_nul command ∧ (length command <= 1023)%nat → line_ok command.
Proof. intros Hc [Hn Hl]. split_and!; [|done|done]. by destruct c as [[]| | |]; simplify_eq/=. Qed.

(** What the daemon answers to a command of an authenticated connection. *)
Lemma answer_any command m (w : world dev) :
  line_ok command → dev_rep m (w_dev w) → Z.of_nat (size m) < 2147483648 →
  let a := command_answer knows command true m in
  ∃ w', peer_answer (Peer := daemon_peer kv_fd) command (w, true) = Some (a.1.1, (w', a.1.2)) ∧
    dev_rep a.2 (w_dev w').
Proof.
  intros Hline Hrep Hsize a.
  destruct (answer_line kv_fd (lo_host _ link) command true w
    (λ reply p', reply = a.1.1 ∧ p'.2 = a.1.2 ∧ dev_rep a.2 (w_dev p'.1))) as (reply & [w' b'] & Ha & -> & Hb & Hr).
  - done.
  - intros w1 Hw1.
    eapply dwp_mono; [|apply (answers_command kv_fd command true m w1 (lo_memory _ link)); [by rewrite Hw1|done]].
    intros [text b] w' (Ha & Hr & _) w2 Hw2. fold a in Ha, Hr. cbn [fst snd]. rewrite <- Ha. cbn [fst snd].
    split_and!; [done|done|]. by rewrite Hw2.
  - simpl in *. subst b'. by exists w'.
Qed.

(** [send_command] prints the answer. *)
Lemma send_command_spec sock c command m (w : U) :
  online m w → line_ok command → Z.of_nat (size m) < 2147483648 → choice_command c = Some command →
  let a := command_answer knows command true m in
  uwp (send_command sock command) w (λ _ w',
    online a.2 w' ∧ u_lines w' = u_lines w ∧
    u_out w' = u_out w ++ [Text [LF]; Text white; Text a.1.1; Text reset]).
Proof.
  intros (d & Hp & Ha & Hs & Hrep) Hline Hsize Hc a.
  destruct (answer_any command m d Hline Hrep Hsize) as (d' & Hans & Hrep'). fold a in Hans, Hrep'.
  destruct (command_answered c command m) as [(Ht1 & Ht2 & Ht3) Hflag]; [|done|].
  { intros k v Hv. by destruct (dev_rep_ok m (w_dev d) k v Hrep Hv). }
  fold a in Ht1, Ht2, Ht3, Hflag. rewrite Hflag in Hans. unfold send_command.
  eapply uwp_request with (reply := a.1.1) (p' := (d', true));
    [apply (lo_read _ link)|apply (lo_send _ link)|done|done|by rewrite Hp|done|exact Ht3|].
  destruct a.1.1 as [|b t] eqn:Htext; [done|].
  rewrite buffer_text_nul by (done || unfold BUFFER_SIZE in *; lia).
  do 3 apply uwp_print. apply uwp_call. cbn [uexec]. split_and!; [by exists d'|done|].
  cbn [u_out add_item set_conn]. by rewrite snoc4.
Qed.

(** What a round does to the connection and what it shows last. *)
Definition round_done (c : menu_choice) (m : gmap Z bytes) (w w' : U) : Prop :=
  match choice_command c with
  | Some command =>
      let a := command_answer knows command true m in
      online a.2 w' ∧ ∃ out, u_out w' = out ++ [Text a.1.1; Text reset]
  | None => u_peer w' = u_peer w ∧ online m w' ∧
      match c with
      | ChooseOther _ => ∃ out, u_out w' = out ++ [Text (lit "Invalid choice" ++ [LF]); Text reset]
      | _ => True
      end
  end.

Lemma round_command sock c command m (w w1 : U) rest :
  online m w1 → u_lines w1 = rest → line_ok command → Z.of_nat (size m) < 2147483648 →
  choice_command c = Some command →
  uwp (_ ← send_command sock command; mret true) w1 (λ running w',
    running = true ∧ u_lines w' = rest ∧ round_done c m w w').
Proof.
  intros Hon1 Hl1 Hline Hsize Hc. apply uwp_bind.
  eapply uwp_mono; [|by apply (send_command_spec sock c command m w1)].
  intros u w' (Ho & Hl & Hout). apply uwp_ret. split_and!; [done|congruence|].
  unfold round_done. rewrite Hc. split; [done|]. exists (u_out w1 ++ [Text [LF]; Text white]).
  by rewrite Hout, <- app_assoc.
Qed.

Lemma menu_round_spec sock c m (w : U) rest :
  online m w → Z.of_nat (size m) < 2147483648 → choice_ok c →
  (∀ command, choice_command c = Some command → line_ok command) →
  u_lines w = choice_lines c ++ rest →
  uwp (menu_round sock) w (λ running w',
    running = (match c with ChooseExit _ => false | _ => true end) ∧ u_lines w' = rest ∧ round_done c m w w').
Proof.
  intros Hon Hsize Hok Hline Hlines. unfold menu_round. apply uwp_menu. intros w0 [H1 H2 H3 H4 _].
  assert (online m w0) as Hon0 by (unfold BenchSpec.online; by rewrite H1, H2, H3).
  pose proof (λ command w1 Ho Hl Hc, round_command sock c command m w w1 rest Ho Hl (Hline command Hc) Hsize Hc) as Hcmd.
  destruct c as [op key value| |spelled|line].
  - destruct op; cbn [choice_lines app choice_command op_word op_needs_value] in *;
      (eapply uwp_line; [rewrite H4; exact Hlines|]);
      (repeat first [rewrite decide_False by done | rewrite decide_True by done]); cbn [orb bool_decide];
      apply uwp_bind, uwp_print; (apply uwp_call; cbn [uexec u_lines set_input add_item]);
      rewrite ?app_nil_r in Hcmd.
    1-2: apply uwp_bind, uwp_print, uwp_call; cbn [uexec u_lines set_input add_item].
    all: by apply Hcmd.
  - eapply uwp_line; [rewrite H4; exact Hlines|].
    (repeat first [rewrite decide_False by done | rewrite decide_True by done]); cbn [orb bool_decide].
    by apply Hcmd.
  - eapply uwp_line; [rewrite H4; exact Hlines|]. destruct spelled; apply uwp_ret; (split_and!; [done..|]);
      (split_and!; [exact H1|exact Hon0|done]).
  - cbn [choice_ok] in Hok. unfold menu_words in Hok. rewrite !not_elem_of_cons in Hok.
    eapply uwp_line; [rewrite H4; exact Hlines|].
    rewrite !bool_decide_eq_false_2 by tauto. cbn [orb]. rewrite !decide_False by tauto.
    do 3 apply uwp_print. apply uwp_bind, uwp_call. cbn [uexec]. apply uwp_ret. split_and!; [done|done|].
    split_and!; [exact H1|exact Hon0|]. eexists. cbn [u_out add_item]. by rewrite <- app_assoc.
Qed.

(** ** Logging in *)

(** [upwp]: the program returns in [Q], or its loop runs out of fuel. *)
Definition upwp {A : Type} (p : uprog A) (w : U) (Q : A → U → Prop) : Prop :=
  match run uexec p w with
  | Done a w' => Q a w'
  | Faulted UOutOfFuel => True
  | _ => False
  end.

Lemma upwp_after {A B : Type} (p : uprog A) (f : A → uprog B) (w : U) Q :
  uwp p w (λ a w', upwp (f a) w' Q) → upwp (p ≫= f) w Q.
Proof. unfold uwp, upwp. rewrite run_bind. by destruct (run uexec p w). Qed.

(** What the user may type, and the state between two attempts. *)
Definition short_text (l : bytes) : Prop := no_nul l ∧ (length l <= 500)%nat.

Record ready (d : dev_state) (w : U) : Prop := {
  rd_tail : short_text (u_tail w);
  rd_lines : Forall short_text (u_lines w);
  rd_alive : u_alive w = true;
  rd_stream : u_stream w = [];
  rd_flag : (u_peer w).2 = false;
  rd_dev : w_dev (u_peer w).1 = d;
}.

Lemma short_nil : short_text [].
Proof. split; [apply no_nul_nil|apply Nat.le_0_l]. Qed.

Lemma ready_next d (w : U) :
  ready d w → short_text (next_line w).1.1 ∧ Forall short_text (next_line w).1.2 ∧
    short_text (next_line w).2.
Proof.
  intros [Ht Hl _ _ _ _]. unfold next_line. pose proof short_nil.
  destruct (u_lines w) as [|l ls]; [by destruct (u_eof w)|]. by apply Forall_cons in Hl as [??].
Qed.

Lemma upwp_say {B : Type} d t (f : unit → uprog B) (w : U) Q :
  ready d w → (∀ w', ready d w' → upwp (f tt) w' Q) → upwp (say_text t ≫= f) w Q.
Proof. intros [] Hf. apply upwp_after, uwp_call. cbn [uexec]. apply Hf. by split. Qed.

Lemma upwp_getline {B : Type} d (f : bytes → uprog B) (w : U) Q :
  ready d w → (∀ l w', short_text l → ready d w' → upwp (f l) w' Q) →
  upwp (call (GetLine []) ≫= f) w Q.
Proof.
  intros Hw Hf. destruct (ready_next d w Hw) as (H1 & H2 & H3). destruct Hw as [Ht Hl ? ? ? ?].
  apply upwp_after, uwp_call. cbn [uexec]. unfold next_line in *.
  destruct (u_lines w) as [|l ls]; [destruct (u_eof w)|]; (apply Hf; [done|by split]).
Qed.

Lemma upwp_password {B : Type} d (f : bytes → uprog B) (w : U) Q :
  ready d w → (∀ l w', short_text l → ready d w' → upwp (f l) w' Q) →
  upwp (get_password ≫= f) w Q.
Proof.
  intros Hw Hf. destruct (ready_next d w Hw) as (H1 & H2 & H3). destruct Hw.
  apply upwp_after. eapply uwp_mono; [|apply get_password_spec].
  intros pw w' (-> & _ & _ & Hl & Ht & _ & Hp & Ha & Hs). apply Hf; [done|].
  split; congruence.
Qed.

Lemma auth_text_line name pw : short_text name → short_text pw → line_ok (auth_text name pw).
Proof.
  intros [Hn1 Hl1] [Hn2 Hl2]. unfold auth_text. split_and!; [done| |].
  - rewrite !no_nul_app. split_and!; [by apply no_nul_dec_true; vm_compute|done|
      by apply no_nul_dec_true; vm_compute|done].
  - rewrite !length_app. unfold BUFFER_SIZE. simpl. lia.
Qed.

(** The replies an unauthenticated client can get fit its buffer, and only the
    one that says OK contains it. *)
Definition reply_shown (reply : bytes) : bytes := upto_nul (write_at 0 reply (zeros 128)).

Lemma refusals_shown reply :
  reply ∈ [text_bad_command; text_no_user; text_no_password; text_fail; text_not_auth] →
  reply ≠ [] ∧ (length reply <= 128 - 1)%nat ∧ find_sub (lit "OK") (reply_shown reply) = None.
Proof.
  rewrite !elem_of_cons, elem_of_nil.
  intros [->|[->|[->|[->|[->|[]]]]]]; (split; [done|]); (split; [by apply Nat.leb_le|]); by vm_compute.
Qed.

(** A send or a read fails, on the client's side or, for a reply, on the daemon's. *)
Definition connection_failed : Prop :=
  (∃ text, user_send text < 0) ∨ user_read_ok = false ∨ ∃ reply, host_send reply < 0.

Lemma login_sound sock d fuel : ∀ (w : U), ready d w →
  upwp (auth_user fuel sock) w (λ r w', w_dev (u_peer w').1 = d ∧
    ((r = 0 ∧ (u_peer w').2 = true) ∨ (r = -1 ∧ connection_failed))).
Proof.
  induction fuel as [|fuel IH]; intros w Hw; [done|]. cbn [auth_user].
  do 2 (apply (upwp_say d); [exact Hw|]; clear w Hw; intros w Hw).
  apply (upwp_getline d); [exact Hw|]. clear w Hw. intros user_name w Hu Hw.
  do 2 (apply (upwp_say d); [exact Hw|]; clear w Hw; intros w Hw).
  apply (upwp_password d); [exact Hw|]. clear w Hw. intros pw w Hpw Hw.
  destruct Hw as [Ht Hl Ha Hs Hf Hd]. destruct (u_peer w) as [dw flag] eqn:Hp. simpl in Hf. subst flag.
  unfold connection_failed in *.
  destruct (decide (user_send (auth_text user_name pw) < 0)) as [Hsend|Hsend].
  { apply upwp_after, uwp_call. cbn [uexec]. unfold auth_text in Hsend.
    rewrite bool_decide_eq_true_2 by done. cbn [orb]. rewrite decide_True by done.
    apply upwp_after, uwp_call. cbn [uexec]. split; [cbn [u_peer add_item set_conn]; by rewrite ?Hp|]. right. split; [done|]. left. by eexists. }
  unfold auth_text in Hsend. apply upwp_after, uwp_call. cbn [uexec].
  rewrite bool_decide_eq_false_2, Ha, Hp by done. cbn [orb negb].
  destruct (reply_unauthenticated kv_fd (auth_text user_name pw) dw)
    as [(reply & p' & Hans & Hdev & Hcase)|[Hnone Hfail]]; [by apply auth_text_line| |]; unfold auth_text in *.
  2: { rewrite Hnone, decide_False by done. apply upwp_after, uwp_call. cbn [uexec u_stream set_conn u_alive].
       rewrite Hs. destruct user_read_ok; apply upwp_after, uwp_call; cbn [uexec];
         (split; [cbn [u_peer add_item set_conn]; by rewrite ?Hp|]); right; auto. }
  rewrite Hans, Hs, decide_False by done. apply upwp_after, uwp_call. cbn [uexec u_stream set_conn app].
  destruct user_read_ok eqn:Hread.
  2: { apply upwp_after, uwp_call. cbn [uexec]. split; [cbn [u_peer add_item set_conn]; by rewrite Hdev|]. right. auto. }
  assert (reply ≠ [] ∧ (length reply <= 128 - 1)%nat) as [Hne Hlen].
  { destruct Hcase as [[_ ->]|[_ Hin]]; [split; [done|by apply Nat.leb_le]|].
    by destruct (refusals_shown reply Hin) as (? & ? & _). }
  rewrite decide_False, take_ge, drop_ge by done.
  destruct reply as [|c reply]; [done|]. fold (reply_shown (c :: reply)).
  destruct Hcase as [[Hflag Hok]|[Hflag Hin]].
  - rewrite Hok. assert (∃ s, find_sub (lit "OK") (reply_shown text_ok) = Some s) as [s ->]
      by (eexists; by vm_compute).
    do 2 (apply upwp_after, uwp_call; cbn [uexec]). split; [cbn [u_peer add_item set_conn]; by rewrite Hdev|]. left. by split.
  - destruct (refusals_shown _ Hin) as (_ & _ & ->).
    apply (upwp_say d); [|intros w' Hw'; by apply IH]. split; try done. cbn [u_peer set_conn]. by rewrite Hdev.
Qed.

(** A name and a password that PAM accepts log in at the first attempt. *)
Lemma login_accepted sock fuel name pw rest m (w : U) :
  u_lines w = name :: pw :: rest → credentials_ok name pw →
  u_alive w = true → u_stream w = [] → dev_rep m (w_dev (u_peer w).1) →
  uwp (auth_user (S fuel) sock) w (λ r w', r = 0 ∧ online m w' ∧ u_lines w' = rest).
Proof.
  intros Hl Hcred Ha Hs Hrep. cbn [auth_user]. pose proof (printed_refl w) as Hw.
  do 2 (apply (uwp_say _ _ w _ _ Hw); clear Hw; intros ? Hw). destruct Hw as [Hw1 Hwl Hw3 Hw4 _].
  eapply uwp_line; [by rewrite Hw4|].
  match goal with |- uwp _ ?w0 _ => pose proof (printed_refl w0) as Hw; set (wl := w0) in * end.
  assert (u_peer wl = u_peer w ∧ u_alive wl = true ∧ u_stream wl = [] ∧ u_lines wl = pw :: rest)
    as (Hp2 & Ha2 & Hs2 & Hl2) by (subst wl; cbn; by rewrite Hw1, Hwl, Hw3). clearbody wl.
  do 2 (apply (uwp_say _ _ wl _ _ Hw); clear Hw; intros ? Hw).
  destruct Hw as [Hv1 Hv2 Hv3 Hv4 _]. apply uwp_bind. eapply uwp_mono; [|apply get_password_spec].
  intros pw' w4 (-> & _ & _ & Hl4 & _ & _ & Hp4 & Ha4 & Hs4).
  unfold next_line in *. rewrite Hv4, Hl2 in *. cbn [fst snd] in *.
  destruct (u_peer w) as [dw b] eqn:Hp. cbn [fst] in Hrep.
  destruct (answer_auth kv_fd (lo_host _ link) name pw b m dw Hrep Hcred) as (d' & Hans & Hrep').
  eapply uwp_send; [apply (lo_send _ link)|congruence|congruence| |].
  { rewrite Hp4, Hv1, Hp2. exact Hans. }
  rewrite decide_False by (pose proof (lo_send _ link (lit "AUTH " ++ name ++ lit " " ++ pw)); lia).
  apply uwp_read; [apply (lo_read _ link)|done|by apply Nat.leb_le|]. cbn [u_stream set_conn].
  change text_ok with (lit "OK" ++ [LF]) at 1. do 2 apply uwp_print. apply uwp_ret.
  split_and!; [done|by exists d'|done].
Qed.

End Daemon.
