(* ===== verification/BenchKeys.v ===== *)
(** * The benchmark: which keys a thread uses, and how a counter is read back

    The texts that the threads of the latency benchmark send, whatever they are
    answered; and for [run_concurrent_read_write], that the digits
    [check_value] reads are those the writer stored. *)

From S2P Require Import Prelude Prog CStr KvIoctl KMem KvHash KLogic KvHashSpec Kvlkm KvlkmSpec.
From S2P Require Import KvDevice KvInterface Auth Daemon DaemonSem DaemonSpec Connection Userland.
From S2P Require Import Benchmark UserSpec BenchSpec.

(** ** What a thread may send *)

(** Every message is the login or a command for a key in [K]. *)
Definition sends_for (conn_data : connection_data) (K : Z → Prop) (X : Type) (e : uact X) : Prop :=
  match e with
  | USend _ data =>
      data = auth_text (Benchmark.username conn_data) (Benchmark.password conn_data) ∨
      ∃ op k v, K k ∧ data = command_text op (to_string k) v
  | _ => True
  end.

Section Sends.
Variables (conn_data : connection_data) (K : Z → Prop).

Abbreviation sends := (all_acts (sends_for conn_data K)).

Lemma sends_act {A X : Type} (e : uact X) (f : X → uprog A) :
  sends_for conn_data K X e → (∀ x, sends (f x)) → sends (call e ≫= f).
Proof. intros He Hf. by apply all_acts_bind. Qed.

Lemma sends_say {A : Type} t (f : unit → uprog A) : sends (f tt) → sends (say_text t ≫= f).
Proof. intros Hf. apply sends_act; [done|]. by intros []. Qed.

Lemma sends_setup : sends (setup conn_data).
Proof.
  unfold setup, setup_connection. apply sends_act; [done|]. intros sock.
  case_decide; [by apply sends_say|]. apply sends_act; [done|]. intros r.
  case_decide; [by apply sends_say|]. apply sends_act; [done|]. intros r'.
  case_decide; [by apply sends_say|]. apply all_acts_bind; [|done].
  unfold auth_user. apply sends_act; [by left|]. intros s. case_decide; [by apply sends_say|].
  apply sends_act; [done|]. intros [[|c t]|]; try by apply sends_say.
  destruct (find_sub _ _); [by do 2 apply sends_say|by apply sends_say].
Qed.

Lemma sends_insert sock k v : K k → v ≠ [] → sends (kv_insert sock (to_string k) v).
Proof.
  intros Hk Hv. unfold kv_insert. apply sends_act.
  { right. exists OpInsert, k, v. split; [done|]. unfold command_text. by rewrite decide_False by done. }
  intros s. apply sends_act; [done|]. intros [[|c t]|]; try by apply sends_say. done.
Qed.

Lemma sends_update sock k v : K k → v ≠ [] → sends (kv_update sock (to_string k) v).
Proof.
  intros Hk Hv. unfold kv_update. apply sends_act.
  { right. exists OpUpdate, k, v. split; [done|]. unfold command_text. by rewrite decide_False by done. }
  intros s. apply sends_act; [done|]. intros [[|c t]|]; try by apply sends_say. done.
Qed.

Lemma sends_get sock k : K k → sends (kv_get sock (to_string k)).
Proof.
  intros Hk. unfold kv_get. apply sends_act.
  { right. exists OpGet, k, []. split; [done|]. unfold command_text.
    by rewrite decide_True, app_nil_r by done. }
  intros s. apply sends_act; [done|]. intros [[|c t]|]; try by apply sends_say. done.
Qed.

Lemma sends_delete sock k : K k → sends (kv_delete sock (to_string k)).
Proof.
  intros Hk. unfold kv_delete. apply sends_act.
  { right. exists OpDelete, k, []. split; [done|]. unfold command_text.
    by rewrite decide_True, app_nil_r by done. }
  intros s. apply sends_act; [done|]. intros [[|c t]|]; try by apply sends_say. done.
Qed.

(** One measured operation with its row. *)
Lemma sends_measured {A B : Type} (p : uprog A) (g : Z → Z → A → B) (h : B → uprog unit) :
  sends p → (∀ b, sends (h b)) →
  sends (r ← (start ← call Clock; a ← p; stop ← call Clock; mret (g start stop a)); h r).
Proof.
  intros Hp Hh. apply all_acts_bind; [|done]. apply sends_act; [done|]. intros start.
  apply all_acts_bind; [done|]. intros a. by apply sends_act.
Qed.

Lemma sends_row label latency : sends (csv_row label latency).
Proof. unfold csv_row. by do 2 (apply sends_act; [done|intros []]). Qed.

Lemma sends_each n body : (∀ i, (i < n)%nat → sends (body i)) → sends (each n body).
Proof. intros Hb. apply all_acts_for. intros i [] Hi. apply Hb. lia. Qed.

End Sends.

(** The keys of thread [tid]. *)
Definition thread_keys (tid k : Z) : Prop := tid * 1000000 <= k < tid * 1000000 + 202000.

Lemma text_app_ne (s t : bytes) : s ≠ [] → s ++ t ≠ [].
Proof. by destruct s. Qed.

Lemma worker_sends conn_data tid :
  all_acts (sends_for conn_data (thread_keys tid)) (latency_worker conn_data tid).
Proof.
  unfold latency_worker.
  assert (Z.of_nat (Z.to_nat 20000) = 20000 ∧ Z.of_nat (Z.to_nat 2000) = 2000) as [Hn Hw]
    by (by rewrite !Z2Nat.id by lia).
  revert Hn Hw. generalize (Z.to_nat 20000) as n, (Z.to_nat 2000) as warm. intros n warm Hn Hw.
  assert (∀ i, (i < n)%nat → thread_keys tid (tid * 1000000 + Z.of_nat i)) as Hkey
    by (intros i Hi; unfold thread_keys; lia).
  apply all_acts_bind; [apply sends_setup|]. intros sock. case_decide; [by apply sends_say|].
  apply sends_act; [done|]. intros opened. destruct opened; cbn [negb]; [|by apply sends_say].
  apply sends_act; [done|]. intros _.
  apply all_acts_bind; [|intros _; apply all_acts_bind; [|intros _; apply all_acts_bind;
    [|intros _; apply all_acts_bind; [|intros _; apply all_acts_bind; [|intros _; done]]]]].
  - apply sends_each. intros i Hi. apply all_acts_bind; [|done].
    apply sends_insert; [unfold thread_keys; lia|by apply text_app_ne].
  - apply sends_each. intros i Hi. rewrite make_keys_lookup by done.
    apply (sends_measured _ _ _ (λ s e _, e - s)); [|intros; apply sends_row].
    apply sends_insert; [by apply Hkey|by apply text_app_ne].
  - apply sends_each. intros i Hi. rewrite make_keys_lookup by done.
    apply (sends_measured _ _ _ (λ s e a, (e - s, a))); [|intros []; apply sends_row].
    apply sends_get. by apply Hkey.
  - apply sends_each. intros i Hi. rewrite make_keys_lookup by done.
    apply (sends_measured _ _ _ (λ s e _, e - s)); [|intros; apply sends_row].
    apply sends_update; [by apply Hkey|by apply text_app_ne].
  - apply sends_each. intros i Hi. rewrite make_keys_lookup by done.
    apply (sends_measured _ _ _ (λ s e _, e - s)); [|intros; apply sends_row].
    apply sends_delete. by apply Hkey.
Qed.

(** ** Reading a counter back *)

Lemma digit_value_range b : is_digit b = true → 0 <= digit_value b < 10.
Proof. unfold is_digit, digit_value. intros Hb. lia. Qed.

Lemma dec_value_ge v s : 0 <= v → all_digits s → v <= dec_value_from v s.
Proof.
  intros Hv Hs. revert v Hv. induction Hs as [|b s Hb Hs IH]; intros v Hv; simpl; [done|].
  apply digit_value_range in Hb. specialize (IH (v * 10 + digit_value b)). lia.
Qed.

Lemma check_digits_app v s rest :
  0 <= v → all_digits s → no_digit_start rest → dec_value_from v s <= llong_max →
  check_digits v (s ++ rest) = Some (dec_value_from v s).
Proof.
  intros Hv Hs Hr. revert v Hv. induction Hs as [|b s Hb Hs IH]; intros v Hv Hmax; simpl in *.
  - destruct rest as [|c rest]; [done|]. simpl in *. by rewrite Hr.
  - rewrite Hb. pose proof (digit_value_range b Hb).
    pose proof (dec_value_ge (v * 10 + digit_value b) s ltac:(lia) Hs).
    rewrite decide_False by lia. apply IH; [lia|done].
Qed.

(** A counter somewhere in a reply. *)
Lemma check_value_found s rest resp n :
  find_sub (lit "count:") resp = Some (lit "count:" ++ s ++ rest) →
  all_digits s → s ≠ [] → no_digit_start rest → dec_value_from 0 s = n → n <= llong_max →
  check_value resp = Some (Some n).
Proof.
  intros Hf Hs Hne Hr Hn Hmax. unfold check_value. rewrite Hf.
  destruct s as [|b s]; [done|]. pose proof (Forall_inv Hs) as Hb. simpl in Hb.
  assert (skip_quotes (drop 6 (lit "count:" ++ (b :: s) ++ rest)) = b :: s ++ rest) as ->.
  { cbn [lit String.list_ascii_of_string app drop skip_quotes].
    rewrite (digit_not_space b Hb), bool_decide_eq_false_2; [done|]. by intros ->. }
  rewrite Hb. change (b :: s ++ rest) with ((b :: s) ++ rest).
  rewrite check_digits_app; [by rewrite Hn|done|done|done|by rewrite Hn].
Qed.

Definition count_value (n : Z) : bytes := lit "count:" ++ to_string n.

Lemma check_value_reply m n :
  0 <= n <= llong_max → m !! 0 = Some (count_value n) →
  check_value (op_text OpGet 0 m true) = Some (Some n).
Proof.
  intros Hn Hm. assert (is_u64 n) as Hu by (unfold is_u64, u64_max, llong_max in *; lia).
  destruct (to_string_spec n Hu) as (Hd & Hne & Hv).
  apply (check_value_found (to_string n) [DQ; LF]); [|done..|lia].
  unfold op_text, op_reply. rewrite Hm. unfold count_value. generalize (to_string n) as s. intros s.
  by vm_compute.
Qed.

Lemma count_value_ok n : is_u64 n → value_ok (count_value n) ∧ (LF ∉ count_value n) ∧ count_value n ≠ [].
Proof.
  intros Hn. pose proof (length_to_string n Hn). split_and!; [split|..].
  - unfold count_value. rewrite no_nul_app. split; [by apply no_nul_dec_true; vm_compute|].
    by apply to_string_no_nul.
  - unfold count_value, MAX_VALUE_LEN. rewrite length_app. simpl. lia.
  - unfold count_value. rewrite elem_of_app. intros [Hin|Hin].
    + by apply (bool_decide_unpack (¬ (LF ∈ lit "count:"))) in Hin; vm_compute.
    + eapply digits_no_lf; [|exact Hin]. by apply to_string_spec.
  - done.
Qed.

Lemma zero_u64 : is_u64 0.
Proof. unfold is_u64, u64_max. lia. Qed.
