(* ===== verification/HotKey.v ===== *)
(** * The counter under the hot key

    The threads of [run_concurrent_read_write] store and read a counter under the
    key 0.  Here: their messages ask for nothing that could put anything else there,
    and where nobody asks for such a thing, every lookup of the key finds a counter,
    whatever the interleaving. *)

From S2P Require Import Prelude Prog CStr KvIoctl KMem KvHash KLogic KvHashSpec KvTrace Kvlkm.
From S2P Require Import KvlkmSpec KvDevice.
From S2P Require Import KvInterface Auth Daemon DaemonSem DaemonSpec Connection Session Access.
From S2P Require Import Dialogue Isolation.
From S2P Require Import Userland Benchmark UserSpec BenchSpec BenchKeys.

(** ** Messages *)

Definition is_count (v : bytes) : Prop := ∃ n, 0 <= n <= llong_max ∧ v = count_value n.

(** If the message is about the key 0, it deletes nothing and stores a counter. *)
Definition counting (msg : bytes) : Prop :=
  ∀ op key value, request_of (upto_nul msg) true = Operate op key value → parse_key key = Some 0 →
    op ≠ OpDelete ∧ (op_needs_value op = true → is_count (stored_text value)).

Lemma request_command op key value :
  is_word key → LF ∉ value → (op_needs_value op = true → value ≠ []) →
  request_of (command_text op key value) true = Operate op key value.
Proof.
  intros Hk Hlf Hv. unfold request_of, command_text.
  rewrite extract_word_app; [|apply op_word_word|done].
  assert (∀ rest, space_start rest → extract_word (SP :: key ++ rest) = Some (key, rest)) as Hkey
    by (intros; by apply extract_word_sp).
  rewrite op_named_word. cbn [negb].
  assert (argument (if decide (value = []) then [] else SP :: value) = value) as Harg.
  { case_decide as Hne; [by subst|]. unfold argument. rewrite getline_id; [by rewrite decide_True|].
    rewrite not_elem_of_cons. by split. }
  rewrite Hkey by (by case_decide). rewrite Harg, (decide_False (P := _ ∧ _)) by (intros [H1 H2]; by apply Hv).
  by destruct op.
Qed.

(** A login asks for no operation. *)
Lemma auth_counting user pw : counting (auth_text user pw).
Proof.
  intros op key value Hreq. exfalso. revert Hreq.
  change (upto_nul (auth_text user pw)) with (lit "AUTH" ++ SP :: upto_nul (user ++ lit " " ++ pw)).
  unfold request_of. rewrite extract_word_app; [|by split; [|repeat constructor]|done].
  rewrite decide_True by done. by repeat case_match.
Qed.

Lemma command_counting op k v :
  is_u64 k → value_ok v → LF ∉ v → (op_needs_value op = true → v ≠ []) → op ≠ OpDelete →
  (op_needs_value op = true → is_count v) → counting (command_text op (to_string k) v).
Proof.
  intros Hk Hv Hlf Hne Hdel Hc op' key value Hreq _.
  rewrite upto_nul_id in Hreq.
  2: { destruct (command_text_ok op k v) as (_ & Hn & _); [done..|]. exact Hn. }
  rewrite request_command in Hreq by (done || by apply to_string_word).
  injection Hreq as <- <- <-. by rewrite stored_text_id.
Qed.



Lemma get_counting : counting (command_text OpGet (to_string 0) []).
Proof.
  apply command_counting; [apply zero_u64| |apply not_elem_of_nil|done..].
  split; [apply no_nul_nil|by apply Nat.ltb_lt].
Qed.

Lemma count_reply_checks n :
  0 <= n <= llong_max → check_value (op_reply OpGet 0 (Some (count_value n)) true) = Some (Some n).
Proof. intros Hn. exact (check_value_reply {[0 := count_value n]} n Hn (lookup_singleton_eq _ _)). Qed.

Lemma update_counting n : 0 <= n <= llong_max → counting (command_text OpUpdate (to_string 0) (count_value n)).
Proof.
  intros Hn. destruct (count_value_ok n) as (Hv & Hlf & Hne); [unfold is_u64, u64_max, llong_max in *; lia|].
  apply command_counting; [apply zero_u64|done..|]. intros _. by exists n.
Qed.

(** ** The counter in the store *)

Section Store.
Context {api : KernelApi}.

(** The event leaves a counter under the key 0, if one was there. *)
Definition keeps_count (e : event) : Prop :=
  match e with
  | EAdd k v => k = 0 → is_count v
  | ERemove k _ => k ≠ 0
  | _ => True
  end.

Lemma requested_keeps_count fd e tk :
  requested fd e tk → (∀ msg, Said fd msg ∈ tk → counting msg) → keeps_count e.
Proof.
  intros [_ (msg & op & key & value & k & Hmsg & Hreq & Hk & He)] Hall.
  specialize (Hall _ Hmsg _ _ _ Hreq). destruct e as [|k' v'| |k' r|]; try done; simpl in He |- *.
  - destruct He as (-> & [= <-] & Hneeds). intros ->. by apply (Hall Hk).
  - destruct He as [-> ->]. intros ->. by destruct (Hall Hk).
Qed.

(** What is under the key 0, if anything, is a counter. *)
Definition only_count (m : gmap Z bytes) : Prop := ∀ v, m !! 0 = Some v → is_count v.

Lemma event_keeps_count nbits e m m' :
  event_step nbits e m m' → keeps_count e → only_count m →
  only_count m' ∧ (is_Some (m !! 0) → is_Some (m' !! 0)).
Proof.
  intros He Hk Hm. destruct e as [k r0|k v0|k|k r0|i l]; simpl in He, Hk.
  - by destruct He as [-> _].
  - subst m'. destruct (decide (k = 0)) as [->|Hne].
    + split; [|intros _; by rewrite lookup_insert_eq]. intros v. rewrite lookup_insert_eq. intros [= <-]. by apply Hk.
    + split; [intros v|]; by rewrite lookup_insert_ne; [try apply Hm|].
  - by destruct He as [-> _].
  - destruct He as [-> _]. split; [intros v|]; by rewrite lookup_delete_ne; [try apply Hm|].
  - by destruct He as [-> _].
Qed.

Lemma events_keep_count nbits es m m' :
  events_run nbits es m m' → Forall keeps_count es → only_count m →
  only_count m' ∧ (is_Some (m !! 0) → is_Some (m' !! 0)).
Proof.
  induction 1 as [m|e es m m1 m2 He _ IH]; intros Hes Hm; [done|]. inversion Hes as [|? ? Hk Hes']; subst.
  destruct (event_keeps_count _ _ _ _ He Hk Hm) as [Hm1 Hsome]. destruct (IH Hes' Hm1) as [Hm2 Hsome2]. auto.
Qed.

(** What a lookup finds is a counter, and it finds one where there was one. *)
Lemma count_found nbits es m m' r :
  events_run nbits es m m' → Forall keeps_count es → only_count m → ELookup 0 r ∈ es →
  (∀ v, r = Some v → is_count v) ∧ (is_Some (m !! 0) → is_Some r).
Proof.
  intros Hr Hes Hm (es1 & es2 & ->)%list_elem_of_split. apply events_run_app in Hr as (m1 & Hr1 & Hr2).
  apply Forall_app in Hes as [Hes1 _]. destruct (events_keep_count _ _ _ _ Hr1 Hes1 Hm) as [Hm1 Hsome].
  inversion Hr2 as [|? ? ? m2 ? He _]; subst. destruct He as [_ ->]. auto.
Qed.

(** An INSERT of a counter, unless the kernel has no memory for it, leaves one. *)
Lemma insert_leaves_count nbits es es' m m' v reply :
  events_run nbits es m m' → Forall keeps_count es → only_count m → (may_fail → is_Some (m !! 0)) →
  op_run 0 v OpInsert es' reply → es' ⊆ es → is_Some (m' !! 0).
Proof.
  intros Hr Hes Hm Hmem Hop Hsub.
  assert (∀ e, e ∈ es → (∃ w, e = ELookup 0 (Some w) ∨ e = EAdd 0 w) → is_Some (m' !! 0)) as Hpresent.
  { intros e (es1 & es2 & ->)%list_elem_of_split Hw. apply events_run_app in Hr as (m1 & Hr1 & Hr2).
    apply Forall_app in Hes as [Hes1 Hes2]. destruct (events_keep_count _ _ _ _ Hr1 Hes1 Hm) as [Hm1 _].
    inversion Hr2 as [|? ? ? m2 ? He Hr3]; inversion Hes2 as [|? ? Hk Hes3]; subst.
    destruct (event_keeps_count _ _ _ _ He Hk Hm1) as [Hm2 _].
    apply (events_keep_count _ _ _ _ Hr3 Hes3 Hm2). destruct Hw as (w & [->| ->]); simpl in He.
    - destruct He as [-> Hw]. by rewrite <- Hw.
    - subst m2. by rewrite lookup_insert_eq. }
  inversion Hop as [v0| |es0 Hf Hor| | | | |]; subst.
  - eapply Hpresent; [apply Hsub, elem_of_cons; by left|eauto].
  - eapply Hpresent; [apply Hsub, elem_of_cons; right; by apply list_elem_of_singleton|eauto].
  - assert (is_Some (@None bytes)) as [? [=]].
    eapply (count_found nbits es m m'); [done..|apply Hsub, elem_of_cons; by left|by apply Hmem].
Qed.

End Store.
