(* ===== verification/HotClients.v ===== *)
(** * The threads of the benchmark with one key, as clients

    What [run_concurrent_read_write] and the threads that it starts say over their
    connections, and what they do with the answers: each has one connection, logs
    in first, then sends only requests about the counter, and waits for the reply
    to each before the next; it asks for the counter, and starts other threads, only
    when the INSERT has been replied to.  Given replies as a daemon gives them that
    has a counter under the key 0 then, no read is counted as empty or bad. *)

From S2P Require Import Prelude Prog CStr KvIoctl KMem KvHash KLogic KvHashSpec Kvlkm KvlkmSpec.
From S2P Require Import KvDevice KvInterface Auth Daemon DaemonSem DaemonSpec Connection Session.
From S2P Require Import Userland Benchmark UserSpec BenchSpec BenchKeys HotKey.

(** ** Messages and replies *)

Definition get_message : bytes := command_text OpGet (to_string 0) [].
Definition insert_message : bytes := command_text OpInsert (to_string 0) (count_value 0).

Inductive hot_message : bytes → Prop :=
  | hot_get : hot_message get_message
  | hot_insert : hot_message insert_message
  | hot_update n : 0 <= n <= llong_max → hot_message (command_text OpUpdate (to_string 0) (count_value n)).

Section Hot.
Variable conn_data : connection_data.

Definition login : bytes := auth_text (Benchmark.username conn_data) (Benchmark.password conn_data).

(** The first message is the login. *)
Definition good_message (logged : bool) (msg : bytes) : Prop :=
  if logged then hot_message msg else msg = login.

Definition good_reply (msg reply : bytes) : Prop :=
  line_ok reply ∧ (msg = login → reply = text_ok) ∧
  (msg = get_message →
   ∃ n, 0 <= n <= llong_max ∧ reply = op_reply OpGet 0 (Some (count_value n)) true).

(** ** A thread and its connection *)

Inductive usock : Type :=
  | NoSocket
  | Unconnected (fd : Z)
  (** Every message has its reply; [logged] when there was one. *)
  | Online (fd : Z) (logged : bool)
  (** Its last message waits for a reply. *)
  | Waits (fd : Z) (msg : bytes).

(** A report of reads gone wrong says that there were none. *)
Definition no_alarm_text (t : item) : Prop :=
  match t with
  | Text t =>
      (take 13 t = lit "Empty reads: " → t = newline (lit "Empty reads: 0")) ∧
      (take 11 t = lit "Bad reads: " → t = newline (lit "Bad reads: 0"))
  | _ => True
  end.

Definition alarm (c : counter) : Prop := c = EmptyReads ∨ c = BadReads.

Definition hot_job (j : job) : Prop := match j with LatencyWorker _ => False | _ => True end.

(** What one action needs, and what may be assumed after it; [ready] when this
    thread knows that an INSERT has been replied to. *)
Definition act_speaks {X : Type} (e : uact X) (ready : bool) (st : usock) : (X → bool → usock → Prop) → Prop :=
  match e in uact X return (X → bool → usock → Prop) → Prop with
  | USocket => λ w, st = NoSocket ∧ w (-1) ready NoSocket ∧ ∀ fd, 0 <= fd → w fd ready (Unconnected fd)
  | Connect fd => λ w, st = Unconnected fd ∧ ∀ r, w r ready (if decide (r < 0) then st else Online fd false)
  | USend fd data => λ w,
      ∃ logged, st = Online fd logged ∧ good_message logged data ∧ (data = get_message → ready = true) ∧
        w (Z.of_nat (length data)) ready (Waits fd data)
  | URead fd n => λ w,
      ∃ msg, st = Waits fd msg ∧
        ∀ reply, good_reply msg reply → (length reply <= n)%nat ∧
          w (Some reply) (ready || bool_decide (msg = insert_message)) (Online fd true)
  | UClose fd => λ w, (∃ logged, st = Online fd logged) ∧ w tt ready NoSocket
  | UPrint t => λ w, no_alarm_text t ∧ w tt ready st
  | CounterAdd c => λ w, ¬ alarm c ∧ w tt ready st
  | CounterLoad c => λ w, ∀ n, (alarm c → n = 0) → w n ready st
  | Spawn j => λ w, hot_job j ∧ ready = true ∧ w tt ready st
  | UTrap f => λ _, f = UOutOfFuel
  | _ => λ w, ∀ x, w x ready st
  end.

Fixpoint speaks {A : Type} (p : uprog A) (Q : A → bool → usock → Prop) (ready : bool) (st : usock) : Prop :=
  match p with
  | Ret a => Q a ready st
  | Vis e k => act_speaks e ready st (λ x, speaks (k x) Q)
  end.

Lemma act_speaks_mono {X : Type} (e : uact X) ready st (v w : X → bool → usock → Prop) :
  (∀ x b st, v x b st → w x b st) → act_speaks e ready st v → act_speaks e ready st w.
Proof.
  intros H. destruct e; cbn [act_speaks]; try tauto; try (intros Hv x; by apply H); try (intros Hv x Hx; by apply H, Hv);
    try (intros [? Hv]; split; [done|]; by apply H).
  - intros (? & H1 & H2). split_and!; [done|by apply H|]. intros fd' Hfd. by apply H, H2.
  - intros [? Hw]. split; [done|]. intros r. by apply H.
  - intros (logged & ? & ? & ? & Hw). exists logged. split_and!; [done..|by apply H].
  - intros (msg & ? & Hw). exists msg. split; [done|]. intros reply Hr. destruct (Hw reply Hr). split; [done|by apply H].
  - intros (? & ? & Hw). split_and!; [done..|by apply H].
Qed.

Lemma speaks_mono {A : Type} (p : uprog A) (Q R : A → bool → usock → Prop) ready st :
  (∀ a b st, Q a b st → R a b st) → speaks p Q ready st → speaks p R ready st.
Proof.
  intros H. revert ready st. induction p as [a|X e k IH]; intros ready st; simpl; [auto|].
  apply act_speaks_mono. intros x b st'. apply IH.
Qed.

Lemma speaks_bind {A B : Type} (p : uprog A) (f : A → uprog B) Q ready st :
  speaks p (λ a, speaks (f a) Q) ready st → speaks (p ≫= f) Q ready st.
Proof.
  revert ready st. induction p as [a|X e k IH]; intros ready st; simpl; [done|].
  apply act_speaks_mono. intros x b st'. apply IH.
Qed.

Lemma speaks_act {A X : Type} (e : uact X) (f : X → uprog A) Q ready st :
  act_speaks e ready st (λ x, speaks (f x) Q) → speaks (call e ≫= f) Q ready st.
Proof. done. Qed.

Lemma speaks_call {X : Type} (e : uact X) (Q : X → bool → usock → Prop) ready st :
  act_speaks e ready st Q → speaks (call e) Q ready st.
Proof. done. Qed.

Lemma speaks_ret {A : Type} (a : A) (Q : A → bool → usock → Prop) ready st :
  Q a ready st → speaks (mret a) Q ready st.
Proof. done. Qed.

Lemma speaks_say {A : Type} t (f : unit → uprog A) Q ready st :
  no_alarm_text (Text t) → speaks (f tt) Q ready st → speaks (say_text t ≫= f) Q ready st.
Proof. by split. Qed.

Lemma speaks_last t (Q : unit → bool → usock → Prop) ready st :
  no_alarm_text (Text t) → Q tt ready st → speaks (say_text t) Q ready st.
Proof. by split. Qed.

(** The next action. *)
Ltac speak := apply speaks_act; cbn [act_speaks].

(** A text that is no report of reads gone wrong. *)
Ltac other_text := split; intros Htake; discriminate Htake.

(** ** Logging in *)

Lemma login_asks_nothing : login ≠ get_message ∧ login ≠ insert_message.
Proof. by split; intros [=]. Qed.

Lemma speaks_setup (Q : Z → bool → usock → Prop) ready :
  (∀ r st, r < 0 → Q r ready st) → (∀ sock, 0 <= sock → Q sock ready (Online sock true)) →
  speaks (setup conn_data) Q ready NoSocket.
Proof.
  destruct login_asks_nothing as [Hget Hins].
  intros Hfail Hok. unfold setup, setup_connection. speak. split; [done|]. split.
  { apply speaks_say; [other_text|]. apply speaks_ret, Hfail. lia. }
  intros sock Hsock. rewrite decide_False by lia. speak. intros r. case_decide.
  { apply speaks_say; [other_text|]. apply speaks_ret, Hfail. lia. }
  speak. split; [done|]. intros r'. case_decide.
  { apply speaks_say; [other_text|]. apply speaks_ret, Hfail. lia. }
  apply speaks_bind. unfold Benchmark.auth_user. speak. exists false. split_and!; [done..|].
  rewrite decide_False by lia. speak. eexists. split; [done|]. intros reply (_ & Hlogin & _).
  rewrite (bool_decide_eq_false_2 _ Hins), orb_false_r.
  rewrite (Hlogin eq_refl). split; [by apply Nat.leb_le|].
  change (text_ok) with (lit "OK" ++ [LF]) at 1.
  apply speaks_say; [other_text|]. apply speaks_say; [other_text|]. apply speaks_ret, speaks_ret. by apply Hok.
Qed.

(** ** Requests *)

Lemma speaks_request {A : Type} sock msg (f : option bytes → uprog A) Q ready :
  hot_message msg → (msg = get_message → ready = true) →
  (∀ reply, good_reply msg reply →
    speaks (f (Some reply)) Q (ready || bool_decide (msg = insert_message)) (Online sock true)) →
  speaks (_ ← call (USend sock msg); n ← call (URead sock (1024 - 1)); f n) Q ready (Online sock true).
Proof.
  intros Hmsg Hready Hf. speak. exists true. split_and!; [done..|]. speak. exists msg. split; [done|].
  intros reply Hr. split; [|by apply Hf]. by destruct Hr as [(_ & _ & Hlen) _].
Qed.

Lemma speaks_kv_get sock (Q : bytes → bool → usock → Prop) :
  (∀ n, 0 <= n <= llong_max → Q (op_reply OpGet 0 (Some (count_value n)) true) true (Online sock true)) →
  speaks (kv_get sock hot_key) Q true (Online sock true).
Proof.
  intros HQ. apply (speaks_request sock get_message); [constructor|done|].
  intros reply ((Hne & Hnul & Hlen) & _ & Hget). destruct (Hget eq_refl) as (n & Hn & Hreply).
  destruct reply as [|b reply]; [done|]. apply speaks_ret. rewrite buffer_text_nul; [|done|].
  - rewrite Hreply. by apply HQ.
  - unfold BUFFER_SIZE in Hlen. lia.
Qed.

Lemma speaks_kv_update sock n (Q : Z → bool → usock → Prop) :
  0 <= n <= llong_max → Q 0 true (Online sock true) →
  speaks (kv_update sock hot_key (lit "count:" ++ to_string n)) Q true (Online sock true).
Proof.
  intros Hn HQ. apply (speaks_request sock (command_text OpUpdate (to_string 0) (count_value n))); [by constructor|done|].
  intros reply ((Hne & _) & _). destruct reply as [|b reply]; [done|]. by apply speaks_ret.
Qed.

(** Once it has been replied to, there is a counter. *)
Lemma speaks_kv_insert sock (Q : Z → bool → usock → Prop) ready :
  Q 0 true (Online sock true) → speaks (kv_insert sock hot_key (lit "count:0")) Q ready (Online sock true).
Proof.
  intros HQ. apply (speaks_request sock insert_message); [by constructor|by intros [=]|].
  intros reply ((Hne & _) & _). destruct reply as [|b reply]; [done|].
  rewrite bool_decide_eq_true_2, orb_true_r by done. by apply speaks_ret.
Qed.

(** ** The threads *)

Lemma speaks_hot_reader fuel tid : speaks (hot_reader fuel conn_data tid) (λ _ _ _, True) true NoSocket.
Proof.
  unfold hot_reader. apply speaks_bind, speaks_setup.
  { intros r st Hr. rewrite decide_True by lia. by apply speaks_last; [other_text|]. }
  intros sock Hsock. case_decide; [by apply speaks_last; [other_text|]|].
  apply speaks_bind. apply speaks_mono with (λ _ _ st, st = Online sock true).
  { intros [] b st ->. apply speaks_call; cbn [act_speaks]; split; [by eexists|done]. }
  induction fuel as [|fuel IH]; cbn [hot_reader_loop]; [done|].
  speak. intros []; [done|]. apply speaks_bind, speaks_kv_get. intros n Hn.
  speak. split; [by intros [?|?]|]. rewrite decide_False by done. by rewrite count_reply_checks.
Qed.

Lemma speaks_hot_writer fuel :
  Z.of_nat fuel <= llong_max → speaks (hot_writer fuel conn_data) (λ _ _ _, True) true NoSocket.
Proof.
  intros Hf. unfold hot_writer. apply speaks_bind, speaks_setup.
  { intros r st Hr. rewrite decide_True by lia. by apply speaks_last; [other_text|]. }
  intros sock Hsock. case_decide; [by apply speaks_last; [other_text|]|].
  apply speaks_bind. apply speaks_mono with (λ _ _ st, st = Online sock true).
  { intros [] b st ->. apply speaks_call; cbn [act_speaks]; split; [by eexists|done]. }
  assert (0 <= 0) as H0 by done. assert (0 + Z.of_nat fuel <= llong_max) as Hmax by lia.
  revert H0 Hmax. generalize 0 at 2 3 4. clear Hf.
  induction fuel as [|fuel IH]; intros count H0 Hmax; cbn [hot_writer_loop]; [done|].
  speak. intros []; [done|]. apply speaks_bind, speaks_kv_update; [lia|].
  speak. split; [by intros [?|?]|].
  assert (wrap_u64 (count + 1) = count + 1) as ->.
  { unfold wrap_u64, llong_max in *. apply Z.mod_small. lia. }
  apply IH; lia.
Qed.

Lemma speaks_spawns n body (Q : unit → bool → usock → Prop) st :
  (∀ i, hot_job (body i)) → Q tt true st → speaks (each n (λ i, call (Spawn (body i)))) Q true st.
Proof.
  intros Hj HQ. unfold each. generalize 0%nat. induction n as [|n IH]; intros start; cbn [u_for]; [done|].
  split_and!; [done..|]. apply IH.
Qed.

(** The last lines of the report. *)
Lemma speaks_report ns ready :
  speaks
    (empty_reads ← call (CounterLoad EmptyReads);
     _ ← say_text (newline (lit "Empty reads: " ++ to_string empty_reads));
     bad_reads ← call (CounterLoad BadReads);
     _ ← say_text (newline (lit "Bad reads: " ++ to_string bad_reads));
     writes ← call (CounterLoad Writes);
     reads ← call (CounterLoad Reads);
     _ ← say_text (lit "Total ops/sec: ");
     _ ← call (UPrint (PerSecond (wrap_u64 (writes + reads)) ns));
     say_text [LF]) (λ _ _ _, True) ready NoSocket.
Proof.
  speak. intros empty Hempty. rewrite (Hempty (or_introl eq_refl)).
  apply speaks_say; [split; intros Htake; [vm_compute; reflexivity|discriminate Htake]|].
  speak. intros bad Hbad. rewrite (Hbad (or_intror eq_refl)).
  apply speaks_say; [split; intros Htake; [discriminate Htake|vm_compute; reflexivity]|].
  speak. intros writes _. speak. intros reads _.
  apply speaks_say; [other_text|]. speak. split; [done|]. apply speaks_last; [other_text|done].
Qed.

Lemma speaks_run_concurrent_read_write :
  speaks (run_concurrent_read_write conn_data) (λ _ _ _, True) false NoSocket.
Proof.
  unfold run_concurrent_read_write. apply speaks_say; [other_text|]. cbv zeta.
  apply speaks_bind, speaks_setup.
  { intros r st Hr. rewrite decide_True by lia. by apply speaks_last; [other_text|]. }
  intros sock Hsock. case_decide; [by apply speaks_last; [other_text|]|].
  apply speaks_bind, speaks_kv_insert. speak. split; [by eexists|].
  speak. intros []. speak. intros start. speak. split_and!; [done..|].
  apply speaks_bind, speaks_spawns; [done|]. do 3 (speak; intros []). speak. intros stop.
  do 4 (apply speaks_say; [other_text|]). speak. split; [done|].
  apply speaks_say; [other_text|].
  do 2 (speak; intros ? _; try (apply speaks_say; [other_text|])). speak. split; [done|].
  apply speaks_say; [other_text|].
  do 2 (speak; intros ? _; try (apply speaks_say; [other_text|])). speak. split; [done|].
  apply speaks_say; [other_text|]. apply speaks_report.
Qed.

Lemma speaks_job fuel j :
  Z.of_nat fuel <= llong_max → hot_job j → speaks (job_body fuel conn_data j) (λ _ _ _, True) true NoSocket.
Proof.
  intros Hf. destruct j as [tid| |tid]; [done| |].
  - intros _. by apply speaks_hot_writer.
  - intros _. apply speaks_hot_reader.
Qed.

End Hot.
