(* ===== verification/HotRounds.v ===== *)
(** * What the daemon replies to the threads with the hot key

    The rounds of a connection whose client logs in first and then sends requests
    about the counter only, where what is found under the key 0 is a counter, and
    where after a GET was received something is found. *)

From S2P Require Import Prelude Prog Timeline CStr KvIoctl KMem KvHash KLogic KvHashSpec KvTrace.
From S2P Require Import Kvlkm.
From S2P Require Import KvlkmSpec KvDevice KvInterface Auth Daemon DaemonSem DaemonSpec.
From S2P Require Import Connection Session.
From S2P Require Import Access Dialogue Isolation.
From S2P Require Import Userland Benchmark UserSpec BenchSpec BenchKeys HotKey HotClients.

(** ** Requests *)

Lemma hot_message_ok msg : hot_message msg → line_ok msg.
Proof.
  destruct 1 as [| |n Hn]; apply command_text_ok; try apply zero_u64.
  - split; [apply no_nul_nil|by apply Nat.ltb_lt].
  - apply count_value_ok. unfold is_u64, u64_max. lia.
  - apply count_value_ok. unfold is_u64, u64_max, llong_max in *. lia.
Qed.

Lemma value_request op n :
  0 <= n <= llong_max →
  request_of (command_text op (to_string 0) (count_value n)) true = Operate op (to_string 0) (count_value n).
Proof.
  intros Hn. destruct (count_value_ok n) as (_ & Hlf & Hne); [unfold is_u64, u64_max, llong_max in *; lia|].
  apply request_command; [apply to_string_word, zero_u64|done|done].
Qed.

Lemma insert_request : request_of (upto_nul insert_message) true = Operate OpInsert (to_string 0) (count_value 0).
Proof.
  pose proof (hot_message_ok insert_message hot_insert) as (_ & Hnul & _). rewrite upto_nul_id by done.
  by apply value_request.
Qed.

Lemma hot_message_request msg :
  hot_message msg → ∃ op value, op ≠ OpDelete ∧
    request_of (upto_nul msg) true = Operate op (to_string 0) value ∧
    (msg = get_message → op = OpGet).
Proof.
  intros Hmsg. pose proof (hot_message_ok msg Hmsg) as (_ & Hnul & _). rewrite upto_nul_id by done.
  destruct Hmsg as [| |n Hn].
  - exists OpGet, []. split_and!; [done|by vm_compute|done].
  - exists OpInsert, (count_value 0). split_and!; [done|by apply value_request|done].
  - exists OpUpdate, (count_value n). split_and!; [done|by apply value_request|done].
Qed.

Lemma hot_message_counting msg : hot_message msg → counting msg.
Proof.
  destruct 1 as [| |n Hn]; [apply get_counting| |by apply update_counting].
  destruct (count_value_ok 0) as (Hv & Hlf & Hne); [apply zero_u64|].
  apply command_counting; [apply zero_u64|done..|]. intros _. by exists 0.
Qed.

Section Rounds.
Context {api : KernelApi}.
Variable conn_data : connection_data.

Abbreviation user := (Benchmark.username conn_data).
Abbreviation pw := (Benchmark.password conn_data).
Abbreviation login := (login conn_data).

(** Words that can be sent in a message. *)
Record words_ok : Prop := {
  wo_user : is_word user;
  wo_password : is_word pw;
  wo_login : line_ok login;
}.

Hypothesis words : words_ok.

Lemma login_request auth : request_of (upto_nul login) auth = Login user pw.
Proof.
  destruct (wo_login words) as (_ & Hnul & _). rewrite upto_nul_id by done. unfold request_of, HotClients.login, auth_text.
  change (lit "AUTH " ++ user ++ lit " " ++ pw) with (lit "AUTH" ++ SP :: user ++ SP :: pw).
  rewrite extract_word_app; [|by split; [|repeat constructor]|done].
  rewrite decide_True by done. rewrite extract_word_sp by (done || apply words).
  rewrite <- (app_nil_r pw) at 1. by rewrite extract_word_sp by (done || apply words).
Qed.

Lemma login_not_hot : ¬ hot_message login.
Proof. intros (op & value & _ & Hr & _)%hot_message_request. by rewrite login_request in Hr. Qed.

(** The messages of a connection, in order. *)
Definition good_messages (l : list bytes) : Prop :=
  match l with
  | [] => True
  | msg :: l' => msg = login ∧ Forall hot_message l'
  end.

Lemma good_messages_snoc l msg :
  good_messages (l ++ [msg]) ↔ good_messages l ∧ good_message conn_data (bool_decide (l ≠ [])) msg.
Proof.
  destruct l as [|msg0 l]; simpl; [by split; [intros [-> _]|intros [_ ->]]|].
  rewrite Forall_app, Forall_singleton. tauto.
Qed.

Lemma good_messages_prefix l l' : good_messages (l ++ l') → good_messages l.
Proof. destruct l as [|msg l]; [done|]. simpl. by rewrite Forall_app; intros (? & ? & _). Qed.

Lemma good_messages_counting l msg : good_messages l → msg ∈ l → counting msg.
Proof.
  destruct l as [|msg0 l]; [by intros _ ?%not_elem_of_nil|]. intros [-> Hl] [->|Hin]%elem_of_cons.
  - apply auth_counting.
  - apply hot_message_counting. by rewrite Forall_forall in Hl; apply Hl.
Qed.

Lemma good_message_ok b msg : good_message conn_data b msg → line_ok msg.
Proof. destruct b; [apply hot_message_ok|]. intros ->. apply words. Qed.

(** ** Replies *)

(** PAM lets the user in. *)
Definition pam_welcomes (tk : list talk) : Prop := ∀ ok, Asked user pw ok ∈ tk → ok = true.

(** Lookups of the key 0 find counters, if anything. *)
Definition finds_counts (es : list event) : Prop := ∀ v, ELookup 0 (Some v) ∈ es → is_count v.

(** After a GET they find something. *)
Definition gets_find (hs : list (event + talk)) : Prop :=
  ∀ hs1 fd hs2 r, hs = hs1 ++ inr (Said fd get_message) :: hs2 → inl (ELookup 0 r) ∈ hs2 → is_Some r.

Lemma pam_welcomes_app tk tk' : pam_welcomes (tk ++ tk') → pam_welcomes tk ∧ pam_welcomes tk'.
Proof. intros H. by split; intros ok Hin; apply H, elem_of_app; [left|right]. Qed.

Lemma answering_login auth es tk reply auth' :
  answering (upto_nul login) auth es tk reply auth' → pam_welcomes tk → auth' = true ∧ good_reply conn_data login reply.
Proof.
  intros Ha Hpam. pose proof (login_request auth) as Hreq. destruct (login_asks_nothing conn_data) as [Hget _].
  destruct Ha as [text Ht|u p ok Ht|es Ht|op key value Ht|op key value k es reply Ht]; rewrite Hreq in Ht; try done.
  injection Ht as <- <-. rewrite (Hpam ok) by by apply list_elem_of_singleton. split; [done|]. split_and!.
  - apply (line_piece 1); [done|by apply piece_lit; vm_compute|lia].
  - done.
  - intros Hlogin. by destruct Hget.
Qed.

(** Whether the connection is authenticated. *)
Lemma answering_auth auth msg es tk reply auth' :
  answering (upto_nul msg) auth es tk reply auth' → good_message conn_data auth msg → pam_welcomes tk → auth' = true.
Proof.
  intros Ha Hmsg Hpam. destruct auth; cbn [good_message] in Hmsg; [|subst msg; by eapply answering_login].
  destruct Ha as [|u p ok| | |]; try done. apply orb_true_r.
Qed.

Lemma rounds_auth fd auth es tk :
  rounds fd auth es tk → good_messages (said tk) → pam_welcomes tk → auth = bool_decide (said tk ≠ []).
Proof.
  intros Hr. induction Hr as [|auth es tk msg es' tk' reply auth' Hr IH Ha]; intros Hsaid Hpam; [done|].
  destruct (round_said fd msg tk' reply (answering_silent _ _ _ _ _ _ Ha) tk) as [Hs _].
  rewrite Hs in *. apply good_messages_snoc in Hsaid as [Hsaid Hmsg].
  apply pam_welcomes_app in Hpam as [Hpam Hpam']. specialize (IH Hsaid Hpam). subst auth.
  assert (auth' = true) as ->.
  { eapply answering_auth; [exact Ha|done|]. intros ok Hin. apply Hpam'.
    rewrite elem_of_cons, elem_of_app. auto. }
  symmetry. apply bool_decide_eq_true. by destruct (said tk).
Qed.

Lemma answering_hot msg es tk reply auth' :
  answering (upto_nul msg) true es tk reply auth' → hot_message msg → finds_counts es →
  (msg = get_message → ∀ r, ELookup 0 r ∈ es → is_Some r) → good_reply conn_data msg reply.
Proof.
  intros Ha Hmsg Hes Hfind. destruct (hot_message_request msg Hmsg) as (op & value & Hdel & Hreq & Hget).
  pose proof (parse_key_to_string 0 zero_u64) as Hkey0.
  destruct Ha as [text Ht|u p ok Ht|es Ht|op' key value' Ht Hk|op' key value' k es reply Ht Hk Hop];
    rewrite Hreq in Ht; try done; injection Ht as <- <- <-; rewrite Hkey0 in Hk; [done|]. injection Hk as <-.
  assert (∀ r es', es = ELookup 0 r :: es' → ∀ v, r = Some v → value_ok v) as Hfound.
  { intros r es' -> v ->. destruct (Hes v) as (n & Hn & ->); [by apply elem_of_cons; left|]. apply count_value_ok.
    unfold is_u64, u64_max, llong_max in *. lia. }
  split_and!.
  - destruct Hop as [v0| |es Hf Hor| |v0|v0 es Hf Hor|r|r]; try done;
      (apply op_reply_ok; [apply zero_u64|by eapply Hfound]).
  - intros ->. by destruct (login_not_hot Hmsg).
  - intros ->. rewrite (Hget eq_refl) in *. inversion Hop as [| | | | | |r|]; subst.
    destruct (Hfind eq_refl r) as [v ->]; [by apply elem_of_cons; left|].
    destruct (Hes v) as (n & Hn & ->); [by apply elem_of_cons; left|]. by exists n.
Qed.

(** *** Rounds in their places *)

Lemma exchanges_nth fd auth hs k reply :
  exchanges fd auth hs → told (rights hs) !! k = Some reply →
  ∃ before auth0 msg es tk auth1 after, hs = (before ++ exchange fd msg es tk reply) ++ after ∧
    exchanges fd auth0 before ∧ answering (upto_nul msg) auth0 es tk reply auth1 ∧
    length (said (rights before)) = k.
Proof.
  intros Hx. induction Hx as [|auth hs msg es tk reply' auth' Hx IH Ha]; [done|].
  rewrite rights_app, rights_exchange.
  destruct (round_said fd msg tk reply' (answering_silent _ _ _ _ _ _ Ha) (rights hs)) as [_ ->].
  intros [Hk|[Hge Hk]]%lookup_app_Some.
  - destruct (IH Hk) as (before & auth0 & msg0 & es0 & tk0 & auth1 & after & -> & H). rewrite <- app_assoc.
    by exists before, auth0, msg0, es0, tk0, auth1, (after ++ exchange fd msg es tk reply').
  - apply list_lookup_singleton_Some in Hk as [Hk ->].
    exists hs, auth, msg, es, tk, auth', []. rewrite app_nil_r. split_and!; [done..|].
    rewrite (rounds_length _ _ _ _ (exchanges_rounds _ _ _ Hx)). lia.
Qed.

Lemma ordered_nth fd hs k reply :
  ordered_dialogue fd hs → told (rights hs) !! k = Some reply →
  ∃ before auth0 msg es tk auth1 after, hs = (before ++ exchange fd msg es tk reply) ++ after ∧
    exchanges fd auth0 before ∧ answering (upto_nul msg) auth0 es tk reply auth1 ∧
    length (said (rights before)) = k.
Proof.
  intros (auth & hs0 & Hx & [->|(msg & es & tk & -> & Hp)]) Hk; [by eapply exchanges_nth|].
  rewrite rights_app in Hk. change (rights (inr (Said fd msg) :: meanwhile es tk)) with
    (Said fd msg :: rights (meanwhile es tk)) in Hk. rewrite rights_meanwhile, told_app in Hk.
  destruct (pending_silent _ _ _ _ Hp) as [_ Ht]. cbn in Hk. fold (told tk) in Hk. rewrite Ht, app_nil_r in Hk.
  destruct (exchanges_nth _ _ _ _ _ Hx Hk) as (before & auth0 & msg0 & es0 & tk0 & auth1 & after & -> & H).
  rewrite <- app_assoc. by exists before, auth0, msg0, es0, tk0, auth1, (after ++ inr (Said fd msg) :: meanwhile es tk).
Qed.

(** The message of that round, and whether the client had logged in. *)
Lemma nth_message fd hs k msg reply before auth0 msg0 es tk auth1 after :
  hs = (before ++ exchange fd msg0 es tk reply) ++ after → exchanges fd auth0 before →
  answering (upto_nul msg0) auth0 es tk reply auth1 → length (said (rights before)) = k →
  good_messages (said (rights hs)) → pam_welcomes (rights hs) → said (rights hs) !! k = Some msg →
  msg0 = msg ∧ auth0 = bool_decide (k ≠ 0%nat) ∧ good_message conn_data auth0 msg ∧ pam_welcomes tk.
Proof.
  intros -> Hx Ha <- Hgood Hpam Hk.
  destruct (round_said fd msg0 tk reply (answering_silent _ _ _ _ _ _ Ha) (rights before)) as [Hs _].
  rewrite !rights_app, rights_exchange in Hgood, Hpam, Hk. rewrite said_app, Hs in Hgood, Hk.
  apply pam_welcomes_app in Hpam as [[Hpam Hpam']%pam_welcomes_app _].
  apply good_messages_prefix, good_messages_snoc in Hgood as [Hgood Hmsg].
  rewrite <- app_assoc in Hk. cbn [app] in Hk. rewrite list_lookup_middle in Hk by done. injection Hk as ->.
  pose proof (rounds_auth _ _ _ _ (exchanges_rounds _ _ _ Hx) Hgood Hpam) as Hauth. split_and!; [done| |by rewrite Hauth|].
  - rewrite Hauth. apply bool_decide_ext. by destruct (said (rights before)).
  - intros ok Hin. apply Hpam'. rewrite elem_of_cons, elem_of_app. auto.
Qed.

Lemma ordered_hot fd hs :
  ordered_dialogue fd hs → good_messages (said (rights hs)) → pam_welcomes (rights hs) →
  finds_counts (lefts hs) → gets_find hs →
  ∀ k msg reply, said (rights hs) !! k = Some msg → told (rights hs) !! k = Some reply → good_reply conn_data msg reply.
Proof.
  intros Hd Hgood Hpam Hcounts Hfind k msg reply Hk Hk'.
  destruct (ordered_nth _ _ _ _ Hd Hk') as (before & auth0 & msg0 & es & tk & auth1 & after & Hhs & Hx & Ha & Hlen).
  destruct (nth_message _ _ _ _ _ _ _ _ _ _ _ _ Hhs Hx Ha Hlen Hgood Hpam Hk) as (-> & _ & Hmsg & Hpam').
  destruct auth0; cbn [good_message] in Hmsg; [|subst msg; by eapply answering_login].
  eapply answering_hot; [exact Ha|done| |].
  - intros v Hv. apply Hcounts. rewrite Hhs, !lefts_app, lefts_exchange, !elem_of_app. auto.
  - intros -> r Hr. apply (Hfind before fd (meanwhile es tk ++ inr (Told fd reply) :: after)).
    + rewrite Hhs. unfold exchange. by rewrite <- !app_assoc, <- app_comm_cons, <- app_assoc.
    + rewrite elem_of_app, <- elem_lefts, lefts_meanwhile. auto.
Qed.

(** Where an INSERT of the counter has been replied to, it has been carried out. *)
Lemma ordered_insert fd hs1 hs2 k reply :
  ordered_dialogue fd (hs1 ++ hs2) → good_messages (said (rights (hs1 ++ hs2))) → pam_welcomes (rights (hs1 ++ hs2)) →
  said (rights hs1) !! k = Some insert_message → told (rights hs1) !! k = Some reply →
  ∃ es, op_run 0 (count_value 0) OpInsert es reply ∧ ∀ e, e ∈ es → inl e ∈ hs1.
Proof.
  intros Hd Hgood Hpam Hk Hk'.
  assert (said (rights (hs1 ++ hs2)) !! k = Some insert_message) as Hs.
  { rewrite rights_app, said_app. by apply lookup_app_l_Some. }
  assert (told (rights (hs1 ++ hs2)) !! k = Some reply) as Ht.
  { rewrite rights_app, told_app. by apply lookup_app_l_Some. }
  destruct (ordered_nth _ _ _ _ Hd Ht) as (before & auth0 & msg0 & es & tk & auth1 & after & Hhs & Hx & Ha & Hlen).
  destruct (nth_message _ _ _ _ _ _ _ _ _ _ _ _ Hhs Hx Ha Hlen Hgood Hpam Hs) as (-> & _ & Hmsg & _).
  exists es. split.
  - destruct auth0; cbn [good_message] in Hmsg; [|by destruct (login_asks_nothing conn_data) as [_ Hne]; destruct Hne].
    pose proof (parse_key_to_string 0 zero_u64) as Hkey0.
    destruct Ha as [text Hq|u p ok Hq|es Hq|op' key value' Hq Hkey|op' key value' k' es reply Hq Hkey Hop];
      rewrite insert_request in Hq; try done; injection Hq as <- <- <-; rewrite Hkey0 in Hkey; [done|].
    injection Hkey as <-. rewrite stored_text_id in Hop; [done|]. apply count_value_ok, zero_u64.
  - intros e He.
    assert (∃ r, hs1 = (before ++ exchange fd insert_message es tk reply) ++ r) as [r ->].
    { apply app_eq_inv in Hhs as [(r & -> & _)|(r & Hr & _)]; [by exists r|].
      destruct r as [|x r _] using rev_ind; [exists []; by rewrite Hr, !app_nil_r|]. exfalso.
      unfold exchange in Hr. rewrite app_comm_cons, !app_assoc in Hr. apply app_inj_tail in Hr as [Hr _].
      apply (f_equal (λ hs, told (rights hs))) in Hr. rewrite !rights_app, !told_app in Hr.
      change (rights (inr (Said fd insert_message) :: meanwhile es tk)) with
        (Said fd insert_message :: rights (meanwhile es tk)) in Hr.
      rewrite rights_meanwhile in Hr. cbn in Hr. fold (told tk) in Hr.
      destruct (answering_silent _ _ _ _ _ _ Ha) as [_ Hnone]. rewrite Hnone, app_nil_r in Hr.
      apply lookup_lt_Some in Hk'. pose proof (rounds_length _ _ _ _ (exchanges_rounds _ _ _ Hx)) as Hl.
      apply (f_equal length) in Hr. rewrite length_app in Hr. lia. }
    rewrite !elem_of_app. left. right. by rewrite <- elem_lefts, lefts_exchange.
Qed.

(** At most one message has no reply. *)
Lemma dialogue_length fd es tk :
  dialogue fd es tk → (length (told tk) <= length (said tk) <= S (length (told tk)))%nat.
Proof.
  intros (auth & es0 & tk0 & Hr & [[-> ->]|(msg & es' & tk' & -> & -> & Hp)]);
    pose proof (rounds_length _ _ _ _ Hr) as Hlen; [lia|].
  destruct (pending_silent _ _ _ _ Hp) as [Hs Ht].
  change (Said fd msg :: tk') with ([Said fd msg] ++ tk').
  rewrite !said_app, !told_app, Hs, Ht, !app_nil_r, length_app. simpl. lia.
Qed.

End Rounds.
