(* ===== verification/Network.v ===== *)
(** * The benchmark, the network and the daemon as one system

    The threads of the benchmark are programs over [uact], those of the daemon
    programs over [sact]; between them are the connections.  A connection is a
    queue of bytes in each direction: what one end writes can be read by the other
    at once, and nothing is lost.  Each process has its table of open descriptors,
    and a number is not given out again before it has been closed.

    A step of the daemon is a step of [sys_step], the world outside of which may
    answer as it likes as long as the network agrees; so an execution of the whole
    is one of the daemon. *)

From S2P Require Import Prelude Prog CStr Userland Benchmark.
From S2P Require Import KvIoctl KMem KvHash KLogic KSound KvTable KvStore.
From S2P Require Import KvTrace Kvlkm KvlkmSpec KvDevice KvInterface Daemon Access System Threads.

(** ** Connections *)

Record conn : Type := mk_conn {
  (** Bytes on their way to the daemon, and to the client. *)
  c_request : bytes;
  c_reply : bytes;
  (** An end has been closed. *)
  c_client_gone : bool;
  c_daemon_gone : bool;
}.

(** What a descriptor stands for: connection number [i], or something else. *)
Abbreviation descriptors := (gmap Z (option nat)).

Record net : Type := mk_net {
  (** The connections, in the order in which they were made. *)
  n_conns : list conn;
  (** How many of them [accept] has returned. *)
  n_accepted : nat;
  (** The open descriptors of the benchmark and of the daemon. *)
  n_user : descriptors;
  n_daemon : descriptors;
}.

Definition new_conn : conn := mk_conn [] [] false false.
Definition no_net : net := mk_net [] 0 ∅ ∅.

Definition request_sent (data : bytes) (c : conn) : conn :=
  mk_conn (c_request c ++ data) (c_reply c) (c_client_gone c) (c_daemon_gone c).
Definition request_read (n : nat) (c : conn) : conn :=
  mk_conn (drop n (c_request c)) (c_reply c) (c_client_gone c) (c_daemon_gone c).
Definition reply_sent (data : bytes) (c : conn) : conn :=
  mk_conn (c_request c) (c_reply c ++ data) (c_client_gone c) (c_daemon_gone c).
Definition reply_read (n : nat) (c : conn) : conn :=
  mk_conn (c_request c) (drop n (c_reply c)) (c_client_gone c) (c_daemon_gone c).
Definition client_left (c : conn) : conn := mk_conn (c_request c) (c_reply c) true (c_daemon_gone c).
Definition daemon_left (c : conn) : conn := mk_conn (c_request c) (c_reply c) (c_client_gone c) true.

Definition set_conns (l : list conn) (N : net) : net := mk_net l (n_accepted N) (n_user N) (n_daemon N).
Definition set_user (d : descriptors) (N : net) : net := mk_net (n_conns N) (n_accepted N) d (n_daemon N).
Definition set_daemon (d : descriptors) (N : net) : net := mk_net (n_conns N) (n_accepted N) (n_user N) d.

Definition on_conn (f : conn → conn) (i : nat) (N : net) : net := set_conns (alter f i (n_conns N)) N.

(** The connection of a descriptor. *)
Definition conn_of (d : descriptors) (fd : Z) (N : net) : option (nat * conn) :=
  i ← (x ← d !! fd; x); c ← n_conns N !! i; Some (i, c).

(** [socket], [open]: -1, or a number that is not in use. *)
Definition new_descriptor (fd : Z) (d : descriptors) : option descriptors :=
  if decide (fd = -1) then Some d
  else if decide (0 <= fd ∧ d !! fd = None) then Some (<[fd := None]> d)
  else None.

(** ** The client's end

    [user_net e N x]: the network after the action [e], if [x] can be its answer.
    Writing to a daemon that is gone may still succeed. *)
Definition user_net {X : Type} (e : uact X) (N : net) : X → option net :=
  match e in uact X return X → option net with
  | USocket => λ fd, (λ d, set_user d N) <$> new_descriptor fd (n_user N)
  | Connect fd => λ r,
      if decide (r < 0) then Some N
      else
        match n_user N !! fd with
        | Some None =>
            Some (set_user (<[fd := Some (length (n_conns N))]> (n_user N))
                   (set_conns (n_conns N ++ [new_conn]) N))
        | _ => None
        end
  | USend fd data => λ r,
      match conn_of (n_user N) fd N with
      | Some (i, c) =>
          if c_daemon_gone c then Some N
          else if decide (r = Z.of_nat (length data)) then Some (on_conn (request_sent data) i N) else None
      | None => if decide (r < 0) then Some N else None
      end
  | URead fd n => λ answer,
      match conn_of (n_user N) fd N, answer with
      | Some (i, c), Some data =>
          if decide (data = take n (c_reply c) ∧ (data ≠ [] ∨ c_daemon_gone c = true))
          then Some (on_conn (reply_read n) i N) else None
      | Some _, None => None
      | None, None => Some N
      | None, Some _ => None
      end
  | UClose fd => λ _,
      let N' := set_user (delete fd (n_user N)) N in
      Some match conn_of (n_user N) fd N with
           | Some (i, _) => on_conn client_left i N'
           | None => N'
           end
  | _ => λ _, Some N
  end.

(** What the threads of the benchmark share besides. *)
Record shared : Type := mk_shared {
  sh_stop : bool;
  sh_counters : counter → Z;
  sh_out : list item;
}.

Definition user_shared {X : Type} (e : uact X) (others_done : bool) (sh : shared) : X → option shared :=
  match e in uact X return X → option shared with
  | UPrint t => λ _, Some (mk_shared (sh_stop sh) (sh_counters sh) (sh_out sh ++ [t]))
  | InitShared => λ _, Some (mk_shared false (λ _, 0) (sh_out sh))
  | StopLoad => λ b, if decide (b = sh_stop sh) then Some sh else None
  | StopStore => λ _, Some (mk_shared true (sh_counters sh) (sh_out sh))
  | CounterAdd c => λ _, Some (mk_shared (sh_stop sh) (bump c (sh_counters sh)) (sh_out sh))
  | CounterLoad c => λ n, if decide (n = sh_counters sh c) then Some sh else None
  | JoinAll => λ _, if others_done then Some sh else None
  | _ => λ _, Some sh
  end.

Definition started_jobs {X : Type} (e : uact X) : list job :=
  match e with Spawn j => [j] | _ => [] end.

(** ** The daemon's end

    Nobody asks the daemon to stop.  A [read] may be interrupted. *)
Definition host_net {X : Type} (e : dact X) (N : net) : X → option net :=
  match e in dact X return X → option net with
  | DevOpen | Socket => λ fd, (λ d, set_daemon d N) <$> new_descriptor fd (n_daemon N)
  | Accept _ => λ answer,
      match answer with
      | AcceptErr _ => Some N
      | AcceptFd fd =>
          if decide (0 <= fd ∧ n_daemon N !! fd = None ∧ (n_accepted N < length (n_conns N))%nat)
          then Some (mk_net (n_conns N) (S (n_accepted N)) (n_user N)
                      (<[fd := Some (n_accepted N)]> (n_daemon N)))
          else None
      end
  | Recv fd n => λ answer,
      match conn_of (n_daemon N) fd N, answer with
      | Some (i, c), RecvData data =>
          if decide (data = take n (c_request c) ∧ data ≠ [])
          then Some (on_conn (request_read n) i N) else None
      | Some (i, c), RecvEof => if decide (c_request c = [] ∧ c_client_gone c = true) then Some N else None
      | Some (i, c), RecvErr eintr => if eintr : bool then Some N else None
      | None, RecvErr false => Some N
      | None, _ => None
      end
  | Send fd data => λ r,
      match conn_of (n_daemon N) fd N with
      | Some (i, c) =>
          if c_client_gone c then Some N
          else if decide (r = Z.of_nat (length data)) then Some (on_conn (reply_sent data) i N) else None
      | None => if decide (r < 0) then Some N else None
      end
  | Close fd => λ _,
      let N' := set_daemon (delete fd (n_daemon N)) N in
      Some match conn_of (n_daemon N) fd N with
           | Some (i, _) => on_conn daemon_left i N'
           | None => N'
           end
  | GetShutdownRequested => λ requested, if requested : bool then None else Some N
  | _ => λ _, Some N
  end.

Definition daemon_net {X : Type} (e : sact X) (N : net) : X → option net :=
  match e in sact X return X → option net with
  | SKern _ => λ _, Some N
  | SHost e => host_net e N
  end.

(** ** All of it *)

Record whole : Type := mk_whole {
  w_daemon : list (sprog unit) * sst;
  w_net : net;
  w_user : list (uprog unit);
  w_shared : shared;
}.

(** Every thread but number [t] has returned. *)
Definition others_done (t : nat) (us : list (uprog unit)) : bool :=
  forallb is_ret (take t us ++ drop (S t) us).

Section Steps.
Context {ioc_api : IocApi} {api : KernelApi} {env : Outside}.
Variables (store : hash_table) (client_fuel : nat).
Variables (bench_fuel : nat) (conn_data : connection_data).

Inductive whole_step : whole → whole → Prop :=
  | whole_daemon ps s N us sh j X e k x s' N' :
      ps !! j = Some (Vis e k) → sexec X e s = Done x s' → daemon_net e N x = Some N' →
      whole_step (mk_whole (ps, s) N us sh)
        (mk_whole
          (<[j := k x]> ps ++ (unfold_calls store <$> (client_thread client_fuel <$> spawns (logged e x))), s')
          N' us sh)
  | whole_user D N us sh t X (e : uact X) k x N' sh' :
      us !! t = Some (Vis e k) → user_net e N x = Some N' →
      user_shared e (others_done t us) sh x = Some sh' →
      whole_step (mk_whole D N us sh)
        (mk_whole D N' (<[t := k x]> us ++ (job_body bench_fuel conn_data <$> started_jobs e)) sh').

(** The daemon has its part in an execution of the whole. *)
Lemma whole_step_run c0 GA w w' :
  whole_step w w' → sys_run store client_fuel c0 GA (w_daemon w) →
  ∃ GA', sys_run store client_fuel c0 (GA ++ GA') (w_daemon w').
Proof.
  destruct 1 as [ps s N us sh j X e k x s' N' Hj He _|]; intros Hrun; cbn [w_daemon] in *.
  - eexists. by eapply run_thread.
  - exists []. by rewrite app_nil_r.
Qed.

Lemma whole_run D0 N0 us0 sh0 w :
  rtc whole_step (mk_whole D0 N0 us0 sh0) w → ∃ GA, sys_run store client_fuel D0 GA (w_daemon w).
Proof.
  revert w. apply rtc_ind_r; [exists []; constructor|].
  intros w w' _ Hstep [GA Hrun]. destruct (whole_step_run _ _ _ _ Hstep Hrun) as [GA' H]. by exists (GA ++ GA').
Qed.

(** An executable scheduler: [inl j] lets thread [j] of the daemon go on, [inr (t,
    whim)] thread [t] of the benchmark, where [whim] answers what neither the
    network nor the shared state decides; a thread that has to wait is left out. *)
Definition whims : Type := ∀ X : Type, uact X → net → shared → option X.

Definition turn (who : nat + nat * whims) (w : whole) : whole :=
  let '(mk_whole (ps, s) N us sh) := w in
  match who with
  | inl j =>
      match ps !! j with
      | Some (@Vis _ _ X e k) =>
          match sexec X e s with
          | Done x s' =>
              match daemon_net e N x with
              | Some N' =>
                  mk_whole
                    (<[j := k x]> ps ++ (unfold_calls store <$> (client_thread client_fuel <$> spawns (logged e x))), s')
                    N' us sh
              | None => w
              end
          | _ => w
          end
      | _ => w
      end
  | inr (t, whim) =>
      match us !! t with
      | Some (@Vis _ _ X e k) =>
          match whim X e N sh with
          | Some x =>
              match user_net e N x, user_shared e (others_done t us) sh x with
              | Some N', Some sh' =>
                  mk_whole (ps, s) N' (<[t := k x]> us ++ (job_body bench_fuel conn_data <$> started_jobs e)) sh'
              | _, _ => w
              end
          | None => w
          end
      | _ => w
      end
  end.

Definition turns (l : list (nat + nat * whims)) (w : whole) : whole := foldl (λ w who, turn who w) w l.

Lemma turn_step who w : rtc whole_step w (turn who w).
Proof.
  destruct w as [[ps s] N us sh], who as [j|[t whim]]; cbn [turn].
  - destruct (ps !! j) as [[a|X e k]|] eqn:Hj; [done| |done].
    destruct (sexec X e s) as [x s'| |] eqn:He; [|done..].
    destruct (daemon_net e N x) as [N'|] eqn:HN; [|done]. apply rtc_once. by econstructor.
  - destruct (us !! t) as [[a|X e k]|] eqn:Ht; [done| |done].
    destruct (whim X e N sh) as [x|]; [|done].
    destruct (user_net e N x) as [N'|] eqn:HN; [|done].
    destruct (user_shared _ _ _ _) as [sh'|] eqn:Hsh; [|done]. apply rtc_once. by econstructor.
Qed.

Lemma turns_steps l w : rtc whole_step w (turns l w).
Proof.
  revert w. induction l as [|who l IH]; intros w; [done|]. cbn [turns foldl].
  etrans; [apply turn_step|apply IH].
Qed.

End Steps.
