(* ===== verification/Composed.v ===== *)
(** * The invariant of the benchmark, the network and the daemon together

    For every connection, the messages that its client has sent are those that the
    daemon's thread has received, and what is still on the way; and the replies that
    the daemon's thread has sent are those that the client has read, and what is
    still on the way. *)

From S2P Require Import Prelude Prog CStr Userland Benchmark UserSpec BenchSpec BenchKeys.
From S2P Require Import KvIoctl KMem KvHash KLogic KSound KvHashSpec KvTable KvStore.
From S2P Require Import KvTrace Kvlkm KvlkmSpec KvDevice KvInterface Daemon DaemonSpec Access.
From S2P Require Import System.
From S2P Require Import Threads SystemSpec Dialogue Isolation SavedFile Spawning DaemonSystem.
From S2P Require Import Moments.
From S2P Require Import Descriptors HotKey HotClients HotRounds Network.

(** ** One connection *)

(** What is on the way, as messages: there is never more than one. *)
Definition in_flight (data : bytes) : list bytes := match data with [] => [] | _ => [data] end.

Lemma in_flight_one data : data ≠ [] → in_flight data = [data].
Proof. by destruct data. Qed.

Lemma in_flight_nil data : length (in_flight data) = 0%nat → data = [].
Proof. by destruct data. Qed.

Section Conn.
Variable conn_data : connection_data.
Hypothesis words : words_ok conn_data.

(** [sent] and [read] are the messages that the client has sent and the replies it
    has read, [tk] is the conversation of the daemon's thread, which is in the
    stage [st] when it has been started. *)
Record conn_ok (c : conn) (sent read : list bytes) (tk : list talk) (st : option stage) : Prop := {
  co_sent : sent = said tk ++ in_flight (c_request c);
  co_read : told tk = read ++ in_flight (c_reply c);
  co_good : good_messages conn_data sent;
  co_length : (length read <= length sent <= S (length read))%nat;
  co_gone : c_client_gone c = true → length sent = length read;
  co_stage : st = Some HungUp ∨ st = Some Closed → c_client_gone c = true;
  co_daemon : c_daemon_gone c = true → c_client_gone c = true;
}.

Lemma conn_ok_new st : st = None → conn_ok new_conn [] [] [] st.
Proof. intros ->. split; try done; simpl; [lia|by intros [?|?]]. Qed.

Lemma conn_ok_said c sent read tk st : conn_ok c sent read tk st → good_messages conn_data (said tk).
Proof. intros [Hs _ Hg _ _ _ _]. rewrite Hs in Hg. by eapply good_messages_prefix. Qed.

Lemma conn_ok_talk c sent read tk tk' st :
  said tk' = said tk → told tk' = told tk → conn_ok c sent read tk st → conn_ok c sent read tk' st.
Proof. intros Hsaid Htold [Hs Hr Hg Hl Hgone Hst Hd]. by split; rewrite ?Hsaid, ?Htold. Qed.

(** *** The daemon's thread *)

Lemma conn_ok_recv fd c sent read tk data :
  conn_ok c sent read tk (Some Serving) →
  data = take (BUFFER_SIZE - 1) (c_request c) → data ≠ [] →
  conn_ok (request_read (BUFFER_SIZE - 1) c) sent read (tk ++ [Said fd data]) (Some Serving).
Proof.
  intros [Hs Hr Hg Hl Hgone _ Hd] Hdata Hne.
  assert (c_request c ≠ []) as Hreq by (intros Hnil; by rewrite Hnil, take_nil in Hdata).
  rewrite in_flight_one in Hs by done.
  assert (length (c_request c) <= BUFFER_SIZE - 1)%nat as Hlen.
  { rewrite Hs in Hg. apply good_messages_snoc in Hg as [_ Hg]. by apply (good_message_ok conn_data words) in Hg as (_ & _ & ?). }
  rewrite take_ge in Hdata by done. subst data.
  split; cbn [c_request c_reply c_client_gone c_daemon_gone request_read]; try done; [| |by intros [?|?]].
  - rewrite drop_ge, said_app, app_nil_r by done. exact Hs.
  - by rewrite told_app, app_nil_r.
Qed.

Lemma conn_ok_hangs_up c sent read tk :
  conn_ok c sent read tk (Some Serving) → c_client_gone c = true → conn_ok c sent read tk (Some HungUp).
Proof. intros [Hs Hr Hg Hl Hgone _ Hd] Hc. by split. Qed.

(** The daemon replies to a message that has no reply yet. *)
Lemma conn_ok_send fd c sent read tk reply :
  conn_ok c sent read tk (Some Serving) → (length (told tk) < length (said tk))%nat → reply ≠ [] →
  c_client_gone c = false ∧ conn_ok (reply_sent reply c) sent read (tk ++ [Told fd reply]) (Some Serving).
Proof.
  intros [Hs Hr Hg Hl Hgone _ Hd] Hlt Hne.
  assert (length sent = length (said tk) + length (in_flight (c_request c)))%nat as Hls
    by (rewrite Hs at 1; apply length_app).
  assert (length (told tk) = length read + length (in_flight (c_reply c)))%nat as Hlr
    by (rewrite Hr; apply length_app).
  assert (c_reply c = []) as Hnil by (apply in_flight_nil; lia).
  split.
  { destruct (c_client_gone c); [|done]. specialize (Hgone eq_refl). lia. }
  split; cbn [c_request c_reply c_client_gone c_daemon_gone reply_sent]; try done; [| |by intros [?|?]].
  - by rewrite said_app, app_nil_r.
  - rewrite told_app, Hr, Hnil, app_nil_r. by rewrite in_flight_one.
Qed.

Lemma conn_ok_closed c sent read tk :
  conn_ok c sent read tk (Some HungUp) → conn_ok (daemon_left c) sent read tk (Some Closed).
Proof. intros [Hs Hr Hg Hl Hgone Hst Hd]. specialize (Hst (or_introl eq_refl)). by split. Qed.

Lemma conn_ok_started c sent read tk : conn_ok c sent read tk None → conn_ok c sent read tk (Some Serving).
Proof. intros [Hs Hr Hg Hl Hgone Hst Hd]. split; try done. by intros [?|?]. Qed.

(** *** The client *)

(** Every message has its reply: nothing is on the way. *)
Lemma conn_ok_idle c sent read tk st :
  conn_ok c sent read tk st → length sent = length read → (length (told tk) <= length (said tk))%nat →
  c_request c = [] ∧ c_reply c = [].
Proof.
  intros [Hs Hr _ _ _ _ _] Heq Hle.
  assert (length sent = length (said tk) + length (in_flight (c_request c)))%nat as Hls
    by (rewrite Hs at 1; apply length_app).
  assert (length (told tk) = length read + length (in_flight (c_reply c)))%nat as Hlr
    by (rewrite Hr; apply length_app).
  split; apply in_flight_nil; lia.
Qed.

Lemma conn_ok_request c sent read tk st msg :
  conn_ok c sent read tk st → length sent = length read → (length (told tk) <= length (said tk))%nat →
  c_client_gone c = false → good_message conn_data (bool_decide (sent ≠ [])) msg →
  conn_ok (request_sent msg c) (sent ++ [msg]) read tk st.
Proof.
  intros Hc Heq Hle Hgone Hmsg. destruct (conn_ok_idle _ _ _ _ _ Hc Heq Hle) as [Hreq Hrep].
  pose proof (good_message_ok conn_data words _ _ Hmsg) as (Hne & _ & _).
  destruct Hc as [Hs Hr Hg Hl Hg2 Hst Hd].
  split; cbn [c_request c_reply c_client_gone c_daemon_gone request_sent]; try done.
  - rewrite Hs, Hreq, app_nil_r. by rewrite in_flight_one.
  - by apply good_messages_snoc.
  - rewrite length_app. simpl. lia.
  - congruence.
Qed.

(** The reply that is on the way is the one to the last message. *)
Lemma conn_ok_waits c sent msg read tk st :
  conn_ok c (sent ++ [msg]) read tk st → length sent = length read → c_reply c ≠ [] →
  (length (told tk) <= length (said tk))%nat →
  said tk !! length read = Some msg ∧ told tk !! length read = Some (c_reply c) ∧
  ∀ n, (length (c_reply c) <= n)%nat → conn_ok (reply_read n c) (sent ++ [msg]) (read ++ [c_reply c]) tk st.
Proof.
  intros [Hs Hr Hg Hl Hg2 Hst Hd] Heq Hne Hle.
  rewrite in_flight_one in Hr by done.
  assert (length (sent ++ [msg]) = length (said tk) + length (in_flight (c_request c)))%nat as Hls
    by (rewrite Hs; apply length_app).
  assert (length (told tk) = length read + 1)%nat as Hlr by (rewrite Hr; apply length_app).
  rewrite length_app in Hls. cbn [length] in Hls.
  assert (c_request c = []) as Hreq by (apply in_flight_nil; lia).
  rewrite Hreq in Hs. cbn [in_flight] in Hs. rewrite app_nil_r in Hs.
  split_and!.
  - rewrite <- Hs, <- Heq. by apply list_lookup_middle.
  - rewrite Hr. by apply list_lookup_middle.
  - intros n Hn. split; cbn [c_request c_reply c_client_gone c_daemon_gone reply_read]; try done.
    + by rewrite Hreq, app_nil_r.
    + by rewrite drop_ge, app_nil_r.
    + rewrite !length_app in *. simpl in *. lia.
    + rewrite !length_app in *. simpl in *. lia.
Qed.

Lemma conn_ok_leaves c sent read tk st :
  conn_ok c sent read tk st → length sent = length read → conn_ok (client_left c) sent read tk st.
Proof. intros [Hs Hr Hg Hl Hgone Hst Hd] Heq. by split. Qed.

End Conn.
