(* ===== verification/Together.v ===== *)
(** * The two ends of the connections

    The threads of the benchmark keep to their own connections, and the descriptors
    of the daemon stand for the connections its threads were started for. *)

From S2P Require Import Prelude Prog CStr Userland Benchmark UserSpec BenchSpec BenchKeys.
From S2P Require Import KvIoctl KMem KvHash KLogic KSound KvHashSpec KvTable KvStore.
From S2P Require Import KvTrace Kvlkm KvlkmSpec KvDevice KvInterface Daemon DaemonSpec Access.
From S2P Require Import System.
From S2P Require Import Threads SystemSpec Dialogue Isolation SavedFile Spawning DaemonSystem.
From S2P Require Import Moments.
From S2P Require Import Descriptors HotKey HotClients HotRounds Network Composed.

(** ** Descriptors of the client *)

Lemma conn_of_Some d fd N i c : conn_of d fd N = Some (i, c) ↔ d !! fd = Some (Some i) ∧ n_conns N !! i = Some c.
Proof.
  unfold conn_of. split.
  - intros (i' & Hi & (c' & Hc & [= <- <-])%bind_Some)%bind_Some. split; [|done].
    apply bind_Some in Hi as (x & Hx & ->). done.
  - intros [Hd Hc]. rewrite Hd. simpl. by rewrite Hc.
Qed.

Lemma new_descriptor_Some fd d d' :
  new_descriptor fd d = Some d' → (fd = -1 ∧ d' = d) ∨ (0 <= fd ∧ d !! fd = None ∧ d' = <[fd := None]> d).
Proof. unfold new_descriptor. repeat case_decide; intros [= <-]; [by left|right; tauto]. Qed.

Definition gone (N : net) : list bool := c_client_gone <$> n_conns N.

Lemma gone_on_conn f i N : (∀ c, c_client_gone (f c) = c_client_gone c) → gone (on_conn f i N) = gone N.
Proof.
  intros Hf. unfold gone, on_conn. cbn [n_conns set_conns]. apply list_eq. intros j.
  rewrite !list_lookup_fmap. destruct (decide (i = j)) as [->|Hne].
  - rewrite list_lookup_alter_eq. destruct (n_conns N !! j); simpl; by rewrite ?Hf.
  - by rewrite list_lookup_alter_ne.
Qed.

Lemma length_on_conn f i N : length (n_conns (on_conn f i N)) = length (n_conns N).
Proof. apply length_alter. Qed.

Lemma lookup_on_conn f i N c : n_conns N !! i = Some c → n_conns (on_conn f i N) !! i = Some (f c).
Proof. intros Hc. unfold on_conn. cbn [n_conns set_conns]. by rewrite list_lookup_alter_eq, Hc. Qed.

Lemma lookup_on_conn_ne f i j N : i ≠ j → n_conns (on_conn f i N) !! j = n_conns N !! j.
Proof. intros Hne. unfold on_conn. cbn [n_conns set_conns]. by rewrite list_lookup_alter_ne. Qed.

(** ** The clients *)

(** Of every connection, what was sent and what was read. *)
Abbreviation transcripts := (list (list bytes * list bytes)).

Section Users.
Variable conn_data : connection_data.

(** There is a reply to an INSERT of the counter. *)
Variable inserted : Prop.

(** The program of a thread goes on as it should from the state of its connection,
    and from what it knows of [inserted]. *)
Definition thread_ok (p : uprog unit) (st : usock) : Prop :=
  ∃ ready : bool, (ready = true → inserted) ∧ speaks conn_data p (λ _ _ _, True) ready st.

Definition sock_fd (st : usock) : option Z :=
  match st with NoSocket => None | Unconnected fd | Online fd _ | Waits fd _ => Some fd end.

Definition sock_ok (d : descriptors) (g : list bool) (gh : transcripts) (st : usock) : Prop :=
  match st with
  | NoSocket => True
  | Unconnected fd => d !! fd = Some None
  | Online fd logged =>
      ∃ i sent read, d !! fd = Some (Some i) ∧ g !! i = Some false ∧ gh !! i = Some (sent, read) ∧
        length sent = length read ∧ logged = bool_decide (sent ≠ [])
  | Waits fd msg =>
      ∃ i sent read, d !! fd = Some (Some i) ∧ g !! i = Some false ∧ gh !! i = Some (sent ++ [msg], read) ∧
        length sent = length read
  end.

Record users_ok (us : list (uprog unit)) (d : descriptors) (g : list bool) (gh : transcripts)
    (sts : list usock) : Prop := {
  uo_threads : Forall2 thread_ok us sts;
  uo_sock t st : sts !! t = Some st → sock_ok d g gh st;
  uo_apart t t' st st' fd : sts !! t = Some st → sts !! t' = Some st' →
    sock_fd st = Some fd → sock_fd st' = Some fd → t = t';
  uo_range fd i : d !! fd = Some (Some i) → (i < length g)%nat;
  uo_inj fd fd' i : d !! fd = Some (Some i) → d !! fd' = Some (Some i) → fd = fd';
}.

Lemma users_thread us d g gh sts t p :
  users_ok us d g gh sts → us !! t = Some p → ∃ st, sts !! t = Some st ∧ thread_ok p st ∧ sock_ok d g gh st.
Proof.
  intros Hu Ht. destruct (Forall2_lookup_l _ _ _ _ _ (uo_threads _ _ _ _ _ Hu) Ht) as (st & Hst & Hp).
  exists st. split_and!; [done..|]. by eapply uo_sock.
Qed.

(** Another thread's connection is another one. *)
Lemma sock_ok_other d g gh fd i st2 d' g' gh' :
  (∀ fd2, fd2 ≠ fd → d' !! fd2 = d !! fd2) → (∀ i2, i2 ≠ i → g' !! i2 = g !! i2) → (∀ i2, i2 ≠ i → gh' !! i2 = gh !! i2) →
  (∀ fd', d !! fd' = Some (Some i) → fd' = fd) → sock_fd st2 ≠ Some fd → sock_ok d g gh st2 → sock_ok d' g' gh' st2.
Proof.
  intros Hd Hg Hgh Hi Hne. destruct st2 as [|fd2|fd2 logged|fd2 msg]; cbn [sock_ok sock_fd] in *.
  - done.
  - intros H. by rewrite Hd by congruence.
  - intros (i2 & sent & read & H1 & H2 & H3 & H). assert (i2 ≠ i) by (intros ->; apply Hi in H1; congruence).
    exists i2, sent, read. by rewrite Hd, Hg, Hgh by congruence.
  - intros (i2 & sent & read & H1 & H2 & H3 & H). assert (i2 ≠ i) by (intros ->; apply Hi in H1; congruence).
    exists i2, sent, read. by rewrite Hd, Hg, Hgh by congruence.
Qed.

(** One thread has gone on, and has maybe started others. *)
Lemma users_next us d g gh sts t p st p' st' new d' g' gh' :
  users_ok us d g gh sts → us !! t = Some p → sts !! t = Some st → thread_ok p' st' → sock_ok d' g' gh' st' →
  Forall (λ p, thread_ok p NoSocket) new →
  (∀ t2 st2, sts !! t2 = Some st2 → t2 ≠ t → sock_ok d' g' gh' st2 ∧ (∀ fd, sock_fd st' = Some fd → sock_fd st2 ≠ Some fd)) →
  (∀ fd i, d' !! fd = Some (Some i) → (i < length g')%nat) →
  (∀ fd fd' i, d' !! fd = Some (Some i) → d' !! fd' = Some (Some i) → fd = fd') →
  users_ok (<[t := p']> us ++ new) d' g' gh' (<[t := st']> sts ++ replicate (length new) NoSocket).
Proof.
  intros Hu Ht Hst Hp' Hst' Hnew Hother Hrange Hinj. pose proof (uo_threads _ _ _ _ _ Hu) as H2.
  assert (∀ t2 st2, (<[t := st']> sts ++ replicate (length new) NoSocket) !! t2 = Some st2 →
    (t2 = t ∧ st2 = st') ∨ (t2 ≠ t ∧ sts !! t2 = Some st2) ∨ st2 = NoSocket) as Hcases.
  { intros t2 st2 [Hl|[_ [-> _]%lookup_replicate]]%lookup_app_Some; [|by right; right].
    destruct (decide (t2 = t)) as [->|Hne].
    - left. rewrite list_lookup_insert_eq in Hl by (by eapply lookup_lt_Some). by injection Hl as <-.
    - right. left. by rewrite list_lookup_insert_ne in Hl. }
  split; [| | |done|done].
  - apply Forall2_app; [by apply Forall2_insert|]. by apply Forall2_replicate_r.
  - intros t2 st2 [[-> ->]|[[Hne Hl]| ->]]%Hcases; [done|by apply (Hother t2)|done].
  - intros t1 t2 st1 st2 fd Hl1 Hl2 Hfd1 Hfd2.
    destruct (Hcases _ _ Hl1) as [[-> ->]|[[Hne1 H1]| ->]]; [| |done];
      destruct (Hcases _ _ Hl2) as [[-> ->]|[[Hne2 H2']| ->]]; try done.
    + by destruct (proj2 (Hother _ _ H2' Hne2) fd Hfd1).
    + by destruct (proj2 (Hother _ _ H1 Hne1) fd Hfd2).
    + by eapply (uo_apart _ _ _ _ _ Hu).
Qed.

(** It keeps its connection, and nothing else changes. *)
Lemma users_same us d g gh sts t p st p' new :
  users_ok us d g gh sts → us !! t = Some p → sts !! t = Some st → thread_ok p' st →
  Forall (λ p, thread_ok p NoSocket) new →
  users_ok (<[t := p']> us ++ new) d g gh (sts ++ replicate (length new) NoSocket).
Proof.
  intros Hu Ht Hst Hp' Hnew. rewrite <- (list_insert_id sts t st) by done.
  apply (users_next us d g gh sts t p st p' st new d g gh Hu Ht Hst Hp');
    [by eapply uo_sock|done| |by eapply uo_range|by eapply uo_inj].
  intros t2 st2 Hst2 Hne. split; [by eapply uo_sock|]. intros fd Hfd Hfd2. destruct Hne. by eapply uo_apart.
Qed.

(** Only the connection [i], which is the thread's own, changes. *)
Lemma users_own us d g gh sts t p st p' st' fd i g' gh' :
  users_ok us d g gh sts → us !! t = Some p → sts !! t = Some st → thread_ok p' st' →
  sock_fd st = Some fd → d !! fd = Some (Some i) → sock_fd st' = Some fd → length g' = length g →
  (∀ i2, i2 ≠ i → g' !! i2 = g !! i2) → (∀ i2, i2 ≠ i → gh' !! i2 = gh !! i2) →
  sock_ok d g' gh' st' → users_ok (<[t := p']> us) d g' gh' (<[t := st']> sts).
Proof.
  intros Hu Ht Hst Hp' Hfd Hd Hfd' Hlen Hg Hgh Hok.
  rewrite <- (app_nil_r (<[t := p']> us)), <- (app_nil_r (<[t := st']> sts)).
  apply (users_next _ _ _ _ _ _ _ _ _ _ [] _ _ _ Hu Ht Hst); [done|done|done| | |].
  - intros t2 st2 Hst2 Hne.
    assert (sock_fd st2 ≠ Some fd) as Hne2 by (intros ?; destruct Hne; by eapply uo_apart).
    split; [|by intros ? [= <-]%(eq_trans (eq_sym Hfd'))].
    eapply sock_ok_other; [done|exact Hg|exact Hgh| |exact Hne2|by eapply uo_sock].
    intros fd' Hd'. by eapply (uo_inj _ _ _ _ _ Hu).
  - intros fd2 i2 H. rewrite Hlen. by eapply uo_range.
  - intros fd2 fd3 i2. by eapply uo_inj.
Qed.

End Users.

(** More is known. *)
Lemma users_ok_mono conn_data (inserted inserted' : Prop) us d g gh sts :
  (inserted → inserted') → users_ok conn_data inserted us d g gh sts → users_ok conn_data inserted' us d g gh sts.
Proof.
  intros Hmono [Hthreads Hsock Hapart Hrange Hinj]. split; [|done..].
  eapply Forall2_impl; [exact Hthreads|]. intros p st (ready & Hready & Hp). exists ready. auto.
Qed.

(** ** The descriptors of the daemon *)

(** Every connection that was accepted belongs to the thread that was started for
    it, until that thread closes it. *)
Record table_ok (log : list answered) (d : descriptors) (accepted : nat) (ms : main_state) (sts : list stage)
    : Prop := {
  to_stages : length sts = length (spawns log);
  to_nodup : NoDup (ms_own ms);
  to_own fd : fd ∈ ms_own ms → d !! fd = Some None;
  to_accepted : accepted = (length (spawns log) + (if ms_accepted ms is Some _ then 1 else 0))%nat;
  to_pending fd : ms_accepted ms = Some fd → d !! fd = Some (Some (length (spawns log)));
  to_serving i fd kv_fd st :
    spawns log !! i = Some (fd, kv_fd) → sts !! i = Some st → st ≠ Closed → d !! fd = Some (Some i);
}.

Lemma spawns_snoc log a : spawns (log ++ [a]) = spawns log ++ spawned a.
Proof. rewrite spawns_app. unfold spawns at 2. rewrite bind_cons. apply f_equal, app_nil_r. Qed.

Lemma table_keeps log d acc ms sts a :
  table_ok log d acc ms sts → spawned a = [] → table_ok (log ++ [a]) d acc ms sts.
Proof. intros [? ? ? ? ? ?] Ha. by split; rewrite ?spawns_snoc, ?Ha, ?app_nil_r. Qed.

Lemma table_opens log d acc own pending sts fd :
  table_ok log d acc (mk_main own pending) sts → d !! fd = None →
  table_ok log (<[fd := None]> d) acc (mk_main (fd :: own) pending) sts.
Proof.
  intros [Hst Hnd Hown Hacc Hpend Hserv] Hnew. cbn [ms_own ms_accepted] in *.
  assert (∀ fd2 x, d !! fd2 = Some x → <[fd := None]> d !! fd2 = Some x) as Hkeep.
  { intros fd2 x Hfd2. rewrite lookup_insert_ne; [done|congruence]. }
  split; cbn [ms_own ms_accepted]; try done; eauto.
  - apply NoDup_cons. split; [intros Hin%Hown; congruence|done].
  - intros fd2 [->|Hin]%elem_of_cons; [apply lookup_insert_eq|by apply Hkeep, Hown].
Qed.

Lemma table_closes log d acc own pending sts fd :
  table_ok log d acc (mk_main (fd :: own) pending) sts →
  table_ok log (delete fd d) acc (mk_main own pending) sts.
Proof.
  intros [Hst Hnd Hown Hacc Hpend Hserv]. cbn [ms_own ms_accepted] in *.
  pose proof (Hown fd (list_elem_of_here _ _)) as Hfd. apply NoDup_cons in Hnd as [Hnot Hnd].
  assert (∀ fd2 x, d !! fd2 = Some (Some x) → delete fd d !! fd2 = Some (Some x)) as Hkeep.
  { intros fd2 x Hfd2. rewrite lookup_delete_ne; [done|congruence]. }
  split; cbn [ms_own ms_accepted]; try done; eauto.
  intros fd2 Hin. rewrite lookup_delete_ne by congruence. apply Hown, elem_of_cons. by right.
Qed.

Lemma table_accepts log d acc own sts fd :
  table_ok log d acc (mk_main own None) sts → d !! fd = None →
  table_ok log (<[fd := Some acc]> d) (S acc) (mk_main own (Some fd)) sts.
Proof.
  intros [Hst Hnd Hown Hacc _ Hserv] Hnew. cbn [ms_own ms_accepted] in *.
  assert (∀ fd2 x, d !! fd2 = Some x → <[fd := Some acc]> d !! fd2 = Some x) as Hkeep.
  { intros fd2 x Hfd2. rewrite lookup_insert_ne; [done|congruence]. }
  split; cbn [ms_own ms_accepted]; try done; eauto; [lia|].
  intros fd2 [= <-]. rewrite lookup_insert_eq. do 2 f_equal. lia.
Qed.

Lemma table_spawns log d acc own sts fd kv_fd a :
  table_ok log d acc (mk_main own (Some fd)) sts → spawned a = [(fd, kv_fd)] →
  table_ok (log ++ [a]) d acc (mk_main own None) (sts ++ [Serving]).
Proof.
  intros [Hst Hnd Hown Hacc Hpend Hserv] Ha. cbn [ms_own ms_accepted] in *.
  split; cbn [ms_own ms_accepted]; rewrite ?spawns_snoc, ?Ha; try done.
  - rewrite !length_app. simpl. lia.
  - rewrite length_app. simpl. lia.
  - intros i fd2 kv st [H1|[Hge H1]]%lookup_app_Some [H2|[Hge2 H2]]%lookup_app_Some Hne.
    + by eapply Hserv.
    + apply lookup_lt_Some in H1. lia.
    + apply lookup_lt_Some in H2. lia.
    + apply list_lookup_singleton_Some in H1 as [Hi [= <- <-]].
      rewrite (Hpend fd eq_refl). do 2 f_equal. lia.
Qed.

Lemma table_serves log d acc ms sts i st a :
  table_ok log d acc ms sts → spawned a = [] → st ≠ Closed → (∃ st0, sts !! i = Some st0 ∧ st0 ≠ Closed) →
  table_ok (log ++ [a]) d acc ms (<[i := st]> sts).
Proof.
  intros Ht Ha Hne (st0 & Hi & Hne0). apply (table_keeps _ _ _ _ _ a) in Ht as [Hst Hnd Hown Hacc Hpend Hserv]; [|done].
  split; try done; [by rewrite length_insert|].
  intros i2 fd kv st2 H1 H2 H3. destruct (decide (i2 = i)) as [->|Hne2]; [by eapply Hserv|].
  rewrite list_lookup_insert_ne in H2 by done. by eapply Hserv.
Qed.

Lemma table_leaves log d acc ms sts i fd kv_fd st0 a :
  table_ok log d acc ms sts → spawned a = [] → spawns log !! i = Some (fd, kv_fd) → sts !! i = Some st0 → st0 ≠ Closed →
  table_ok (log ++ [a]) (delete fd d) acc ms (<[i := Closed]> sts).
Proof.
  intros Ht Ha Hfd Hi Hne0. apply (table_keeps _ _ _ _ _ a) in Ht as [Hst Hnd Hown Hacc Hpend Hserv]; [|done].
  assert (spawns (log ++ [a]) !! i = Some (fd, kv_fd)) as Hfd' by by rewrite spawns_snoc, Ha, app_nil_r.
  pose proof (Hserv _ _ _ _ Hfd' Hi Hne0) as Hd. pose proof (lookup_lt_Some _ _ _ Hfd') as Hlt.
  assert (∀ fd2 x, d !! fd2 = Some x → x ≠ Some i → delete fd d !! fd2 = Some x) as Hkeep.
  { intros fd2 x Hfd2 Hx. rewrite lookup_delete_ne; [done|congruence]. }
  split; try done.
  - by rewrite length_insert.
  - intros fd2 Hin. by apply Hkeep; [apply Hown|].
  - intros fd2 Hfd2. apply Hkeep; [by apply Hpend|]. intros [= Heq]. lia.
  - intros i2 fd2 kv st2 H1 H2 H3. destruct (decide (i2 = i)) as [->|Hne2].
    + rewrite list_lookup_insert_eq in H2 by (by eapply lookup_lt_Some). congruence.
    + rewrite list_lookup_insert_ne in H2 by done. apply Hkeep; [by eapply Hserv|congruence].
Qed.

(** An action of the main thread. *)
Lemma main_acts X (e : dact X) x N N' log ms ms' sts :
  main_mon X e x ms = Next ms' → host_net e N x = Some N' →
  table_ok log (n_daemon N) (n_accepted N) ms sts → (n_accepted N <= length (n_conns N))%nat →
  table_ok (log ++ [Answered e x]) (n_daemon N') (n_accepted N') ms'
    (sts ++ replicate (length (spawned (Answered e x))) Serving) ∧
  n_conns N' = n_conns N ∧ n_user N' = n_user N ∧ (n_accepted N' <= length (n_conns N'))%nat.
Proof.
  intros Hmon Hnet Ht Hback. destruct ms as [own pending].
  destruct e; cbn [main_mon host_net] in Hmon, Hnet; cbn [spawned length replicate]; rewrite ?app_nil_r;
    try discriminate Hmon;
    try (injection Hmon as <-; injection Hnet as <-; split_and!; [by apply table_keeps|done..]).
  1,2: destruct (new_descriptor x (n_daemon N)) as [d'|] eqn:Hd; [|done]; injection Hnet as <-;
    cbn [n_daemon n_accepted n_conns n_user set_daemon ms_own ms_accepted] in *;
    (split_and!; [apply table_keeps; [|done]|done..]);
    apply new_descriptor_Some in Hd as [[-> ->]|(Hge & Hnew & ->)];
    [by injection Hmon as <-|rewrite !decide_False in Hmon by lia; injection Hmon as <-; by apply table_opens].
  - destruct x as [client_fd|eintr]; cbn [ms_accepted ms_own] in *.
    + destruct (decide (pending = None)) as [->|]; [|done]. injection Hmon as <-.
      destruct (decide _) as [(_ & Hnew & Hlt)|]; [|done]. injection Hnet as <-.
      cbn [n_daemon n_accepted n_conns n_user]. split_and!; [|done..|lia].
      apply table_keeps; [|done]. by apply table_accepts.
    + injection Hmon as <-. injection Hnet as <-. split_and!; [by apply table_keeps|done..].
  - cbn [ms_accepted ms_own] in *. destruct (decide (pending = Some client_fd)) as [->|]; [|done].
    injection Hmon as <-. injection Hnet as <-. split_and!; [|done..]. by eapply table_spawns.
  - cbn [ms_accepted ms_own] in *. destruct own as [|fd' own]; [done|].
    destruct (decide (fd' = fd)) as [->|]; [|done]. injection Hmon as <-.
    pose proof (to_own _ _ _ _ _ Ht fd (list_elem_of_here _ _)) as Hfd.
    assert (conn_of (n_daemon N) fd N = None) as Hnone by (unfold conn_of; by rewrite Hfd).
    rewrite Hnone in Hnet. injection Hnet as <-. cbn [n_daemon n_accepted n_conns n_user set_daemon].
    split_and!; [|done..]. apply table_keeps; [|done]. by apply table_closes.
  - destruct x; [done|]. injection Hmon as <-. injection Hnet as <-. split_and!; [by apply table_keeps|done..].
Qed.

(** An action of a client's thread. *)
Inductive client_acts (i : nat) (fd : Z) (N : net) (c : conn) : stage → answered → stage → net → Prop :=
  | acts_aside st a : talk_of a = [] ∨ (∃ u p ok, talk_of a = [Asked u p ok]) → client_acts i fd N c st a st N
  | acts_recv a data :
      talk_of a = [Said fd data] → data = take (BUFFER_SIZE - 1) (c_request c) → data ≠ [] →
      client_acts i fd N c Serving a Serving (on_conn (request_read (BUFFER_SIZE - 1)) i N)
  | acts_eof a : talk_of a = [] → c_client_gone c = true → client_acts i fd N c Serving a HungUp N
  | acts_send a reply :
      talk_of a = [Told fd reply] → c_client_gone c = false →
      client_acts i fd N c Serving a Serving (on_conn (reply_sent reply) i N)
  | acts_send_late a reply st :
      talk_of a = [Told fd reply] → c_client_gone c = true → st ≠ Closed → client_acts i fd N c Serving a st N
  | acts_close a :
      talk_of a = [] →
      client_acts i fd N c HungUp a Closed (on_conn daemon_left i (set_daemon (delete fd (n_daemon N)) N)).

Lemma client_mon_acts i fd N c X (e : dact X) x N' st st' :
  client_mon fd X e x st = Next st' → host_net e N x = Some N' →
  (st ≠ Closed → n_daemon N !! fd = Some (Some i)) → n_conns N !! i = Some c →
  client_acts i fd N c st (Answered e x) st' N' ∧ spawned (Answered e x) = [].
Proof.
  intros Hmon Hnet Hfd Hc.
  assert (st ≠ Closed → conn_of (n_daemon N) fd N = Some (i, c)) as Hconn.
  { intros Hne. apply conn_of_Some. split; [by apply Hfd|done]. }
  destruct e; cbn [client_mon host_net] in Hmon, Hnet; try discriminate Hmon;
    try (injection Hmon as <-; injection Hnet as <-; split; [apply acts_aside; (by left) || (right; by eexists _, _, _)|done]).
  - destruct (decide _) as [(-> & -> & ->)|]; [|done]. injection Hmon as <-.
    rewrite Hconn in Hnet by done. split; [|done]. destruct x as [data| |eintr].
    + destruct (decide _) as [[-> Hne]|]; [|done]. injection Hnet as <-. by eapply acts_recv.
    + destruct (decide _) as [[_ Hgone]|]; [|done]. injection Hnet as <-. by apply acts_eof.
    + destruct eintr; [|done]. injection Hnet as <-. apply acts_aside. by left.
  - destruct (decide _) as [(-> & ->)|]; [|done]. injection Hmon as <-.
    rewrite Hconn in Hnet by done. split; [|done]. destruct (c_client_gone c) eqn:Hgone.
    + injection Hnet as <-. eapply acts_send_late; [done|done|by case_decide].
    + destruct (decide _) as [->|]; [|done]. injection Hnet as <-.
      rewrite decide_False by lia. by apply acts_send.
  - destruct (decide _) as [(-> & ->)|]; [|done]. injection Hmon as <-.
    rewrite Hconn in Hnet by done. injection Hnet as <-. split; [|done]. by apply acts_close.
  - destruct x; [done|]. injection Hmon as <-. injection Hnet as <-. split; [|done]. apply acts_aside. by left.
Qed.
