(* ===== verification/HotMoments.v ===== *)
(** * What the daemon has said to the benchmark's threads

    At any moment of the daemon's execution: if its clients have said what the
    threads with the hot key say, and no GET was received before the reply to an
    INSERT of the counter was sent, then every reply is the one that these threads
    hope for. *)

From S2P Require Import Prelude Prog Timeline CStr Userland Benchmark UserSpec BenchSpec.
From S2P Require Import BenchKeys.
From S2P Require Import KvIoctl KMem KvHash KLogic KSound KvHashSpec KvTable KvStore.
From S2P Require Import KvTrace Kvlkm KvlkmSpec KvDevice KvInterface Daemon DaemonSpec Access.
From S2P Require Import System.
From S2P Require Import Threads SystemSpec Dialogue Isolation SavedFile Spawning DaemonSystem.
From S2P Require Import Moments.
From S2P Require Import Descriptors HotKey HotClients HotRounds Network Composed Together.

(** ** What the threads have heard and said so far *)

(** The conversation of the thread of connection [i]. *)
Definition talk_with (i : nat) (GA : list (nat * answered)) : list talk := talks (thread_events (S i) GA).

Lemma talk_with_snoc i GA j a :
  talk_with i (GA ++ [(j, a)]) = talk_with i GA ++ (if decide (j = S i) then talk_of a else []).
Proof.
  unfold talk_with. rewrite thread_events_app, thread_events_cons. unfold talks. rewrite bind_app. f_equal.
  case_decide; [|done]. rewrite bind_cons. apply app_nil_r.
Qed.

(** There is a reply to an INSERT of the counter. *)
Definition inserted (GA : list (nat * answered)) : Prop :=
  ∃ i k reply, said (talk_with i GA) !! k = Some insert_message ∧ told (talk_with i GA) !! k = Some reply.

(** Whenever a GET is received, there was one. *)
Definition gets_after (GA : list (nat * answered)) : Prop :=
  ∀ GA1 i a fd GA2, GA = GA1 ++ (S i, a) :: GA2 → talk_of a = [Said fd get_message] → inserted GA1.

Lemma talk_with_app i GA GA' : talk_with i (GA ++ GA') = talk_with i GA ++ talk_with i GA'.
Proof. unfold talk_with. unfold talks. by rewrite thread_events_app, bind_app. Qed.

Lemma inserted_mono GA GA' : inserted GA → inserted (GA ++ GA').
Proof.
  intros (i & k & reply & Hk & Hk'). exists i, k, reply. rewrite talk_with_app, said_app, told_app.
  by split; apply lookup_app_l_Some.
Qed.

Lemma gets_after_snoc GA j a :
  gets_after GA → (∀ i fd, j = S i → talk_of a = [Said fd get_message] → inserted GA) → gets_after (GA ++ [(j, a)]).
Proof.
  intros Hord Hnew GA1 i a' fd GA2 Heq Ha'.
  destruct (app_split_cons _ _ _ _ _ Heq) as [(r & ->)|(r & -> & Hr)]; [by eapply Hord|].
  destruct r as [|x r]; [|by destruct r]. injection Hr as -> -> _. rewrite app_nil_r. by eapply Hnew.
Qed.

(** ** The counter in a timeline *)

(** At the start what is under the key 0, if anything, is a counter, and there is
    one or the kernel never lacks memory. *)
Record start_ok {api : KernelApi} (m : gmap Z bytes) : Prop := {
  st_count : only_count m;
  st_memory : may_fail → is_Some (m !! 0);
}.

Section Timeline.
Context {api : KernelApi}.
Variables (nbits : Z) (conn_data : connection_data) (H : list (nat * happening)) (m m' : gmap Z bytes).
Hypothesis conn_words : words_ok conn_data.
Hypothesis start : start_ok m.
Hypothesis runs : events_run nbits (snd <$> left_part H) m m'.
Hypothesis keeps : Forall keeps_count (snd <$> left_part H).
Hypothesis talks_ok : ∀ i, words (S i) H ≠ [] → ∃ fd, ordered_dialogue fd (words (S i) H) ∧
  good_messages conn_data (said (rights (words (S i) H))) ∧ pam_welcomes conn_data (rights (words (S i) H)).

(** When an INSERT has been replied to there is a counter. *)
Lemma inserted_counter H1 H2 :
  H = H1 ++ H2 → inserted (right_part H1) →
  ∃ m1, events_run nbits (snd <$> left_part H2) m1 m' ∧ only_count m1 ∧ is_Some (m1 !! 0) ∧
    Forall keeps_count (snd <$> left_part H2).
Proof.
  intros HH (i & k & reply & Hk & Hk'). unfold talk_with in Hk, Hk'. rewrite <- rights_words in Hk, Hk'.
  destruct (talks_ok i) as (fd & Hd & Hgood & Hpam).
  { rewrite HH, words_app. intros [Hnil _]%app_nil. by rewrite Hnil in Hk. }
  pose proof keeps as Hkeep. pose proof runs as Hrun. rewrite HH, words_app in Hd, Hgood, Hpam.
  rewrite HH, left_part_app, fmap_app in Hkeep, Hrun.
  apply events_run_app in Hrun as (m1 & Hr1 & Hr2). apply Forall_app in Hkeep as [Hk1 Hk2].
  destruct (ordered_insert conn_data conn_words fd _ _ _ _ Hd Hgood Hpam Hk Hk') as (es & Hop & Hes).
  exists m1. split_and!; [done| | |done].
  - by apply (events_keep_count _ _ _ _ Hr1 Hk1 (st_count _ start)).
  - eapply insert_leaves_count; [exact Hr1|exact Hk1|apply start|apply start|exact Hop|].
    intros e He%Hes%words_in. apply list_elem_of_fmap. by exists (S i, e).
Qed.

Lemma timeline_counts i : finds_counts (lefts (words (S i) H)).
Proof.
  intros v Hv. rewrite lefts_words, thread_events_elem in Hv.
  eapply (count_found nbits); [exact runs|exact keeps|apply start| |done].
  apply list_elem_of_fmap. by exists (S i, ELookup 0 (Some v)).
Qed.

Lemma timeline_gets i : gets_after (right_part H) → gets_find (words (S i) H).
Proof.
  intros Hord hs1 fd hs2 r Hw Hr. destruct (words_said _ _ _ _ _ _ Hw) as (H1 & a & H2 & HH & Ha & _ & <-).
  assert (inserted (right_part H1)) as Hins.
  { eapply Hord; [|exact Ha]. rewrite HH, right_part_app. done. }
  destruct (inserted_counter _ _ HH Hins) as (m1 & Hr2 & Hc & Hsome & Hk).
  eapply (count_found nbits); [exact Hr2|exact Hk|exact Hc| |exact Hsome].
  apply words_in in Hr. apply list_elem_of_fmap. by exists (S i, ELookup 0 r).
Qed.

(** The daemon's replies. *)
Lemma timeline_replies i k msg reply :
  gets_after (right_part H) → said (talk_with i (right_part H)) !! k = Some msg →
  told (talk_with i (right_part H)) !! k = Some reply → good_reply conn_data msg reply.
Proof.
  intros Hord Hk Hk'. unfold talk_with in Hk, Hk'. rewrite <- rights_words in Hk, Hk'.
  destruct (talks_ok i) as (fd & Hd & Hgood & Hpam); [intros Hnil; by rewrite Hnil in Hk|].
  by eapply ordered_hot; [exact conn_words|exact Hd|exact Hgood|exact Hpam|apply timeline_counts|apply timeline_gets|..].
Qed.

End Timeline.

(** ** The daemon at any moment *)

Section Moment.
Context {ioc_api : IocApi} {ioc_laws : IocLaws ioc_api}.
Context {api : KernelApi} {laws : KernelLaws api} {env : Outside}.
Variables (pb pl : addr) (nbits : Z) (F : heap).
Hypothesis nbits_range : 1 <= nbits <= 31.
Variables (fuel client_fuel bench_fuel : nat) (conn_data : connection_data).

Abbreviation store := (mk_ht (Some pb) (Some pl) nbits).
Abbreviation daemon_start := (daemon_start pb pl nbits fuel).
Abbreviation user := (Benchmark.username conn_data).
Abbreviation pw := (Benchmark.password conn_data).

(** The benchmark can log in, the counter cannot overflow, and the snapshot file,
    if there is one, has nothing but a counter under the key 0. *)
Record benign : Prop := {
  be_words : words_ok conn_data;
  be_fuel : Z.of_nat bench_fuel <= llong_max;
  be_outside : outside_ok image_file;
  be_pam log ok : outside log _ (Authenticate user pw) = Some ok → ok = true;
  be_file log data cap l v :
    outside log _ FileOpenRead = Some (Some data) → snapshot_image cap l data → (0, v) ∈ l → is_count v;
}.

Hypothesis world : benign.

Record moment_ok (GA : list (nat * answered)) (log : list answered) : Prop := {
  mo_tags x : x ∈ GA → (x.1 < S (length (spawns log)))%nat;
  mo_length i x : spawns log !! i = Some x →
    (length (told (talk_with i GA)) <= length (said (talk_with i GA)))%nat;
  mo_replies :
    (∀ i x, spawns log !! i = Some x → good_messages conn_data (said (talk_with i GA))) → gets_after GA →
    ∀ i k msg reply, said (talk_with i GA) !! k = Some msg → told (talk_with i GA) !! k = Some reply →
      good_reply conn_data msg reply;
}.

(** An answer in a thread's part was given by the world. *)
Lemma answer_given s GA c j a :
  sys_run store client_fuel (daemon_start s) GA c → snd <$> GA = c.2.2 → a ∈ thread_events j GA →
  match a with @Answered X e x => ∃ log, outside log X e = Some x end.
Proof.
  intros Hrun Hlog Ha%thread_events_elem. apply (run_answers _ _ _ _ _ _ Hrun); [done|].
  rewrite <- Hlog. apply list_elem_of_fmap. by exists (j, a).
Qed.

Lemma run_moment m s GA c :
  store_rep pb pl nbits F m s → start_ok m → sys_run store client_fuel (daemon_start s) GA c → moment_ok GA c.2.2.
Proof.
  intros Hrep Hstart Hrun.
  destruct (daemon_moment pb pl nbits F nbits_range fuel client_fuel m s GA c Hrep (be_outside world) Hrun)
    as (H & m' & Hh & <- & Hmain & _ & Hconv).
  pose proof (λ j a, answer_given s _ c j a Hrun (hi_log _ _ _ _ _ _ _ Hh)) as Hans.
  assert (∀ i, words (S i) H ≠ [] → ∃ fd kv_fd, spawns c.2.2 !! i = Some (fd, kv_fd)) as Hspawned.
  { intros i Hne. destruct (lookup_lt_is_Some_2 (spawns c.2.2) i) as [[fd kv_fd] Hi]; [|by exists fd, kv_fd].
    destruct (decide (i < length (spawns c.2.2))%nat) as [|Hge]; [done|]. destruct Hne. unfold words.
    rewrite thread_events_nil; [done|]. intros [j [e|a]] Hx Hj; simpl in Hj; subst j.
    - apply elem_left_part, (hi_event_tags _ _ _ _ _ _ _ Hh) in Hx. simpl in Hx. lia.
    - apply elem_right_part, (hi_log_tags _ _ _ _ _ _ _ Hh) in Hx. simpl in Hx. lia. }
  split.
  - apply Hh.
  - intros i [fd kv_fd] Hi. eapply dialogue_length, words_dialogue, Hconv, Hi.
  - intros Hgood Hord i k msg reply. eapply (timeline_replies nbits conn_data H m m'); [apply world|done|apply Hh| | |done].
    + apply Forall_forall. intros e ([j e'] & -> & He)%list_elem_of_fmap.
      pose proof He as Hin%thread_events_elem. destruct j as [|i'].
      { apply Hmain in Hin. destruct e'; simpl in Hin |- *; try done. intros ->.
        destruct Hin as (data & cap & l & Hdata & Himg & Hin). apply Hans in Hdata as [log Hlog].
        by eapply (be_file world). }
      apply words_in in He. destruct (Hspawned i') as (fd & kv_fd & Hi').
      { intros Hnil. rewrite Hnil in He. by apply not_elem_of_nil in He. }
      destruct (dialogue_event _ _ _ _ (words_dialogue _ _ _ (Hconv _ _ _ Hi')) Hin) as [?|Hreq]; [by destruct e'|].
      eapply requested_keeps_count; [exact Hreq|]. intros msg' Hmsg'.
      eapply good_messages_counting; [apply (Hgood _ _ Hi')|]. apply list_elem_of_bind.
      exists (Said fd msg'). split; [by apply list_elem_of_singleton|done].
    + intros i' Hne. destruct (Hspawned i' Hne) as (fd & kv_fd & Hi'). exists fd. rewrite rights_words.
      split_and!; [by eapply Hconv|by eapply Hgood|].
      intros ok (a & Ha & Hin)%list_elem_of_bind. apply Hans in Hin. destruct a as [X e x].
      destruct e; cbn [talk_of] in Ha; try (by apply not_elem_of_nil in Ha).
      * apply list_elem_of_singleton in Ha as [= <- <- <-]. destruct Hin as [log Hlog]. by eapply (be_pam world).
      * destruct x; (by apply list_elem_of_singleton in Ha) || by apply not_elem_of_nil in Ha.
      * by apply list_elem_of_singleton in Ha.
Qed.

End Moment.
