(* ===== verification/Executions.v ===== *)
(** * Every execution of the benchmark with the daemon

    The invariant of the whole, and that every step keeps it. *)

From S2P Require Import Prelude Prog Timeline CStr Userland Benchmark UserSpec BenchSpec.
From S2P Require Import BenchKeys.
From S2P Require Import KvIoctl KMem KvHash KLogic KSound KvHashSpec KvTable KvStore.
From S2P Require Import KvTrace Kvlkm KvlkmSpec KvDevice KvInterface Daemon DaemonSpec Access.
From S2P Require Import System.
From S2P Require Import Threads SystemSpec Dialogue Isolation SavedFile Spawning DaemonSystem.
From S2P Require Import Moments.
From S2P Require Import Descriptors HotKey HotClients HotRounds Network Composed Together.
From S2P Require Import HotMoments.

Section Whole.
Context {ioc_api : IocApi} {ioc_laws : IocLaws ioc_api}.
Context {api : KernelApi} {laws : KernelLaws api} {env : Outside}.
Variables (pb pl : addr) (nbits : Z) (F : heap).
Hypothesis nbits_range : 1 <= nbits <= 31.
Variables (fuel client_fuel bench_fuel : nat) (conn_data : connection_data).

Abbreviation store := (mk_ht (Some pb) (Some pl) nbits).
Abbreviation daemon_start := (daemon_start pb pl nbits fuel).
Abbreviation user := (Benchmark.username conn_data).
Abbreviation pw := (Benchmark.password conn_data).
Abbreviation step := (whole_step store client_fuel bench_fuel conn_data).

Hypothesis world : benign bench_fuel conn_data.

Abbreviation moment_ok := (moment_ok conn_data).

(** ** The invariant *)

Record shared_ok (sh : shared) : Prop := {
  so_counters c : alarm c → sh_counters sh c = 0;
  so_out : Forall no_alarm_text (sh_out sh);
}.

(** [ms] and [sts] are what the monitors of the daemon's threads have seen, [gh] has
    the transcripts of the connections, [us] the states of the clients. *)
Record whole_ok (GA : list (nat * answered)) (ps : list (sprog unit)) (log : list answered) (N : net)
    (qs : list (uprog unit)) (sh : shared) (ms : main_state) (sts : list stage) (gh : transcripts)
    (us : list usock) : Prop := {
  wk_main p : ps !! 0%nat = Some p → thread_watched main_mon p ms;
  wk_clients i fd kv_fd p st : spawns log !! i = Some (fd, kv_fd) → ps !! S i = Some p → sts !! i = Some st →
    thread_watched (client_mon fd) p st;
  wk_threads : length ps = S (length (spawns log));
  wk_table : table_ok log (n_daemon N) (n_accepted N) ms sts;
  wk_backlog : (n_accepted N <= length (n_conns N))%nat;
  wk_transcripts : length gh = length (n_conns N);
  wk_conns i c sent read : n_conns N !! i = Some c → gh !! i = Some (sent, read) →
    conn_ok conn_data c sent read (talk_with i GA) (sts !! i);
  wk_users : users_ok conn_data (inserted GA) qs (n_user N) (gone N) gh us;
  wk_gets i sent read : gh !! i = Some (sent, read) → get_message ∈ sent → inserted GA;
  wk_order : gets_after GA;
  wk_shared : shared_ok sh;
}.

Definition good_state (GA : list (nat * answered)) (w : whole) : Prop :=
  ∃ ms sts gh us, whole_ok GA (w_daemon w).1 (w_daemon w).2.2 (w_net w) (w_user w) (w_shared w) ms sts gh us.

(** A connection that has a thread. *)
Lemma whole_conn GA ps log N qs sh ms sts gh us i x :
  whole_ok GA ps log N qs sh ms sts gh us → spawns log !! i = Some x →
  ∃ c sent read st, n_conns N !! i = Some c ∧ gh !! i = Some (sent, read) ∧ sts !! i = Some st ∧
    conn_ok conn_data c sent read (talk_with i GA) (Some st).
Proof.
  intros Hw Hi. pose proof (lookup_lt_Some _ _ _ Hi) as Hlt. pose proof (wk_table _ _ _ _ _ _ _ _ _ _ Hw) as Ht.
  pose proof (to_accepted _ _ _ _ _ Ht) as Hacc. pose proof (wk_backlog _ _ _ _ _ _ _ _ _ _ Hw) as Hback.
  destruct (lookup_lt_is_Some_2 (n_conns N) i) as [c Hc]; [lia|].
  destruct (lookup_lt_is_Some_2 gh i) as [[sent read] Hgh]; [rewrite (wk_transcripts _ _ _ _ _ _ _ _ _ _ Hw); lia|].
  destruct (lookup_lt_is_Some_2 sts i) as [st Hst]; [rewrite (to_stages _ _ _ _ _ Ht); lia|].
  exists c, sent, read, st. split_and!; [done..|]. rewrite <- Hst. by eapply (wk_conns _ _ _ _ _ _ _ _ _ _ Hw).
Qed.

Lemma whole_good_messages GA ps log N qs sh ms sts gh us i x :
  whole_ok GA ps log N qs sh ms sts gh us → spawns log !! i = Some x → good_messages conn_data (said (talk_with i GA)).
Proof.
  intros Hw Hi. destruct (whole_conn _ _ _ _ _ _ _ _ _ _ _ _ Hw Hi) as (c & sent & read & st & _ & _ & _ & Hc).
  by eapply conn_ok_said.
Qed.

(** *** The daemon *)

(** Inside a call. *)
Lemma kernel_step_ok GA ps log N qs sh ms sts gh us j X (e : kact X) k x :
  whole_ok GA ps log N qs sh ms sts gh us → ps !! j = Some (Vis (SKern e) k) →
  whole_ok GA (<[j := k x]> ps) log N qs sh ms sts gh us.
Proof.
  intros [Hm Hc Hlen Ht Hb Htr Hconn Hu Hget Hord Hsh] Hj. pose proof (lookup_lt_Some _ _ _ Hj) as Hlt.
  split; try done.
  - intros p. destruct j as [|j].
    + rewrite list_lookup_insert_eq by done. intros [= <-]. apply (Hm _ Hj).
    + rewrite list_lookup_insert_ne by done. apply Hm.
  - intros i fd kv_fd p st Hi. destruct (decide (j = S i)) as [->|Hne].
    + rewrite list_lookup_insert_eq by done. intros [= <-] Hst. apply (Hc _ _ _ _ _ Hi Hj Hst).
    + rewrite list_lookup_insert_ne by done. by apply (Hc _ _ kv_fd).
  - by rewrite length_insert.
Qed.

Lemma main_possible X (e : dact X) x N N' ms : host_net e N x = Some N' → main_mon X e x ms ≠ Impossible.
Proof.
  intros Hnet. destruct e; cbn [main_mon host_net] in *; try (repeat case_match; done).
  all: destruct (new_descriptor x (n_daemon N)) as [d'|] eqn:Hd; [|done];
    apply new_descriptor_Some in Hd as [[-> _]|(Hge & _)]; repeat case_decide; (done || lia).
Qed.

(** The main thread asks the world outside. *)
Lemma main_step_ok GA ps log N N' qs sh ms sts gh us X (e : dact X) k x :
  whole_ok GA ps log N qs sh ms sts gh us → ps !! 0%nat = Some (Vis (SHost e) k) → host_net e N x = Some N' →
  ∃ ms' sts', whole_ok (GA ++ [(0%nat, Answered e x)])
    (<[0%nat := k x]> ps ++ (unfold_calls store <$> (client_thread client_fuel <$> spawned (Answered e x))))
    (log ++ [Answered e x]) N' qs sh ms' sts' gh us.
Proof.
  intros [Hm Hc Hlen Ht Hb Htr Hconn Hu Hget Hord Hsh] Hj Hnet.
  pose proof (Hm _ Hj x) as Hw. unfold allows in Hw. destruct (main_mon X e x ms) as [ms'| |] eqn:Hmon; [|done|].
  2: { by destruct (main_possible _ _ _ _ _ ms Hnet). }
  destruct (main_acts _ _ _ _ _ _ _ _ _ Hmon Hnet Ht Hb) as (Ht' & Hcs & Hus & Hb').
  exists ms', (sts ++ replicate (length (spawned (Answered e x))) Serving).
  pose proof (to_stages _ _ _ _ _ Ht) as Hsts.
  split; [| | |exact Ht'|exact Hb'| | | | | |done].
  - intros p. rewrite lookup_app_l by (rewrite length_insert; lia). rewrite list_lookup_insert_eq by lia.
    by intros [= <-].
  - intros i fd kv_fd p st. rewrite spawns_snoc.
    intros H1%lookup_grown H2%lookup_grown H3%lookup_grown. rewrite length_insert in H2.
    destruct H1 as [[Hl1 H1]|[Hl1 H1]], H2 as [[Hl2 H2]|[Hl2 H2]], H3 as [[Hl3 H3]|[Hl3 H3]]; try lia.
    + rewrite list_lookup_insert_ne in H2 by done. by eapply Hc.
    + apply lookup_replicate in H3 as [-> _]. rewrite !list_lookup_fmap in H2.
      replace (S i - length ps)%nat with (i - length (spawns log))%nat in H2 by lia. rewrite H1 in H2.
      injection H2 as <-. apply client_thread_watched.
  - rewrite length_app, length_insert, !length_fmap, spawns_snoc, length_app. lia.
  - by rewrite Hcs.
  - intros i c sent read. rewrite Hcs. intros Hi Hgh. specialize (Hconn i c sent read Hi Hgh).
    rewrite talk_with_snoc, decide_False, app_nil_r by done.
    destruct (decide (i < length sts)%nat) as [Hlt|Hge%Nat.nlt_ge].
    + by rewrite lookup_app_l.
    + rewrite lookup_app_r by done. rewrite lookup_ge_None_2 in Hconn by done.
      destruct (replicate _ _ !! _) as [st|] eqn:Hst; [|done]. apply lookup_replicate in Hst as [-> _].
      by apply conn_ok_started.
  - rewrite Hus. unfold gone. rewrite Hcs. eapply users_ok_mono; [apply inserted_mono|exact Hu].
  - intros i sent read Hgh Hin. by eapply inserted_mono, Hget.
  - by apply gets_after_snoc.
Qed.

(** A client's thread has gone on; only its own connection has changed. *)
Lemma client_frame GA ps log N N' qs sh ms sts gh us i fd kv_fd a p' st' :
  whole_ok GA ps log N qs sh ms sts gh us → spawns log !! i = Some (fd, kv_fd) → spawned a = [] →
  thread_watched (client_mon fd) p' st' →
  table_ok (log ++ [a]) (n_daemon N') (n_accepted N') ms (<[i := st']> sts) →
  n_accepted N' = n_accepted N → n_user N' = n_user N → gone N' = gone N →
  (∀ i2, i2 ≠ i → n_conns N' !! i2 = n_conns N !! i2) →
  (∀ c sent read, n_conns N' !! i = Some c → gh !! i = Some (sent, read) →
    conn_ok conn_data c sent read (talk_with i GA ++ talk_of a) (Some st')) →
  whole_ok (GA ++ [(S i, a)]) (<[S i := p']> ps) (log ++ [a]) N' qs sh ms (<[i := st']> sts) gh us.
Proof.
  intros [Hm Hc Hlen Ht Hb Htr Hconn Hu Hget Hord Hsh] Hi Ha Hp' Ht' Hacc Huser Hgone Hother Hown.
  assert (length (n_conns N') = length (n_conns N)) as Hcs.
  { transitivity (length (gone N')); [symmetry; apply length_fmap|]. rewrite Hgone. apply length_fmap. }
  assert (spawns (log ++ [a]) = spawns log) as Hsp by by rewrite spawns_snoc, Ha, app_nil_r.
  pose proof (lookup_lt_Some _ _ _ Hi) as Hlt. pose proof (to_stages _ _ _ _ _ Ht) as Hsts.
  pose proof (to_accepted _ _ _ _ _ Ht) as Hacc0.
  split; try done; try congruence.
  - intros p. rewrite list_lookup_insert_ne by done. apply Hm.
  - intros i2 fd2 kv2 p st. rewrite Hsp. destruct (decide (i2 = i)) as [->|Hne].
    + rewrite !list_lookup_insert_eq by lia. intros H1 [= <-] [= <-]. congruence.
    + rewrite !list_lookup_insert_ne by congruence. apply Hc.
  - by rewrite length_insert, Hsp.
  - intros i2 c sent read. rewrite talk_with_snoc. destruct (decide (i2 = i)) as [->|Hne].
    + rewrite decide_True, list_lookup_insert_eq by (done || lia). apply Hown.
    + rewrite decide_False, list_lookup_insert_ne, app_nil_r, Hother by congruence. apply Hconn.
  - rewrite Huser, Hgone. eapply users_ok_mono; [apply inserted_mono|exact Hu].
  - intros i2 sent read Hgh Hin. by eapply inserted_mono, Hget.
  - apply gets_after_snoc; [done|]. intros i2 fd2 [= <-] Htalk.
    destruct (lookup_lt_is_Some_2 (n_conns N') i) as [c Hci]; [lia|].
    destruct (lookup_lt_is_Some_2 gh i) as [[sent read] Hgh]; [lia|].
    apply (Hget _ _ _ Hgh). rewrite (co_sent _ _ _ _ _ _ (Hown _ _ _ Hci Hgh)), said_app, Htalk, !elem_of_app.
    left. right. by apply list_elem_of_singleton.
Qed.

(** The daemon sends only replies, and only when there is no other. *)
Lemma send_facts GA ps log N qs sh ms sts gh us i fd kv_fd fd' a reply :
  whole_ok GA ps log N qs sh ms sts gh us → spawns log !! i = Some (fd, kv_fd) → spawned a = [] →
  talk_of a = [Told fd' reply] → moment_ok (GA ++ [(S i, a)]) (log ++ [a]) →
  (length (told (talk_with i GA)) < length (said (talk_with i GA)))%nat ∧ reply ≠ [].
Proof.
  intros Hw Hi Ha Htalk [_ Hlen Hreplies].
  assert (spawns (log ++ [a]) = spawns log) as Hsp by by rewrite spawns_snoc, Ha, app_nil_r.
  assert (∀ i2, said (talk_with i2 (GA ++ [(S i, a)])) = said (talk_with i2 GA)) as Hsaid.
  { intros i2. rewrite talk_with_snoc, said_app, Htalk. case_decide; apply app_nil_r. }
  assert (told (talk_with i (GA ++ [(S i, a)])) = told (talk_with i GA) ++ [reply]) as Htold.
  { by rewrite talk_with_snoc, told_app, Htalk, decide_True. }
  rewrite Hsp in Hlen, Hreplies. specialize (Hlen i _ Hi). rewrite Hsaid, Htold, length_app in Hlen. cbn [length] in Hlen.
  split; [lia|]. destruct (lookup_lt_is_Some_2 (said (talk_with i GA)) (length (told (talk_with i GA)))) as [msg Hmsg]; [lia|].
  assert (good_reply conn_data msg reply) as [(Hne & _) _]; [|done].
  eapply Hreplies; [| |rewrite Hsaid; exact Hmsg|rewrite Htold; by apply list_lookup_middle].
  - intros i2 x Hi2. rewrite Hsaid. by eapply whole_good_messages.
  - apply gets_after_snoc; [by eapply wk_order|]. intros i2 fd2 _. by rewrite Htalk.
Qed.

Lemma client_step_ok GA ps log N N' qs sh ms sts gh us i fd kv_fd X (e : dact X) k x :
  whole_ok GA ps log N qs sh ms sts gh us → spawns log !! i = Some (fd, kv_fd) →
  ps !! S i = Some (Vis (SHost e) k) → host_net e N x = Some N' →
  (spawned (Answered e x) = [] → moment_ok (GA ++ [(S i, Answered e x)]) (log ++ [Answered e x])) →
  spawned (Answered e x) = [] ∧
  ∃ sts', whole_ok (GA ++ [(S i, Answered e x)]) (<[S i := k x]> ps) (log ++ [Answered e x]) N' qs sh ms sts' gh us.
Proof.
  intros Hw Hi Hj Hnet Hmoment.
  destruct (whole_conn _ _ _ _ _ _ _ _ _ _ _ _ Hw Hi) as (c & sent & read & st & Hc & Hgh & Hst & Hok).
  pose proof (wk_clients _ _ _ _ _ _ _ _ _ _ Hw _ _ _ _ _ Hi Hj Hst x) as Hp. unfold allows in Hp.
  pose proof (wk_table _ _ _ _ _ _ _ _ _ _ Hw) as Ht.
  destruct (client_mon fd X e x st) as [st'| |] eqn:Hmon; [|done|].
  2: { destruct e; cbn [client_mon] in Hmon; repeat case_match; done. }
  destruct (client_mon_acts i fd N c X e x N' st st' Hmon Hnet) as [Hact Hsp]; [|done|].
  { intros Hne. by eapply (to_serving _ _ _ _ _ Ht). }
  split; [done|]. specialize (Hmoment Hsp). exists (<[i := st']> sts). clear Hmon Hnet.
  revert Hmoment Hsp Hact. generalize (Answered e x). intros a Hmoment Hsp Hact.
  assert (∀ N1, n_user N1 = n_user N → gone N1 = gone N → n_accepted N1 = n_accepted N →
    table_ok (log ++ [a]) (n_daemon N1) (n_accepted N1) ms (<[i := st']> sts) →
    (∀ i2, i2 ≠ i → n_conns N1 !! i2 = n_conns N !! i2) →
    (∀ c1, n_conns N1 !! i = Some c1 → conn_ok conn_data c1 sent read (talk_with i GA ++ talk_of a) (Some st')) →
    whole_ok (GA ++ [(S i, a)]) (<[S i := k x]> ps) (log ++ [a]) N1 qs sh ms (<[i := st']> sts) gh us) as Hframe.
  { intros N1 Hu Hg Ha Ht1 Hother Hown. eapply client_frame; [exact Hw|exact Hi|done..|].
    intros c1 sent1 read1 Hc1 Hgh1. rewrite Hgh in Hgh1. injection Hgh1 as <- <-. by apply Hown. }
  destruct Hact as [st a Htalk|a data Htalk Hdata Hne|a Htalk Hgone|a reply Htalk Hgone|a reply st Htalk Hgone Hne|a Htalk].
  - apply Hframe; try done.
    + rewrite list_insert_id by done. by apply table_keeps.
    + intros c1 Hc1. rewrite Hc in Hc1. injection Hc1 as <-.
      eapply conn_ok_talk; [| |exact Hok]; rewrite ?said_app, ?told_app;
        destruct Htalk as [->|(u & p & ok & ->)]; apply app_nil_r.
  - apply Hframe; try done.
    + by apply gone_on_conn.
    + eapply table_serves; [done..|]. by exists Serving.
    + intros i2 Hne2. by apply lookup_on_conn_ne.
    + intros c1 Hc1. rewrite (lookup_on_conn _ _ _ _ Hc) in Hc1. injection Hc1 as <-. rewrite Htalk.
      by apply conn_ok_recv; [apply world|..].
  - apply Hframe; try done.
    + eapply table_serves; [done..|]. by exists Serving.
    + intros c1 Hc1. rewrite Hc in Hc1. injection Hc1 as <-. rewrite Htalk, app_nil_r. by apply conn_ok_hangs_up.
  - destruct (send_facts _ _ _ _ _ _ _ _ _ _ _ _ _ _ _ _ Hw Hi Hsp Htalk Hmoment) as [Hlt Hne].
    apply Hframe; try done.
    + by apply gone_on_conn.
    + eapply table_serves; [done..|]. by exists Serving.
    + intros i2 Hne2. by apply lookup_on_conn_ne.
    + intros c1 Hc1. rewrite (lookup_on_conn _ _ _ _ Hc) in Hc1. injection Hc1 as <-. rewrite Htalk.
      by apply conn_ok_send.
  - destruct (send_facts _ _ _ _ _ _ _ _ _ _ _ _ _ _ _ _ Hw Hi Hsp Htalk Hmoment) as [Hlt Hne2].
    destruct (conn_ok_send conn_data fd c sent read (talk_with i GA) reply Hok Hlt Hne2) as [Hno _]. congruence.
  - apply Hframe; try done.
    + by rewrite gone_on_conn.
    + by apply (table_leaves log (n_daemon N) (n_accepted N) ms sts i fd kv_fd HungUp a).
    + intros i2 Hne2. by rewrite lookup_on_conn_ne.
    + intros c1 Hc1. rewrite (lookup_on_conn _ i (set_daemon _ N) c Hc) in Hc1. injection Hc1 as <-.
      rewrite Htalk, app_nil_r. by apply conn_ok_closed.
Qed.

(** *** The benchmark *)

Abbreviation thread_ok GA := (thread_ok conn_data (inserted GA)).

Lemma jobs_ok GA X (e : uact X) (ready : bool) st w :
  act_speaks conn_data e ready st w → (ready = true → inserted GA) →
  Forall (λ p, thread_ok GA p NoSocket) (job_body bench_fuel conn_data <$> started_jobs e).
Proof.
  intros He Hready. destruct e; try by constructor. destruct He as (Hj & -> & _). apply Forall_singleton.
  exists true. split; [done|]. by apply speaks_job; [apply world|].
Qed.

(** What the thread does is nobody else's business. *)
Lemma user_aside GA ps log N qs sh ms sts gh us t X (e : uact X) k x st sh' :
  whole_ok GA ps log N qs sh ms sts gh us → qs !! t = Some (Vis e k) → us !! t = Some st →
  Forall (λ p, thread_ok GA p NoSocket) (job_body bench_fuel conn_data <$> started_jobs e) →
  thread_ok GA (k x) st → shared_ok sh' →
  ∃ us', whole_ok GA ps log N (<[t := k x]> qs ++ (job_body bench_fuel conn_data <$> started_jobs e)) sh' ms sts gh us'.
Proof.
  intros [Hm Hc Hlen Ht Hb Htr Hconn Hu Hget Hord Hsh] Hq Hst Hnew Hk Hsh'. eexists. split; try done.
  by eapply users_same.
Qed.

(** A thread does something with its connection. *)
Lemma user_own GA ps log N qs sh ms sts gh us t p p' st st' fd i c f sent read s' r' :
  whole_ok GA ps log N qs sh ms sts gh us → qs !! t = Some p → us !! t = Some st → thread_ok GA p' st' →
  sock_fd st = Some fd → n_user N !! fd = Some (Some i) → sock_fd st' = Some fd →
  n_conns N !! i = Some c → gh !! i = Some (sent, read) → c_client_gone (f c) = c_client_gone c →
  conn_ok conn_data (f c) s' r' (talk_with i GA) (sts !! i) →
  sock_ok (n_user N) (gone N) (<[i := (s', r')]> gh) st' → (get_message ∈ s' → inserted GA) →
  ∃ gh' us', whole_ok GA ps log (on_conn f i N) (<[t := p']> qs) sh ms sts gh' us'.
Proof.
  intros [Hm Hc Hlen Ht Hb Htr Hconn Hu Hget Hord Hsh] Hq Hst Hp' Hfd Hi Hfd' Hci Hgh Hgone Hok Hsock Hs'.
  assert (gone (on_conn f i N) = gone N) as Hg.
  { unfold gone, on_conn. cbn [n_conns set_conns]. apply list_eq. intros j. rewrite !list_lookup_fmap.
    destruct (decide (i = j)) as [<-|Hne]; [|by rewrite list_lookup_alter_ne].
    rewrite list_lookup_alter_eq, Hci. simpl. by rewrite Hgone. }
  exists (<[i := (s', r')]> gh), (<[t := st']> us). split; try done.
  - by rewrite length_on_conn.
  - by rewrite length_insert, length_on_conn.
  - intros j cj sj rj. destruct (decide (j = i)) as [->|Hne].
    + rewrite (lookup_on_conn _ _ _ _ Hci), list_lookup_insert_eq by (by eapply lookup_lt_Some).
      by intros [= <-] [= <- <-].
    + rewrite lookup_on_conn_ne, list_lookup_insert_ne by done. apply Hconn.
  - rewrite Hg. eapply users_own; [exact Hu|exact Hq|exact Hst|exact Hp'|exact Hfd|exact Hi|exact Hfd'|done|done| |exact Hsock].
    intros i2 Hne. by rewrite list_lookup_insert_ne.
  - intros j sent' read' [(_ & [= <- <-] & _)|[_ Hj]]%list_lookup_insert_Some; [done|by apply (Hget _ _ _ Hj)].
Qed.

(** The transcript of a connection that a thread has. *)
Lemma whole_sock GA ps log N qs sh ms sts gh us i sent read fd :
  whole_ok GA ps log N qs sh ms sts gh us → n_user N !! fd = Some (Some i) → gone N !! i = Some false →
  gh !! i = Some (sent, read) →
  ∃ c, n_conns N !! i = Some c ∧ c_client_gone c = false ∧ c_daemon_gone c = false ∧
    conn_of (n_user N) fd N = Some (i, c) ∧ conn_ok conn_data c sent read (talk_with i GA) (sts !! i).
Proof.
  intros Hw Hfd Hg Hgh. unfold gone in Hg. apply list_lookup_fmap_Some in Hg as (c & Hgone & Hc).
  pose proof (wk_conns _ _ _ _ _ _ _ _ _ _ Hw _ _ _ _ Hc Hgh) as Hok. exists c. split_and!; [done|done| | |done].
  - destruct (c_daemon_gone c) eqn:Hd; [|done]. apply (co_daemon _ _ _ _ _ _ Hok) in Hd. congruence.
  - by apply conn_of_Some.
Qed.

(** Nothing was said to a thread that has not been started. *)
Lemma talk_length GA log i : moment_ok GA log → (length (told (talk_with i GA)) <= length (said (talk_with i GA)))%nat.
Proof.
  intros [Htags Hlen _]. destruct (spawns log !! i) as [x|] eqn:Hi; [by eapply Hlen|].
  apply lookup_ge_None in Hi. unfold talk_with. rewrite thread_events_nil; [done|].
  intros x Hx%Htags. lia.
Qed.

Lemma user_sends GA ps log N qs sh ms sts gh us t fd logged data p p' :
  whole_ok GA ps log N qs sh ms sts gh us → moment_ok GA log → qs !! t = Some p →
  us !! t = Some (Online fd logged) → good_message conn_data logged data → (data = get_message → inserted GA) →
  thread_ok GA p' (Waits fd data) →
  ∃ i c, conn_of (n_user N) fd N = Some (i, c) ∧ c_daemon_gone c = false ∧
    ∃ gh' us', whole_ok GA ps log (on_conn (request_sent data) i N) (<[t := p']> qs) sh ms sts gh' us'.
Proof.
  intros Hw Hmo Hq Hst Hmsg Hins Hp'.
  destruct (uo_sock _ _ _ _ _ _ _ (wk_users _ _ _ _ _ _ _ _ _ _ Hw) _ _ Hst) as (i & sent & read & Hi & Hg & Hgh & Hlen & ->).
  destruct (whole_sock _ _ _ _ _ _ _ _ _ _ _ _ _ _ Hw Hi Hg Hgh) as (c & Hc & Hcg & Hdg & Hconn & Hok).
  exists i, c. split_and!; [done..|].
  eapply user_own; [exact Hw|exact Hq|exact Hst|exact Hp'|done|exact Hi|done|exact Hc|exact Hgh|done| | |].
  - by eapply conn_ok_request; [apply world|exact Hok|done|by eapply talk_length|done|].
  - exists i, sent, read. split_and!; [done..| |done].
    apply list_lookup_insert_eq. by eapply lookup_lt_Some.
  - intros [Hin|Hin%list_elem_of_singleton]%elem_of_app; [|by apply Hins].
    by eapply (wk_gets _ _ _ _ _ _ _ _ _ _ Hw).
Qed.

Lemma user_reads GA ps log N qs sh ms sts gh us t fd n msg p :
  whole_ok GA ps log N qs sh ms sts gh us → moment_ok GA log → qs !! t = Some p →
  us !! t = Some (Waits fd msg) →
  ∃ i c, conn_of (n_user N) fd N = Some (i, c) ∧ c_daemon_gone c = false ∧
    (c_reply c ≠ [] → good_reply conn_data msg (c_reply c) ∧ (msg = insert_message → inserted GA) ∧
     ((length (c_reply c) <= n)%nat → ∀ p', thread_ok GA p' (Online fd true) →
      ∃ gh' us', whole_ok GA ps log (on_conn (reply_read n) i N) (<[t := p']> qs) sh ms sts gh' us')).
Proof.
  intros Hw Hmo Hq Hst.
  destruct (uo_sock _ _ _ _ _ _ _ (wk_users _ _ _ _ _ _ _ _ _ _ Hw) _ _ Hst) as (i & sent & read & Hi & Hg & Hgh & Hlen).
  destruct (whole_sock _ _ _ _ _ _ _ _ _ _ _ _ _ _ Hw Hi Hg Hgh) as (c & Hc & Hcg & Hdg & Hconn & Hok).
  exists i, c. split_and!; [done..|]. intros Hne.
  destruct (conn_ok_waits _ _ _ _ _ _ _ Hok Hlen Hne (talk_length _ _ i Hmo)) as (Hsaid & Htold & Hread). split_and!.
  - eapply (mo_replies _ _ _ Hmo); [|by eapply wk_order|exact Hsaid|exact Htold].
    intros i2 x2 Hx2. by eapply whole_good_messages.
  - intros ->. by exists i, (length read), (c_reply c).
  - intros Hn p' Hp'.
    eapply user_own; [exact Hw|exact Hq|exact Hst|exact Hp'|done|exact Hi|done|exact Hc|exact Hgh|done|by apply Hread| |].
    + exists i, (sent ++ [msg]), (read ++ [c_reply c]). split_and!; [done..| |rewrite !length_app; simpl; lia|].
      * apply list_lookup_insert_eq. by eapply lookup_lt_Some.
      * symmetry. apply bool_decide_eq_true. by destruct sent.
    + by eapply (wk_gets _ _ _ _ _ _ _ _ _ _ Hw).
Qed.

(** A descriptor that is open is not given out. *)
Lemma sock_open d g gh st fd : sock_ok d g gh st → sock_fd st = Some fd → d !! fd ≠ None.
Proof.
  destruct st as [|fd'|fd' logged|fd' msg]; cbn [sock_ok sock_fd]; [done|by intros Hd [= <-]; rewrite Hd| |];
    intros (i & sent & read & Hi & _) [= <-]; by rewrite Hi.
Qed.

Lemma user_opens GA ps log N qs sh ms sts gh us t fd p p' :
  whole_ok GA ps log N qs sh ms sts gh us → qs !! t = Some p → us !! t = Some NoSocket →
  n_user N !! fd = None → thread_ok GA p' (Unconnected fd) →
  ∃ us', whole_ok GA ps log (set_user (<[fd := None]> (n_user N)) N) (<[t := p']> qs) sh ms sts gh us'.
Proof.
  intros [Hm Hc Hlen Ht Hb Htr Hconn Hu Hget Hord Hsh] Hq Hst Hnew Hp'. exists (<[t := Unconnected fd]> us).
  split; try done. cbn [n_user set_user]. change (gone (set_user _ N)) with (gone N).
  assert (∀ fd2 i, <[fd := None]> (n_user N) !! fd2 = Some (Some i) → n_user N !! fd2 = Some (Some i)) as Hback.
  { intros fd2 i. rewrite lookup_insert_Some. by intros [[_ ?]|[_ ?]]. }
  rewrite <- (app_nil_r (<[t := p']> qs)), <- (app_nil_r (<[t := Unconnected fd]> us)).
  apply (users_next conn_data (inserted GA) qs (n_user N) (gone N) gh us t p NoSocket p' (Unconnected fd) []); try done.
  - apply lookup_insert_eq.
  - intros t2 st2 Hst2 Hne. pose proof (uo_sock _ _ _ _ _ _ _ Hu _ _ Hst2) as Hok2.
    assert (sock_fd st2 ≠ Some fd) as Hne2 by (intros Hfd; by apply (sock_open _ _ _ _ _ Hok2) in Hfd).
    split; [|by intros ? [= <-]].
    eapply (sock_ok_other _ _ _ fd (length (gone N))); [|done|done| |exact Hne2|exact Hok2].
    + intros fd2 Hfd2. by rewrite lookup_insert_ne.
    + intros fd2 Hfd2%(uo_range _ _ _ _ _ _ _ Hu). lia.
  - intros fd2 i Hi%Hback. by eapply (uo_range _ _ _ _ _ _ _ Hu).
  - intros fd2 fd3 i Hi2%Hback Hi3%Hback. by eapply (uo_inj _ _ _ _ _ _ _ Hu).
Qed.

Lemma user_connects GA ps log N qs sh ms sts gh us t fd p p' :
  whole_ok GA ps log N qs sh ms sts gh us → moment_ok GA log → qs !! t = Some p → us !! t = Some (Unconnected fd) →
  thread_ok GA p' (Online fd false) →
  ∃ gh' us', whole_ok GA ps log
    (set_user (<[fd := Some (length (n_conns N))]> (n_user N)) (set_conns (n_conns N ++ [new_conn]) N))
    (<[t := p']> qs) sh ms sts gh' us'.
Proof.
  intros [Hm Hc Hlen Ht Hb Htr Hconn Hu Hget Hord Hsh] Hmo Hq Hst Hp'.
  pose proof (uo_sock _ _ _ _ _ _ _ Hu _ _ Hst) as Hfd. cbn [sock_ok] in Hfd.
  assert (length (gone N) = length (n_conns N)) as Hg by apply length_fmap.
  exists (gh ++ [([], [])]), (<[t := Online fd false]> us).
  split; cbn [n_user n_daemon n_accepted n_conns set_user set_conns]; try done.
  - rewrite length_app. lia.
  - rewrite !length_app. simpl. lia.
  - intros i c sent read Hi%lookup_grown Hgh%lookup_grown.
    destruct Hi as [[Hl Hi]|[Hl Hi]], Hgh as [[Hl2 Hgh]|[Hl2 Hgh]]; try lia; [by eapply Hconn|].
    apply list_lookup_singleton_Some in Hi as [Hi <-]. apply list_lookup_singleton_Some in Hgh as [_ [= <- <-]].
    pose proof (to_accepted _ _ _ _ _ Ht) as Hacc.
    assert (talk_with i GA = []) as ->.
    { unfold talk_with. rewrite thread_events_nil; [done|]. intros x Hx%(mo_tags _ _ _ Hmo). lia. }
    apply conn_ok_new, lookup_ge_None_2. rewrite (to_stages _ _ _ _ _ Ht). lia.
  - assert (gone (set_user (<[fd := Some (length (n_conns N))]> (n_user N)) (set_conns (n_conns N ++ [new_conn]) N)) =
      gone N ++ [false]) as -> by (unfold gone; cbn [n_conns set_user set_conns]; by rewrite fmap_app).
    assert (∀ fd2 i, <[fd := Some (length (n_conns N))]> (n_user N) !! fd2 = Some (Some i) →
      (fd2 = fd ∧ i = length (n_conns N)) ∨ (n_user N !! fd2 = Some (Some i) ∧ (i < length (n_conns N))%nat)) as Hback.
    { intros fd2 i [[<- [= <-]]|[_ Hi]]%lookup_insert_Some; [by left|right].
      split; [done|]. rewrite <- Hg. by eapply (uo_range _ _ _ _ _ _ _ Hu). }
    rewrite <- (app_nil_r (<[t := p']> qs)), <- (app_nil_r (<[t := Online fd false]> us)).
    apply (users_next conn_data (inserted GA) qs (n_user N) (gone N) gh us t p (Unconnected fd) p' (Online fd false) []); try done.
    + exists (length (n_conns N)), [], []. split_and!; [apply lookup_insert_eq| | |done|done].
      * rewrite lookup_app_r by lia. by rewrite Hg, Nat.sub_diag.
      * rewrite lookup_app_r by lia. by rewrite Htr, Nat.sub_diag.
    + intros t2 st2 Hst2 Hne.
      assert (sock_fd st2 ≠ Some fd) as Hne2.
      { intros Hfd2. destruct Hne. by eapply (uo_apart _ _ _ _ _ _ _ Hu). }
      split; [|by intros ? [= <-]].
      eapply (sock_ok_other _ _ _ fd (length (n_conns N))); [| | | |exact Hne2|by eapply (uo_sock _ _ _ _ _ _ _ Hu)].
      * intros fd2 Hfd2. by rewrite lookup_insert_ne.
      * intros i2 Hi2. destruct (decide (i2 < length (n_conns N))%nat); [by rewrite lookup_app_l by lia|].
        rewrite !lookup_ge_None_2; [done|lia|]. rewrite length_app. simpl. lia.
      * intros i2 Hi2. destruct (decide (i2 < length (n_conns N))%nat); [by rewrite lookup_app_l by lia|].
        rewrite !lookup_ge_None_2; [done|lia|]. rewrite length_app. simpl. lia.
      * intros fd2 Hfd2%(uo_range _ _ _ _ _ _ _ Hu). lia.
    + intros fd2 i [[_ ->]|[_ Hi]]%Hback; rewrite length_app; simpl; lia.
    + intros fd2 fd3 i [[-> ->]|[H2 Hl2]]%Hback [[-> Heq]|[H3 Hl3]]%Hback; try done; try lia.
      by eapply (uo_inj _ _ _ _ _ _ _ Hu).
  - intros i sent read [[Hl Hi]|[Hl Hi]]%lookup_grown; [by eapply Hget|].
    apply list_lookup_singleton_Some in Hi as [_ [= <- <-]]. by intros ?%not_elem_of_nil.
Qed.

Lemma user_leaves GA ps log N qs sh ms sts gh us t fd logged p p' :
  whole_ok GA ps log N qs sh ms sts gh us → qs !! t = Some p → us !! t = Some (Online fd logged) →
  thread_ok GA p' NoSocket →
  ∃ i c, conn_of (n_user N) fd N = Some (i, c) ∧
    ∃ us', whole_ok GA ps log (on_conn client_left i (set_user (delete fd (n_user N)) N)) (<[t := p']> qs) sh ms sts gh us'.
Proof.
  intros Hw Hq Hst Hp'.
  destruct (uo_sock _ _ _ _ _ _ _ (wk_users _ _ _ _ _ _ _ _ _ _ Hw) _ _ Hst) as (i & sent & read & Hi & Hg & Hgh & Heq & ->).
  destruct (whole_sock _ _ _ _ _ _ _ _ _ _ _ _ _ _ Hw Hi Hg Hgh) as (c & Hci & Hcg & Hdg & Hcof & Hok).
  exists i, c. split; [done|]. destruct Hw as [Hm Hc Hlen Ht Hb Htr Hconn Hu Hget Hord Hsh].
  exists (<[t := NoSocket]> us). set (N1 := set_user (delete fd (n_user N)) N).
  split; try done.
  - by rewrite length_on_conn.
  - by rewrite length_on_conn.
  - intros j cj sj rj. destruct (decide (j = i)) as [->|Hne].
    + rewrite (lookup_on_conn _ i N1 c Hci), Hgh. intros [= <-] [= <- <-]. by apply conn_ok_leaves.
    + rewrite lookup_on_conn_ne by done. apply Hconn.
  - cbn [n_user on_conn set_conns set_user N1].
    assert (∀ j, j ≠ i → gone (on_conn client_left i N1) !! j = gone N !! j) as Hgone.
    { intros j Hj. unfold gone. rewrite !list_lookup_fmap. by rewrite lookup_on_conn_ne. }
    assert (length (gone (on_conn client_left i N1)) = length (gone N)) as Hglen.
    { unfold gone. by rewrite !length_fmap, length_on_conn. }
    assert (∀ fd2 j, delete fd (n_user N) !! fd2 = Some (Some j) → n_user N !! fd2 = Some (Some j)) as Hback.
    { intros fd2 j. rewrite lookup_delete_Some. by intros [_ ?]. }
    rewrite <- (app_nil_r (<[t := p']> qs)), <- (app_nil_r (<[t := NoSocket]> us)).
    eapply (users_next conn_data (inserted GA) qs (n_user N) (gone N) gh us t p _ p' NoSocket []); try done.
    + intros t2 st2 Hst2 Hne.
      assert (sock_fd st2 ≠ Some fd) as Hne2.
      { intros Hfd2. destruct Hne. by eapply (uo_apart _ _ _ _ _ _ _ Hu). }
      split; [|done].
      eapply (sock_ok_other _ _ _ fd i); [|exact Hgone|done| |exact Hne2|by eapply (uo_sock _ _ _ _ _ _ _ Hu)].
      * intros fd2 Hfd2. by rewrite lookup_delete_ne.
      * intros fd2 Hfd2. by eapply (uo_inj _ _ _ _ _ _ _ Hu).
    + intros fd2 j Hj%Hback. rewrite Hglen. by eapply (uo_range _ _ _ _ _ _ _ Hu).
    + intros fd2 fd3 j Hj2%Hback Hj3%Hback. by eapply (uo_inj _ _ _ _ _ _ _ Hu).
Qed.

End Whole.
