(* ===== verification/EndToEnd.v ===== *)
(** * Every execution of the benchmark with the daemon: the result

    The invariant of [Executions] holds at the start and is kept by every step. *)

From S2P Require Import Prelude Prog CStr Userland Benchmark UserSpec BenchSpec BenchKeys.
From S2P Require Import KvIoctl KMem KvHash KLogic KSound KvHashSpec KvTable KvStore.
From S2P Require Import KvTrace Kvlkm KvlkmSpec KvDevice KvInterface Daemon DaemonSpec Access.
From S2P Require Import System.
From S2P Require Import Threads SystemSpec Dialogue Isolation SavedFile Spawning DaemonSystem.
From S2P Require Import Moments.
From S2P Require Import Descriptors HotKey HotClients HotRounds Network Composed Together.
From S2P Require Import HotMoments Executions.

Section Whole.
Context {ioc_api : IocApi} {ioc_laws : IocLaws ioc_api}.
Context {api : KernelApi} {laws : KernelLaws api} {env : Outside}.
Variables (pb pl : addr) (nbits : Z) (F : heap).
Hypothesis nbits_range : 1 <= nbits <= 31.
Variables (fuel client_fuel bench_fuel : nat) (conn_data : connection_data).

Abbreviation store := (mk_ht (Some pb) (Some pl) nbits).
Abbreviation daemon_start := (daemon_start pb pl nbits fuel).
Abbreviation step := (whole_step store client_fuel bench_fuel conn_data).
Abbreviation run := (sys_run store client_fuel).
Abbreviation good_state := (good_state conn_data).

Hypothesis world : benign bench_fuel conn_data.

(** *** The benchmark goes on *)

Lemma shared_ok_after X (e : uact X) ready st w b sh x sh' :
  act_speaks conn_data e ready st w → user_shared e b sh x = Some sh' → shared_ok sh → shared_ok sh'.
Proof.
  intros He Hsh [Hc Ho]. destruct e; cbn [user_shared] in Hsh; try (by injection Hsh as <-); try (by destruct b; [injection Hsh as <-|]);
    try (case_decide; [by injection Hsh as <-|done]); injection Hsh as <-.
  - split; [done|]. cbn [sh_out]. apply Forall_app. split; [done|]. apply Forall_singleton, He.
  - split; [|done]. intros c' Hc'. cbn [sh_counters]. unfold bump.
    rewrite decide_False; [by apply Hc|]. intros ->. by apply He.
Qed.

Lemma user_step_ok GA ps log N N' qs sh sh' ms sts gh us t X (e : uact X) k x b :
  whole_ok conn_data GA ps log N qs sh ms sts gh us → moment_ok conn_data GA log →
  qs !! t = Some (Vis e k) → user_net e N x = Some N' → user_shared e b sh x = Some sh' →
  ∃ gh' us', whole_ok conn_data GA ps log N'
    (<[t := k x]> qs ++ (job_body bench_fuel conn_data <$> started_jobs e)) sh' ms sts gh' us'.
Proof.
  intros Hw Hmo Hq Hnet Hshared.
  destruct (users_thread _ _ _ _ _ _ _ _ _ (wk_users _ _ _ _ _ _ _ _ _ _ _ Hw) Hq) as (st & Hst & Hp & _).
  destruct Hp as (ready & Hready & Hp). cbn [speaks] in Hp.
  pose proof (shared_ok_after _ _ _ _ _ _ _ _ _ Hp Hshared (wk_shared _ _ _ _ _ _ _ _ _ _ _ Hw)) as Hsh.
  pose proof (jobs_ok bench_fuel conn_data world GA _ _ _ _ _ Hp Hready) as Hjobs.
  assert (∀ st', speaks conn_data (k x) (λ _ _ _, True) ready st' → thread_ok conn_data (inserted GA) (k x) st') as Hon
    by (intros st' Hk; by exists ready).
  assert (N' = N → speaks conn_data (k x) (λ _ _ _, True) ready st → ∃ gh' us', whole_ok conn_data GA ps log N'
    (<[t := k x]> qs ++ (job_body bench_fuel conn_data <$> started_jobs e)) sh' ms sts gh' us') as Haside.
  { intros -> Hk. exists gh. by eapply user_aside; [..|apply Hon|]. }
  assert (∀ gh' us' N1, whole_ok conn_data GA ps log N1 (<[t := k x]> qs) sh ms sts gh' us' → started_jobs e = [] → N1 = N' →
    ∃ gh' us', whole_ok conn_data GA ps log N'
      (<[t := k x]> qs ++ (job_body bench_fuel conn_data <$> started_jobs e)) sh' ms sts gh' us') as Hdone.
  { intros gh' us' N1 Hw' -> <-. exists gh', us'. rewrite app_nil_r. by destruct Hw'. }
  clear Hjobs. destruct e; cbn [act_speaks user_net] in Hp, Hnet;
    try (injection Hnet as <-; apply Haside; [done|]; first [apply Hp | by apply Hp | destruct Hp as (_ & _ & Hp); by destruct x
                                                            | destruct Hp; by destruct x]).
  - destruct Hp as (-> & Hfail & Hnew). destruct (new_descriptor x (n_user N)) as [d'|] eqn:Hd; [|done].
    injection Hnet as <-. apply new_descriptor_Some in Hd as [[-> ->]|(Hge & Hfresh & ->)].
    + apply Haside; [by destruct N|done].
    + destruct (user_opens conn_data GA ps log N qs sh ms sts gh us t x _ (k x) Hw Hq Hst Hfresh) as [us' Hw'];
        [by apply Hon, Hnew|]. by eapply Hdone.
  - destruct Hp as (-> & Hr). specialize (Hr x). case_decide.
    + injection Hnet as <-. by apply Haside.
    + destruct (n_user N !! fd) as [[i|]|] eqn:Hfd; try done. injection Hnet as <-.
      destruct (user_connects conn_data GA ps log N qs sh ms sts gh us t fd _ (k x) Hw Hmo Hq Hst (Hon _ Hr))
        as (gh' & us' & Hw'). by eapply Hdone.
  - destruct Hp as (logged & -> & Hmsg & Hask & Hk).
    destruct (user_sends bench_fuel conn_data world GA ps log N qs sh ms sts gh us t fd logged data _
      (k (Z.of_nat (length data))) Hw Hmo Hq Hst Hmsg) as (i & c & Hc & Hdg & gh' & us' & Hw');
      [by intros Hdata; apply Hready, Hask|by exists ready|].
    rewrite Hc, Hdg in Hnet. destruct (decide _) as [->|]; [|done]. injection Hnet as <-. by eapply Hdone.
  - destruct Hp as (msg & -> & Hr).
    destruct (user_reads conn_data GA ps log N qs sh ms sts gh us t fd n msg _ Hw Hmo Hq Hst)
      as (i & c & Hc & Hdg & Hreply).
    rewrite Hc in Hnet. destruct x as [data|]; [|done]. rewrite Hdg in Hnet.
    destruct (decide _) as [[-> Hne]|]; [|done]. injection Hnet as <-. destruct Hne as [Hne|]; [|done].
    destruct Hreply as (Hgood & Hins & Hread); [intros Hnil; by rewrite Hnil, take_nil in Hne|].
    destruct (Hr _ Hgood) as [Hlen Hk]. rewrite (take_ge _ _ Hlen) in *.
    destruct (Hread Hlen (k (Some (c_reply c)))) as (gh' & us' & Hw'); [|by eapply Hdone].
    eexists. split; [|exact Hk]. intros [Hb|Hmsg%bool_decide_eq_true]%orb_true_iff; [by apply Hready|by apply Hins].
  - destruct Hp as [[logged ->] Hk].
    destruct (user_leaves conn_data GA ps log N qs sh ms sts gh us t fd logged _ (k tt) Hw Hq Hst)
      as (i & c & Hc & us' & Hw'); [by exists ready|].
    destruct x. rewrite Hc in Hnet. injection Hnet as <-. by eapply Hdone.
  - cbn [user_shared] in Hshared. case_decide; [|done]. subst x. intros Hc.
    by apply (so_counters _ (wk_shared _ _ _ _ _ _ _ _ _ _ _ Hw)).
Qed.

(** *** From the start *)

Definition no_shared : shared := mk_shared false (λ _, 0) [].

(** The daemon and the benchmark when they have been started. *)
Definition whole_start (s : kst) : whole :=
  mk_whole (daemon_start s) no_net [run_concurrent_read_write conn_data] no_shared.

Lemma good_start s : good_state [] (whole_start s).
Proof.
  exists (mk_main [] None), [], [], [NoSocket]. split; try done.
  - intros p [= <-]. apply main_thread_watched.
  - split; try done; cbn [ms_own]; [constructor|by intros fd ?%not_elem_of_nil].
  - split; try done.
    + constructor; [|constructor]. exists false. split; [done|]. apply speaks_run_concurrent_read_write.
    + by intros [|t] st; [intros [= <-]|].
    + by intros [|t] [|t'] st st' fd; [intros [= <-] [= <-]|..].
  - by intros [|? ?].
Qed.

(** A step of either side. *)
Lemma whole_step_ok m s GA w w' :
  store_rep pb pl nbits F m s → start_ok m →
  run (daemon_start s) GA (w_daemon w) → good_state GA w → step w w' →
  ∃ GA', run (daemon_start s) GA' (w_daemon w') ∧ good_state GA' w'.
Proof.
  intros Hrep Hstart Hrun (ms & sts & gh & us & Hw) Hstep.
  assert (∀ GA c, run (daemon_start s) GA c → moment_ok conn_data GA c.2.2) as Hmoment.
  { intros GA1 c1 Hrun1. by eapply (run_moment pb pl nbits F nbits_range fuel client_fuel bench_fuel). }
  destruct Hstep as [ps s0 N qs sh j X e k x s' N' Hj He Hnet|D N qs sh t X e k x N' sh' Ht Hnet Hsh];
    cbn [w_daemon w_net w_user w_shared] in *.
  - pose proof (run_thread _ _ _ _ _ _ _ _ _ _ _ _ Hrun Hj He) as Hrun'. eexists. split; [exact Hrun'|].
    pose proof (sexec_log _ _ _ _ _ He) as Hlog. apply Hmoment in Hrun'. cbn [fst snd] in *. rewrite Hlog in Hrun'.
    destruct e as [X e|X e]; cbn [logged daemon_net] in *.
    + injection Hnet as <-. rewrite !app_nil_r in *. exists ms, sts, gh, us. cbn [w_daemon w_net w_user w_shared fst snd].
      rewrite ?app_nil_r, Hlog. by eapply kernel_step_ok.
    + unfold good_state, Executions.good_state. cbn [w_daemon w_net w_user w_shared fst snd]. rewrite Hlog.
      assert (spawns [Answered e x] = spawned (Answered e x)) as Hsp by apply app_nil_r.
      rewrite Hsp. destruct j as [|i].
      * destruct (main_step_ok pb pl nbits client_fuel conn_data _ _ _ _ _ _ _ _ _ _ _ _ _ _ _ Hw Hj Hnet)
          as (ms' & sts' & Hw').
        by exists ms', sts', gh, us.
      * destruct (lookup_lt_is_Some_2 (spawns s0.2) i) as [[fd kv_fd] Hi].
        { apply lookup_lt_Some in Hj. rewrite (wk_threads _ _ _ _ _ _ _ _ _ _ _ Hw) in Hj. lia. }
        destruct (client_step_ok bench_fuel conn_data world _ _ _ _ _ _ _ _ _ _ _ _ _ _ _ _ _ _ Hw Hi Hj Hnet)
          as (Hnone & sts' & Hw'); [done|].
        exists ms, sts', gh, us. by rewrite Hnone, app_nil_r.
  - exists GA. split; [done|].
    destruct (user_step_ok _ _ _ _ _ _ _ _ _ _ _ _ _ _ _ _ _ _ Hw (Hmoment _ _ Hrun) Ht Hnet Hsh) as (gh' & us' & Hw').
    by exists ms, sts, gh', us'.
Qed.

Lemma whole_reachable m s w :
  store_rep pb pl nbits F m s → start_ok m → rtc step (whole_start s) w →
  ∃ GA, run (daemon_start s) GA (w_daemon w) ∧ good_state GA w.
Proof.
  intros Hrep Hstart. revert w. apply rtc_ind_r.
  - exists []. split; [constructor|apply good_start].
  - intros w w' _ Hstep (GA & Hrun & Hgood). by eapply whole_step_ok.
Qed.

(** The next action of a thread of the benchmark is undefined, or an exception that
    nobody catches. *)
Definition user_faults (qs : list (uprog unit)) : Prop :=
  ∃ t f k, qs !! t = Some (Vis (UTrap f) k) ∧ f ≠ UOutOfFuel.

Lemma whole_no_fault m s w :
  store_rep pb pl nbits F m s → start_ok m → rtc step (whole_start s) w →
  ¬ pool_faults sexec (w_daemon w) ∧ ¬ user_faults (w_user w) ∧ shared_ok (w_shared w).
Proof.
  intros Hrep Hstart Hsteps. destruct (whole_reachable m s w Hrep Hstart Hsteps) as (GA & Hrun & ms & sts & gh & us & Hw).
  split_and!; [| |by eapply wk_shared].
  - destruct Hrep as (L & Hg & _). eapply sys_no_fault; [apply world|].
    exists GA. by eapply daemon_run_inv; [| |apply world|].
  - intros (t & f & k & Ht & Hf).
    destruct (users_thread _ _ _ _ _ _ _ _ _ (wk_users _ _ _ _ _ _ _ _ _ _ _ Hw) Ht) as (st & _ & (ready & _ & Hp) & _).
    by destruct Hf.
Qed.

End Whole.
