(* ===== verification/KvProps.v ===== *)
(** * Properties of the kernel module

    The theorems about [kernel/kv_hash.c] and [kernel/kvlkm.c], each with a
    witness on the environment of [Instances]. *)

From S2P Require Import Prelude Prog Timeline CStr KvIoctl KMem KvHash KLogic KSound KTyping.
From S2P Require Import KvHashSpec.
From S2P Require Import KvTable.
From S2P Require Import KvStore KvLifecycle KvTrace Kvlkm KvlkmSpec KvDevice KvModule KvInterface.
From S2P Require Import Auth Daemon DaemonSem Instances.

(** ** Inputs of the witnesses *)

(** The message of a client: key [k] and a terminated value. *)
Definition test_msg (k : Z) (v : bytes) : kv_message :=
  mk_msg 0 (zeros 4) k (v ++ zeros (MAX_VALUE_LEN - length v)).

Definition test_arg (k : Z) (v : bytes) : ubuf := process_memory (encode_msg (test_msg k v)).

(** Two clients insert the same new key, and the steps of a schedule in which
    both look the key up before either stores it. *)
Definition race_requests : list (Z * ubuf) :=
  [(KV_INSERT, test_arg 7 value_a); (KV_INSERT, test_arg 7 value_b)].

Definition race_schedule : list nat :=
  [0; 0; 0; 1; 1; 1]%nat ++ replicate 9 0%nat ++ replicate 8 1%nat.

Abbreviation test_calls := (calls 1%positive 2%positive test_bits).

(** A reader and a writer of key 5. *)
Definition read_write_requests : list (Z * ubuf) :=
  [(KV_GET, test_arg 5 []); (KV_UPDATE, test_arg 5 value_b)].

Lemma value_ab_ok : value_ok value_a ∧ value_ok value_b.
Proof.
  split; (split; [|by apply Nat.ltb_lt; vm_compute]).
  - by apply (bool_decide_unpack (no_nul value_a)); vm_compute.
  - by apply (bool_decide_unpack (no_nul value_b)); vm_compute.
Qed.

Lemma test_msg_ok k v : is_u64 k → value_ok v → msg_ok (test_msg k v).
Proof.
  intros Hk [_ Hv]. split_and!; [by unfold is_s32|done|done|].
  simpl. rewrite length_app, length_zeros. lia.
Qed.

Lemma test_msg_value k v : value_ok v → c_str (value (test_msg k v)) = Some v.
Proof. intros [Hn Hv]. simpl. rewrite zeros_cons by lia. by apply c_str_app. Qed.

Lemma test_request_ok op k v :
  is_u64 k → value_ok v → request_ok (op_code op) (test_arg k v).
Proof.
  intros Hk Hv. split; [apply op_code_u32|]. intros op' bs _ _.
  unfold test_arg. pose proof (test_msg_ok k v Hk Hv) as Hm.
  rewrite copy_from_process by (destruct Hm as (_ & ? & _ & ?); by apply length_encode_msg).
  intros [= <-]. rewrite decode_encode_msg by done. by rewrite test_msg_value.
Qed.

Lemma race_requests_ok : requests_ok race_requests.
Proof.
  destruct value_ab_ok. assert (is_u64 7) by (unfold is_u64, u64_max; lia).
  constructor; [|constructor; [|constructor]]; by apply (test_request_ok OpInsert).
Qed.

Lemma read_write_requests_ok : requests_ok read_write_requests.
Proof.
  destruct value_ab_ok. assert (is_u64 5) by (unfold is_u64, u64_max; lia).
  assert (value_ok []) by (split; [apply no_nul_nil|by apply Nat.ltb_lt; vm_compute]).
  constructor; [by apply (test_request_ok OpGet)|].
  constructor; [by apply (test_request_ok OpUpdate)|constructor].
Qed.

(** Where a schedule of calls on [s] leads. *)
Definition schedule_end (js : list nat) (reqs : list (Z * ubuf)) (s : kst)
    : list (kprog (Z * ubuf)) * kst :=
  default (test_calls reqs, s) (schedule kexec js (test_calls reqs) s).

Lemma schedule_end_steps js reqs s :
  rtc (pstep kexec) (test_calls reqs, s) (schedule_end js reqs s).
Proof.
  unfold schedule_end. destruct (schedule kexec js (test_calls reqs) s) eqn:Hs; simpl; [|constructor].
  by eapply schedule_steps.
Qed.

Definition race_end : list (kprog (Z * ubuf)) * kst :=
  schedule_end race_schedule race_requests store0.

(** The reader runs between the writer's lookup and its store. *)
Definition read_write_end : list (kprog (Z * ubuf)) * kst :=
  schedule_end (replicate 6 1%nat ++ replicate 6 0%nat ++ replicate 8 1%nat) read_write_requests store1.

(** A snapshot with room for two pairs that asks for one, and an insert that
    comes between its count and its copy. *)
Definition snapshot_requests : list (Z * ubuf) :=
  [(KV_SNAPSHOT, process_memory (snapshot_request 1 2)); (KV_INSERT, test_arg 7 value_b)].

Lemma snapshot_requests_ok : requests_ok snapshot_requests.
Proof.
  destruct value_ab_ok. assert (is_u64 7) by (unfold is_u64, u64_max; lia).
  constructor; [|constructor; [by apply (test_request_ok OpInsert)|constructor]].
  split; [apply command_u32, snapshot_command|].
  intros op bs Hop. by destruct (op_code_snapshot op) as [[] _].
Qed.

Definition snapshot_end : list (kprog (Z * ubuf)) * kst :=
  schedule_end (replicate 9 0%nat ++ replicate 14 1%nat ++ replicate 19 0%nat) snapshot_requests store1.

(** ** Concurrent callers *)

Section Concurrent.
Context {ioc_api : IocApi} {ioc_laws : IocLaws ioc_api}.
Context {api : KernelApi} {laws : KernelLaws api}.
Variables (pb pl : addr) (nbits : Z) (F : heap).
Hypothesis nbits_range : 1 <= nbits <= 31.

(** C1: any number of [ioctl] calls running concurrently on the table, under
    any interleaving of their memory accesses, never fault; they never deadlock
    and every execution is finite, so all calls return; and once they have, the
    results and the final table are those of one sequence of atomic map events in
    which every call's own events appear in its program order. *)
Theorem ioctl_pool_refines reqs m s c :
  store_rep pb pl nbits F m s → requests_ok reqs →
  rtc (pstep kexec) (calls pb pl nbits reqs, s) c →
  ¬ pool_faults kexec c ∧
  Acc (flip (pstep kexec)) c ∧
  (pool_done c.1 ∨ ∃ c', pstep kexec c c') ∧
  (pool_done c.1 →
    ∃ GE m', events_run nbits (snd <$> GE) m m' ∧ store_rep pb pl nbits F m' c.2 ∧
      ∀ j cmd arg, reqs !! j = Some (cmd, arg) →
        ∃ r, c.1 !! j = Some (Ret r) ∧ ioctl_trace nbits cmd arg (thread_events j GE) r).
Proof.
  intros (L & Hg & ->) Hreqs Hsteps. pose proof (pstep_length kexec _ _ Hsteps) as Hlen.
  pose proof (ginv_table_ok _ _ _ _ _ _ _ Hg) as HL.
  pose proof (pool_steps_inv _ _ _ _ _ _ _ _ (calls_inv pb pl nbits F nbits_range _ _ _ Hreqs Hg) Hsteps) as Hp.
  split_and!.
  - by eapply pool_no_fault.
  - apply pstep_terminates.
  - eapply pool_progress; [done| |exact Hp]. by intros j r t (cmd & arg & _ & es & H & -> & _).
  - intros Hd. destruct c as [ps s']. simpl in *.
    destruct (pool_returned_all pb pl nbits F nbits_range reqs L ps s') as (GE & m' & ? & ? & _ & ?);
      [done|rewrite Hlen; apply length_fmap|done|done|].
    by exists GE, m'.
Qed.

(** C10: a value a concurrent GET returns is never torn or made up: it was in
    the table before the calls began, or it is the whole value of some INSERT or
    UPDATE request for the same key. *)
Theorem concurrent_get_source reqs m s ps s' j arg bs u :
  store_rep pb pl nbits F m s → requests_ok reqs →
  rtc (pstep kexec) (calls pb pl nbits reqs, s) (ps, s') → pool_done ps →
  reqs !! j = Some (KV_GET, arg) → copy_from_user arg sizeof_kv_message = Some bs →
  ps !! j = Some (Ret (0, u)) →
  let reply := decode_msg (read_at 0 sizeof_kv_message (u_bytes u)) in
  status reply = 0 →
  ∃ v, c_str (value reply) = Some v ∧
    (m !! key (decode_msg bs) = Some v ∨ wrote reqs (key (decode_msg bs)) v).
Proof.
  intros (L & Hg & ->) Hreqs Hsteps Hd Hj Hbs Hps reply Hstatus.
  pose proof (pstep_length kexec _ _ Hsteps) as Hlen. cbn [fst] in Hlen.
  pose proof (ginv_table_ok _ _ _ _ _ _ _ Hg) as HL.
  pose proof (pool_steps_inv _ _ _ _ _ _ _ _ (calls_inv pb pl nbits F nbits_range _ _ _ Hreqs Hg) Hsteps) as Hp.
  destruct (pool_returned_all pb pl nbits F nbits_range reqs L ps s') as (GE & m' & Hrun & _ & Htags & Hall);
    [done|rewrite Hlen; apply length_fmap|done|done|].
  destruct (Hall _ _ _ Hj) as (r & Hr & Htr). rewrite Hps in Hr. injection Hr as <-.
  destruct (get_reply nbits arg bs _ u Htr Hbs Hstatus) as (v & Hev & Hval).
  exists v. split; [done|].
  assert (ELookup (key (decode_msg bs)) (Some v) ∈ snd <$> GE) as Hin.
  { apply list_elem_of_fmap. eexists (j, _). split; [done|]. apply thread_events_elem.
    rewrite Hev. apply list_elem_of_singleton. done. }
  destruct (lookup_event_source nbits _ _ _ _ _ Hrun Hin) as [Hm|Hadd]; [by left|right].
  apply list_elem_of_fmap in Hadd as ([j' e] & He & Hadd). simpl in He. subst e.
  destruct (lookup_lt_is_Some_2 reqs j' (Htags _ _ Hadd)) as [[cmd' arg'] Hj'].
  destruct (Hall _ _ _ Hj') as (r' & _ & Htr'). apply thread_events_elem in Hadd.
  destruct (add_event_source nbits _ _ _ _ _ _ Htr' Hadd) as (op & bs' & -> & ? & ? & ? & ?).
  by exists j', op, arg', bs'.
Qed.

(** C13: whatever requests run concurrently, at every moment the table's heap is
    well typed: both arrays have their [2^bits] elements, every head and lock is
    initialised, and a bucket nobody holds is a list of complete entries with
    distinct keys of that bucket, each with a buffer of exactly its terminated
    value. *)
Theorem reachable_heap_typed reqs m s c :
  store_rep pb pl nbits F m s → requests_ok reqs →
  rtc (pstep kexec) (calls pb pl nbits reqs, s) c → heap_typed pb pl nbits (k_heap c.2).
Proof.
  intros (L & Hg & ->) Hreqs Hsteps.
  destruct (pool_steps_inv _ _ _ _ _ _ _ _ (calls_inv pb pl nbits F nbits_range _ _ _ Hreqs Hg) Hsteps)
    as (ts & L' & G & Hp).
  eapply ginv_typed, pt_ginv, pool_inv_table, Hp.
Qed.

(** C17: a snapshot stays inside the space it was given, also when the table
    grows under it.  It leaves the caller's memory alone, or copies to its start the
    image of at most as many pairs as the request has room for: all of it, and the
    call returns 0; or, when the memory that can be written ends before the image
    does, a prefix, and the call returns [-EFAULT].  What follows the room of the
    request is untouched, and so is what cannot be written. *)
Theorem snapshot_stays_in_buffer reqs m s ps s' j arg bs r u :
  store_rep pb pl nbits F m s → requests_ok reqs →
  rtc (pstep kexec) (calls pb pl nbits reqs, s) (ps, s') → pool_done ps →
  reqs !! j = Some (KV_SNAPSHOT, arg) → copy_from_user arg sizeof_kv_snapshot_message = Some bs →
  ps !! j = Some (Ret (r, u)) →
  let cap := Z.to_nat (snap_capacity (decode_header bs)) in
  let room := (sizeof_kv_snapshot_message + cap * sizeof_kv_message)%nat in
  length (u_bytes u) = length (u_bytes arg) ∧ drop room (u_bytes u) = drop room (u_bytes arg) ∧
  drop (u_room arg) (u_bytes u) = drop (u_room arg) (u_bytes arg) ∧
  (u = arg ∨ ∃ l image, (length l <= cap)%nat ∧ snapshot_image (Z.of_nat cap) l image ∧
    ((r = 0 ∧ (length image <= u_room arg)%nat ∧ take (length image) (u_bytes u) = image) ∨
     (r = - EFAULT ∧ (u_room arg < length image)%nat ∧
       ∃ n, (n <= u_room arg)%nat ∧ take n (u_bytes u) = take n image ∧
         drop n (u_bytes u) = drop n (u_bytes arg)))).
Proof.
  intros (L & Hg & ->) Hreqs Hsteps Hd Hj Hbs Hps cap room.
  pose proof (pstep_length kexec _ _ Hsteps) as Hlen. cbn [fst] in Hlen.
  pose proof (ginv_table_ok _ _ _ _ _ _ _ Hg) as HL.
  pose proof (pool_steps_inv _ _ _ _ _ _ _ _ (calls_inv pb pl nbits F nbits_range _ _ _ Hreqs Hg) Hsteps) as Hp.
  destruct (pool_returned_all pb pl nbits F nbits_range reqs L ps s') as (GE & m' & _ & _ & _ & Hall);
    [done|rewrite Hlen; apply length_fmap|done|done|].
  destruct (Hall _ _ _ Hj) as (r1 & Hr & Htr). rewrite Hps in Hr. injection Hr as <-.
  apply snapshot_ioctl_trace in Htr.
  destruct (snapshot_trace_written _ _ _ _ _ _ Htr Hbs) as [->|(l & image & Hl & Himg & Hout)].
  { split_and!; [done|done|done|by left]. }
  fold cap in Hl, Himg. pose proof (si_length _ _ _ Himg) as Hlen'.
  destruct (copied_out_memory _ _ _ _ Hout) as (Hlu & n & Hnr & Hnl & Htake & Hdrop & Hcase).
  split_and!; [done|apply Hdrop; unfold room; nia|by apply Hdrop|right].
  exists l, image. split_and!; [done|done|].
  destruct Hcase as [[-> ->]|[-> Hlt]]; [left|right]; split_and!; try done.
  - by rewrite Htake, take_ge.
  - exists n. split_and!; [done|done|by apply Hdrop].
Qed.

End Concurrent.

Lemma ioctl_pool_refines_witness :
  pool_done race_end.1 ∧ ¬ pool_faults kexec race_end ∧
  ∃ (GE : list (nat * event)) m', events_run test_bits (snd <$> GE) ∅ m' ∧ test_rep m' race_end.2.
Proof.
  assert (pool_done race_end.1) as Hd.
  { apply (bool_decide_unpack (Forall (λ p, is_ret p = true) race_end.1)). by vm_compute. }
  destruct (ioctl_pool_refines 1%positive 2%positive test_bits ∅ test_bits_range race_requests ∅
    store0 race_end store0_rep race_requests_ok (schedule_end_steps _ _ _)) as (Hf & _ & _ & H).
  destruct (H Hd) as (GE & m' & Hrun & Hrep & _).
  split; [exact Hd|]. split; [exact Hf|]. exists GE, m'. split; [exact Hrun|exact Hrep].
Defined.

(** The result of a call that returned. *)
Definition returned {A : Type} (d : A) (p : option (kprog A)) : A :=
  match p with Some (Ret r) => r | _ => d end.

Definition read_reply : Z * ubuf := returned (-1, process_memory []) (read_write_end.1 !! 0%nat).

Lemma concurrent_get_source_witness :
  ∃ v, c_str (value (decode_msg (read_at 0 sizeof_kv_message (u_bytes read_reply.2)))) = Some v ∧
    (test_map !! 5 = Some v ∨ wrote read_write_requests 5 v).
Proof.
  destruct read_write_end as [ps s'] eqn:He.
  assert (rtc (pstep kexec) (test_calls read_write_requests, store1) (ps, s')) as Hsteps.
  { rewrite <- He. apply schedule_end_steps. }
  assert (ps = read_write_end.1) as Hps by (rewrite He; reflexivity).
  assert (pool_done ps) as Hd.
  { rewrite Hps. apply (bool_decide_unpack (Forall (λ p, is_ret p = true) read_write_end.1)). by vm_compute. }
  assert (ps !! 0%nat = Some (Ret (0, read_reply.2))) as Hr.
  { rewrite Hps. vm_compute. reflexivity. }
  assert (status (decode_msg (read_at 0 sizeof_kv_message (u_bytes read_reply.2))) = 0) as Hst.
  { vm_compute. reflexivity. }
  exact (concurrent_get_source 1%positive 2%positive test_bits ∅ test_bits_range read_write_requests
    test_map store1 ps s' 0 (test_arg 5 []) (encode_msg (test_msg 5 [])) read_reply.2 store1_rep
    read_write_requests_ok Hsteps Hd eq_refl eq_refl Hr Hst).
Defined.

Lemma reachable_heap_typed_witness :
  heap_typed 1%positive 2%positive test_bits
    (k_heap (schedule_end (take 9 race_schedule) race_requests store0).2).
Proof.
  exact (reachable_heap_typed 1%positive 2%positive test_bits ∅ test_bits_range race_requests ∅ store0 _
    store0_rep race_requests_ok (schedule_end_steps _ _ _)).
Defined.

(** A snapshot whose caller may write 50 bytes only. *)
Definition cut_requests : list (Z * ubuf) := [(KV_SNAPSHOT, mk_ubuf (snapshot_request 1 2) true 50)].

Definition cut_end : list (kprog (Z * ubuf)) * kst := schedule_end (replicate 28 0%nat) cut_requests store1.

Lemma cut_requests_ok : requests_ok cut_requests.
Proof.
  constructor; [|constructor]. split; [apply command_u32, snapshot_command|].
  intros op bs Hop. by destruct (op_code_snapshot op) as [[] _].
Qed.

Lemma snapshot_stays_in_buffer_witness :
  (∃ u, cut_end.1 !! 0%nat = Some (Ret (- EFAULT, u)) ∧ drop 50 (u_bytes u) = drop 50 (snapshot_request 1 2) ∧
    take 50 (u_bytes u) ≠ take 50 (snapshot_request 1 2)) ∧
  ∃ u, snapshot_end.1 !! 0%nat = Some (Ret (0, u)) ∧
    drop 96 (u_bytes u) = drop 96 (snapshot_request 1 2) ∧ length (u_bytes u) = 176%nat ∧
    status (decode_msg (read_at 16 80 (u_bytes u))) = 0 ∧ key (decode_msg (read_at 16 80 (u_bytes u))) = 7.
Proof.
  split.
  { destruct cut_end as [ps s'] eqn:He.
    assert (rtc (pstep kexec) (test_calls cut_requests, store1) (ps, s')) as Hsteps.
    { rewrite <- He. apply schedule_end_steps. }
    assert (ps = cut_end.1) as Hps by (rewrite He; reflexivity).
    assert (pool_done ps) as Hd.
    { rewrite Hps. apply (bool_decide_unpack (Forall (λ p, is_ret p = true) cut_end.1)). by vm_compute. }
    set (u := (returned (-1, process_memory []) (cut_end.1 !! 0%nat)).2).
    assert (ps !! 0%nat = Some (Ret (- EFAULT, u))) as Hr.
    { rewrite Hps. vm_compute. reflexivity. }
    destruct (snapshot_stays_in_buffer 1%positive 2%positive test_bits ∅ test_bits_range cut_requests
      test_map store1 ps s' 0 (mk_ubuf (snapshot_request 1 2) true 50) (take 16 (snapshot_request 1 2)) _ u
      store1_rep cut_requests_ok Hsteps Hd eq_refl eq_refl Hr) as (_ & _ & Hdrop & _).
    exists u. split; [exact Hr|]. split; [exact Hdrop|]. vm_compute. discriminate. }
  destruct snapshot_end as [ps s'] eqn:He.
  assert (rtc (pstep kexec) (test_calls snapshot_requests, store1) (ps, s')) as Hsteps.
  { rewrite <- He. apply schedule_end_steps. }
  assert (ps = snapshot_end.1) as Hps by (rewrite He; reflexivity).
  assert (pool_done ps) as Hd.
  { rewrite Hps. apply (bool_decide_unpack (Forall (λ p, is_ret p = true) snapshot_end.1)). by vm_compute. }
  set (u := (returned (-1, process_memory []) (snapshot_end.1 !! 0%nat)).2).
  assert (ps !! 0%nat = Some (Ret (0, u))) as Hr.
  { rewrite Hps. vm_compute. reflexivity. }
  destruct (snapshot_stays_in_buffer 1%positive 2%positive test_bits ∅ test_bits_range snapshot_requests
    test_map store1 ps s' 0 (process_memory (snapshot_request 1 2)) (take 16 (snapshot_request 1 2)) 0 u
    store1_rep snapshot_requests_ok Hsteps Hd eq_refl eq_refl Hr) as (Hl & Hdrop & _).
  exists u. split; [exact Hr|]. split; [exact Hdrop|]. split; [exact Hl|]. split; vm_compute; reflexivity.
Defined.

(** ** One caller at a time *)

Section Sequential.
Context {ioc_api : IocApi} {ioc_laws : IocLaws ioc_api}.
Context {api : KernelApi} {laws : KernelLaws api}.
Variables (pb pl : addr) (nbits : Z) (F : heap).
Hypothesis nbits_range : 1 <= nbits <= 31.

Abbreviation rep := (store_rep pb pl nbits F).
Abbreviation store := (mk_ht (Some pb) (Some pl) nbits).

(** C11: two INSERT calls of one new key that run concurrently can both report
    success, and the second value silently replaces the first, for every table, key
    and pair of values: [_handle_insert] looks the key up and stores it in two
    separate critical sections, and an execution in which both look before either
    stores is reachable.  One after the other, the second call of [kv_ioctl] reports
    that the key exists and leaves the first value. *)
Theorem insert_insert_race m s k v1 v2 msg1 msg2 :
  rep m s → m !! k = None → ¬ may_fail →
  msg_ok msg1 → key msg1 = k → c_str (value msg1) = Some v1 →
  msg_ok msg2 → key msg2 = k → c_str (value msg2) = Some v2 →
  (∃ s', rtc (pstep kexec)
      (calls pb pl nbits [(KV_INSERT, process_memory (encode_msg msg1)); (KV_INSERT, process_memory (encode_msg msg2))], s)
      ([Ret (0, process_memory (encode_msg (set_status 0 msg1)));
        Ret (0, process_memory (encode_msg (set_status 0 msg2)))], s') ∧
    rep (<[k := v2]> m) s') ∧
  (∃ s1 s2, kernel_ioctl pb pl nbits KV_INSERT (encode_msg msg1) s =
      Some (0, encode_msg (set_status 0 msg1), s1) ∧
    kernel_ioctl pb pl nbits KV_INSERT (encode_msg msg2) s1 =
      Some (0, encode_msg (say msg_key_exists (set_status 1 msg2)), s2) ∧
    rep (<[k := v1]> m) s2).
Proof.
  intros Hrep Hk Hf Hm1 Hk1 Hv1 Hm2 Hk2 Hv2. split.
  - by eapply (insert_both_succeed pb pl nbits F nbits_range).
  - destruct (kernel_message pb pl nbits F nbits_range OpInsert msg1 m s Hrep Hm1)
      as (ok & s1 & Hok & Hr1 & Hrep1); [by eexists|].
    destruct ok; [|by destruct Hf; auto]. cbn [message_spec] in Hr1, Hrep1. rewrite Hk1, Hk in Hr1, Hrep1.
    rewrite (c_str_upto_nul _ _ Hv1) in Hrep1. cbn [fst snd] in Hr1, Hrep1.
    destruct (kernel_insert_exists pb pl nbits F nbits_range msg2 _ s1 Hrep1 Hm2) as (s2 & Hr2 & Hrep2).
    { rewrite Hk2, lookup_insert_eq. by eexists. }
    exists s1, s2. by split_and!.
Qed.

(** C12: INSERT, UPDATE, GET and DELETE refine the map: run alone, a call of
    [kv_ioctl] returns 0, writes back exactly the message that [message_spec]
    computes from the map, and leaves the map that it computes; the only freedom
    is an allocation that fails. *)
Theorem ioctl_message_refines op msg m s :
  rep m s → msg_ok msg → (op_needs_value op = true → is_Some (c_str (value msg))) →
  ∃ alloc_ok s', (alloc_ok = false → may_fail) ∧
    kernel_ioctl pb pl nbits (op_code op) (encode_msg msg) s =
      Some (0, encode_msg (message_spec op msg m alloc_ok).1, s') ∧
    rep (message_spec op msg m alloc_ok).2 s'.
Proof. apply kernel_message; done. Qed.

(** C18: a snapshot of the right capacity is an image of the whole map: its
    entries are the pairs of the map, each once, its count is their number. *)
Theorem ioctl_snapshot_complete m s :
  rep m s → 0 < Z.of_nat (size m) < 2147483648 →
  ∃ r mem s',
    kernel_ioctl pb pl nbits KV_SNAPSHOT (snapshot_request (Z.of_nat (size m)) (size m)) s =
      Some (r, mem, s') ∧ rep m s' ∧
    ((r = 0 ∧ snapshot_answer m mem) ∨ (may_fail ∧ r = -1)).
Proof. apply kernel_snapshot; done. Qed.

(** C25: a snapshot hands kernel memory to user space: the four bytes of padding
    in the header and in every entry of the caller's buffer are what [kmalloc] left
    in the kernel's buffer, which nothing has cleared. *)
Theorem snapshot_leaks_padding m s mem s' :
  rep m s → 0 < Z.of_nat (size m) < 2147483648 →
  kernel_ioctl pb pl nbits KV_SNAPSHOT (snapshot_request (Z.of_nat (size m)) (size m)) s = Some (0, mem, s') →
  ∃ n len, padding_of (kmalloc_garbage n len) (size m) mem.
Proof. by eapply kernel_snapshot_padding. Qed.

(** a snapshot request whose capacity is not the number of entries is
    refused with a positive return value, the count, which no caller that tests for
    [ret < 0] takes for an error; the caller's buffer stays as it was. *)
Lemma ioctl_snapshot_mismatch m s cap n :
  rep m s → Z.of_nat (size m) < 2147483648 → is_u32 cap → cap ≠ Z.of_nat (size m) →
  ∃ s', kernel_ioctl pb pl nbits KV_SNAPSHOT (snapshot_request cap n) s =
      Some (Z.of_nat (size m), snapshot_request cap n, s') ∧ rep m s'.
Proof. apply kernel_snapshot_mismatch; done. Qed.

(** [KV_COUNT] writes the number of entries. *)
Lemma ioctl_count_spec m s mem :
  rep m s → Z.of_nat (size m) < 2147483648 → length mem = 4%nat →
  ∃ s', kernel_ioctl pb pl nbits KV_COUNT mem s =
      Some (0, le_bytes 4 (Z.of_nat (size m)), s') ∧ rep m s'.
Proof. apply kernel_count; done. Qed.

(** C22: no call leaks: afterwards the heap holds the two arrays, one entry and
    one string for every pair of the map, and what was there besides. *)
Theorem ioctl_no_leak cmd arg m s :
  rep m s → request_ok cmd arg →
  ∃ r s' L, krun (kv_ioctl store cmd arg) s = Done r s' ∧
    k_heap s' = table_heap pb pl nbits F L (concat L) ∧
    rep (table_map L) s' ∧ length (concat L) = size (table_map L).
Proof.
  intros Hrep Hreq.
  destruct (seq_ioctl pb pl nbits F nbits_range cmd arg m s Hrep Hreq)
    as (es & m' & r & s' & Hr & (L & Hg & ->) & _).
  destruct (ginv_heap pb pl nbits F L s' Hg) as (_ & _ & Hheap).
  pose proof (ginv_table_ok _ _ _ _ _ _ _ Hg) as HL.
  exists r, s', L. split_and!; [done|done|by exists L|].
  rewrite (table_map_size nbits L HL). unfold walk_kvs, chain_kvs. by rewrite length_fmap.
Qed.

(** A command the module does not know is refused with [-EINVAL], and
    memory that cannot be read with [-EFAULT]; nothing changes. *)
Lemma ioctl_rejects cmd arg s :
  is_u32 cmd → cmd ∉ command_codes →
  krun (kv_ioctl store cmd arg) s =
  Done (match copy_from_user arg sizeof_kv_message with Some _ => - EINVAL | None => - EFAULT end, arg) s.
Proof.
  intros Hc Hn. unfold kv_ioctl.
  assert (cmd ≠ KV_SNAPSHOT ∧ cmd ≠ KV_COUNT) as [Hs Hk].
  { unfold command_codes in Hn. rewrite !not_elem_of_cons in Hn. tauto. }
  rewrite !decide_False by done. unfold _handle_kv_message.
  destruct (copy_from_user _ _) as [bs|]; [|done].
  rewrite dispatch_switch by done.
  destruct (op_of cmd) as [op|] eqn:Hop; [|done].
  apply op_of_Some in Hop as ->. by destruct (Hn (op_code_command op)).
Qed.

(** C23: an INSERT of a new key whose value has no terminator in its 64 bytes makes
    the kernel read past the end of the message; for a key that is there, the call
    reports that it exists and never looks at the value. *)
Theorem insert_unterminated_faults msg m s :
  rep m s → msg_ok msg → c_str (value msg) = None →
  match m !! key msg with
  | None => krun (kv_ioctl store KV_INSERT (process_memory (encode_msg msg))) s = Faulted UnterminatedString
  | Some _ => ∃ s', kernel_ioctl pb pl nbits KV_INSERT (encode_msg msg) s =
      Some (0, encode_msg (say msg_key_exists (set_status 1 msg)), s') ∧ rep m s'
  end.
Proof.
  intros Hrep Hm Hv. destruct (m !! key msg) as [v|] eqn:Hk.
  - apply (kernel_insert_exists pb pl nbits F); eauto.
  - by apply (kernel_insert_unterminated pb pl nbits F nbits_range _ m).
Qed.

End Sequential.

(** *** Witnesses *)

Lemma u64_5_7 : is_u64 5 ∧ is_u64 7.
Proof. unfold is_u64, u64_max. lia. Qed.

Lemma ioctl_message_refines_witness :
  ∃ s', kernel_ioctl 1%positive 2%positive test_bits KV_INSERT (encode_msg (test_msg 7 value_b)) store1 =
      Some (0, encode_msg (set_status 0 (test_msg 7 value_b)), s') ∧
    test_rep (<[7 := value_b]> test_map) s'.
Proof.
  destruct u64_5_7 as [H5 H7]. destruct value_ab_ok as [Ha Hb].
  destruct (ioctl_message_refines 1%positive 2%positive test_bits ∅ test_bits_range OpInsert
    (test_msg 7 value_b) test_map store1 store1_rep (test_msg_ok 7 value_b H7 Hb))
    as (ok & s' & Hok & H1 & H2).
  { intros _. exists value_b. reflexivity. }
  destruct ok; [|destruct (test_never_fails (Hok eq_refl))].
  exists s'. split; [exact H1|exact H2].
Defined.

Lemma insert_insert_race_witness :
  ∃ s', rtc (pstep kexec) (test_calls race_requests, store0)
      ([Ret (0, process_memory (encode_msg (set_status 0 (test_msg 7 value_a))));
        Ret (0, process_memory (encode_msg (set_status 0 (test_msg 7 value_b))))], s') ∧
    test_rep {[7 := value_b]} s'.
Proof.
  destruct u64_5_7 as [_ H7]. destruct value_ab_ok as [Ha Hb].
  destruct (insert_insert_race 1%positive 2%positive test_bits ∅ test_bits_range ∅ store0 7 value_a value_b
    (test_msg 7 value_a) (test_msg 7 value_b) store0_rep eq_refl test_never_fails
    (test_msg_ok 7 value_a H7 Ha) eq_refl eq_refl (test_msg_ok 7 value_b H7 Hb) eq_refl eq_refl)
    as [(s' & H1 & H2) _].
  exists s'. split; [exact H1|exact H2].
Defined.

Lemma ioctl_snapshot_complete_witness :
  ∃ mem s', kernel_ioctl 1%positive 2%positive test_bits KV_SNAPSHOT (snapshot_request 1 1) store1 =
      Some (0, mem, s') ∧ snapshot_answer test_map mem.
Proof.
  destruct (ioctl_snapshot_complete 1%positive 2%positive test_bits ∅ test_bits_range test_map store1
    store1_rep) as (r & mem & s' & H1 & _ & Hr); [split; reflexivity|].
  destruct Hr as [[-> Ha]|[Hf _]]; [|destruct (test_never_fails Hf)].
  exists mem, s'. split; [exact H1|exact Ha].
Defined.

(** [kmalloc] leaves bytes 170 here; the caller sees them. *)
Definition test_snapshot : option (Z * bytes * kst) :=
  kernel_ioctl 1%positive 2%positive test_bits KV_SNAPSHOT (snapshot_request 1 1) store1.

Lemma snapshot_leaks_padding_witness :
  ∃ mem s', test_snapshot = Some (0, mem, s') ∧
    (∃ n len, padding_of (kmalloc_garbage n len) 1 mem) ∧
    read_at off_header_pad 4 mem = replicate 4 (ascii_of_nat 170).
Proof.
  assert (∃ mem s', test_snapshot = Some (0, mem, s') ∧
    read_at off_header_pad 4 mem = replicate 4 (ascii_of_nat 170)) as (mem & s' & H1 & H2).
  { eexists _, _. split; vm_compute; reflexivity. }
  exists mem, s'. split; [exact H1|]. split; [|exact H2].
  apply (snapshot_leaks_padding 1%positive 2%positive test_bits ∅ test_bits_range test_map store1 mem s'
    store1_rep); [split; reflexivity|exact H1].
Defined.

Lemma ioctl_snapshot_mismatch_witness :
  ∃ s', kernel_ioctl 1%positive 2%positive test_bits KV_SNAPSHOT (snapshot_request 3 3) store1 =
      Some (1, snapshot_request 3 3, s') ∧ test_rep test_map s'.
Proof.
  apply (ioctl_snapshot_mismatch 1%positive 2%positive test_bits ∅ test_bits_range test_map store1 3 3
    store1_rep); [reflexivity|split; discriminate|discriminate].
Defined.

Lemma ioctl_count_spec_witness :
  ∃ s', kernel_ioctl 1%positive 2%positive test_bits KV_COUNT (le_bytes 4 0) store1 =
      Some (0, le_bytes 4 1, s') ∧ test_rep test_map s'.
Proof.
  apply (ioctl_count_spec 1%positive 2%positive test_bits ∅ test_bits_range test_map store1 (le_bytes 4 0)
    store1_rep); reflexivity.
Defined.

Lemma ioctl_no_leak_witness :
  ∃ r s' L, krun (kv_ioctl test_ht KV_DELETE (test_arg 5 value_a)) store1 = Done r s' ∧
    k_heap s' = table_heap 1%positive 2%positive test_bits ∅ L (concat L) ∧
    length (concat L) = size (table_map L).
Proof.
  destruct u64_5_7 as [H5 H7]. destruct value_ab_ok as [Ha Hb].
  destruct (ioctl_no_leak 1%positive 2%positive test_bits ∅ test_bits_range KV_DELETE (test_arg 5 value_a)
    test_map store1 store1_rep (test_request_ok OpDelete 5 value_a H5 Ha)) as (r & s' & L & H1 & H2 & _ & H3).
  exists r, s', L. split; [exact H1|]. split; [exact H2|exact H3].
Defined.

Lemma ioctl_rejects_witness :
  krun (kv_ioctl test_ht 42 (test_arg 5 value_a)) store1 = Done (- EINVAL, test_arg 5 value_a) store1.
Proof.
  apply (ioctl_rejects 1%positive 2%positive test_bits test_bits_range 42 (test_arg 5 value_a) store1).
  - split; discriminate.
  - apply (bool_decide_unpack (42 ∉ command_codes)). vm_compute. exact I.
Defined.

(** A message whose value fills its array. *)
Definition full_msg (k : Z) : kv_message := mk_msg 0 (zeros 4) k (replicate MAX_VALUE_LEN (ascii_of_nat 65)).

Lemma full_msg_ok : msg_ok (full_msg 5) ∧ msg_ok (full_msg 7).
Proof. by split; (split_and!; [split|..]; [discriminate|reflexivity..|split; discriminate|reflexivity]). Qed.

Lemma insert_unterminated_faults_witness :
  krun (kv_ioctl test_ht KV_INSERT (process_memory (encode_msg (full_msg 7)))) store1 =
    Faulted UnterminatedString ∧
  ∃ s', kernel_ioctl 1%positive 2%positive test_bits KV_INSERT (encode_msg (full_msg 5)) store1 =
    Some (0, encode_msg (say msg_key_exists (set_status 1 (full_msg 5))), s').
Proof.
  destruct full_msg_ok as [H5 H7]. split.
  - apply (insert_unterminated_faults 1%positive 2%positive test_bits ∅ test_bits_range (full_msg 7) test_map
      store1 store1_rep H7 eq_refl).
  - destruct (insert_unterminated_faults 1%positive 2%positive test_bits ∅ test_bits_range (full_msg 5) test_map
      store1 store1_rep H5 eq_refl) as (s' & H & _). exists s'. exact H.
Defined.
