(* ===== verification/HashProps.v ===== *)
(** * Properties of the hash table, of loading and unloading, and of the messages

    The theorems about the functions of [kernel/kv_hash.c] on their own, about
    [init_module] and [cleanup_module], and about the bytes of the structure of
    [include/kv_ioctl.h], each with its witness. *)

From S2P Require Import Prelude Prog CStr KvIoctl KMem KvHash KLogic KSound KvHashSpec KvTable.
From S2P Require Import KvStore KvSleep KvLifecycle Kvlkm KvlkmSpec KvDevice KvModule KvInterface.
From S2P Require Import Auth.
From S2P Require Import Daemon DaemonSem Instances.

Section Hash.
Context {api : KernelApi} {laws : KernelLaws api}.
Variables (pb pl : addr) (nbits : Z) (F : heap).
Hypothesis nbits_range : 1 <= nbits <= 31.

Abbreviation rep := (store_rep pb pl nbits F).
Abbreviation ht := (mk_ht (Some pb) (Some pl) nbits).

(** C27: [kv_hash_add] binds the key to the C string in the buffer, whether the
    key is new or not, or reports [-ENOMEM] and changes nothing. *)
Theorem kv_hash_add_spec m s k buf v :
  rep m s → is_u64 k → c_str buf = Some v → value_ok v →
  ∃ r s', krun (kv_hash_add (Some ht) k (Some buf)) s = Done r s' ∧
    ((r = 0 ∧ rep (<[k := v]> m) s') ∨ (may_fail ∧ r = - ENOMEM ∧ rep m s')).
Proof. apply store_add; done. Qed.

(** C28: [kv_hash_lookup] returns the length and copies the value with its
    terminator, [-ENOSPC] without touching the buffer when it does not fit, and
    [-ENOENT] for an absent key; the table does not change. *)
Theorem kv_hash_lookup_spec m s k out buflen :
  rep m s → is_u64 k → (0 < buflen <= length out)%nat →
  ∃ s', rep m s' ∧
    krun (kv_hash_lookup (Some ht) k (Some out) buflen) s =
    Done (match m !! k with
          | None => (- ENOENT, Some out)
          | Some v =>
              if decide (buflen <= length v)%nat then (- ENOSPC, Some out)
              else (Z.of_nat (length v), Some (v ++ [NUL] ++ drop (S (length v)) out))
          end) s'.
Proof.
  intros Hrep Hk Hl. destruct (store_lookup pb pl nbits F nbits_range m s k out buflen Hrep Hk Hl)
    as (s' & Hr & Hrep').
  exists s'. split; [done|]. rewrite Hr. unfold lookup_result.
  destruct (m !! k) as [v|]; [|done].
  destruct (decide (buflen <= length v)%nat).
  - by rewrite decide_True by lia.
  - rewrite decide_False by lia. unfold write_at. rewrite take_0, length_app. simpl.
    by rewrite <- app_assoc, Nat.add_1_r.
Qed.

(** C29: [kv_hash_remove] removes the key, and says whether it was there. *)
Theorem kv_hash_remove_spec m s k :
  rep m s → is_u64 k →
  ∃ s', krun (kv_hash_remove (Some ht) k) s =
      Done (match m !! k with Some _ => 0 | None => - ENOENT end) s' ∧ rep (delete k m) s'.
Proof. apply store_remove; done. Qed.

(** [kv_hash_count] is the number of pairs, as a C [int]. *)
Lemma kv_hash_count_spec m s :
  rep m s →
  ∃ s', krun (kv_hash_count (Some ht)) s = Done (wrap_s32 (Z.of_nat (size m))) s' ∧ rep m s'.
Proof. apply store_count; done. Qed.

(** [kv_hash_init] makes an empty table of [2^bits] buckets, all unlocked,
    or reports [-ENOMEM] and gives back what it had allocated. *)
Lemma kv_hash_init_spec t s :
  ∃ r t' s', run texec (kv_hash_init (Some t) nbits) (t, s) = Done r (t', s') ∧
    ((∃ b l, r = 0 ∧ t' = mk_ht (Some b) (Some l) nbits ∧ store_rep b l nbits (k_heap s) ∅ s') ∨
     (may_fail ∧ r = - ENOMEM ∧ t' = mk_ht None None 0 ∧ k_heap s' = k_heap s)).
Proof.
  destruct (ends_run texec _ _ _ (init_ends nbits nbits_range t t s)) as (r & [t' s'] & Hr & Hpost).
  by exists r, t', s'.
Qed.

(** [kv_hash_destroy] frees every entry, every value and the array of the
    buckets; the array of the locks stays allocated. *)
Lemma kv_hash_destroy_leaks m s :
  rep m s →
  ∃ s', krun (kv_hash_destroy (Some ht)) s = Done (Some (mk_ht None (Some pl) 0)) s' ∧
    k_heap s' = <[pl := lock_array nbits]> F ∧ F !! pl = None.
Proof.
  intros Hrep. destruct (destroy_sdone pb pl nbits F nbits_range m s Hrep) as (r & s' & Hr & -> & Hh).
  exists s'. split_and!; [done|done|]. destruct Hrep as (L & Hg & _).
  destruct (ginv_heap pb pl nbits F L s Hg) as (_ & [] & _). done.
Qed.

(** C30: while it holds the bucket's spinlock, [kv_hash_add] calls the allocator
    with [GFP_KERNEL], which may sleep: once for every new key whose value could be
    copied, whatever the table holds, and never for a key that is there or when the
    copy of the value fails (it is made before the lock is taken). *)
Theorem kv_hash_add_sleeps_in_atomic m s k buf v :
  rep m s → is_u64 k → c_str buf = Some v →
  sleeps_atomic (kv_hash_add (Some ht) k (Some buf)) 0 s =
  match kmalloc_addr (k_allocs s) (k_heap s), m !! k with
  | Some _, None => 1%nat
  | _, _ => 0%nat
  end.
Proof. by apply (kv_hash_add_sleeps pb pl nbits F nbits_range). Qed.

End Hash.

Lemma kv_hash_add_spec_witness :
  ∃ s', krun (kv_hash_add (Some test_ht) 5 (Some (value_b ++ [NUL]))) store1 = Done 0 s' ∧
    test_rep (<[5 := value_b]> test_map) s'.
Proof.
  destruct (kv_hash_add_spec 1%positive 2%positive test_bits ∅ test_bits_range test_map store1 5
    (value_b ++ [NUL]) value_b store1_rep) as (r & s' & H1 & Hr).
  - split; discriminate.
  - reflexivity.
  - split; [apply (bool_decide_unpack (no_nul value_b)); vm_compute; exact I|].
    apply Nat.ltb_lt. reflexivity.
  - destruct Hr as [[-> H2]|[Hf _]]; [|destruct (test_never_fails Hf)].
    exists s'. split; [exact H1|exact H2].
Defined.

Lemma kv_hash_lookup_spec_witness :
  ∃ s', test_rep test_map s' ∧
    krun (kv_hash_lookup (Some test_ht) 5 (Some (zeros 4)) 4) store1 =
    Done (- ENOSPC, Some (zeros 4)) s'.
Proof.
  apply (kv_hash_lookup_spec 1%positive 2%positive test_bits ∅ test_bits_range test_map store1 5
    (zeros 4) 4 store1_rep); [split; discriminate|split; [|reflexivity]].
  apply Nat.ltb_lt. reflexivity.
Defined.

Lemma kv_hash_remove_spec_witness :
  ∃ s', krun (kv_hash_remove (Some test_ht) 5) store1 = Done 0 s' ∧ test_rep (delete 5 test_map) s'.
Proof.
  apply (kv_hash_remove_spec 1%positive 2%positive test_bits ∅ test_bits_range test_map store1 5 store1_rep).
  split; discriminate.
Defined.

Lemma kv_hash_count_spec_witness :
  ∃ s', krun (kv_hash_count (Some test_ht)) store1 = Done 1 s' ∧ test_rep test_map s'.
Proof.
  apply (kv_hash_count_spec 1%positive 2%positive test_bits ∅ test_bits_range test_map store1 store1_rep).
Defined.

Lemma kv_hash_init_spec_witness :
  ∃ ts, run texec (kv_hash_init (Some (mk_ht None None 0)) 3) (mk_ht None None 0, mk_kst ∅ 0) = Done 0 ts.
Proof.
  assert (1 <= 3 <= 31) as Hb by lia.
  destruct (kv_hash_init_spec 3 Hb (mk_ht None None 0) (mk_kst ∅ 0))
    as (r & t & s' & H1 & [(b & l & -> & _)|[Hf _]]); [|destruct (test_never_fails Hf)].
  eexists. exact H1.
Defined.

Lemma kv_hash_destroy_leaks_witness :
  ∃ s', krun (kv_hash_destroy (Some test_ht)) store1 = Done (Some (mk_ht None (Some 2%positive) 0)) s' ∧
    k_heap s' = <[2%positive := lock_array test_bits]> ∅.
Proof.
  destruct (kv_hash_destroy_leaks 1%positive 2%positive test_bits ∅ test_bits_range test_map store1
    store1_rep) as (s' & H1 & H2 & _).
  exists s'. split; [exact H1|exact H2].
Defined.

Lemma kv_hash_add_sleeps_in_atomic_witness :
  sleeps_atomic (kv_hash_add (Some test_ht) 7 (Some (value_b ++ [NUL]))) 0 store1 = 1%nat.
Proof.
  assert (is_u64 7) as Hk by (split; discriminate).
  assert (c_str (value_b ++ [NUL]) = Some value_b) as Hv by reflexivity.
  etransitivity; [|vm_compute; reflexivity].
  exact (kv_hash_add_sleeps_in_atomic 1%positive 2%positive test_bits ∅ test_bits_range test_map store1 7 _ _
    store1_rep Hk Hv).
Defined.

(** ** The module *)

Section Module_.
Context {api : KernelApi} {laws : KernelLaws api} {env : ModuleEnv}.

(** C31: [init_module] either returns 0 with an empty table of 1024 buckets
    and the character device, its cdev and its class registered, or returns -1
    with nothing left registered and the kernel heap as it was, whichever step
    failed.  (A device that [device_create] refused with an error pointer is not
    noticed: the device is registered only if it was created.) *)
Theorem init_module_all_or_nothing s :
  unloaded s →
  ∃ r s', mrun init_module s = Done r s' ∧
    ((r = 0 ∧ (∃ b l, loaded b l (k_heap (kernel s)) ∅ s') ∧
      device s' = bool_decide (device_create = DevOk)) ∨
     (r = -1 ∧ unloaded s' ∧ k_heap (kernel s') = k_heap (kernel s))).
Proof.
  intros (r & s' & Hr & H)%init_module_spec%ends_run. exists r, s'. split; [done|].
  destruct H as [(-> & Hl & Hd & _)|(-> & Hu & Hh & _)]; [by left|by right].
Qed.

(** C32: [cleanup_module] gives back every registration and all the memory of
    the table but the array of its locks, provided the netpoll came up.  After a
    failed [netpoll_setup], which [init_module] does not report, it sends its
    message through a netpoll without a device. *)
Theorem cleanup_module_releases b l F m s :
  loaded b l F m s →
  match np_up s with
  | Some _ => ∃ s', mrun cleanup_module s = Done tt s' ∧ unloaded s' ∧
                k_heap (kernel s') = <[l := lock_array KV_BITS]> F
  | None => mrun cleanup_module s = Faulted NetpollUnset
  end.
Proof. apply cleanup_module_spec. Qed.

(** C24: the device is there before the table is.  When everything is granted,
    [init_module] comes to a moment in [kv_hash_init], between the two allocations,
    where the device has been created and any message sent to it takes the kernel
    down by the null pointer to the locks; then to one where the message finds a lock
    that holds what [kmalloc_array] left; and undisturbed it goes on to return 0. *)
Theorem ioctl_during_init_faults {ioc_api : IocApi} {ioc_laws : IocLaws ioc_api} s :
  unloaded s → ¬ may_fail →
  ¬ alloc_chrdev_region < 0 → ¬ cdev_add < 0 → class_create = true → device_create = DevOk →
  ∃ p1 s1 p2 s2 s3,
    rtc (solo_step mexec) (init_module, s) (p1, s1) ∧ rtc (solo_step mexec) (p1, s1) (p2, s2) ∧
    mrun p2 s2 = Done 0 s3 ∧
    device s1 = true ∧ device s2 = true ∧
    ∀ op arg bs, copy_from_user arg sizeof_kv_message = Some bs →
      krun (kv_ioctl (kv_store s1) (op_code op) arg) (kernel s1) = Faulted NullDeref ∧
      krun (kv_ioctl (kv_store s2) (op_code op) arg) (kernel s2) = Faulted Uninitialised.
Proof.
  intros Hs Hf Ha Hb Hc Hd.
  destruct (init_module_moments s Hs Hf Ha Hb Hc Hd)
    as (a & b & p1 & s1 & p2 & s2 & Hs1 & Hs2 & Hd1 & Ht1 & Hd2 & Ht2 & Hl & Hend).
  apply ends_run in Hend as (r & s3 & Hr & ->). exists p1, s1, p2, s2, s3. split_and!; [done..|].
  intros op arg bs Hbs. rewrite Ht1, Ht2. split; (eapply message_lock_faults; [done..|]); [done|].
  pose proof (decode_msg_ok bs (copy_from_user_length _ _ _ Hbs)) as (_ & _ & Hk & _).
  pose proof (hash_min_range (key (decode_msg bs)) KV_BITS Hk) as Hrange.
  cbn [kexec bucket_locks deref]. rewrite Hl. unfold in_array, kv_bucket. cbn [bits].
  rewrite decide_True by (apply Hrange; unfold KV_BITS; lia).
  rewrite lookup_replicate_2; [done|]. unfold nbuckets. specialize (Hrange ltac:(unfold KV_BITS; lia)). lia.
Qed.

End Module_.

(** A kernel where everything works but, as told, the netpoll. *)
Definition test_env (np : Z) : ModuleEnv := {|
  alloc_chrdev_region := 0;
  cdev_add := 0;
  class_create := true;
  device_create := DevOk;
  netpoll_setup _ := np;
  netpoll_send_udp text := Z.of_nat (length text);
  in_aton text := 0;
|}.

Definition fresh_module : mstate :=
  mk_mstate false false false false false None (mk_ht None None 0) (mk_kst ∅ 0) [].

Definition small_module (np : option netpoll) : mstate :=
  mk_mstate true true true true true np (mk_ht (Some 1%positive) (Some 2%positive) KV_BITS)
    (mk_kst (init_heap KV_BITS 1%positive 2%positive ∅ (nbuckets KV_BITS)) 2) [].

Lemma small_module_loaded np : loaded 1%positive 2%positive ∅ ∅ (small_module np).
Proof.
  split; try reflexivity. exists (replicate (nbuckets KV_BITS) []).
  split; [by apply (init_ginv KV_BITS)|by rewrite table_map_replicate].
Qed.

Lemma init_module_all_or_nothing_witness :
  ∃ r s', mrun (env := test_env 0) (init_module (env := test_env 0)) fresh_module = Done r s' ∧ (r = 0 ∨ r = -1).
Proof.
  destruct (init_module_all_or_nothing (env := test_env 0) fresh_module) as (r & s' & H1 & H2).
  { repeat split. }
  exists r, s'. split; [exact H1|]. destruct H2 as [[H _]|[H _]]; [left|right]; exact H.
Defined.

Lemma cleanup_module_releases_witness :
  ∃ s', mrun (env := test_env 0) cleanup_module (small_module (Some np_init)) = Done tt s' ∧ unloaded s'.
Proof.
  destruct (cleanup_module_releases (env := test_env 0) 1%positive 2%positive ∅ ∅
    (small_module (Some np_init)) (small_module_loaded _)) as (s' & H1 & H2 & _).
  exists s'. split; [exact H1|exact H2].
Defined.

Lemma ioctl_during_init_faults_witness :
  ∃ p s, rtc (solo_step (mexec (env := test_env 0))) (init_module (env := test_env 0), fresh_module) (p, s) ∧
    device s = true ∧
    krun (kv_ioctl (kv_store s) KV_GET (process_memory (zeros sizeof_kv_message))) (kernel s) = Faulted NullDeref.
Proof.
  destruct (ioctl_during_init_faults (env := test_env 0) fresh_module)
    as (p1 & s1 & p2 & s2 & s3 & H1 & _ & _ & H2 & _ & H3); [repeat split| | | |reflexivity|reflexivity|].
  - exact test_never_fails.
  - discriminate.
  - discriminate.
  - exists p1, s1. split; [exact H1|]. split; [exact H2|].
    apply (H3 OpGet (process_memory (zeros sizeof_kv_message)) (zeros sizeof_kv_message)). reflexivity.
Defined.

(** ** The message structure *)

Section Bytes.
Context {ioc_api : IocApi} {ioc_laws : IocLaws ioc_api}.
Context {api : KernelApi} {laws : KernelLaws api}.
Variables (pb pl : addr) (nbits : Z) (F : heap).
Hypothesis nbits_range : 1 <= nbits <= 31.

Abbreviation rep := (store_rep pb pl nbits F).

(** C35: what the bytes at the address behind an [ioctl] mean.  Bytes 0 to 3 are the
    status, 4 to 7 padding, 8 to 15 the key, least significant byte first, and 16 to
    79 the value.  A GET of a key that is there answers in these bytes with status 0,
    the padding and the key as they were sent, and the stored value followed by zeros
    only; an INSERT of a new key binds the key in bytes 8 to 15 to the C string that
    starts at byte 16, and changes nothing of what was sent but the status. *)
Theorem message_bytes st pad k val m s :
  rep m s → length st = 4%nat → length pad = 4%nat → is_u64 k → length val = 64%nat →
  match m !! k with
  | Some v => ∃ s',
      kernel_ioctl pb pl nbits KV_GET (st ++ pad ++ le_bytes 8 k ++ val) s =
        Some (0, replicate 4 NUL ++ pad ++ le_bytes 8 k ++ v ++ replicate (64 - length v) NUL, s') ∧
      rep m s'
  | None => ∀ v, c_str val = Some v → ¬ may_fail → ∃ s',
      kernel_ioctl pb pl nbits KV_INSERT (st ++ pad ++ le_bytes 8 k ++ val) s =
        Some (0, replicate 4 NUL ++ pad ++ le_bytes 8 k ++ val, s') ∧
      rep (<[k := v]> m) s'
  end.
Proof.
  intros Hrep Hst Hp Hk Hl. set (msg := mk_msg (wrap_s32 (le_value st)) pad k val).
  assert (msg_ok msg) as Hm by (split_and!; [apply wrap_s32_range|done..]).
  assert (st ++ pad ++ le_bytes 8 k ++ val = encode_msg msg) as ->.
  { unfold encode_msg, msg. cbn [status msg_pad key value]. by rewrite le_bytes_s32. }
  destruct (m !! k) as [v|] eqn:Hv.
  - destruct (kernel_message pb pl nbits F nbits_range OpGet msg m s Hrep Hm) as (ok & s' & _ & Hr & Hrep'); [done|].
    unfold message_spec in Hr, Hrep'. cbn [key msg] in Hr, Hrep'. rewrite Hv in Hr, Hrep'.
    exists s'. split; [|exact Hrep']. cbn [fst] in Hr. unfold encode_msg at 2 in Hr.
    cbn [set_status set_value msg status msg_pad key value] in Hr.
    by rewrite stored_value_zeros in Hr by by eapply (rep_ok pb pl nbits F m s Hrep).
  - intros v Hval Hf.
    destruct (kernel_message pb pl nbits F nbits_range OpInsert msg m s Hrep Hm) as (ok & s' & Hok & Hr & Hrep').
    { intros _. by exists v. }
    destruct ok; [|by destruct Hf; auto]. unfold message_spec in Hr, Hrep'. cbn [key msg] in Hr, Hrep'.
    rewrite Hv in Hr, Hrep'. exists s'. split; [exact Hr|].
    change (rep (<[k := upto_nul val]> m) s') in Hrep'. by rewrite (c_str_upto_nul _ _ Hval) in Hrep'.
Qed.

End Bytes.

Lemma message_bytes_witness :
  (∃ s', kernel_ioctl 1%positive 2%positive test_bits KV_GET
      (replicate 4 NUL ++ replicate 4 NUL ++ le_bytes 8 5 ++ replicate 64 NUL) store1 =
    Some (0, replicate 4 NUL ++ replicate 4 NUL ++ le_bytes 8 5 ++ value_a ++ replicate (64 - length value_a) NUL, s')) ∧
  ∃ s', kernel_ioctl 1%positive 2%positive test_bits KV_INSERT
      (replicate 4 NUL ++ replicate 4 NUL ++ le_bytes 8 258 ++ value_b ++ replicate (64 - length value_b) NUL) store1 =
    Some (0, replicate 4 NUL ++ replicate 4 NUL ++ le_bytes 8 258 ++ value_b ++ replicate (64 - length value_b) NUL, s') ∧
    test_rep (<[258 := value_b]> test_map) s'.
Proof.
  split.
  - destruct (message_bytes 1%positive 2%positive test_bits ∅ test_bits_range (replicate 4 NUL) (replicate 4 NUL) 5
      (replicate 64 NUL) test_map store1 store1_rep eq_refl eq_refl) as (s' & H & _);
      [split; discriminate|reflexivity|]. exists s'. exact H.
  - assert (is_u64 258) as Hk by (split; discriminate).
    exact (message_bytes 1%positive 2%positive test_bits ∅ test_bits_range (replicate 4 NUL) (replicate 4 NUL) 258
      (value_b ++ replicate (64 - length value_b) NUL) test_map store1 store1_rep eq_refl eq_refl Hk eq_refl
      value_b eq_refl test_never_fails).
Defined.
