(* ===== verification/DaemonProps.v ===== *)
(** * Properties of the daemon

    The theorems about [user/daemon/daemon.cpp] and [user/daemon/auth.cpp], each
    with its witness.  The device is any that keeps the contract of
    [KvInterface]; the witnesses run on the kernel module. *)

From S2P Require Import Prelude Prog CStr KvIoctl KMem KvHash KLogic KvHashSpec KvStore Kvlkm.
From S2P Require Import KvlkmSpec KvDevice KvInterface Auth Daemon DaemonSem DaemonSpec.
From S2P Require Import Connection Server Session Access Instances.

Section Daemon.
Context {ioc_api : IocApi} {ioc_laws : IocLaws ioc_api}.
Context {dev : KvDevice} {dlaws : KvDeviceLaws dev} {pam : PamApi} {host : HostApi}.

Abbreviation W := (world dev).
Abbreviation rep m w := (dev_rep m (w_dev (dev := dev) w)).

(** [do_kv_operation] sends one command and answers with the text that the
    map determines, and the map changes as the operation says: an inserted or
    updated value is what fits the 63 bytes of a message.  Nothing else of the
    daemon's world changes. *)
Lemma do_kv_operation_refines fd op key v k m (w : W) :
  rep m w → parse_key key = Some k →
  ∃ ok d, run dexec (do_kv_operation fd (op_code op) key v) w = Done (op_text op k m ok) (set_dev d w) ∧
    dev_rep (op_map op k (stored_text v) m ok) d ∧ (ok = false → dev_may_fail (dev := dev)).
Proof.
  intros Hrep Hk. destruct (dwp_run _ _ _ (do_kv_operation_spec fd op key v k m w Hrep Hk))
    as (r & w' & Hr & ok & d & Hok & -> & -> & Hd).
  exists ok, d. by split_and!.
Qed.

(** An INSERT of a new key followed by a GET of it, both sent as text over
    an authenticated connection, returns the value in quotes, cut to 63 bytes. *)
Lemma insert_then_get fd k v m (w : W) :
  rep m w → is_u64 k → m !! k = None → v ≠ [] → LF ∉ v → ¬ dev_may_fail (dev := dev) →
  ∃ w' w'',
    run dexec (parse_and_handle_command (command_text OpInsert (to_string k) v) fd true) w =
      Done (op_text OpInsert k ∅ true, true) w' ∧
    run dexec (parse_and_handle_command (command_text OpGet (to_string k) []) fd true) w' =
      Done (op_key (lit "GET") (to_string k) ++ lit " " ++ arrow ++ lit " " ++
            [DQ] ++ stored_text v ++ [DQ; LF], true) w''.
Proof.
  intros Hrep Hk Hm Hv Hlf Hfail. pose proof (parse_key_to_string k Hk) as Hpk.
  rewrite !parse_command by (try apply to_string_word; try done; apply not_elem_of_nil).
  unfold run_op.
  destruct (dwp_run _ _ _ (do_kv_operation_spec fd OpInsert (to_string k) v k m w Hrep Hpk))
    as (r1 & w1 & Hr1 & ok & d & Hok & -> & -> & Hd).
  destruct ok; [|by destruct Hfail; apply Hok]. unfold op_map in Hd. rewrite Hm in Hd.
  destruct (dwp_run _ _ _ (do_kv_operation_spec fd OpGet (to_string k) [] k _ (set_dev d w) Hd Hpk))
    as (r2 & w2 & Hr2 & ok2 & d2 & _ & -> & -> & _).
  exists (set_dev d w), (set_dev d2 (set_dev d w)). rewrite !run_bind, Hr1, Hr2.
  split; [unfold op_text, op_reply; by rewrite Hm, lookup_empty|].
  unfold op_text, op_reply. by rewrite lookup_insert_eq.
Qed.

(** Whatever a client sends, as long as PAM does not accept one of its
    passwords, its connection leaves the device and the snapshot file as they
    were; and its thread ends and closes its socket. *)
Lemma unauthenticated_client_harmless fuel fd kv_fd (w : W) :
  (∀ user password s, (authenticate user password s).1 = false) →
  (recv_measure (w_recv w) <= fuel)%nat →
  ∃ w', run dexec (handle_client fuel fd kv_fd) w = Done tt w' ∧
    w_dev w' = w_dev w ∧ w_file w' = w_file w ∧ w_closed w' = w_closed w ++ [fd].
Proof.
  intros Hpam Hf. destruct (dwp_run _ _ _ (handle_client_denied fuel fd kv_fd w Hpam Hf))
    as ([] & w' & Hr & [Hd Hfi] & Hc).
  by exists w'.
Qed.

(** C20: serving a client terminates without a fault for every sequence of
    inputs, well formed or not: the loop makes at most one round per byte or
    event the network delivers, the device still represents a map, the socket is
    closed exactly once, and no buffer stays allocated. *)
Theorem handle_client_terminates fuel fd kv_fd m (w : W) :
  rep m w → (recv_measure (w_recv w) <= fuel)%nat →
  Z.of_nat (size m + recv_measure (w_recv w)) < 2147483648 →
  ∃ w' m', run dexec (handle_client fuel fd kv_fd) w = Done tt w' ∧ rep m' w' ∧
    w_closed w' = w_closed w ++ [fd] ∧ w_live w' = w_live w.
Proof.
  intros Hrep Hf Hs. destruct (dwp_run _ _ _ (handle_client_done fuel fd kv_fd m w Hrep Hf Hs))
    as ([] & w' & Hr & [m' Hm'] & Hc & _ & Hl).
  by exists w', m'.
Qed.

(** C33: saving a table either writes an image of exactly the map to the file,
    as much of it as the disk takes, or leaves the file as it was.  An empty table
    is never written, so an old snapshot stays and would bring deleted keys back at
    the next start. *)
Theorem snapshot_file_is_image fd m (w : W) :
  rep m w → Z.of_nat (size m) < 2147483648 →
  ∃ w', run dexec (do_kv_snapshot_to_file fd) w = Done tt w' ∧ rep m w' ∧
    ((m ≠ ∅ ∧ ∃ data, w_file w' = Some (take (host_disk data) data) ∧ file_image m data) ∨
     (w_file w' = w_file w ∧
      (m = ∅ ∨ dev_may_fail (dev := dev) ∨ host_file_writable = false ∨ ∃ n, host_calloc_ok n = false))).
Proof.
  intros Hrep Hs. destruct (decide (m = ∅)) as [->|Hne].
  { destruct (dwp_run _ _ _ (snapshot_to_file_empty fd w Hrep)) as ([] & w' & Hr & d & Hd & ->).
    eexists. split_and!; [exact Hr|done|]. right. by split; [|left]. }
  pose proof Hne as Hpos%map_size_non_empty_iff.
  destruct (dwp_run _ _ _ (snapshot_to_file_spec fd m w Hrep ltac:(lia)))
    as ([] & w' & Hr & [(d & data & Hd & Hi & ->)|(Hwhy & d & t & Hd & ->)]);
    eexists; (split_and!; [exact Hr|done|]);
    [left; split; [done|]; by exists data|right; by split; [|right]].
Qed.

(** Saving an empty table does not touch the file, so an old snapshot
    stays and would bring deleted keys back at the next start. *)
Lemma empty_snapshot_keeps_stale_file fd (w : W) :
  rep ∅ w →
  ∃ w', run dexec (do_kv_snapshot_to_file fd) w = Done tt w' ∧ rep ∅ w' ∧ w_file w' = w_file w.
Proof.
  intros Hrep. destruct (dwp_run _ _ _ (snapshot_to_file_empty fd w Hrep)) as ([] & w' & Hr & d & Hd & ->).
  by eexists.
Qed.

(** C34: restoring an image of [l] adds its pairs to the map; keys already
    present keep their value.  Only a device short of memory skips some. *)
Theorem restore_adds_image {hlaws : HostLaws host} fd cap l data m (w : W) :
  rep m w → host_file_readable = true → w_file w = Some data →
  snapshot_image cap l data → NoDup l.*1 →
  is_Some (host_malloc (snapshot_size (Z.of_nat (length l)))) →
  ∃ w' m', run dexec (do_kv_restore_from_file fd) w = Done tt w' ∧ rep m' w' ∧
    m ⊆ m' ∧ m' ⊆ m ∪ list_to_map l ∧ (¬ dev_may_fail (dev := dev) → m' = m ∪ list_to_map l).
Proof.
  intros Hrep Hr Hf Hi Hnd Hm.
  destruct (dwp_run _ _ _ (restore_from_file_spec fd cap l data m w Hrep Hr Hf Hi Hnd Hm))
    as ([] & w' & Hrun & d & m' & -> & Hd & [? ?] & ?).
  by exists (add_out (text_restored (Z.of_nat (length l)) 0) (set_dev d w)), m'.
Qed.

(** C19: a restart loses nothing: the daemon, started on an empty device with a
    file that is an image of [m] and stopped again, its disk not being full, ends successfully with the
    device representing [m], the file an image of [m], and both descriptors
    closed. *)
Theorem restart_preserves_data {hlaws : HostLaws host} fuel m (w : W) :
  rep ∅ w → has_image m w → host_file_readable = true →
  is_Some (host_malloc (snapshot_size (Z.of_nat (size m)))) → ¬ dev_may_fail (dev := dev) →
  Z.of_nat (size m) < 2147483648 → 0 < host_open → 0 <= host_socket → network_ok → disk_ok →
  (length (w_shutdown w) < fuel)%nat →
  ∃ w', run dexec (main fuel) w = Done EXIT_SUCCESS w' ∧ rep m w' ∧ has_image m w' ∧
    w_closed w' = w_closed w ++ [host_socket; host_open].
Proof.
  intros. destruct (dwp_run _ _ _ (main_restart_spec fuel m w ltac:(done) ltac:(done) ltac:(done)
    ltac:(done) ltac:(done) ltac:(done) ltac:(done) ltac:(done) ltac:(done) ltac:(done)
    ltac:(done)))
    as (r & w' & Hr & -> & ? & ? & ?).
  by exists w'.
Qed.

(** [init_network] returns the listening socket when every step succeeds,
    and otherwise -1 with the socket closed if there was one. *)
Lemma init_network_closes_on_failure (w : W) :
  ∃ r w', run dexec init_network w = Done r w' ∧
    ((network_ok ∧ r = host_socket ∧ w_closed w' = w_closed w) ∨
     (¬ network_ok ∧ r = -1 ∧
      w_closed w' = w_closed w ++ (if decide (host_socket = -1) then [] else [host_socket]))).
Proof.
  destruct (dwp_run _ _ _ (init_network_spec w)) as (r & w' & Hr & _ & _ & _ & _ & _ & H).
  by exists r, w'.
Qed.

(** The accept loop ends once shutdown is requested; until then every
    accepted client, in order, gets a thread, whatever [accept] fails with in
    between. *)
Lemma listen_network_spawns server_fd kv_fd fuel (w : W) :
  (length (w_shutdown w) < fuel)%nat →
  ∃ w' j, run dexec (listen_network fuel server_fd kv_fd) w = Done tt w' ∧
    w_spawned w' = w_spawned w ++ accepted (take j (w_accepts w)) ∧
    w_dev w' = w_dev w ∧ w_closed w' = w_closed w.
Proof.
  intros Hf. destruct (dwp_run _ _ _ (listen_network_spec server_fd kv_fd fuel w Hf))
    as ([] & w' & Hr & [Hd _] & Hc & _ & j & Hj).
  by exists w', j.
Qed.


End Daemon.

(** The conversation answers every prompt without echo with the password
    and nothing else, one response per message. *)
Lemma conv_func_answers alloc msg pw :
  (∀ i, alloc i = true) →
  conv_func alloc msg (Some pw) =
  (PAM_SUCCESS,
   Some ((λ style, if decide (style = PAM_PROMPT_ECHO_OFF) then Some pw else None) <$> msg)).
Proof. intros Ha. unfold conv_func. rewrite Ha. by rewrite conv_loop_ok. Qed.

(** C36: keys are read back as they are printed, and every key that is accepted
    is a 64-bit unsigned integer.  The text need not be an unsigned number for
    that: a minus sign is accepted and wraps around. *)
Theorem parse_key_roundtrip :
  (∀ k, is_u64 k → parse_key (to_string k) = Some k) ∧
  (∀ text k, parse_key text = Some k → is_u64 k) ∧
  parse_key (lit "-1") = Some u64_max ∧ parse_key (lit "12x") = None ∧ parse_key [] = None ∧
  parse_key (lit "18446744073709551616") = None.
Proof.
  split; [exact parse_key_to_string|]. split; [exact parse_key_u64|]. by vm_compute.
Qed.

(** C16: whatever a client sends and whatever it is answered, its thread calls
    [ioctl] and opens or writes the snapshot file only after PAM, asked by this
    thread, has accepted a user and a password. *)
Theorem auth_before_access {ioc_api : IocApi} fuel client_fd kv_fd tr q :
  asks (handle_client fuel client_fd kv_fd) tr q → touches_store q → accepted_by_pam tr.
Proof.
  intros Hasks Ht. destruct (guarded_asks _ _ _ _ Hasks (guarded_handle_client fuel client_fd kv_fd))
    as [Hg|?]; [|done].
  by destruct (guarded_touches _ _ Hg).
Qed.

Section Kernel.
Context {ioc_api : IocApi} {ioc_laws : IocLaws ioc_api} {api : KernelApi} {laws : KernelLaws api}.
Context {pam : PamApi} {host : HostApi} {hlaws : HostLaws host}.
Variables (pb pl : addr) (nbits : Z) (F : heap).
Hypothesis nbits_range : 1 <= nbits <= 31.

(** What the buffer holds of an entry that the file does not have. *)
Lemma restore_garbage content buf :
  length content = sizeof_kv_snapshot_message → (sizeof_kv_snapshot_message <= length buf)%nat →
  read_at (off_snap_entries + 0 * sizeof_kv_message) sizeof_kv_message
    (write_at off_snap_entries [] (write_at 0 content buf)) =
  read_at (off_snap_entries + 0 * sizeof_kv_message) sizeof_kv_message buf.
Proof.
  intros Hl Hb. unfold write_at at 1. cbn [app length]. rewrite Nat.add_0_r, take_drop.
  apply read_write_ne; [rewrite Hl; lia|]. right. rewrite Hl. unfold off_snap_entries, sizeof_kv_snapshot_message. lia.
Qed.

(** C26: a snapshot file cut off after its header, as a full disk leaves it, is
    not noticed at the start: the daemon inserts what [malloc] left in its buffer,
    and a value without a terminator there takes the kernel down. *)
Theorem restore_short_file_faults fd content buf m (w : world (kernel_device pb pl nbits)) :
  store_rep pb pl nbits F m (w_dev w) →
  host_file_readable = true → w_file w = Some content →
  length content = sizeof_kv_snapshot_message → 0 < snap_count (decode_header content) →
  host_malloc (snapshot_size (snap_count (decode_header content))) = Some buf →
  m !! key (entry_at buf 0) = None → c_str (value (entry_at buf 0)) = None →
  run dexec (do_kv_restore_from_file fd) w = Faulted DKernelOops.
Proof.
  intros Hrep Hread Hfile Hlen Hpos Hbuf Hkey Hval.
  set (count := snap_count (decode_header content)) in *.
  assert (∃ n, count = Z.of_nat (S n)) as [n Hn] by (exists (Z.to_nat (count - 1)); lia).
  assert (is_u32 count) as Hu by apply header_count_u32.
  pose proof (length_host_malloc _ _ Hbuf) as Hbl. rewrite Hn in Hu, Hbl.
  rewrite length_snapshot_buffer in Hbl by done.
  unfold do_kv_restore_from_file. rewrite run_bind, run_call. cbn [dexec]. rewrite Hread, Hfile.
  rewrite take_ge, write_at_0_all by (rewrite ?length_zeros; lia). fold count.
  rewrite run_bind, run_call. cbn [dexec]. rewrite Hbuf, decide_False by lia.
  rewrite (drop_ge content), take_nil by lia. rewrite Hn, Nat2Z.id, !run_bind. cbn [restore_entries].
  rewrite run_bind, run_call. cbn [dexec].
  assert (off_snap_entries + 0 * sizeof_kv_message + sizeof_kv_message <= length buf)%nat as Hroom.
  { rewrite Hbl. unfold off_snap_entries, sizeof_kv_snapshot_message, sizeof_kv_message. lia. }
  rewrite (restore_garbage content buf) by (done || (rewrite Hbl; lia)).
  rewrite <- (encode_decode_msg (read_at _ _ buf)) by by apply length_read_at.
  cbn [dev_ioctl kernel_device]. unfold kernel_ioctl.
  rewrite (kernel_insert_unterminated pb pl nbits F nbits_range _ m); try done.
  by apply decode_msg_ok, length_read_at.
Qed.

End Kernel.

(** C9: the daemon on the kernel, or on any device with memory enough, is
    equivalent to a short interpreter of the commands on a map: over a
    connection that delivers [msgs] and takes every reply, the client gets
    exactly the answers the interpreter gives, in order, and the device ends up
    with the interpreter's map. *)
Theorem session_equivalence {ioc_api : IocApi} {ioc_laws : IocLaws ioc_api}
    {dev : KvDevice} {dlaws : KvDeviceLaws dev} {pam : PamApi} {host : HostApi}
    fuel fd kv_fd msgs m (w : world dev) :
  dev_rep m (w_dev w) → ¬ dev_may_fail (dev := dev) → (∀ text, 0 <= host_send text) →
  Forall message_ok msgs → (length msgs < fuel)%nat → Z.of_nat (size m + length msgs) < 2147483648 →
  w_recv w = RecvData <$> msgs →
  ∃ w', run dexec (handle_client fuel fd kv_fd) w = Done tt w' ∧
    w_sent w' = w_sent w ++ (session knows msgs false m).1 ∧
    dev_rep (session knows msgs false m).2 (w_dev w') ∧ w_closed w' = w_closed w ++ [fd].
Proof.
  intros Hrep Hfail Hsend Hok Hf Hs Hrecv.
  destruct (dwp_run _ _ _ (answers_session fd kv_fd msgs fuel false m w Hfail Hsend Hok Hf Hs Hrep Hrecv))
    as ([] & w1 & Hr & Hm & Hsent & Hc).
  unfold handle_client. rewrite run_bind, Hr, run_call. cbn [dexec].
  eexists. split; [done|]. cbn [w_sent w_dev w_closed add_closed]. by rewrite Hc.
Qed.

(** ** Witnesses: the daemon on the kernel module *)

(** A file with the one pair of [test_map]. *)
Definition test_image : bytes :=
  encode_header (mk_header 0 1 1 (zeros 4)) ++
  encode_msg (mk_msg 0 (zeros 4) 5 (value_a ++ zeros (MAX_VALUE_LEN - length value_a))).

Lemma test_image_ok : snapshot_image 1 [(5, value_a)] test_image.
Proof.
  split; [by vm_compute..|]. intros [|i] kv Hi; [|done].
  injection Hi as <-. by vm_compute.
Qed.

Lemma test_map_list : [(5, value_a)] ≡ₚ map_to_list test_map.
Proof. unfold test_map. by rewrite map_to_list_singleton. Qed.

Lemma test_has_image s : has_image test_map (test_world s (Some test_image)).
Proof.
  exists test_image. split; [done|]. exists [(5, value_a)].
  split; [apply test_map_list|apply test_image_ok].
Qed.

Abbreviation trun := (run (dexec (dev := test_device))).

(** A session: log in, read a key, be interrupted, hang up. *)
Definition test_recv : list recv_answer :=
  [RecvData (lit "AUTH alice secret"); RecvData (lit "KV_GET 5"); RecvErr true; RecvEof].

Lemma do_kv_operation_refines_witness :
  ∃ d, trun (do_kv_operation 3 KV_GET (lit "5") []) (test_world store1 None) =
    Done (op_text OpGet 5 test_map true) (set_dev d (test_world store1 None)).
Proof.
  destruct (do_kv_operation_refines (dlaws := test_device_laws) 3 OpGet (lit "5") [] 5 test_map
    (test_world store1 None) store1_rep) as (ok & d & H1 & _ & Hok); [reflexivity|].
  destruct ok; [|destruct (test_never_fails (Hok eq_refl))]. exists d. exact H1.
Defined.

Lemma insert_then_get_witness :
  ∃ w' w'',
    trun (parse_and_handle_command (lit "KV_INSERT 7 beta") 3 true) (test_world store1 None) =
      Done (op_text OpInsert 7 ∅ true, true) w' ∧
    trun (parse_and_handle_command (lit "KV_GET 7") 3 true) w' =
      Done (op_key (lit "GET") (lit "7") ++ lit " " ++ arrow ++ lit " " ++
            [DQ] ++ value_b ++ [DQ; LF], true) w''.
Proof.
  destruct (insert_then_get (dlaws := test_device_laws) 3 7 value_b test_map (test_world store1 None) store1_rep)
    as (w' & w'' & H1 & H2).
  - split; discriminate.
  - reflexivity.
  - discriminate.
  - apply (bool_decide_unpack (LF ∉ value_b)). vm_compute. exact I.
  - exact test_never_fails.
  - exists w', w''. split; [exact H1|exact H2].
Defined.

Lemma unauthenticated_client_harmless_witness :
  ∃ w', run (dexec (dev := test_device) (pam := deny_pam)) (handle_client 100 9 3)
      (set_recv test_recv (test_world store1 None)) = Done tt w' ∧
    w_dev w' = store1 ∧ w_closed w' = [9].
Proof.
  destruct (unauthenticated_client_harmless (dev := test_device) (pam := deny_pam) 100 9 3
    (set_recv test_recv (test_world store1 None))) as (w' & H1 & H2 & _ & H3).
  - intros user password s. reflexivity.
  - apply Nat.leb_le. reflexivity.
  - exists w'. split; [exact H1|]. split; [exact H2|exact H3].
Defined.

Lemma handle_client_terminates_witness :
  ∃ w' m', trun (handle_client 100 9 3) (set_recv test_recv (test_world store1 None)) = Done tt w' ∧
    test_rep m' (w_dev w') ∧ w_closed w' = [9].
Proof.
  destruct (handle_client_terminates (dlaws := test_device_laws) 100 9 3 test_map
    (set_recv test_recv (test_world store1 None)) store1_rep) as (w' & m' & H1 & H2 & H3 & _).
  - apply Nat.leb_le. reflexivity.
  - reflexivity.
  - exists w', m'. split; [exact H1|]. split; [exact H2|exact H3].
Defined.

Lemma snapshot_file_is_image_witness :
  ∃ w' data, trun (do_kv_snapshot_to_file 3) (test_world store1 None) = Done tt w' ∧
    w_file w' = Some data ∧ file_image test_map data.
Proof.
  destruct (snapshot_file_is_image (dlaws := test_device_laws) 3 test_map (test_world store1 None) store1_rep)
    as (w' & H1 & _ & H2); [reflexivity|].
  destruct H2 as [(_ & data & H2 & H3)|[_ [Hm|[Hf|[Hf|[n Hf]]]]]];
    [|discriminate|destruct (test_never_fails Hf)|discriminate|discriminate].
  exists w', data. split; [exact H1|]. split; [|exact H3].
  rewrite H2. f_equal. apply take_ge. apply Nat.le_refl.
Defined.

Lemma empty_snapshot_keeps_stale_file_witness :
  ∃ w', trun (do_kv_snapshot_to_file 3) (test_world store0 (Some test_image)) = Done tt w' ∧
    w_file w' = Some test_image.
Proof.
  destruct (empty_snapshot_keeps_stale_file (dlaws := test_device_laws) 3 (test_world store0 (Some test_image))
    store0_rep) as (w' & H1 & _ & H2).
  exists w'. split; [exact H1|exact H2].
Defined.

Lemma restore_adds_image_witness :
  ∃ w', trun (do_kv_restore_from_file 3) (test_world store0 (Some test_image)) = Done tt w' ∧
    test_rep (∅ ∪ list_to_map [(5, value_a)]) (w_dev w').
Proof.
  destruct (restore_adds_image (dlaws := test_device_laws) (host := test_host) 3 1 [(5, value_a)] test_image ∅
    (test_world store0 (Some test_image)) store0_rep eq_refl eq_refl test_image_ok)
    as (w' & m' & H1 & H2 & _ & _ & H3).
  - apply (bool_decide_unpack (NoDup [5])). vm_compute. exact I.
  - eexists. reflexivity.
  - exists w'. split; [exact H1|]. rewrite <- (H3 test_never_fails). exact H2.
Defined.

Lemma test_network_ok : network_ok.
Proof. split_and!; discriminate. Qed.

Lemma restart_preserves_data_witness :
  ∃ w', trun (main 1) (test_world store0 (Some test_image)) = Done EXIT_SUCCESS w' ∧
    test_rep test_map (w_dev w') ∧ w_closed w' = [4; 3].
Proof.
  destruct (restart_preserves_data (dlaws := test_device_laws) (host := test_host) 1 test_map (test_world store0 (Some test_image))
    store0_rep (test_has_image store0) eq_refl) as (w' & H1 & H2 & _ & H3).
  - eexists. reflexivity.
  - exact test_never_fails.
  - reflexivity.
  - reflexivity.
  - discriminate.
  - exact test_network_ok.
  - intros data. apply Nat.le_refl.
  - apply Nat.ltb_lt. reflexivity.
  - exists w'. split; [exact H1|]. split; [exact H2|exact H3].
Defined.

(** Three accepts, one of them interrupted, and a shutdown. *)
Definition busy_world : world test_device :=
  set_shutdown [false; false; false; false]
    (set_accepts [AcceptFd 11; AcceptErr true; AcceptFd 12] (test_world store0 None)).

Lemma listen_network_spawns_witness :
  ∃ w' j, trun (listen_network 10 4 3) busy_world = Done tt w' ∧
    w_spawned w' = accepted (take j [AcceptFd 11; AcceptErr true; AcceptFd 12]).
Proof.
  destruct (listen_network_spawns (dev := test_device) 4 3 10 busy_world) as (w' & j & H1 & H2 & _).
  - apply Nat.ltb_lt. reflexivity.
  - exists w', j. split; [exact H1|exact H2].
Defined.

Lemma conv_func_answers_witness :
  conv_func (λ _, true) [4; 1; 2] (Some (lit "secret")) =
  (PAM_SUCCESS, Some [None; Some (lit "secret"); None]).
Proof. apply (conv_func_answers (λ _, true) [4; 1; 2] (lit "secret")). reflexivity. Defined.

(** A client that authenticates and then asks for a key: six answers later the
    next action is an [ioctl]. *)
Lemma auth_before_access_witness :
  ∃ tr q, asks (handle_client 5 9 3) tr q ∧ length tr = 6%nat ∧ touches_store q ∧ accepted_by_pam tr.
Proof.
  assert (∃ tr q, asks (handle_client 5 9 3) tr q ∧ length tr = 6%nat ∧ touches_store q)
    as (tr & q & Hq & Hl & Ht).
  { eexists _, _. split.
    { eapply (asks_cons _ _ _ (RecvData (lit "AUTH alice secret"))), (asks_cons _ _ _ tt).
      eapply (asks_cons _ _ _ true), (asks_cons _ _ _ 3).
      eapply (asks_cons _ _ _ (RecvData (lit "KV_GET 5"))), (asks_cons _ _ _ tt). apply asks_nil. }
    split; [reflexivity|exact I]. }
  exists tr, q. split; [exact Hq|]. split; [exact Hl|]. split; [exact Ht|].
  exact (auth_before_access 5 9 3 tr q Hq Ht).
Defined.

(** A header for one entry, and no entry. *)
Definition short_file : bytes := encode_header (mk_header 0 1 1 (zeros 4)).

Lemma restore_short_file_faults_witness :
  trun (do_kv_restore_from_file 3) (test_world store1 (Some short_file)) = Faulted DKernelOops.
Proof.
  apply (restore_short_file_faults (host := test_host) 1%positive 2%positive test_bits ∅ test_bits_range 3
    short_file (replicate (Z.to_nat (snapshot_size 1)) (ascii_of_nat 204)) test_map
    (test_world store1 (Some short_file)) store1_rep); reflexivity.
Defined.

(** A client that asks too early, logs in and uses the store. *)
Definition test_msgs : list bytes :=
  [lit "KV_GET 5"; lit "AUTH alice secret"; lit "KV_INSERT 7 beta gamma"; lit "KV_GET 7";
   lit "KV_DELETE 5"; lit "KV_UPDATE 5 x"; lit "KV_INSERT 8"; lit "LIST 5"; lit "KV_GET five"].

Lemma session_equivalence_witness :
  ∃ w', trun (handle_client 10 9 3) (set_recv (RecvData <$> test_msgs) (test_world store1 None)) = Done tt w' ∧
    w_sent w' =
      [text_not_auth; text_ok; lit "INSERT(" ++ [DQ] ++ lit "7" ++ [DQ] ++ lit ") succeeded" ++ [LF];
       lit "GET(" ++ [DQ] ++ lit "7" ++ [DQ] ++ lit ") " ++ arrow ++ lit " " ++ [DQ] ++ lit "beta gamma" ++ [DQ; LF];
       lit "DELETE(" ++ [DQ] ++ lit "5" ++ [DQ] ++ lit ") succeeded" ++ [LF];
       lit "UPDATE(" ++ [DQ] ++ lit "5" ++ [DQ] ++ lit ") failed (status=1)" ++ [LF];
       text_insert_value; text_unknown (lit "LIST"); text_bad_key] ∧
    test_rep {[7 := lit "beta gamma"]} (w_dev w').
Proof.
  destruct (session_equivalence (dlaws := test_device_laws) (pam := test_pam) (host := test_host) 10 9 3
    test_msgs test_map (set_recv (RecvData <$> test_msgs) (test_world store1 None)) store1_rep)
    as (w' & H1 & H2 & H3 & _).
  - exact test_never_fails.
  - intros text. apply Nat2Z.is_nonneg.
  - apply (bool_decide_unpack (Forall (λ msg : bytes, msg ≠ [] ∧ (length msg <= 1023)%nat) test_msgs)).
    vm_compute. exact I.
  - apply Nat.ltb_lt. reflexivity.
  - reflexivity.
  - reflexivity.
  - exists w'. split; [exact H1|]. split; [rewrite H2; vm_compute; reflexivity|].
    replace {[7 := lit "beta gamma"]} with (session knows test_msgs false test_map).2; [exact H3|].
    vm_compute. reflexivity.
Defined.
