(* ===== verification/UserProps.v ===== *)
(** * Properties of the client and the benchmark

    The theorems about [user/client/client.cpp] and [benchmark/benchmark.cpp],
    most of them with the daemon of [user/daemon] at the other end of the socket
    and any device that keeps its contract below it; the witnesses run on the
    kernel module. *)

From S2P Require Import Prelude Prog CStr KvIoctl KMem KvHash KLogic KvHashSpec KvStore Kvlkm.
From S2P Require Import KvlkmSpec KvDevice KvInterface Auth Daemon DaemonSem DaemonSpec.
From S2P Require Import Connection Session.
From S2P Require Import Userland Client Benchmark UserSpec BenchSpec BenchKeys ClientSpec.
From S2P Require Import Instances.

Section User.
Context {ioc_api : IocApi} {ioc_laws : IocLaws ioc_api}.
Context {dev : KvDevice} {dlaws : KvDeviceLaws dev} {pam : PamApi} {host : HostApi} {user : UserApi}.
Variable kv_fd : Z.

Abbreviation U := (uworld (daemon_peer (dev := dev) kv_fd)).
Abbreviation online := (online (dev := dev) kv_fd).

(** The map below the daemon this program is connected to. *)
Abbreviation stores m w := (dev_rep m (w_dev (u_peer (P := daemon_peer (dev := dev) kv_fd) w).1)).

(** C21: the whole system, from the benchmark's requests through the daemon to
    the device, does what the baseline benchmark expects, provided the store holds
    none of the keys 0 to 49999 that it uses, no call of the network fails, the
    kernel does not run out of memory and PAM accepts the credentials: it reports no
    failed insert, get or delete, and leaves the store as it found it. *)
Theorem baseline_no_failures conn_data m (w : U) :
  link_ok (dev := dev) (daemon_ip conn_data) → stores m w →
  credentials_ok (Benchmark.username conn_data) (Benchmark.password conn_data) →
  (∀ k, 0 <= k < 50000 → m !! k = None) →
  ∃ (w' : U) out, run uexec (run_baseline_single_thread conn_data) w = Done tt w' ∧ stores m w' ∧
    u_out w' = out ++ report 0 0 0 0.
Proof.
  intros Hlink Hrep Hcred Hm.
  destruct (uwp_run (P := daemon_peer kv_fd) _ _ _ (baseline_spec kv_fd _ Hlink conn_data m w eq_refl Hrep Hcred
    ltac:(intros k Hk; apply Hm; lia))) as ([] & w' & Hr & Hd & out & Hout).
  by exists w', out.
Qed.

(** C38: whatever the daemon answers, a thread of the multi-threaded benchmark
    sends nothing but its login and commands for keys of its own: the keys of
    two threads are disjoint, and none overflows the [int] it is computed in. *)
Theorem latency_workers_apart conn_data tid tid' :
  0 <= tid < 8 → 0 <= tid' < 8 →
  all_acts (sends_for conn_data (thread_keys tid)) (latency_worker conn_data tid) ∧
  (∀ k, thread_keys tid k → 0 <= k < 2147483648) ∧
  (tid ≠ tid' → ∀ k, thread_keys tid k → ¬ thread_keys tid' k).
Proof.
  intros Ht Ht'. split_and!; [apply worker_sends| |]; unfold thread_keys; intros; lia.
Qed.

(** C39: the client's login says no more than the daemon.  Whatever lines of at
    most 500 bytes without a NUL were typed, it returns 0 only when the daemon has
    accepted the connection, and -1 only when a send or a read failed, the client's or
    the daemon's; it returns nothing else, and the device is untouched.  (A refusal it
    answers with another prompt, at the end of its input for ever.)  Where no call
    fails, a name and a password that PAM accepts log in at once. *)
Theorem client_login sock fuel (w : U) :
  (∀ d, ready kv_fd d w →
    match run uexec (Client.auth_user fuel sock) w with
    | Done r w' => w_dev (u_peer w').1 = d ∧
        ((r = 0 ∧ (u_peer w').2 = true) ∨
         (r = -1 ∧ ((∃ text, user_send text < 0) ∨ user_read_ok = false ∨ ∃ reply, host_send reply < 0)))
    | Faulted UOutOfFuel => True
    | _ => False
    end) ∧
  (∀ ip name pw rest m, link_ok (dev := dev) ip → u_lines w = name :: pw :: rest → credentials_ok name pw →
    u_alive w = true → u_stream w = [] → stores m w → (0 < fuel)%nat →
    ∃ w' : U, run uexec (Client.auth_user fuel sock) w = Done 0 w' ∧ online m w' ∧ u_lines w' = rest).
Proof.
  split.
  - intros d Hw. exact (login_sound kv_fd sock d fuel w Hw).
  - intros ip name pw rest m Hlink Hl Hcred Ha Hs Hrep Hf. destruct fuel as [|fuel]; [lia|].
    destruct (uwp_run (P := daemon_peer kv_fd) _ _ _ (login_accepted kv_fd ip Hlink sock fuel name pw rest m w Hl Hcred Ha Hs Hrep))
      as (r & w' & Hr & -> & Hon & Hl').
    by exists w'.
Qed.

(** C40: one round of the client's menu does what was chosen, whatever is typed for
    it.  For an insert, an update, a get, a delete or a snapshot, the store becomes
    what the reference interpreter makes of the command that the choice stands for,
    and the user is shown its answer, also when the key is no number or the value is
    missing; the exit, in either of its spellings, ends the menu, and any other line
    is reported as invalid, both without touching the daemon.  It is assumed that no
    call of the network fails and the kernel does not run out of memory, that the
    store has fewer than 2^31 pairs, and that the command has no NUL and at most 1023
    bytes. *)
Theorem menu_round_performs ip sock c m (w : U) rest :
  link_ok (dev := dev) ip → online m w → Z.of_nat (size m) < 2147483648 → choice_ok c →
  (∀ command, choice_command c = Some command → no_nul command ∧ (length command <= 1023)%nat) →
  u_lines w = choice_lines c ++ rest →
  ∃ w' : U, run uexec (menu_round sock) w = Done (match c with ChooseExit _ => false | _ => true end) w' ∧
    u_lines w' = rest ∧
    match choice_command c with
    | Some command =>
        let '(text, _, m') := command_answer knows command true m in
        online m' w' ∧ ∃ out, u_out w' = out ++ [Text text; Text reset]
    | None => u_peer w' = u_peer w ∧ online m w' ∧
        match c with
        | ChooseOther _ => ∃ out, u_out w' = out ++ [Text (lit "Invalid choice" ++ [LF]); Text reset]
        | _ => True
        end
    end.
Proof.
  intros Hlink Hon Hsize Hok Hline Hlines.
  destruct (uwp_run (P := daemon_peer kv_fd) _ _ _ (menu_round_spec kv_fd ip Hlink sock c m w rest Hon Hsize Hok
    ltac:(intros command Hc; by apply (command_line_ok c), Hline) Hlines)) as (r & w' & Hr & -> & Hl & Hround).
  exists w'. split_and!; [done|done|]. unfold round_done in Hround.
  destruct (choice_command c) as [command|]; [|done]. by destruct (command_answer _ _ _ _) as [[text auth] m'].
Qed.

End User.

(** The password prompt reads its line with the echo of the terminal off
    and every other flag as it was, and gives the terminal back unchanged, also
    when standard input is at its end or is no terminal. *)
Lemma get_password_restores {P : Peer} {user : UserApi} (w : uworld P) :
  ∃ pw w' t, run uexec Client.get_password w = Done pw w' ∧ u_tty w' = u_tty w ∧
    u_reads w' = u_reads w ++ [t] ∧
    match t, u_tty w with
    | Some f', Some f => ∀ i, 0 <= i → Z.testbit f' i = Z.testbit f i && negb (i =? 3)
    | None, None => True
    | _, _ => False
    end.
Proof.
  destruct (uwp_run _ _ _ (get_password_spec w)) as (pw & w' & Hr & _ & Ht & Hreads & _).
  exists pw, w', (no_echo (u_tty w)). split_and!; [done..|]. unfold no_echo.
  destruct (u_tty w) as [f|]; [|done]. cbn. intros i Hi. rewrite Z.ldiff_spec by done. f_equal. f_equal.
  unfold ECHO. change 8 with (2 ^ 3). rewrite Z.pow2_bits_eqb by lia. apply Z.eqb_sym.
Qed.

(** ** Witnesses *)

(** A network that works, and a client of [alice]. *)
#[export] Instance test_user : UserApi := {|
  user_socket := 5;
  user_pton ip := 1;
  user_connect := 0;
  user_send data := Z.of_nat (length data);
  user_read_ok := true;
  user_csv_open name := true;
  user_clock n := Z.of_nat n;
  user_garbage := 0;
|}.

Definition alice : connection_data := mk_conn_data (lit "alice") (lit "secret") (lit "127.0.0.1").

Definition test_session (s : kst) (authenticated : bool) (lines : list bytes) (stop : list bool)
    : uworld (daemon_peer (dev := test_device) 3) :=
  mk_uworld (daemon_peer (dev := test_device) 3) (test_world s None, authenticated) true [] lines [] false
    (Some 35387) [] [] None 0 stop (λ _, 0) [] [].

Lemma test_link : link_ok (dev := test_device) (lit "127.0.0.1").
Proof.
  split; try (intros t; apply Nat2Z.is_nonneg); try done. exact test_never_fails.
Qed.

Lemma alice_ok : credentials_ok (lit "alice") (lit "secret").
Proof.
  split; [split; [done|repeat constructor]|]. split; [split; [done|repeat constructor]|]. split.
  - split; [done|]. split; [by apply no_nul_dec_true; vm_compute|by apply Nat.leb_le; vm_compute].
  - intros s. by vm_compute.
Qed.

Lemma baseline_no_failures_witness :
  ∃ w' out, run uexec (run_baseline_single_thread alice) (test_session store0 false [] []) = Done tt w' ∧
    u_out w' = out ++ report 0 0 0 0.
Proof.
  destruct (baseline_no_failures (dlaws := test_device_laws) 3 alice ∅ (test_session store0 false [] [])
    test_link store0_rep alice_ok) as (w' & out & H1 & _ & H2).
  - intros k _. apply lookup_empty.
  - exists w', out. split; [exact H1|exact H2].
Defined.

Lemma latency_workers_apart_witness :
  all_acts (sends_for alice (thread_keys 3)) (latency_worker alice 3) ∧
  (∀ k, thread_keys 3 k → ¬ thread_keys 5 k).
Proof.
  destruct (latency_workers_apart alice 3 5) as (H1 & _ & H2).
  - split; [discriminate|reflexivity].
  - split; [discriminate|reflexivity].
  - split; [exact H1|]. apply H2. discriminate.
Defined.

Lemma client_login_witness :
  (∃ w' : uworld (daemon_peer (dev := test_device) 3),
    run uexec (Client.auth_user 1 5) (test_session store1 false [lit "alice"; lit "secret"; lit "3"] []) =
      Done 0 w' ∧ u_lines w' = [lit "3"]) ∧
  ∃ r (w' : uworld (daemon_peer (dev := test_device) 3)),
    run uexec (Client.auth_user 3 5) (test_session store1 false [lit "bob"; lit "x"; lit "alice"; lit "secret"] []) =
      Done r w' ∧ (u_peer w').2 = true.
Proof.
  split.
  - destruct (client_login (dlaws := test_device_laws) 3 5 1
      (test_session store1 false [lit "alice"; lit "secret"; lit "3"] [])) as [_ H].
    destruct (H (lit "127.0.0.1") (lit "alice") (lit "secret") [lit "3"] test_map test_link) as (w' & H1 & _ & H2).
    + reflexivity.
    + exact alice_ok.
    + reflexivity.
    + reflexivity.
    + exact store1_rep.
    + apply Nat.ltb_lt. reflexivity.
    + exists w'. split; [exact H1|exact H2].
  - set (w := test_session store1 false [lit "bob"; lit "x"; lit "alice"; lit "secret"] []).
    assert (ready 3 (w_dev (u_peer w).1) w) as Hw.
    { split; [exact short_nil| |reflexivity..]. eapply Forall_impl.
      - apply (bool_decide_unpack (Forall (λ x, bool_decide (no_nul x) && (length x <=? 500)%nat = true) (u_lines w))).
        vm_compute. exact I.
      - intros l [H1 H2]%andb_true_iff. split; [apply no_nul_dec_true; exact H1|apply Nat.leb_le; exact H2]. }
    destruct (client_login (dlaws := test_device_laws) 3 5 3 w) as [H _]. specialize (H _ Hw).
    assert (match run uexec (Client.auth_user 3 5) w with Done _ _ => True | _ => False end) as Hd
      by (vm_compute; exact I).
    destruct (run uexec (Client.auth_user 3 5) w) as [r w'| |f] eqn:Hr; [|destruct Hd|destruct Hd].
    exists r, w'. split; [reflexivity|].
    destruct H as [_ [[_ Hf]|[_ [[t Ht]|[Hread|[t Ht]]]]]]; [exact Hf| |discriminate Hread|].
    + destruct (Zlt_not_le _ _ Ht (Nat2Z.is_nonneg _)).
    + destruct (Zlt_not_le _ _ Ht (Nat2Z.is_nonneg _)).
Defined.

Lemma menu_round_performs_witness :
  (∃ (w' : uworld (daemon_peer (dev := test_device) 3)) out,
    run uexec (menu_round 5) (test_session store1 true [lit "2"; lit "5"; value_b] []) = Done true w' ∧
    u_out w' = out ++ [Text (op_key (lit "UPDATE") (lit "5") ++ lit " succeeded" ++ [LF]); Text reset]) ∧
  (∃ (w' : uworld (daemon_peer (dev := test_device) 3)) out,
    run uexec (menu_round 5) (test_session store1 true [lit "3"; lit "five"] []) = Done true w' ∧
    u_out w' = out ++ [Text text_bad_key; Text reset]) ∧
  ∃ w' : uworld (daemon_peer (dev := test_device) 3),
    run uexec (menu_round 5) (test_session store1 true [lit "exit"; lit "x"] []) = Done false w' ∧
    u_lines w' = [lit "x"].
Proof.
  assert (∀ lines, online (dev := test_device) 3 test_map (test_session store1 true lines [])) as Hon.
  { intros lines. exists (test_world store1 None). split; [reflexivity|]. split; [reflexivity|].
    split; [reflexivity|]. exact store1_rep. }
  split; [|split].
  - destruct (menu_round_performs (dlaws := test_device_laws) 3 (lit "127.0.0.1") 5 (Choose OpUpdate (lit "5") value_b)
      test_map (test_session store1 true [lit "2"; lit "5"; value_b] []) [] test_link (Hon _) eq_refl I)
      as (w' & H1 & _ & _ & out & H2); [|reflexivity|].
    + intros command [= <-]. split; [apply no_nul_dec_true; by vm_compute|by apply Nat.leb_le; vm_compute].
    + exists w', out. split; [exact H1|exact H2].
  - destruct (menu_round_performs (dlaws := test_device_laws) 3 (lit "127.0.0.1") 5 (Choose OpGet (lit "five") [])
      test_map (test_session store1 true [lit "3"; lit "five"] []) [] test_link (Hon _) eq_refl I)
      as (w' & H1 & _ & _ & out & H2); [|reflexivity|].
    + intros command [= <-]. split; [apply no_nul_dec_true; by vm_compute|by apply Nat.leb_le; vm_compute].
    + exists w', out. split; [exact H1|exact H2].
  - destruct (menu_round_performs (dlaws := test_device_laws) 3 (lit "127.0.0.1") 5 (ChooseExit true)
      test_map (test_session store1 true [lit "exit"; lit "x"] []) [lit "x"] test_link (Hon _) eq_refl I)
      as (w' & H1 & H2 & _); [discriminate|reflexivity|].
    exists w'. split; [exact H1|exact H2].
Defined.
