(* ===== verification/Worlds.v ===== *)
(** * Executions of the whole daemon

    Worlds in which the daemon meets clients, and where the executions end that a
    scheduler makes of them, on the kernel's memory.  The theorems of [SystemProps]
    are applied to them. *)

From S2P Require Import Prelude Prog Timeline CStr.
From S2P Require Import KvIoctl KMem KvHash KLogic KSound KTyping KvHashSpec.
From S2P Require Import KvTable.
From S2P Require Import KvStore KvTrace Kvlkm KvlkmSpec KvDevice KvInterface Daemon DaemonSpec.
From S2P Require Import Access System Threads.
From S2P Require Import SystemSpec Dialogue Isolation SavedFile Spawning Session DaemonSystem.
From S2P Require Import Instances Auth DaemonSem DaemonProps.

Definition count_log (P : answered → bool) (log : list answered) : nat := length (filter (λ a, P a = true) log).

Definition is_recv (fd : Z) (a : answered) : bool :=
  match a with @Answered X e _ => match e with Recv fd' _ => bool_decide (fd' = fd) | _ => false end end.

Definition is_close (fd : Z) (a : answered) : bool :=
  match a with @Answered X e _ => match e with Close fd' => bool_decide (fd' = fd) | _ => false end end.

Definition hung_up (log : list answered) : bool :=
  bool_decide (1 <= count_log (is_close 9) log ∧ 1 <= count_log (is_close 10) log)%nat.

(** A world in which [main] restores [file] and two clients connect; they send
    their commands, step by step, and hang up; then a signal tells the daemon to
    stop. *)
Definition scripted (file : option bytes) (commands : Z → list bytes) : Outside := λ log X e,
  match e in dact X return option X with
  | Recv fd size =>
      let n := count_log (is_recv fd) log in
      if decide (count_log (is_recv (19 - fd)) log < n)%nat then None
      else Some (if commands fd !! n is Some command then RecvData (take size command) else RecvEof)
  | Authenticate _ _ => Some true
  | Calloc size => Some (Some (zeros (Z.to_nat size)))
  | Malloc size => Some (Some (zeros (Z.to_nat size)))
  | FileOpenRead => Some file
  | FileOpenWrite => Some true
  | DevOpen | Socket => Some 3
  | SetSockOpt _ | Bind _ _ | Listen _ _ | Send _ _ => Some 0
  | Accept _ =>
      match length (spawns log) with
      | 0%nat => Some (AcceptFd 9)
      | 1%nat => Some (AcceptFd 10)
      | _ => if hung_up log then Some (AcceptErr true) else None
      end
  | GetShutdownRequested => Some (hung_up log)
  | GetServerFd => Some 3
  | Free | FileWrite _ | Print _ | SpawnClient _ _ | Close _ | SetShutdownRequested
  | SetServerFd _ | InstallHandler _ => Some tt
  | Ioctl _ _ _ | DTrap _ => None
  end.

Lemma scripted_ok file commands :
  (∀ data, file = Some data → image_file data) → outside_ok (env := scripted file commands) image_file.
Proof.
  intros Hfile log X e x Hx.
  destruct e; try done; cbv beta iota delta [outside scripted] in Hx; cbn [answer_ok].
  - by injection Hx as <-; intros buf [= <-].
  - injection Hx as <-. eexists. split; [done|apply length_zeros].
  - by injection Hx as <-.
  - cbv zeta in Hx. case_decide; [done|]. injection Hx as <-. destruct (_ !! _); [|done].
    rewrite length_take. apply Nat.le_min_l.
Qed.

(** Both log in, store the same pair and save. *)
Definition test_commands (fd : Z) : list bytes :=
  [lit "AUTH alice secret"; lit "KV_INSERT 7 beta"; lit "KV_SNAPSHOT"].

#[local] Instance test_outside : Outside := scripted (Some test_image) test_commands.

Lemma test_outside_ok : outside_ok (env := test_outside) image_file.
Proof. apply scripted_ok. intros data [= <-]. exists 1, [(5, value_a)]. apply test_image_ok. Qed.

Abbreviation test_daemon := (daemon_start 1%positive 2%positive test_bits 20).
Abbreviation test_step := (sys_step test_ht 9).

Definition test_end : list (sprog unit) * sst :=
  run_system test_ht 9 3000 0 (test_daemon store0).1 (store0, []).

(** What a GET of [k] would find. *)
Definition entry_value (s : kst) (k : Z) : option bytes :=
  match krun (kv_hash_lookup (Some test_ht) k (Some (zeros MAX_VALUE_LEN)) MAX_VALUE_LEN) s with
  | Done (_, Some out) _ => c_str out
  | _ => None
  end.

Lemma test_end_steps : rtc test_step (test_daemon store0) test_end.
Proof. apply run_system_steps. Qed.

Lemma test_end_done : Forall (λ p, is_ret p = true) test_end.1.
Proof. apply (bool_decide_unpack (Forall (λ p, is_ret p = true) test_end.1)). vm_compute. exact I. Qed.

(** [main] has accepted both clients. *)
Lemma test_end_spawns : spawns test_end.2.2 = [(9, 3); (10, 3)].
Proof. vm_compute. reflexivity. Qed.

Lemma test_end_quiet : Forall quiet test_end.1.
Proof. eapply Forall_impl; [exact test_end_done|]. intros p Hp. left. exact Hp. Qed.

(** Both clients insert the key 7, and both are told that it succeeded. *)
Definition test_insert_ok : bytes := op_key (lit "INSERT") (lit "7") ++ lit " succeeded" ++ [LF].

(** Client 9 works on the key 7; client 10 works on 8, and looks at 7. *)
Definition own_commands (fd : Z) : list bytes :=
  if decide (fd = 9) then [lit "AUTH alice secret"; lit "KV_INSERT 7 beta"; lit "KV_GET 7"; lit "KV_DELETE 7"]
  else [lit "AUTH alice secret"; lit "KV_INSERT 8 beta"; lit "KV_GET 7"; lit "KV_DELETE 8"].

Definition own_world : Outside := scripted None own_commands.

Definition own_end : list (sprog unit) * sst :=
  run_system (env := own_world) test_ht 9 3000 0 (test_daemon store0).1 (store0, []).

Lemma own_end_quiet : Forall quiet own_end.1.
Proof.
  apply (Forall_impl (λ p, is_ret p = true)); [|intros p Hp; left; exact Hp].
  apply (bool_decide_unpack (Forall (λ p, is_ret p = true) own_end.1)). vm_compute. exact I.
Qed.

Lemma own_end_spawns : spawns own_end.2.2 = [(9, 3); (10, 3)].
Proof. vm_compute. reflexivity. Qed.

(** The operations that were asked for over a socket, with their keys. *)
Definition asked_keys (fd : Z) (log : list talk) : list (kv_op * Z) :=
  log ≫= λ t, match t with
  | Said fd' msg =>
      if decide (fd' = fd) then
        match request_of (upto_nul msg) true with
        | Operate op key _ => from_option (λ k, [(op, k)]) [] (parse_key key)
        | _ => []
        end
      else []
  | _ => []
  end.

Lemma asked_keys_in fd msg op key value k (log : list talk) :
  Said fd msg ∈ log → request_of (upto_nul msg) true = Operate op key value → parse_key key = Some k →
  (op, k) ∈ asked_keys fd log.
Proof.
  intros Hmsg Hreq Hk. apply list_elem_of_bind. exists (Said fd msg). split; [|done].
  rewrite decide_True, Hreq, Hk by done. by apply list_elem_of_singleton.
Qed.

Lemma own_end_keys :
  Forall (λ x, x.2 = 7) (asked_keys 9 (talks own_end.2.2)) ∧
  Forall (λ x, x.1 = OpGet ∨ x.2 ≠ 7) (asked_keys 10 (talks own_end.2.2)).
Proof.
  assert (asked_keys 9 (talks own_end.2.2) = [(OpInsert, 7); (OpGet, 7); (OpDelete, 7)]) as ->
    by (vm_compute; reflexivity).
  assert (asked_keys 10 (talks own_end.2.2) = [(OpInsert, 8); (OpGet, 7); (OpDelete, 8)]) as ->
    by (vm_compute; reflexivity).
  split; repeat (apply Forall_cons_2; [first [reflexivity | left; reflexivity | right; discriminate]|]);
    apply Forall_nil_2.
Qed.

Lemma own_end_pam : pam_is (λ _ _, true) (talks own_end.2.2).
Proof.
  intros user password ok Hin.
  assert (Forall (λ t, match t with Asked _ _ ok => ok | _ => true end = true) (talks own_end.2.2)) as H.
  { apply (bool_decide_unpack (Forall _ _)). vm_compute. exact I. }
  rewrite Forall_forall in H. exact (H _ Hin).
Qed.

(** The snapshot file could be opened. *)
Definition opened_file (a : answered) : bool :=
  match a with
  | @Answered X e x =>
      match e in dact X return X → bool with FileOpenRead => λ x, bool_decide (x ≠ None) | _ => λ _, false end x
  end.

Lemma nothing_restored (GA : list (nat * answered)) log k v :
  snd <$> GA = log → Forall (λ a, opened_file a = false) log → ¬ restored k v (thread_events 0 GA).
Proof.
  intros <- Hno (data & cap & l & Hin & _). rewrite Forall_forall in Hno.
  apply thread_events_elem in Hin. specialize (Hno (Answered FileOpenRead (Some data))).
  discriminate Hno. apply list_elem_of_fmap. by eexists (0%nat, _).
Qed.

Lemma own_end_no_file : Forall (λ a, opened_file a = false) own_end.2.2.
Proof. apply (bool_decide_unpack (Forall _ _)). vm_compute. exact I. Qed.

(** ** The end of a busy daemon

    A client is still connected when the daemon is told to stop: its thread goes on
    while [main] saves the store. *)

Definition is_send (fd : Z) (a : answered) : bool :=
  match a with @Answered X e _ => match e with Send fd' _ => bool_decide (fd' = fd) | _ => false end end.

(** The client logs in; then comes the signal; its next command arrives a little
    later, and the allocation of [main]'s buffer takes until it is answered. *)
Definition stopping_world : Outside := λ log X e,
  let sent := count_log (is_send 9) log in
  match e in dact X return option X with
  | Recv fd size =>
      let n := count_log (is_recv fd) log in
      if decide (n = 0)%nat then Some (RecvData (take size (lit "AUTH alice secret")))
      else if decide (sent = 0)%nat then None
      else if decide (n < 60)%nat then Some (RecvErr true)
      else if decide (n = 60)%nat then Some (RecvData (take size (lit "KV_INSERT 7 beta")))
      else Some RecvEof
  | Accept _ =>
      if decide (length (spawns log) = 0)%nat then Some (AcceptFd 9)
      else if decide (sent = 0)%nat then None else Some (AcceptErr true)
  | GetShutdownRequested => Some (bool_decide (sent ≠ 0)%nat)
  | Calloc size => if decide (sent = 2)%nat then Some (Some (zeros (Z.to_nat size))) else None
  | e' => scripted None (λ _, []) log _ e'
  end.

Definition stopping_end : list (sprog unit) * sst :=
  run_system (env := stopping_world) test_ht 99 3000 0 (test_daemon store1).1 (store1, []).

Definition file_writes (log : list answered) : list bytes :=
  log ≫= λ a, match a with @Answered X e _ => match e with FileWrite data => [data] | _ => [] end end.

Lemma stopping_world_ok : outside_ok (env := stopping_world) image_file.
Proof.
  intros log X e x Hx.
  destruct e; try done; cbv beta iota zeta delta [outside stopping_world] in Hx; cbn [answer_ok].
  - case_decide; [|done]. injection Hx as <-. by intros buf [= <-].
  - exact (scripted_ok None (λ _, []) ltac:(discriminate) log _ (Malloc _) x Hx).
  - exact (scripted_ok None (λ _, []) ltac:(discriminate) log _ FileOpenRead x Hx).
  - repeat case_decide; try done; injection Hx as <-; try done; rewrite length_take; apply Nat.le_min_l.
Qed.

Lemma file_writes_in data log : data ∈ file_writes log → Answered (FileWrite data) tt ∈ log.
Proof.
  intros ([X e x] & Hd & Ha)%list_elem_of_bind. destruct e; try (by apply not_elem_of_nil in Hd).
  apply list_elem_of_singleton in Hd as ->. by destruct x.
Qed.
