(* ===== verification/HotWorld.v ===== *)
(** * An execution of the benchmark with one key on the daemon

    From the first step to the last: the benchmark's main thread, its writer and its
    nine readers, and the daemon with a thread for each of their connections.

    The answers of the daemon's world come from a rehearsal, in which they are read
    off the network; in the execution itself they are those of the rehearsal. *)

From S2P Require Import Prelude Prog CStr Userland Benchmark UserSpec BenchKeys UserProps HotKey.
From S2P Require Import KvIoctl KMem KvHash KLogic KSound KvHashSpec KvTable KvStore KvTrace.
From S2P Require Import Kvlkm.
From S2P Require Import KvlkmSpec KvDevice KvInterface Daemon DaemonSpec Access System Threads.
From S2P Require Import SavedFile DaemonSystem Instances Worlds HotClients HotRounds Network.
From S2P Require Import HotMoments Executions EndToEnd.

(** ** The two sides *)

(** What the benchmark's threads are answered when neither the network nor what they
    share decides: nothing fails, and the main thread sleeps until every reader may
    have read. *)
Definition calm : whims := λ X e N sh,
  match e in uact X return option X with
  | USocket => Some (10 + Z.of_nat (length (n_conns N)))
  | InetPton _ => Some 1
  | Connect _ => Some 0
  | USend _ data => Some (Z.of_nat (length data))
  | URead fd n =>
      match conn_of (n_user N) fd N with
      | Some (_, c) => if decide (c_reply c = []) then None else Some (Some (take n (c_reply c)))
      | None => Some None
      end
  | GetLine s => Some s
  | TcGetAttr | Clock => Some 0
  | CsvOpen _ => Some true
  | StopLoad => Some (sh_stop sh)
  | CounterLoad c => Some (sh_counters sh c)
  | Sleep _ => if decide (9 <= sh_counters sh Reads ∧ 1 <= sh_counters sh Writes) then Some tt else None
  | UClose _ | UPrint _ | TcSetAttr _ | CsvWrite _ | InitShared | StopStore | CounterAdd _ | Spawn _
  | JoinAll => Some tt
  | UTrap _ => None
  end.

(** What the daemon is told when the network is [N]. *)
Definition network_answer (N : net) : Outside := λ log X e,
  match e in dact X return option X with
  | Recv fd n =>
      match conn_of (n_daemon N) fd N with
      | Some (_, c) =>
          if decide (c_request c = []) then if c_client_gone c then Some RecvEof else None
          else Some (RecvData (take n (c_request c)))
      | None => Some (RecvErr false)
      end
  | Accept _ =>
      if decide (n_accepted N < length (n_conns N))%nat then Some (AcceptFd (20 + Z.of_nat (n_accepted N)))
      else None
  | GetShutdownRequested => Some false
  | Socket => Some 4
  | Send _ data => Some (Z.of_nat (length data))
  | e' => scripted None (λ _, []) log _ e'
  end.

Definition recv_of (a : answered) : option recv_answer :=
  match a with
  | @Answered X e x => match e in dact X return X → option recv_answer with Recv _ _ => Some | _ => λ _, None end x
  end.

Definition accept_of (a : answered) : option accept_answer :=
  match a with
  | @Answered X e x => match e in dact X return X → option accept_answer with Accept _ => Some | _ => λ _, None end x
  end.

(** The answers of [script], each at its place in the log. *)
Definition replayed (script : list answered) : Outside := λ log X e,
  match e in dact X return option X with
  | Recv _ n =>
      a ← script !! length log;
      answer ← recv_of a;
      Some match answer with RecvData data => RecvData (take n data) | _ => answer end
  | Accept _ => a ← script !! length log; accept_of a
  | GetShutdownRequested => Some false
  | Socket => Some 4
  | Send _ data => Some (Z.of_nat (length data))
  | e' => scripted None (λ _, []) log _ e'
  end.

Lemma replayed_ok script : outside_ok (env := replayed script) image_file.
Proof.
  intros log X e x Hx.
  destruct e; try done; cbv beta iota zeta delta [outside replayed] in Hx; cbn [answer_ok].
  - exact (scripted_ok None (λ _, []) ltac:(discriminate) log _ (Calloc _) x Hx).
  - exact (scripted_ok None (λ _, []) ltac:(discriminate) log _ (Malloc _) x Hx).
  - exact (scripted_ok None (λ _, []) ltac:(discriminate) log _ FileOpenRead x Hx).
  - apply bind_Some in Hx as (a & _ & Hx). apply bind_Some in Hx as (answer & _ & Hx). injection Hx as <-.
    destruct answer; [|done..]. rewrite length_take. apply Nat.le_min_l.
Qed.

(** ** The execution *)

Definition hot_user : connection_data := mk_conn_data (lit "alice") (lit "secret") DAEMON_IP_LOCAL.

Definition hot_start : whole := whole_start 1%positive 2%positive test_bits 20 hot_user store0.

(** Every thread in turn. *)
Definition everybody : list (nat + nat * whims) := (inl <$> seq 0 12) ++ ((λ t, inr (t, calm)) <$> seq 0 11).

Definition rehearsal (n : nat) : whole :=
  foldl (λ w who, turn (env := network_answer (w_net w)) test_ht 9 50 hot_user who w) hot_start
    (concat (replicate n everybody)).

Definition hot_script : list answered := Eval vm_compute in (w_daemon (rehearsal 300)).2.2.

Definition hot_outside : Outside := replayed hot_script.

Definition hot_run : whole :=
  turns (env := hot_outside) test_ht 9 50 hot_user (concat (replicate 300 everybody)) hot_start.

Lemma hot_run_done :
  forallb is_ret (w_user hot_run) = true ∧ length (w_user hot_run) = 11%nat ∧
  9 <= sh_counters (w_shared hot_run) Reads ∧ 1 <= sh_counters (w_shared hot_run) Writes.
Proof. vm_compute. repeat split; discriminate. Qed.

Lemma hot_words : words_ok hot_user.
Proof.
  split; [by split; [|repeat constructor]..|]. split_and!; [done| |by apply Nat.leb_le].
  by apply no_nul_dec_true; vm_compute.
Qed.

Lemma hot_world_benign : benign (env := hot_outside) 50 hot_user.
Proof.
  split.
  - exact hot_words.
  - done.
  - apply replayed_ok.
  - by intros log ok [= <-].
  - by intros log data cap l v H.
Qed.
