(* ===== verification/SystemProps.v ===== *)
(** * Properties of the whole daemon on the kernel

    The main thread and the client threads that it starts, each taking its steps on
    the kernel's memory when it likes, in any world that keeps the promises of
    [answer_ok]. *)

From S2P Require Import Prelude Prog Timeline CStr.
From S2P Require Import KvIoctl KMem KvHash KLogic KSound KTyping KvHashSpec.
From S2P Require Import KvTable.
From S2P Require Import KvStore KvLifecycle KvTrace Kvlkm KvlkmSpec KvDevice KvInterface Daemon.
From S2P Require Import DaemonSpec.
From S2P Require Import Access System Threads.
From S2P Require Import SystemSpec Dialogue Isolation SavedFile Spawning Session DaemonSystem.
From S2P Require Import Worlds.
From S2P Require Import Instances Auth DaemonSem DaemonProps.

Section Whole.
Context {ioc_api : IocApi} {ioc_laws : IocLaws ioc_api}.
Context {api : KernelApi} {laws : KernelLaws api} {env : Outside}.
Variables (pb pl : addr) (nbits : Z) (F : heap).
Hypothesis nbits_range : 1 <= nbits <= 31.
Variables (fuel client_fuel : nat).

Abbreviation store := (mk_ht (Some pb) (Some pl) nbits).
Abbreviation step := (sys_step store client_fuel).
Abbreviation daemon_start := (daemon_start pb pl nbits fuel).
Abbreviation daemon_main := (daemon_main fuel).
Abbreviation history := (history nbits).
Abbreviation timeline := (timeline nbits).

(** C6: the daemon, that is its main thread and the client threads its accept
    loop starts, whatever the clients, PAM, the network and the scheduler do at the
    grain of single memory accesses of the kernel, never makes the kernel fault, and
    never dereferences a null pointer or reads past a buffer itself, provided that
    the snapshot file at the start is an image and a buffer for it can be allocated;
    the table's heap stays well typed, and whenever no thread is inside a call the
    table represents a map and nothing else of the kernel's memory is in use. *)
Theorem daemon_system_safe m s c :
  store_rep pb pl nbits F m s → outside_ok image_file → rtc step (daemon_start s) c →
  ¬ pool_faults sexec c ∧ heap_typed pb pl nbits (k_heap c.2.1) ∧
  (Forall quiet c.1 → ∃ m', store_rep pb pl nbits F m' c.2.1).
Proof.
  intros Hrep Henv Hsteps. pose proof Hrep as (L & Hg & _).
  pose proof (daemon_inv pb pl nbits F nbits_range fuel client_fuel _ _ _ Hg Henv Hsteps) as Hp. split_and!.
  - by eapply sys_no_fault.
  - destruct Hp as (GA & ts & L' & H & Hp & _). eapply ginv_typed, pt_ginv, si_table, Hp.
  - intros Hq. destruct (daemon_history pb pl nbits F nbits_range fuel client_fuel m s c Hrep Henv Hsteps Hq)
      as (H & m' & _ & Hrep' & _). by exists m'.
Qed.

(** C5: whenever no thread is inside a call, what the threads have done to the
    store and what they were answered from outside is one sequence, in the order in
    which it happened: its events are atomic steps on a map, from the map at the
    start to the map the table represents now, and its answers are the log; there is
    one thread for [main] and one for every client that [main] has started one for;
    and each thread's own part of the sequence is an execution of its function in
    [daemon.cpp] up to where the thread waits now, in which every [ioctl] is the
    sequence of map events that its command stands for. *)
Theorem daemon_system_refines m s c :
  store_rep pb pl nbits F m s → outside_ok image_file →
  rtc step (daemon_start s) c → Forall quiet c.1 →
  ∃ H m', timeline (length c.1) m m' c.2.2 H ∧ store_rep pb pl nbits F m' c.2.1 ∧
    length c.1 = length (programs client_fuel daemon_main c.2.2) ∧
    ∀ j d, programs client_fuel daemon_main c.2.2 !! j = Some d →
      ∃ q, partial nbits image_file d (thread_events j H) q ∧ at_rest q = true ∧
        c.1 !! j = Some (unfold_calls store q).
Proof. by apply daemon_history. Qed.

(** C14: no thread is ever stuck in the kernel: from every reachable state,
    whatever the scheduler does, and however many threads the accept loop has still
    to start, after finitely many steps every thread has returned, or waits for an
    answer from outside (or has used up the fuel of its loop) and is not inside a
    call, every lock of the table is free, and the table represents a map. *)
Theorem daemon_system_responsive m s c :
  store_rep pb pl nbits F m s → outside_ok image_file → rtc step (daemon_start s) c →
  inevitably step (λ c, Forall quiet c.1 ∧
    k_heap c.2.1 !! pl = Some (OLocks (replicate (nbuckets nbits) (Some false))) ∧
    ∃ m', store_rep pb pl nbits F m' c.2.1) c.
Proof.
  intros Hrep Henv Hsteps. apply (inevitably_reachable _ (λ c, Forall quiet c.1)).
  { intros c' Hc' Hq. assert (rtc step (daemon_start s) c') as Hsteps' by (by etrans).
    destruct (daemon_history pb pl nbits F nbits_range fuel client_fuel m s c' Hrep Henv Hsteps' Hq)
      as (_ & m' & _ & Hrep' & _). split_and!; [exact Hq| |by exists m'].
    exact (rep_unlocked pb pl nbits F m' c'.2.1 Hrep'). }
  destruct Hrep as (L & Hg & _). eapply (sys_inevitable pb pl nbits F image_file); [done| | | |done|by exists L|exact Hsteps].
  - apply safe_then; [by apply safe_main|done].
  - intros x. apply safe_handle_client.
  - intros x. apply client_starts_none.
Qed.

(** C3: the threads of the busy daemon serve the connections that [main] has
    accepted, in that order, with the device that it has opened.  Whenever no thread
    is inside a call, there is one sequence, in the order in which it happened, of
    all the answers from outside and of atomic events on a map, in which the
    conversation of each client is a sequence of rounds: a command received, then
    PAM's opinion if it was asked, or events, then the reply.  The events of a round
    are those of the requested operation on the requested key, and the reply is the
    one that they stand for.  So every command takes effect at one or two moments
    between its receipt and its reply: what a client is told agrees with an order of
    all the commands' effects that keeps the order in real time.  At most one command
    of a connection is still without its reply, and without PAM's consent there is no
    effect. *)
Theorem concurrent_sessions m s c :
  store_rep pb pl nbits F m s → outside_ok image_file →
  rtc step (daemon_start s) c → Forall quiet c.1 →
  started c.2.2 ∧
  ∃ H m', timeline (S (length (spawns c.2.2))) m m' c.2.2 H ∧ store_rep pb pl nbits F m' c.2.1 ∧
    ∀ i fd kv_fd, spawns c.2.2 !! i = Some (fd, kv_fd) →
      ordered_dialogue fd (words (S i) H) ∧
      ((∀ user password, Asked user password true ∉ rights (words (S i) H)) → lefts (words (S i) H) = []).
Proof.
  intros Hrep Henv [GA Hrun]%steps_run Hq.
  destruct (daemon_run_conversations pb pl nbits F nbits_range fuel client_fuel m s GA c Hrep Henv Hrun Hq)
    as (H & m' & Hh & _ & Hrep' & _ & Hstart & Hc & _).
  split; [done|]. exists H, m'. split_and!; [done..|]. intros i fd kv_fd Hi. split; [by eapply Hc|].
  by eapply dialogue_unauthenticated, ordered_dialogue_unordered, Hc.
Qed.

(** C7: a value that a lookup finds in the busy daemon's store was there at the
    start, or the main thread has stored it before and it is in the snapshot file
    that the main thread read, or a client's thread has stored it before, and at that
    time PAM had let this client in and it had sent a KV_INSERT or KV_UPDATE of that
    key with that value. *)
Theorem values_have_authors m s c :
  store_rep pb pl nbits F m s → outside_ok image_file →
  rtc step (daemon_start s) c → Forall quiet c.1 →
  ∃ H m', timeline (S (length (spawns c.2.2))) m m' c.2.2 H ∧ store_rep pb pl nbits F m' c.2.1 ∧
    ∀ before j k v after, H = before ++ (j, inl (ELookup k (Some v))) :: after →
      m !! k = Some v ∨
      ((0%nat, inl (EAdd k v)) ∈ before ∧ restored k v (rights (thread_events 0 H))) ∨
      ∃ i fd kv_fd earlier later, spawns c.2.2 !! i = Some (fd, kv_fd) ∧
        before = earlier ++ (S i, inl (EAdd k v)) :: later ∧ stored_by fd k v (rights (words (S i) earlier)).
Proof.
  intros Hrep Henv [GA Hrun]%steps_run Hq.
  destruct (daemon_run_conversations pb pl nbits F nbits_range fuel client_fuel m s GA c Hrep Henv Hrun Hq)
    as (H & m' & Hh & <- & Hrep' & Hmain & _ & Hc & _).
  exists H, m'. split_and!; [done..|]. intros before j k v after HH.
  pose proof (hi_runs _ _ _ _ _ _ _ Hh) as Hev. rewrite HH, left_part_app, fmap_app in Hev.
  destruct (lookup_event_prefix nbits _ _ _ _ _ _ Hev) as [?|([j' e] & He & Hin)%list_elem_of_fmap]; [by left|].
  simpl in He. subst e. apply elem_left_part in Hin. right.
  destruct j' as [|i].
  { left. split; [done|]. rewrite <- thread_right_part. apply (Hmain (EAdd k v)).
    rewrite thread_left_part, elem_lefts, thread_events_elem, HH. apply elem_of_app. by left. }
  right. destruct (lookup_lt_is_Some_2 (spawns c.2.2) i) as [[fd kv_fd] Hi].
  { apply Nat.succ_lt_mono, (hi_event_tags _ _ _ _ _ _ _ Hh (S i, EAdd k v)).
    rewrite elem_left_part, HH. apply elem_of_app. by left. }
  apply list_elem_of_split in Hin as (earlier & later & ->). exists i, fd, kv_fd, earlier, later.
  split_and!; [done..|]. pose proof (Hc _ _ _ Hi) as Hconv.
  rewrite HH, <- app_assoc, words_app in Hconv. cbn [app] in Hconv. rewrite words_event in Hconv.
  destruct (ordered_dialogue_requested _ _ _ _ Hconv) as [[]|Hq']. by apply requested_add.
Qed.

(** C8: whatever the busy daemon writes to its snapshot file, on a client's
    command or at its end, while other threads change the store, is the image of a
    list of pairs, and none is made up or torn: each was in the store at the start,
    or in the file that [main] read, or a client that PAM has let in has sent it. *)
Theorem saved_pairs_have_authors m s c data :
  store_rep pb pl nbits F m s → outside_ok image_file →
  rtc step (daemon_start s) c → Forall quiet c.1 → Answered (FileWrite data) tt ∈ c.2.2 →
  ∃ GE GA m', history (S (length (spawns c.2.2))) m m' c.2.2 GE GA ∧ store_rep pb pl nbits F m' c.2.1 ∧
    ∃ cap l, snapshot_image cap l data ∧ ∀ k v, (k, v) ∈ l →
      m !! k = Some v ∨ restored k v (thread_events 0 GA) ∨
      ∃ i fd kv_fd, spawns c.2.2 !! i = Some (fd, kv_fd) ∧ stored_by fd k v (talks (thread_events (S i) GA)).
Proof.
  intros Hrep Henv Hsteps Hq Hdata.
  destruct (daemon_conversations pb pl nbits F nbits_range fuel client_fuel m s c Hrep Henv Hsteps Hq) as (GE & GA & m' & Hh & Hrep' & Hmain & _ & Hc & Hs).
  exists GE, GA, m'. split_and!; [done..|]. rewrite <- (hi_log _ _ _ _ _ _ _ Hh) in Hdata.
  apply list_elem_of_fmap in Hdata as ([j a] & Ha & Hin). simpl in Ha. subst a.
  pose proof (hi_log_tags _ _ _ _ _ _ _ Hh _ Hin) as Hj. apply thread_events_elem in Hin.
  destruct (Hs j Hj data Hin) as (cap & l & Himg & Hl). exists cap, l. split; [done|]. intros k v Hkv.
  assert (read_pair (snd <$> GE) k v) as Hread.
  { destruct (Hl k v Hkv) as (i & lb & Hi%thread_events_elem & Hlb). exists i, lb. split; [|done].
    apply list_elem_of_fmap. by exists (j, ERead i lb). }
  destruct (read_pair_source nbits _ _ _ _ _ (hi_runs _ _ _ _ _ _ _ Hh) Hread) as [?|Hadd]; [by left|right].
  apply list_elem_of_fmap in Hadd as ([j' e] & He & Hadd). simpl in He. subst e.
  destruct (add_author nbits _ _ _ _ _ _ _ _ _ Hh eq_refl Hmain Hc Hadd) as [[_ Hr]|(i & fd & kv_fd & _ & Hi & Hst)];
    [by left|]. right. by exists i, fd, kv_fd.
Qed.

(** C4: a client that alone changes the keys it works on sees a store of its own:
    whatever the other clients do to other keys, and however the threads interleave,
    it is told what the reference interpreter answers to the messages it has sent, on
    the map at the start, with at most the last reply still to come; and once it has
    all its replies, the shared store has for its keys the values that the
    interpreter ends with. *)
Theorem private_keys_session m s c :
  ¬ may_fail → store_rep pb pl nbits F m s → outside_ok image_file →
  rtc step (daemon_start s) c → Forall quiet c.1 →
  ∃ GE GA m', history (S (length (spawns c.2.2))) m m' c.2.2 GE GA ∧ store_rep pb pl nbits F m' c.2.1 ∧
    ∀ i fd kv_fd K knows, spawns c.2.2 !! i = Some (fd, kv_fd) →
      let tk j := talks (thread_events j GA) in
      pam_is knows (tk (S i)) → works_on K fd (tk (S i)) →
      (∀ i' fd' kv_fd', spawns c.2.2 !! i' = Some (fd', kv_fd') → i' ≠ i → leaves_alone K fd' (tk (S i'))) →
      (∀ k v, restored k v (thread_events 0 GA) → ¬ K k) →
      let '(texts, m1) := session knows (said (tk (S i))) false m in
      told (tk (S i)) `prefix_of` texts ∧
      (length (said (tk (S i))) <= S (length (told (tk (S i)))))%nat ∧
      (length (said (tk (S i))) = length (told (tk (S i))) → ∀ k, K k → m' !! k = m1 !! k).
Proof.
  intros Hmem Hrep Henv Hsteps Hq.
  destruct (daemon_conversations pb pl nbits F nbits_range fuel client_fuel m s c Hrep Henv Hsteps Hq) as (GE & GA & m' & Hh & Hrep' & Hmain & _ & Hc & _).
  exists GE, GA, m'. split_and!; [done..|]. intros i fd kv_fd K knows Hi tk Hpam Hown Hothers Hfile.
  destruct (own_events nbits K (S i) GE m m' m (hi_runs _ _ _ _ _ _ _ Hh)) as (mi & Hrun & Hm); [done| | |].
  - intros j e Hin Hj. pose proof (hi_event_tags _ _ _ _ _ _ _ Hh _ Hin) as Hlt.
    apply thread_events_elem in Hin. destruct j as [|i'].
    { apply Hmain in Hin. destruct e; simpl in Hin |- *; [tauto|by eapply Hfile|tauto..]. }
    destruct (lookup_lt_is_Some_2 (spawns c.2.2) i') as [[fd' kv'] Hi']; [simpl in Hlt; lia|].
    destruct (dialogue_event _ _ _ _ (Hc _ _ _ Hi') Hin) as [?|Hreq]; [by apply read_changes|].
    eapply requested_changes; [exact Hreq|]. eapply Hothers; [exact Hi'|congruence].
  - intros e Hin%thread_events_elem.
    destruct (dialogue_event _ _ _ _ (Hc _ _ _ Hi) Hin) as [?|Hreq]; [by apply read_within|].
    by eapply requested_within.
  - destruct (dialogue_session Hmem knows _ _ _ _ _ (Hc _ _ _ Hi) Hrun Hpam) as (H1 & H2 & H3).
    destruct (session _ _ _ _) as [texts m1]. split_and!; [done..|].
    intros Hlen k Hk. rewrite (Hm k Hk). by rewrite (H3 Hlen).
Qed.

End Whole.

(** ** Witnesses *)

#[local] Existing Instance test_outside.

Lemma daemon_system_safe_witness :
  Forall (λ p, is_ret p = true) test_end.1 ∧ (∃ m', test_rep m' test_end.2.1) ∧
  entry_value test_end.2.1 7 = Some value_b.
Proof.
  pose proof test_end_done as Hd.
  destruct (daemon_system_safe 1%positive 2%positive test_bits ∅ test_bits_range 20 9
    ∅ store0 test_end store0_rep test_outside_ok test_end_steps) as (_ & _ & H).
  split; [exact Hd|]. split; [|vm_compute; reflexivity].
  apply H. exact test_end_quiet.
Defined.

(** The last of the three threads, at the end. *)
Lemma daemon_system_refines_witness :
  ∃ H m', timeline test_bits 3 ∅ m' test_end.2.2 H ∧ test_rep m' test_end.2.1 ∧
    partial test_bits image_file (handle_client 9 10 3) (thread_events 2 H) (Ret tt).
Proof.
  pose proof test_end_done as Hd.
  destruct (daemon_system_refines 1%positive 2%positive test_bits ∅ test_bits_range 20 9
    ∅ store0 test_end store0_rep test_outside_ok test_end_steps test_end_quiet)
    as (H & m' & H1 & H2 & Hlen & H3).
  assert (programs 9 (daemon_main 20) test_end.2.2 =
    [daemon_main 20; handle_client 9 9 3; handle_client 9 10 3]) as Hp
    by (unfold programs; rewrite test_end_spawns; reflexivity).
  rewrite Hlen, Hp in H1. exists H, m'. split; [exact H1|]. split; [exact H2|].
  destruct (H3 2%nat (handle_client 9 10 3)) as (q & Hq2 & Hrest & Hc); [rewrite Hp; reflexivity|].
  destruct q as [[]|X e k]; [exact Hq2|].
  pose proof (Forall_lookup_1 _ _ _ _ Hd Hc) as Hr. destruct e; first [discriminate Hrest | discriminate Hr].
Defined.

(** In the middle of a call, with a lock held. *)
Definition test_busy : list (sprog unit) * sst :=
  run_system test_ht 9 120 0 (test_daemon store0).1 (store0, []).

Lemma daemon_system_responsive_witness :
  match k_heap test_busy.2.1 !! 2%positive with Some (OLocks ls) => Some true ∈ ls | _ => False end ∧
  inevitably test_step (λ c, Forall quiet c.1 ∧
    k_heap c.2.1 !! 2%positive = Some (OLocks [Some false; Some false]) ∧ ∃ m', test_rep m' c.2.1) test_busy.
Proof.
  split.
  - assert (match k_heap test_busy.2.1 !! 2%positive with
      | Some (OLocks ls) => bool_decide (Some true ∈ ls) | _ => false end = true) as H by (vm_compute; reflexivity).
    destruct (k_heap test_busy.2.1 !! 2%positive) as [[ | |ls| ]|]; try discriminate H.
    exact (bool_decide_eq_true_1 _ H).
  - exact (daemon_system_responsive 1%positive 2%positive test_bits ∅ test_bits_range 20 9
      ∅ store0 _ store0_rep test_outside_ok (run_system_steps test_ht 9 120 0 _ _)).
Defined.

Lemma concurrent_sessions_witness :
  ∃ H m', timeline test_bits 3 ∅ m' test_end.2.2 H ∧ test_rep m' test_end.2.1 ∧
    ordered_dialogue 9 (words 1 H) ∧ ordered_dialogue 10 (words 2 H) ∧
    Told 9 test_insert_ok ∈ talks (snd <$> right_part H) ∧ Told 10 test_insert_ok ∈ talks (snd <$> right_part H).
Proof.
  destruct (concurrent_sessions 1%positive 2%positive test_bits ∅ test_bits_range 20 9
    ∅ store0 test_end store0_rep test_outside_ok test_end_steps test_end_quiet)
    as (_ & H & m' & H1 & H2 & H3).
  rewrite test_end_spawns in H1, H3.
  exists H, m'. split; [exact H1|]. split; [exact H2|].
  split; [apply (H3 0%nat 9 3 eq_refl)|]. split; [apply (H3 1%nat 10 3 eq_refl)|].
  rewrite (hi_log _ _ _ _ _ _ _ H1).
  split; [apply (bool_decide_unpack (Told 9 test_insert_ok ∈ talks test_end.2.2))
         |apply (bool_decide_unpack (Told 10 test_insert_ok ∈ talks test_end.2.2))]; vm_compute; exact I.
Defined.

(** There was no value at the start. *)
Lemma values_have_authors_witness :
  ∃ H m', timeline test_bits 3 ∅ m' test_end.2.2 H ∧ test_rep m' test_end.2.1 ∧
    ∀ before j k v after, H = before ++ (j, inl (ELookup k (Some v))) :: after →
      (0%nat, inl (EAdd k v)) ∈ before ∨
      ∃ i fd earlier later, before = earlier ++ (S i, inl (EAdd k v)) :: later ∧
        stored_by fd k v (rights (words (S i) earlier)).
Proof.
  destruct (values_have_authors 1%positive 2%positive test_bits ∅ test_bits_range 20 9
    ∅ store0 test_end store0_rep test_outside_ok test_end_steps test_end_quiet)
    as (H & m' & H1 & H2 & H3).
  rewrite test_end_spawns in H1.
  exists H, m'. split; [exact H1|]. split; [exact H2|]. intros before j k v after HH.
  destruct (H3 before j k v after HH) as [Hm|[[He _]|(i & fd & kv_fd & earlier & later & _ & Hb & Hs)]];
    [rewrite lookup_empty in Hm; discriminate Hm|left; exact He|right; exists i, fd, earlier, later; split; [exact Hb|exact Hs]].
Defined.

Lemma private_keys_session_witness :
  ∃ GE GA m', history test_bits 3 ∅ m' own_end.2.2 GE GA ∧
    told (talks (thread_events 1 GA)) `prefix_of`
      (session (λ _ _, true) (said (talks (thread_events 1 GA))) false ∅).1.
Proof.
  destruct (private_keys_session (env := own_world) 1%positive 2%positive test_bits ∅ test_bits_range 20 9
    ∅ store0 own_end test_never_fails store0_rep (scripted_ok None own_commands ltac:(discriminate))
    (run_system_steps test_ht 9 3000 0 _ _) own_end_quiet) as (GE & GA & m' & H1 & _ & H2).
  rewrite own_end_spawns in H1, H2. pose proof (hi_log _ _ _ _ _ _ _ H1) as Hlog.
  exists GE, GA, m'. split; [exact H1|].
  assert (∀ j t, t ∈ talks (thread_events j GA) → t ∈ talks own_end.2.2) as Hsub.
  { intros j t Ht. rewrite <- Hlog. exact (talk_in_log j t GA Ht). }
  specialize (H2 0%nat 9 3 (λ k, k = 7) (λ _ _, true) eq_refl).
  cbv zeta beta in H2. destruct (session _ _ _ _) as [texts m1]. apply H2.
  - intros user password ok Hin. exact (own_end_pam user password ok (Hsub _ _ Hin)).
  - intros msg op key value k Hmsg Hreq Hk. apply Hsub in Hmsg.
    apply (asked_keys_in _ _ _ _ _ _ _ Hmsg Hreq) in Hk.
    exact (proj1 (Forall_forall _ _) (proj1 own_end_keys) _ Hk).
  - intros [|[|i']] fd' kv_fd' Hi' Hne; [destruct (Hne eq_refl)| |discriminate Hi'].
    injection Hi' as <- <-. intros msg op key value k Hmsg Hreq Hop Hk. apply Hsub in Hmsg.
    apply (asked_keys_in _ _ _ _ _ _ _ Hmsg Hreq) in Hk.
    destruct (proj1 (Forall_forall _ _) (proj2 own_end_keys) _ Hk) as [?|?]; [contradiction|assumption].
  - intros k v Hr. destruct (nothing_restored GA _ k v Hlog own_end_no_file Hr).
Defined.

(** C15: the daemon can lose the whole store when it is told to stop while a client
    is connected.  The client's thread goes on: its KV_INSERT between the two
    requests of [main]'s last snapshot changes the number of pairs, so that the
    module leaves the buffer as it was; [main] does not notice and overwrites the
    file with an image of no pairs.  The store had a pair at the start and has two at
    the end, and the client was told that its insert succeeded. *)
Theorem stopping_daemon_empties_file :
  ∃ (env : Outside) c data, outside_ok (env := env) image_file ∧
    rtc (sys_step (env := env) test_ht 99) (test_daemon store1) c ∧
    Forall (λ p, is_ret p = true) c.1 ∧ Told 9 test_insert_ok ∈ talks c.2.2 ∧
    entry_value store1 5 = Some value_a ∧
    entry_value c.2.1 5 = Some value_a ∧ entry_value c.2.1 7 = Some value_b ∧
    file_writes c.2.2 = [data] ∧ snapshot_image 1 [] data.
Proof.
  exists stopping_world, stopping_end, (take 16 (snapshot_request 1 1)).
  split; [exact stopping_world_ok|]. split; [apply run_system_steps|].
  split; [apply (bool_decide_unpack (Forall (λ p, is_ret p = true) stopping_end.1)); vm_compute; exact I|].
  split; [apply (bool_decide_unpack (Told 9 test_insert_ok ∈ talks stopping_end.2.2)); vm_compute; exact I|].
  split; [vm_compute; reflexivity|]. split; [vm_compute; reflexivity|]. split; [vm_compute; reflexivity|].
  split; [vm_compute; reflexivity|]. apply request_image. by split.
Qed.

(** The file has the pair that both clients have stored, and the one that was
    restored. *)
Lemma saved_pairs_have_authors_witness :
  ∃ data GE GA m', history test_bits 3 ∅ m' test_end.2.2 GE GA ∧
    ∃ cap l, snapshot_image cap l data ∧ length l = 2%nat ∧ ∀ k v, (k, v) ∈ l →
      restored k v (thread_events 0 GA) ∨ ∃ i fd, stored_by fd k v (talks (thread_events (S i) GA)).
Proof.
  assert (match file_writes test_end.2.2 with d :: _ => snap_count (decode_header d) =? 2 | [] => false end = true)
    as Hw by (vm_compute; reflexivity).
  destruct (file_writes test_end.2.2) as [|data rest] eqn:Hfiles; [discriminate Hw|].
  apply Z.eqb_eq in Hw.
  assert (Answered (FileWrite data) tt ∈ test_end.2.2) as Hdata.
  { apply file_writes_in. rewrite Hfiles. apply elem_of_cons. left. reflexivity. }
  destruct (saved_pairs_have_authors 1%positive 2%positive test_bits ∅ test_bits_range 20 9 ∅ store0 test_end data
    store0_rep test_outside_ok test_end_steps test_end_quiet Hdata)
    as (GE & GA & m' & H1 & _ & cap & l & Himg & Hl).
  rewrite test_end_spawns in H1. exists data, GE, GA, m'. split; [exact H1|]. exists cap, l.
  split; [exact Himg|]. split.
  - pose proof (si_count _ _ _ Himg) as Hc. rewrite Hw in Hc. lia.
  - intros k v Hkv. destruct (Hl k v Hkv) as [Hm|[Hr|(i & fd & kv_fd & _ & Hst)]].
    + rewrite lookup_empty in Hm. discriminate Hm.
    + left. exact Hr.
    + right. exists i, fd. exact Hst.
Defined.
