(* ===== verification/WholeProps.v ===== *)
(** * Properties of the benchmark and the daemon together

    The benchmark's threads, the network, the daemon's threads and the kernel's
    memory, as one system. *)

From S2P Require Import Prelude Prog CStr Userland Benchmark UserSpec BenchKeys UserProps HotKey.
From S2P Require Import KvIoctl KMem KvHash KLogic KSound KvHashSpec KvTable KvStore KvTrace.
From S2P Require Import Kvlkm.
From S2P Require Import KvlkmSpec KvDevice KvInterface Daemon DaemonSpec Access System Threads.
From S2P Require Import SavedFile DaemonSystem Instances Worlds HotClients HotRounds Network.
From S2P Require Import HotMoments Executions EndToEnd HotWorld.

(** C2: [run_concurrent_read_write] on the daemon.  The benchmark's main thread, the
    writer and the readers that it starts, the daemon's main thread, a thread of the
    daemon for every connection and the kernel module's code take their steps in any
    order, down to single memory accesses of the kernel; between them are connections
    that lose nothing.  Suppose that under the key 0 there is at the start a counter,
    or nothing and the kernel has memory; that the snapshot file has nothing but a
    counter under that key; and that PAM lets the benchmark's user in.  Then at every
    moment: nothing has faulted on either side, no read has been counted as empty or
    bad, and where the report says how many there were, it says 0. *)
Theorem hot_benchmark_on_daemon {ioc_api : IocApi} {ioc_laws : IocLaws ioc_api} {api : KernelApi}
    {laws : KernelLaws api} {env : Outside} pb pl nbits F fuel client_fuel bench_fuel conn_data m s w :
  1 <= nbits <= 31 → benign bench_fuel conn_data →
  store_rep pb pl nbits F m s → start_ok m →
  rtc (whole_step (mk_ht (Some pb) (Some pl) nbits) client_fuel bench_fuel conn_data)
    (whole_start pb pl nbits fuel conn_data s) w →
  ¬ pool_faults sexec (w_daemon w) ∧ ¬ user_faults (w_user w) ∧
  sh_counters (w_shared w) EmptyReads = 0 ∧ sh_counters (w_shared w) BadReads = 0 ∧
  ∀ t, Text t ∈ sh_out (w_shared w) →
    (take 13 t = lit "Empty reads: " → t = newline (lit "Empty reads: 0")) ∧
    (take 11 t = lit "Bad reads: " → t = newline (lit "Bad reads: 0")).
Proof.
  intros Hn Hworld Hrep Hstart Hsteps.
  destruct (whole_no_fault pb pl nbits F Hn fuel client_fuel bench_fuel conn_data Hworld m s w Hrep Hstart Hsteps)
    as (Hdaemon & Huser & Hsh). split_and!; [done|done|apply Hsh; by left|apply Hsh; by right|].
  intros t Ht. pose proof (so_out _ Hsh) as Hout. rewrite Forall_forall in Hout. by apply (Hout (Text t)).
Qed.

(** The store was empty.  All eleven threads of the benchmark have returned, having
    read and written, and the report is there. *)
Lemma hot_benchmark_on_daemon_witness :
  forallb is_ret (w_user hot_run) = true ∧ 9 <= sh_counters (w_shared hot_run) Reads ∧
  sh_counters (w_shared hot_run) EmptyReads = 0 ∧ sh_counters (w_shared hot_run) BadReads = 0 ∧
  Text (newline (lit "Empty reads: 0")) ∈ sh_out (w_shared hot_run).
Proof.
  destruct (hot_benchmark_on_daemon (env := hot_outside) 1%positive 2%positive test_bits ∅ 20 9 50 hot_user
    ∅ store0 hot_run test_bits_range hot_world_benign store0_rep) as (_ & _ & H1 & H2 & _).
  - split; [intros v Hv; rewrite lookup_empty in Hv; discriminate Hv|intros Hf; destruct (test_never_fails Hf)].
  - exact (turns_steps (env := hot_outside) test_ht 9 50 hot_user (concat (replicate 300 everybody)) hot_start).
  - split; [exact (proj1 hot_run_done)|]. split; [exact (proj1 (proj2 (proj2 hot_run_done)))|].
    split; [exact H1|]. split; [exact H2|].
    apply (bool_decide_unpack (Text (newline (lit "Empty reads: 0")) ∈ sh_out (w_shared hot_run))). vm_compute. exact I.
Defined.
